(* ===== verification/_CoqProject ===== *)
-Q . S2P
Prelude.v
Externals.v
Instances.v
Error.v
Command.v
CommandProps.v
Streams.v
FileGetTypes.v
Handler.v
HandlerProps.v
StreamInstances.v
Protocol.v
ProtocolProps.v
Behaviour.v
Ledger.v
BehaviourLemmas.v
BehaviourTracking.v
BehaviourRefinement.v
BehaviourProps.v
Links.v
LinksViews.v
LinksInvariant.v
LinksSteps.v
LinksProps.v
NetworkTypes.v
Debug.v
DebugProps.v
EventLoop.v
Network.v
NetworkInstances.v
EventLoopProps.v
System.v
SystemInvariant.v
SystemSteps.v
SystemProps.v
Node.v
NodeProps.v
Transfer.v
TransferProps.v
Prompt.v
Process.v
ProcessInvariant.v
ProcessProps.v
Session.v
SessionProps.v
