(* ===== verification/Prelude.v ===== *)
(** * Verification library of the libp2p file-sharing example

    The repository holds a crate, [libp2p-file-get] ([src/file-get]), that adds
    a request/response protocol for files to libp2p, and an application
    ([src/src]) that lets users register under a name at a rendezvous point,
    list the files they share and fetch them.  This library is a shallow
    embedding of both: every operation of the source that changes state is an
    executable definition, and the theorems are about those definitions.

    ** How the parts of the program interact

    The swarm (libp2p) drives one [FileGet] behaviour ([file-get/src/lib.rs])
    and one [Handler] per connection ([file-get/src/handler.rs]).  The
    behaviour hands requests to handlers, handlers open substreams that run the
    upgrades of [file-get/src/protocol.rs], and report to the behaviour, which
    reports to the event loop ([src/network/mod.rs]).  The event loop also
    takes commands from the [Client] of the prompt ([src/command.rs],
    [src/bin/file-sharing.rs]) and answers them through a channel each.

    ** Files

    - [Prelude.v] (this file): strings, panics ([exec]), [result], [Poll],
      64-bit wrap-around, [VecDeque] with its capacity, vectors.
    - [Externals.v]: the opaque types of libp2p and the classes for iteration
      order, [FuturesUnordered] and the platform; [Streams.v]: byte streams
      and the classes for [tokio::io::copy], length-delimited frames and prost;
      [NetworkTypes.v]: paths and the classes for the file system and the
      libp2p behaviours of the application.  [Instances.v],
      [StreamInstances.v], [NetworkInstances.v]: a concrete instance of every
      class, for the witnesses.
    - [FileGetTypes.v], [Handler.v], [HandlerProps.v]: [handler.rs].
    - [Behaviour.v]: [lib.rs] of the crate, one definition per method of
      [FileGet].  [Ledger.v]: the abstract machine of what [FileGet] promises
      about the requests it is given.  [BehaviourLemmas.v],
      [BehaviourTracking.v], [BehaviourRefinement.v], [BehaviourProps.v]: the
      well-formedness invariant, where a request is tracked, the simulation of
      every operation by the ledger, and the properties.
    - [Links.v], [LinksViews.v], [LinksInvariant.v], [LinksSteps.v],
      [LinksProps.v]: [FileGet] composed with one [Handler] per connection, as
      the swarm composes them: a [Link] is a handler with the substreams it
      asked for and the reports it has made, a [Net] is the behaviour with its
      links.  The handlers are shown to keep the [contract] of the behaviour.
    - [Protocol.v], [ProtocolProps.v]: [protocol.rs] of both crates, [abi.rs].
    - [Error.v], [Command.v], [CommandProps.v]: [error.rs], [command.rs].
    - [EventLoop.v], [EventLoopProps.v]: [EventLoop] of [network/mod.rs] in a
      monad of state, errors and panics; [Network.v]: [Client],
      [new_network], and [handle_input] of the binary.
    - [System.v], [SystemInvariant.v], [SystemSteps.v], [SystemProps.v]: a
      running node: the client, the event loop and the [FileGet] inside its
      swarm as one transition system, with its invariant.
    - [Debug.v], [DebugProps.v]: the [Debug] output of both crates.
    - [Node.v], [NodeProps.v]: the two compositions together: the node with its
      connections and their handlers, in which nothing is assumed of [FileGet].
    - [Transfer.v], [TransferProps.v]: two nodes and the substream between
      them: one [get@] from the command to the file on disk, composed from the
      phases of the requester's and the responder's connection.
    - [Prompt.v]: [main] of the binary.  [Process.v], [ProcessInvariant.v],
      [ProcessProps.v]: the whole program: the prompt and the node as two tasks
      with the channel of commands between them, up to and past the end of the
      event loop.
    - [Session.v], [SessionProps.v]: the program as its user sees it: the
      abstract dialogue of lines and replies, and the runs of the program with
      the lines it has read.

    ** Conventions

    A [u64] is a [Z] with [wrap64] where the source wraps ([fetch_add]).  A
    [HashMap] is a [gmap], a [HashSet] a [gset]; where the source iterates
    over one, the order is an arbitrary permutation ([HashOrder]).  A method
    on [&mut self] returns the new state; [expect], [unwrap], indexing and
    debug assertions are [Panic].  An [Arc] is a location of a [Store].  An
    awaited operation completes, panics or never completes ([async]).  Methods
    of the event loop change a [World]: the loop, the file system and the log
    of what was sent into channels.  Loops over lists are structural; the loops
    that wait for events take the finite list of events that arrive before
    their delay passes, or so far, so that no fuel is needed anywhere.

    ** What is proved

    - [FileGet] refines the ledger; requests are conserved over all runs, each
      having exactly one report unless it is in progress, and responses are
      unique; the functional behaviour of sending, of established connections,
      of handler events and of polling.  The hypotheses on the callers are one predicate,
      [contract]; the composition with the handlers ([Links.v]) shows that they
      keep it, so that there nothing is assumed but the order of the swarm's
      own calls ([Net.enabled]).
    - [Handler]: polling refines a relational specification, drains its queues
      in order; when a keep-alive deadline is set and how long it is in force,
      over all runs; identifiers of inbound requests are distinct across
      handlers.
    - The wire: a whole transfer, the outcome of both upgrades on every branch,
      the round trip of the list-files codec.  The codec's laws follow its
      buffer: a stream that ends between the head of a frame and its payload
      ends without an error.
    - The command language: parsing and printing are inverse, errors are
      characterised.
    - The node: every command is answered at most once, by an answer that fits
      it, or is still pending; the handlers' functional behaviour; the outcome
      of starting up.  With its connections ([Node.v]) no reaction panics, and
      the assumptions of [System.v] on the callers of [FileGet] hold.
    - Two nodes: a [get@] end to end: the command, the dialled connection, both
      upgrades, the responder's file and the answer to the user, all through
      reachable states ([TransferProps.v]).
    - The program refines a dialogue: every line has one reply, which fits it,
      in order; one command is on its way at a time; the prompt panics only
      after the event loop has ended; what is printed determines the response.
    - Defects, stated as theorems about the definitions: directions swapped
      when a connection closes, a cancelled request hiding others, a substream
      accepted too late to keep its connection alive, buffers never shrunk, addresses never used, a failed request hanging the prompt, a
      missing file or a failed command ending the program, absolute names
      leaving the shared directory, files created for unknown users.

    ** What is not modelled, and why

    Logging; the re-exports of the crate roots and the protobuf build scripts;
    the command-line parser of [main]; libp2p, tokio, prost and the operating
    system themselves, which are parameters with documented laws. *)
From stdpp Require Export prelude gmap list numbers fin_maps functions strings.

From Stdlib Require Export ZArith Lia.

Declare Scope rust_scope.
Delimit Scope rust_scope with rust.
Global Open Scope rust_scope.
Global Open Scope Z_scope.

(** ** Strings

    A Rust [String] is a sequence of Unicode scalar values; [str "..."] writes
    an ASCII literal of the source. *)
Abbreviation Str := (list N).

Definition str (s : String.string) : Str := Ascii.N_of_ascii <$> String.list_ascii_of_string s.
Arguments str s%_string_scope.

(** [str::starts_with] *)
Fixpoint starts_with (p s : Str) : bool :=
  match p, s with
  | [], _ => true
  | a :: p', b :: s' => bool_decide (a = b) && starts_with p' s'
  | _ :: _, [] => false
  end.

Lemma starts_with_spec p s : starts_with p s = true <-> exists r, s = p ++ r.
Proof.
  revert s; induction p as [|a p IH]; intros [|b s]; simpl.
  - naive_solver.
  - split; [by eexists|done].
  - split; [done|naive_solver].
  - rewrite andb_true_iff, bool_decide_eq_true, IH. naive_solver.
Qed.

(** ** Execution with panics

    [exec A] is the outcome of a piece of synchronous Rust code: it returns,
    or it panics with the message of the [expect], [unwrap], [panic!] or
    arithmetic check that failed. *)
Inductive exec (A : Type) : Type :=
| Return (a : A)
| Panic (msg : Str).
Arguments Return {_} _.
Arguments Panic {_} _.

#[export] Instance exec_ret : MRet exec := fun _ => Return.
#[export] Instance exec_bind : MBind exec := fun _ _ k m =>
  match m with Return a => k a | Panic msg => Panic msg end.

(** [Option::expect] *)
Definition expect {A} (o : option A) (msg : Str) : exec A :=
  match o with Some a => Return a | None => Panic msg end.

(** [debug_assert!]: checked in builds with debug assertions only. *)
Definition debug_assert (debug_assertions : bool) (b : bool) (msg : Str) : exec unit :=
  if debug_assertions && negb b then Panic msg else Return tt.

Definition returns {A} (m : exec A) : Prop := exists a, m = Return a.

Lemma exec_bind_Return {A B} (m : exec A) (k : A -> exec B) b :
  m ≫= k = Return b <-> exists a, m = Return a /\ k a = Return b.
Proof. destruct m; cbn; naive_solver. Qed.

Lemma expect_Return {A} (o : option A) msg a : expect o msg = Return a <-> o = Some a.
Proof. destruct o; cbn; naive_solver. Qed.

(** [Result] *)
Inductive result (T E : Type) : Type :=
| Ok (t : T)
| Err (e : E).
Arguments Ok {_ _} _.
Arguments Err {_ _} _.

#[export] Instance result_eq_dec `{EqDecision T, EqDecision E} : EqDecision (result T E).
Proof. solve_decision. Defined.

Definition map_err {T E F} (f : E -> F) (r : result T E) : result T F :=
  match r with Ok t => Ok t | Err e => Err (f e) end.

Definition ok_or {T E} (o : option T) (e : E) : result T E :=
  match o with Some t => Ok t | None => Err e end.

#[export] Instance result_ret {E} : MRet (fun T => result T E) := fun _ => Ok.
#[export] Instance result_bind {E} : MBind (fun T => result T E) := fun _ _ k m =>
  match m with Ok a => k a | Err e => Err e end.

(** [Poll] *)
Inductive Poll (A : Type) : Type :=
| Ready (a : A)
| Pending.
Arguments Ready {_} _.
Arguments Pending {_}.

(** ** Machine integers *)
Definition two64 : Z := 2 ^ 64.
Definition wrap64 (z : Z) : Z := z mod two64.

Lemma two64_pos : 0 < two64.
Proof. reflexivity. Qed.

Lemma wrap64_range z : 0 <= wrap64 z < two64.
Proof. apply Z.mod_pos_bound, two64_pos. Qed.

Lemma wrap64_small z : 0 <= z < two64 -> wrap64 z = z.
Proof. apply Z.mod_small. Qed.

Lemma wrap64_add_l a b : wrap64 (wrap64 a + b) = wrap64 (a + b).
Proof. unfold wrap64. by rewrite Zplus_mod_idemp_l. Qed.

Lemma wrap64_inj_range a b :
  wrap64 a = wrap64 b -> Z.abs (a - b) < two64 -> a = b.
Proof.
  unfold wrap64. intros Heq Hlt.
  pose proof (Z.div_mod a two64 ltac:(done)). pose proof (Z.div_mod b two64 ltac:(done)).
  pose proof two64_pos.
  assert (a - b = two64 * (a / two64 - b / two64)) as Hd by lia.
  assert (a / two64 - b / two64 = 0) by nia. nia.
Qed.

(** ** [VecDeque]

    The contents front to back, and the allocated capacity.  A full buffer
    grows by the standard library's amortised policy. *)
Record VecDeque (A : Type) : Type := mkVecDeque {
  vd_items : list A;
  vd_capacity : nat;
}.
Arguments mkVecDeque {_} _ _.
Arguments vd_items {_} _.
Arguments vd_capacity {_} _.

Section VecDeque.
Context {A : Type}.
Implicit Types q : VecDeque A.

Definition vd_new : VecDeque A := mkVecDeque [] 0.

Definition vd_len q : nat := length (vd_items q).

Definition push_back q (x : A) : VecDeque A :=
  mkVecDeque (vd_items q ++ [x])
    (if bool_decide (vd_len q = vd_capacity q)
     then Nat.max 4 (2 * vd_capacity q) else vd_capacity q).

Definition pop_front q : option A * VecDeque A :=
  match vd_items q with
  | [] => (None, q)
  | x :: l => (Some x, mkVecDeque l (vd_capacity q))
  end.

Definition shrink_to_fit q : VecDeque A := mkVecDeque (vd_items q) (vd_len q).

(** [for x in xs { q.push_back(x) }] *)
Definition push_back_all q (xs : list A) : VecDeque A := foldl push_back q xs.

(** The buffer holds the contents. *)
Definition vd_wf q : Prop := (vd_len q <= vd_capacity q)%nat.

Lemma vd_items_push_back q x : vd_items (push_back q x) = vd_items q ++ [x].
Proof. done. Qed.

Lemma vd_items_push_back_all q xs : vd_items (push_back_all q xs) = vd_items q ++ xs.
Proof.
  revert q; induction xs as [|x xs IH]; intros q; simpl; [by rewrite app_nil_r|].
  unfold push_back_all in *. simpl. rewrite IH. simpl. by rewrite <-app_assoc.
Qed.

Lemma vd_items_shrink q : vd_items (shrink_to_fit q) = vd_items q.
Proof. done. Qed.

Lemma vd_wf_push_back q x : vd_wf q -> vd_wf (push_back q x).
Proof.
  unfold vd_wf, vd_len, push_back; simpl. rewrite length_app; simpl.
  intros. case_bool_decide; unfold vd_len in *; lia.
Qed.

Lemma vd_wf_pop_front q : vd_wf q -> vd_wf (pop_front q).2.
Proof.
  unfold vd_wf, vd_len, pop_front. destruct (vd_items q) as [|x l] eqn:E; simpl; rewrite ?E; simpl; lia.
Qed.
End VecDeque.

(** ** Slices and vectors *)

(** [iter_mut().find(p)] followed by a mutation of the element found. *)
Fixpoint update_first {A} (p : A -> bool) (f : A -> A) (l : list A) : list A :=
  match l with
  | [] => []
  | x :: l' => if p x then f x :: l' else x :: update_first p f l'
  end.

(** [iter().find(p)] *)
Fixpoint find_first {A} (p : A -> bool) (l : list A) : option A :=
  match l with
  | [] => None
  | x :: l' => if p x then Some x else find_first p l'
  end.

(** [iter().position(p)] *)
Fixpoint position {A} (p : A -> bool) (l : list A) : option nat :=
  match l with
  | [] => None
  | x :: l' => if p x then Some 0%nat else S <$> position p l'
  end.

(** [Vec::remove(i)]: the element and the rest; [None] stands for the
    out-of-range panic. *)
Definition vec_remove {A} (i : nat) (l : list A) : option (A * list A) :=
  match l !! i with
  | Some x => Some (x, delete i l)
  | None => None
  end.

Lemma filter_all {A} (P : A -> Prop) `{forall x, Decision (P x)} (l : list A) :
  (forall x, x ∈ l -> P x) -> filter P l = l.
Proof.
  induction l as [|x l IH]; intros Hl; [done|].
  rewrite filter_cons_True by (apply Hl; set_solver).
  f_equal. apply IH. set_solver.
Qed.
