(* ===== verification/Externals.v ===== *)
(** * Interfaces of the code that is not part of the repository

    The opaque types of libp2p, [futures] and the operating system the source
    handles but never looks into, and the operations of third-party crates it
    calls, each with the documented behaviour the theorems use as laws of a
    class.  Every class has a concrete instance in [Instances.v]. *)
From S2P Require Import Prelude.

(** Opaque identifiers and handles. *)
Class Ext : Type := {
  PeerId : Type;
  PeerId_eq_dec :: EqDecision PeerId;
  PeerId_countable :: Countable PeerId;
  ConnectionId : Type;
  ConnectionId_eq_dec :: EqDecision ConnectionId;
  Multiaddr : Type;
  Multiaddr_eq_dec :: EqDecision Multiaddr;
  (** [Box<dyn AsyncWrite + Send + Unpin>] and [Box<dyn AsyncRead + ...>] *)
  AsyncWrite : Type;
  AsyncRead : Type;
  (** The two ends of [oneshot::channel::<(RequestId, FileGetMessage)>()]. *)
  ReqSender : Type;
  ReqReceiver : Type;
  ReqReceiver_eq_dec :: EqDecision ReqReceiver;
  (** The two ends of [oneshot::channel::<Box<dyn AsyncRead ...>>()]. *)
  ResSender : Type;
  ResReceiver : Type;
  (** [std::io::Error] and the errors inside [ConnectionHandlerUpgrErr]. *)
  IoError : Type;
  UpgradeError : Type;
  OtherUpgrErr : Type;
  (** [libp2p::swarm::DialError] *)
  DialError : Type;
}.

(** The target the code is compiled for. *)
Class Platform : Type := {
  usize_bits : Z;
  usize_bits_ge : 16 <= usize_bits;
  (** Largest representable [Instant], in nanoseconds. *)
  instant_max : Z;
  (** [cfg!(debug_assertions)] *)
  debug_assertions : bool;
}.

(** [x as usize] *)
Definition as_usize `{Platform} (x : Z) : Z := x mod 2 ^ usize_bits.

(** ** Time: durations and instants in nanoseconds *)
Definition DURATION_MAX : Z := (2 ^ 64 - 1) * 10 ^ 9 + 999999999.

(** [Duration * u32] *)
Definition duration_mul (d n : Z) : exec Z :=
  if bool_decide (d * n <= DURATION_MAX) then Return (d * n)
  else Panic (str "overflow when multiplying duration by scalar").

(** [Instant + Duration] *)
Definition instant_add `{Platform} (t d : Z) : exec Z :=
  if bool_decide (t + d <= instant_max) then Return (t + d)
  else Panic (str "overflow when adding duration to instant").

(** ** Iteration order of [HashMap] and [HashSet]

    The order is unspecified: the theorems hold for every order. *)
Class HashOrder : Type := {
  set_iter {A} `{Countable A} : gset A -> list A;
  set_iter_perm {A} `{Countable A} (X : gset A) : set_iter X ≡ₚ elements X;
  map_iter {K V} `{Countable K} : gmap K V -> list (K * V);
  map_iter_perm {K V} `{Countable K} (m : gmap K V) : map_iter m ≡ₚ map_to_list m;
}.

Section HashOrder.
Context `{HashOrder} {A} `{Countable A}.

Lemma elem_of_set_iter (X : gset A) x : x ∈ set_iter X <-> x ∈ X.
Proof. by rewrite set_iter_perm, elem_of_elements. Qed.

Lemma NoDup_set_iter (X : gset A) : NoDup (set_iter X).
Proof. rewrite set_iter_perm. apply NoDup_elements. Qed.

Lemma elem_of_map_iter {V} (m : gmap A V) k v : (k, v) ∈ map_iter m <-> m !! k = Some v.
Proof. by rewrite map_iter_perm, elem_of_map_to_list. Qed.

Lemma NoDup_map_iter {V} (m : gmap A V) : NoDup (map_iter m).*1.
Proof. rewrite map_iter_perm. apply NoDup_fst_map_to_list. Qed.
End HashOrder.

(** ** [futures::stream::FuturesUnordered]

    A set of futures of type [Fut] that complete with an [Out]; [Env] is the
    state of what the futures wait for. *)
Class FuturesUnordered (Fut Out Env : Type) : Type := {
  fu : Type;
  fu_new : fu;
  fu_push : Fut -> fu -> fu;
  fu_poll_next : Env -> fu -> Poll (option Out) * fu;
  fu_is_empty : fu -> bool;
  (** The futures still in the set. *)
  fu_futures : fu -> list Fut;
}.
Arguments fu : clear implicits.
Arguments fu _ _ _ {_}.

(** Documented behaviour, with [complete env f] the value [f] resolves to. *)
Class FuturesUnorderedLaws (Fut Out Env : Type) `{!FuturesUnordered Fut Out Env}
    (complete : Env -> Fut -> option Out) : Prop := {
  fu_futures_new : fu_futures fu_new = [];
  fu_futures_push f q : fu_futures (fu_push f q) ≡ₚ f :: fu_futures q;
  fu_is_empty_spec q : fu_is_empty q = true <-> fu_futures q = [];
  fu_poll_some env q o q' : fu_poll_next env q = (Ready (Some o), q') ->
    exists f, complete env f = Some o /\ fu_futures q ≡ₚ f :: fu_futures q';
  fu_poll_none env q q' : fu_poll_next env q = (Ready None, q') ->
    fu_futures q = [] /\ fu_futures q' = [];
  fu_poll_pending env q q' : fu_poll_next env q = (Pending, q') ->
    fu_futures q' ≡ₚ fu_futures q;
}.

(** A ready future is found: [FuturesUnordered] polls every future that was
    pushed or woken, so that it is not [Pending] while one of them is complete. *)
Class FuturesUnorderedLive (Fut Out Env : Type) `{!FuturesUnordered Fut Out Env}
    (complete : Env -> Fut -> option Out) : Prop :=
  fu_poll_ready env f o q : complete env f = Some o -> f ∈ fu_futures q ->
    exists o' q', fu_poll_next env q = (Ready (Some o'), q').

(** ** Types of [libp2p-swarm] and [libp2p-core] the source matches on *)
Module ConnectionHandlerUpgrErr.
Inductive t `{Ext} : Type :=
| Timeout
| Upgrade (e : UpgradeError)
| Other (e : OtherUpgrErr).
End ConnectionHandlerUpgrErr.

Module KeepAlive.
Inductive t : Type :=
| Yes
| Until (until : Z)
| No.

Definition is_yes (k : t) : bool := match k with Yes => true | _ => false end.
End KeepAlive.

Module ConnectedPoint.
Inductive t `{Ext} : Type :=
| Dialer (address : Multiaddr)
| Listener.
End ConnectedPoint.
