(* ===== verification/Instances.v ===== *)
(** * Concrete instances of the external interfaces

    One simple implementation of each class of [Externals.v], used by the
    witnesses: identifiers are numbers, a [FuturesUnordered] is the list of
    its futures and yields the first one that is complete, a hash container
    iterates in the order of its canonical enumeration. *)
From S2P Require Import Prelude Externals.

Definition numExt : Ext := {|
  PeerId := Z; ConnectionId := Z; Multiaddr := Z;
  AsyncWrite := Z; AsyncRead := Z;
  ReqSender := Z; ReqReceiver := Z; ResSender := Z; ResReceiver := Z;
  IoError := Z; UpgradeError := Z; OtherUpgrErr := Z; DialError := Z;
|}.

Lemma usize_bits_ge_64 : 16 <= 64.
Proof. lia. Qed.

(** A 64-bit release build. *)
Definition release64 : Platform := {|
  usize_bits := 64; usize_bits_ge := usize_bits_ge_64;
  instant_max := 2 ^ 63 * 10 ^ 9; debug_assertions := false;
|}.

(** A 64-bit build with debug assertions. *)
Definition debug64 : Platform := {|
  usize_bits := 64; usize_bits_ge := usize_bits_ge_64;
  instant_max := 2 ^ 63 * 10 ^ 9; debug_assertions := true;
|}.

Definition canonicalOrder : HashOrder := {|
  set_iter A _ _ X := elements X;
  set_iter_perm A _ _ X := reflexivity _;
  map_iter K V _ _ m := map_to_list m;
  map_iter_perm K V _ _ m := reflexivity _;
|}.

Section list_fu.
Context {Fut Out Env : Type} (complete : Env -> Fut -> option Out).

(** The first complete future and the others. *)
Fixpoint poll_first (env : Env) (q : list Fut) : option (Out * list Fut) :=
  match q with
  | [] => None
  | f :: q' =>
      match complete env f with
      | Some o => Some (o, q')
      | None => match poll_first env q' with
                | Some (o, r) => Some (o, f :: r)
                | None => None
                end
      end
  end.

Definition list_fu : FuturesUnordered Fut Out Env := {|
  fu := list Fut;
  fu_new := [];
  fu_push f q := q ++ [f];
  fu_poll_next env q :=
    match q with
    | [] => (Ready None, [])
    | _ => match poll_first env q with
           | Some (o, r) => (Ready (Some o), r)
           | None => (Pending, q)
           end
    end;
  fu_is_empty q := match q with [] => true | _ => false end;
  fu_futures q := q;
|}.

Lemma poll_first_Some env q o r :
  poll_first env q = Some (o, r) -> exists f, complete env f = Some o /\ q ≡ₚ f :: r.
Proof.
  revert r; induction q as [|f q IH]; intros r; simpl; [done|].
  destruct (complete env f) as [o'|] eqn:E.
  - intros [= <- <-]. by exists f.
  - destruct (poll_first env q) as [[o' r']|]; [|done]. intros [= <- <-].
    destruct (IH _ eq_refl) as (g & Hg & Hp). exists g. split; [done|].
    rewrite Hp. constructor.
Qed.

Lemma list_fu_laws : @FuturesUnorderedLaws Fut Out Env list_fu complete.
Proof.
  split; simpl.
  - done.
  - intros f q. symmetry. apply Permutation_cons_append.
  - by intros [].
  - intros env [|f q] o q'; [done|].
    destruct (poll_first env (f :: q)) as [[o' r]|] eqn:E; [|done].
    intros [= <- <-]. by apply poll_first_Some.
  - intros env [|f q] q'; [by intros [= <-]|]. by destruct (poll_first env (f :: q)) as [[??]|].
  - intros env [|f q] q'; [done|].
    destruct (poll_first env (f :: q)) as [[??]|]; [done|]. by intros [= <-].
Qed.

Lemma poll_first_complete env q f o :
  complete env f = Some o -> f ∈ q -> is_Some (poll_first env q).
Proof.
  intros Ho. induction q as [|g q IH]; intros Hf; [by apply not_elem_of_nil in Hf|]. simpl.
  destruct (complete env g) eqn:E; [done|].
  apply elem_of_cons in Hf as [->|Hf]; [congruence|]. by destruct (IH Hf) as [[? ?] ->].
Qed.

Lemma list_fu_live : @FuturesUnorderedLive Fut Out Env list_fu complete.
Proof.
  intros env f o q Ho Hf. destruct (poll_first_complete env q f o Ho Hf) as [[o' r] Hr].
  exists o', r. simpl. rewrite Hr. destruct q; [by apply not_elem_of_nil in Hf|done].
Qed.
End list_fu.
