(* ===== verification/Error.v ===== *)
(** * The error type of the application ([src/error.rs]) *)
From S2P Require Import Prelude Externals.

(** [enum FileSharingError] *)
Module FileSharingError.
Inductive t `{Ext} : Type :=
| InvalidCommand
| Io (e : IoError)
| DialError (e : Externals.DialError)
| RendezvousPointNotConnected
| NamespaceTooLong
| ListenError (address : Multiaddr)
| UserNotRegistered (user_name : Str).

(** The [#[error]] messages; [debug_io] and [debug_dial] are the [Debug]
    formats of the two wrapped errors. *)
Definition display `{Ext} (debug_io : IoError -> Str) (debug_dial : Externals.DialError -> Str)
    (e : t) : Str :=
  match e with
  | InvalidCommand => str "Invalid command"
  | Io e => str "Io error: " ++ debug_io e
  | DialError e => str "Dial Error : " ++ debug_dial e
  | RendezvousPointNotConnected => str "Cannot connect rendezvous point"
  | NamespaceTooLong => str "Cannot parse rendezvous namespace"
  | ListenError _ => str "Cannot listen on local address"
  | UserNotRegistered user_name => str "User `" ++ user_name ++ str "` is not registered"
  end.
End FileSharingError.
