(* ===== verification/Command.v ===== *)
(** * The command language ([src/command.rs])

    The commands of the prompt and their parser, with the string operations of
    the standard library it uses. *)
From S2P Require Import Prelude Externals Error.

(** ** String operations *)

(** [char::is_whitespace]: the Unicode property White_Space. *)
Definition is_whitespace (c : N) : bool :=
  ((9 <=? c) && (c <=? 13) || (c =? 32) || (c =? 133) || (c =? 160) || (c =? 5760) ||
   (8192 <=? c) && (c <=? 8202) || (c =? 8232) || (c =? 8233) || (c =? 8239) ||
   (c =? 8287) || (c =? 12288))%N.

(** Putting a character in front of the first piece. *)
Definition cons_head (c : N) (l : list Str) : list Str :=
  match l with
  | w :: ws => (c :: w) :: ws
  | [] => [[c]]
  end.

(** [str::split] with a predicate on characters: all pieces, empty ones too. *)
Fixpoint split_by (p : N -> bool) (s : Str) : list Str :=
  match s with
  | [] => [[]]
  | c :: s' => if p c then [] :: split_by p s' else cons_head c (split_by p s')
  end.

Definition nonempty (w : Str) : bool := match w with [] => false | _ => true end.

(** [str::split_whitespace] *)
Definition split_whitespace (s : Str) : list Str :=
  List.filter nonempty (split_by is_whitespace s).

(** [str::split] with a string pattern: the pieces between non-overlapping
    occurrences, left to right; [skip] characters of an occurrence remain to
    be passed over. *)
Fixpoint split_go (pat : Str) (skip : nat) (s : Str) : list Str :=
  match s with
  | [] => [[]]
  | c :: s' =>
      match skip with
      | S k => split_go pat k s'
      | O => if starts_with pat s then [] :: split_go pat (length pat - 1) s'
             else cons_head c (split_go pat 0 s')
      end
  end.

Definition split_str (pat s : Str) : list Str := split_go pat 0 s.

(** ** Commands *)

(** [struct Register], [struct ListFiles], [struct GetFile] *)
Module Register.
Record t : Type := mk { user_name : Str }.
Definition new (user_name : Str) : t := mk user_name.
#[global] Instance register_eq_dec : EqDecision t.
Proof. solve_decision. Defined.
End Register.

Module ListFiles.
Record t : Type := mk { user_name : Str }.
Definition new (user_name : Str) : t := mk user_name.
#[global] Instance list_files_eq_dec : EqDecision t.
Proof. solve_decision. Defined.
End ListFiles.

Module GetFile.
Record t : Type := mk { user_name : Str; file_name : Str }.
Definition new (user_name file_name : Str) : t := mk user_name file_name.
#[global] Instance get_file_eq_dec : EqDecision t.
Proof. solve_decision. Defined.
End GetFile.

(** [enum Command] *)
Module Command.
Inductive t : Type :=
| Register (r : Register.t)
| ListPeers
| ListFiles (l : ListFiles.t)
| GetFile (g : GetFile.t).

#[global] Instance command_eq_dec : EqDecision t.
Proof. solve_decision. Defined.

(** The constructors [Command::new_*]. *)
Definition new_register (user_name : Str) : t := Register (Register.new user_name).
Definition new_list_peers : t := ListPeers.
Definition new_list_files (user_name : Str) : t := ListFiles (ListFiles.new user_name).
Definition new_get_file (user_name file_name : Str) : t := GetFile (GetFile.new user_name file_name).
End Command.

(** [<Command as FromStr>::from_str] *)
Definition from_str `{Ext} (s : Str) : result Command.t FileSharingError.t :=
  match split_whitespace s with
  | [] => Err FileSharingError.InvalidCommand
  | command :: parts =>
      if bool_decide (command = str "register") then
        match parts with
        | [] => Err FileSharingError.InvalidCommand
        | user_name :: _ => Ok (Command.Register (Register.mk user_name))
        end
      else if bool_decide (command = str "ls_peers") then Ok Command.ListPeers
      else if starts_with (str "ls@") command then
        Ok (Command.ListFiles (ListFiles.mk (drop 3 command)))
      else if starts_with (str "get@") command then
        match split_str (str "->") (drop 4 command) with
        | user_name :: file_name :: _ => Ok (Command.GetFile (GetFile.mk user_name file_name))
        | _ => Err FileSharingError.InvalidCommand
        end
      else Err FileSharingError.InvalidCommand
  end.

(** [enum CommandResult] *)
Module CommandResult.
Inductive t : Type :=
| Register
| ListPeers (names : list Str)
| ListFiles (names : list Str)
| GetFile (user_name file_name : Str).
End CommandResult.

(** [struct CommandResponse] *)
Module CommandResponse.
Record t : Type := mk { command_request_id : Z; result : CommandResult.t }.
Definition new (command_request_id : Z) (result : CommandResult.t) : t :=
  mk command_request_id result.
End CommandResponse.
