(* ===== verification/CommandProps.v ===== *)
(** * Properties of the command parser *)
From S2P Require Import Prelude Externals Instances Error Command.

(** [pat] occurs in [s]. *)
Fixpoint occurs (pat s : Str) : bool :=
  starts_with pat s || match s with [] => false | _ :: s' => occurs pat s' end.

(** The separator of [get@] commands. *)
Definition arrow : Str := str "->".

(** No character of [w] is white space. *)
Definition no_whitespace (w : Str) : Prop := Forall (fun c => is_whitespace c = false) w.

Definition no_whitespace_b (w : Str) : bool := forallb (fun c => negb (is_whitespace c)) w.

(** The commands the language can express. *)
Definition wf_command (c : Command.t) : Prop :=
  match c with
  | Command.Register r =>
      no_whitespace (Register.user_name r) /\ Register.user_name r <> []
  | Command.ListPeers => True
  | Command.ListFiles l => no_whitespace (ListFiles.user_name l)
  | Command.GetFile g =>
      no_whitespace (GetFile.user_name g) /\ no_whitespace (GetFile.file_name g) /\
      occurs arrow (GetFile.user_name g) = false /\ occurs arrow (GetFile.file_name g) = false
  end.

(** The text of a command, as the README writes them. *)
Definition render (c : Command.t) : Str :=
  match c with
  | Command.Register r => str "register " ++ Register.user_name r
  | Command.ListPeers => str "ls_peers"
  | Command.ListFiles l => str "ls@" ++ ListFiles.user_name l
  | Command.GetFile g => str "get@" ++ GetFile.user_name g ++ arrow ++ GetFile.file_name g
  end.

Lemma no_whitespace_b_sound w : no_whitespace_b w = true -> no_whitespace w.
Proof.
  unfold no_whitespace_b. rewrite forallb_forall. intros Hw. apply Forall_forall. intros c Hc.
  apply negb_true_iff, Hw. by apply list_elem_of_In.
Qed.

(** ** Splitting at white space *)
Lemma split_by_not_nil p s : split_by p s <> [].
Proof.
  destruct s as [|c s]; simpl; [done|]. destruct (p c); [done|].
  unfold cons_head. by destruct (split_by p s).
Qed.

Lemma split_by_word p w s :
  Forall (fun c => p c = false) w ->
  split_by p (w ++ s) =
  match split_by p s with x :: xs => (w ++ x) :: xs | [] => [w] end.
Proof.
  induction 1 as [|c w Hc Hw IH]; simpl.
  - pose proof (split_by_not_nil p s). by destruct (split_by p s).
  - rewrite Hc, IH. by destruct (split_by p s).
Qed.

Lemma split_by_pieces p s : Forall (Forall (fun c => p c = false)) (split_by p s).
Proof.
  induction s as [|c s IH]; simpl; [by repeat constructor|].
  destruct (p c) eqn:Hc; [by constructor|].
  unfold cons_head. destruct (split_by p s) as [|w ws]; [by repeat constructor|].
  inversion IH; subst. by repeat constructor.
Qed.

Lemma split_whitespace_word w :
  no_whitespace w -> w <> [] -> split_whitespace w = [w].
Proof.
  intros Hw Hne. unfold split_whitespace. rewrite <-(app_nil_r w) at 1.
  rewrite split_by_word by done. simpl. rewrite app_nil_r. by destruct w.
Qed.

Lemma split_whitespace_cons w c s :
  no_whitespace w -> w <> [] -> is_whitespace c = true ->
  split_whitespace (w ++ c :: s) = w :: split_whitespace s.
Proof.
  intros Hw Hne Hc. unfold split_whitespace. rewrite split_by_word by done. simpl.
  rewrite Hc. simpl. rewrite app_nil_r. by destruct w.
Qed.

Lemma split_whitespace_words s :
  Forall (fun w => no_whitespace w /\ w <> []) (split_whitespace s).
Proof.
  unfold split_whitespace. pose proof (split_by_pieces is_whitespace s) as Hp.
  induction Hp as [|w ws Hw Hws IH]; simpl; [constructor|].
  destruct w as [|c w]; simpl; [done|]. by constructor.
Qed.

(** ** Splitting at the arrow *)
Lemma occurs_app_false a b s : occurs a (b ++ s) = false -> occurs a s = false.
Proof. induction b as [|c b IH]; simpl; [done|]. rewrite orb_false_iff. naive_solver. Qed.

Lemma split_go_cons pat c s :
  split_go pat 0 (c :: s) =
    (if starts_with pat (c :: s) then [] :: split_go pat (length pat - 1) s
     else cons_head c (split_go pat 0 s)).
Proof. done. Qed.

Lemma split_go_not_nil pat k s : split_go pat k s <> [].
Proof.
  revert k; induction s as [|c s IH]; intros k; [done|]. destruct k as [|k]; [|apply IH].
  rewrite split_go_cons.
  destruct (starts_with pat (c :: s)); [done|]. unfold cons_head.
  by destruct (split_go pat 0 s).
Qed.

Lemma split_go_none pat s : occurs pat s = false -> split_go pat 0 s = [s].
Proof.
  induction s as [|c s IH]; [done|]. intros [Hs Ho]%orb_false_iff.
  rewrite split_go_cons.
  by rewrite Hs, IH.
Qed.

Lemma split_arrow u f :
  occurs arrow u = false -> split_str arrow (u ++ arrow ++ f) = u :: split_str arrow f.
Proof.
  unfold split_str. induction u as [|c u IH]; [done|]. intros [Hs Ho]%orb_false_iff.
  change (split_go arrow 0 ((c :: u) ++ arrow ++ f)) with
    (if starts_with arrow (c :: u ++ arrow ++ f) then [] :: split_go arrow 1 (u ++ arrow ++ f)
     else cons_head c (split_go arrow 0 (u ++ arrow ++ f))).
  rewrite IH by done. destruct (starts_with arrow (c :: u ++ arrow ++ f)) eqn:E; [|done].
  exfalso. apply starts_with_spec in E as [r Hr].
  destruct u as [|d u]; [by destruct r|]. injection Hr as -> -> _. done.
Qed.

(** An arrow splits off a second piece. *)
Lemma split_go_cons2 pat s :
  occurs pat s = true -> pat <> [] -> exists u f l, split_go pat 0 s = u :: f :: l.
Proof.
  intros Ho Hp. induction s as [|c s IH]; [by destruct pat|].
  rewrite split_go_cons.
  destruct (starts_with pat (c :: s)) eqn:E.
  - pose proof (split_go_not_nil pat (length pat - 1) s).
    destruct (split_go pat (length pat - 1) s) as [|f l]; [done|]. by exists [], f, l.
  - simpl in Ho. rewrite E in Ho. destruct (IH Ho) as (u & f & l & ->). by exists (c :: u), f, l.
Qed.

Lemma split_str_two s :
  occurs arrow s = true -> exists u f l, split_str arrow s = u :: f :: l.
Proof. intros. by apply split_go_cons2. Qed.

(** The first piece begins like the string. *)
Lemma split_go_head pat s w ws :
  split_go pat 0 s = w :: ws -> match w with [] => True | c :: _ => exists s', s = c :: s' end.
Proof.
  destruct s as [|c s]; [by intros [= <- <-]|].
  rewrite split_go_cons.
  destruct (starts_with pat (c :: s)); [by intros [= <- <-]|].
  unfold cons_head. destruct (split_go pat 0 s); intros [= <- <-]; by exists s.
Qed.

Lemma split_go_pieces k s : Forall (fun w => occurs arrow w = false) (split_go arrow k s).
Proof.
  revert k; induction s as [|c s IH]; intros k; [by repeat constructor|].
  destruct k as [|k]; [|apply IH].
  rewrite split_go_cons.
  destruct (starts_with arrow (c :: s)) eqn:E; [constructor; [done|apply IH]|].
  specialize (IH 0%nat). destruct (split_go arrow 0 s) as [|w ws] eqn:Hs; simpl.
  - repeat constructor. simpl. destruct (bool_decide _); done.
  - inversion IH as [|? ? Hw Hws]; subst. constructor; [|done].
    change (starts_with arrow (c :: w) || occurs arrow w = false). rewrite Hw, orb_false_r.
    destruct (starts_with arrow (c :: w)) eqn:E'; [|done].
    apply starts_with_spec in E' as [r Hr]. injection Hr as -> ->.
    apply split_go_head in Hs as [s' ->]. done.
Qed.

Lemma split_go_chars (P : N -> Prop) pat k s :
  Forall P s -> Forall (Forall P) (split_go pat k s).
Proof.
  intros Hs. revert k; induction Hs as [|c s Hc Hs IH]; intros k; [by repeat constructor|].
  destruct k as [|k]; [|apply IH].
  rewrite split_go_cons.
  destruct (starts_with pat (c :: s)); [constructor; [done|apply IH]|].
  specialize (IH 0%nat). destruct (split_go pat 0 s); simpl; [by repeat constructor|].
  inversion IH; subst. by repeat constructor.
Qed.

(** ** The parser on one word *)
Section Parser.
Context `{Ext}.

Lemma no_whitespace_app a b : no_whitespace (a ++ b) <-> no_whitespace a /\ no_whitespace b.
Proof. apply Forall_app. Qed.

Lemma str_no_whitespace_ls : no_whitespace (str "ls@").
Proof. by repeat constructor. Qed.

Lemma str_no_whitespace_get : no_whitespace (str "get@").
Proof. by repeat constructor. Qed.

Lemma arrow_no_whitespace : no_whitespace arrow.
Proof. by repeat constructor. Qed.

Ltac solve_no_whitespace := rewrite !no_whitespace_app; split_and!;
  first [assumption | exact str_no_whitespace_ls | exact str_no_whitespace_get
        | exact arrow_no_whitespace].

Lemma from_str_word w :
  no_whitespace w -> w <> [] ->
  from_str w = (if bool_decide (w = str "register") then Err FileSharingError.InvalidCommand
    else if bool_decide (w = str "ls_peers") then Ok Command.ListPeers
    else if starts_with (str "ls@") w then Ok (Command.ListFiles (ListFiles.mk (drop 3 w)))
    else if starts_with (str "get@") w then
      match split_str (str "->") (drop 4 w) with
      | u :: f :: _ => Ok (Command.GetFile (GetFile.mk u f))
      | _ => Err FileSharingError.InvalidCommand
      end
    else Err FileSharingError.InvalidCommand).
Proof. intros Hw Hne. unfold from_str. by rewrite split_whitespace_word. Qed.

Lemma parse_render c : wf_command c -> from_str (render c) = Ok c.
Proof.
  destruct c as [[u]| |[u]|[u f]]; cbn [wf_command render Register.user_name
    ListFiles.user_name GetFile.user_name GetFile.file_name].
  - intros [Hw Hne]. unfold from_str.
    change (str "register " ++ u) with (str "register" ++ 32%N :: u).
    rewrite split_whitespace_cons by (by repeat constructor).
    by rewrite split_whitespace_word.
  - done.
  - intros Hw. rewrite from_str_word; [done|solve_no_whitespace|done].
  - intros (Hu & Hf & Hou & Hof). rewrite from_str_word; [|solve_no_whitespace|done].
    change (drop 4 (str "get@" ++ u ++ arrow ++ f)) with (u ++ arrow ++ f).
    change (str "->") with arrow. rewrite split_arrow by done. unfold split_str.
    by rewrite split_go_none.
Qed.

Lemma starts_with_drop p w : starts_with p w = true -> w = p ++ drop (length p) w.
Proof. intros [r ->]%starts_with_spec. by rewrite drop_app_length. Qed.

Lemma parse_wf s c : from_str s = Ok c -> wf_command c.
Proof.
  unfold from_str. pose proof (split_whitespace_words s) as Hws.
  destruct (split_whitespace s) as [|w parts]; [done|].
  apply Forall_cons in Hws as [[Hw _] Hparts].
  case_bool_decide; [|case_bool_decide].
  - destruct parts as [|u parts]; [done|]. intros [= <-].
    by apply Forall_cons in Hparts as [? _].
  - by intros [= <-].
  - destruct (starts_with (str "ls@") w) eqn:E1.
    { intros [= <-]. apply starts_with_drop in E1. rewrite E1 in Hw.
      by apply no_whitespace_app in Hw as [_ ?]. }
    destruct (starts_with (str "get@") w) eqn:E2; [|done].
    apply starts_with_drop in E2. rewrite E2 in Hw. apply no_whitespace_app in Hw as [_ Hw].
    change (length (str "get@")) with 4%nat in Hw. change (str "->") with arrow.
    pose proof (split_go_chars _ arrow 0 _ Hw) as Hc.
    pose proof (split_go_pieces 0 (drop 4 w)) as Hp.
    unfold split_str. destruct (split_go arrow 0 (drop 4 w)) as [|u [|f l]]; [done..|].
    intros [= <-]. rewrite !Forall_cons in Hc, Hp. simpl. naive_solver.
Qed.

(** C16: Parsing a command written as in the README gives back the command:
    for every command the language can express (names without white space, a
    non-empty user name to register, no arrow inside the two names of [get@]),
    [from_str] of its text is the command. *)
Theorem parse_render_roundtrip c (Hc : wf_command c) : from_str (render c) = Ok c.
Proof. by apply parse_render. Qed.

(** C33: Whatever text the parser accepts, the command it returns is one the
    language can express, and its canonical text parses to the same command:
    parsing normalises the input. *)
Theorem parse_normalises s c (Hs : from_str s = Ok c) :
  wf_command c /\ from_str (render c) = Ok c.
Proof. split; [by eapply parse_wf|]. by eapply parse_render, parse_wf. Qed.

(** C39: A file name is cut at its first white space and at a further arrow:
    whatever follows, [get@] silently asks for the name up to there, so a file
    whose name contains a space or an arrow, which [ls@] lists, cannot be
    fetched. *)
Theorem get_cuts_file_name u f rest
    (Hu : no_whitespace u) (Hf : no_whitespace f)
    (Hou : occurs arrow u = false) (Hof : occurs arrow f = false) :
  from_str (str "get@" ++ u ++ arrow ++ f ++ 32%N :: rest) =
    Ok (Command.GetFile (GetFile.mk u f)) /\
  (no_whitespace rest ->
   from_str (str "get@" ++ u ++ arrow ++ f ++ arrow ++ rest) =
     Ok (Command.GetFile (GetFile.mk u f))).
Proof.
  split.
  - unfold from_str. rewrite !(assoc_L (++)), split_whitespace_cons; [|solve_no_whitespace|done|done].
    rewrite <-!(assoc_L (++)).
    change (drop 4 (str "get@" ++ u ++ arrow ++ f)) with (u ++ arrow ++ f).
    change (str "->") with arrow. rewrite split_arrow by done. unfold split_str.
    by rewrite split_go_none.
  - intros Hr. rewrite from_str_word; [| |done].
    + change (drop 4 (str "get@" ++ u ++ arrow ++ f ++ arrow ++ rest))
        with (u ++ arrow ++ f ++ arrow ++ rest).
      change (str "->") with arrow. by rewrite !split_arrow by done.
    + solve_no_whitespace.
Qed.

(** The only error of the parser is [InvalidCommand], and it is returned
    exactly for a text without a word, a first word that is none of the four
    forms, [register] without a name and [get@] without an arrow. *)
Theorem parse_errors s e :
  from_str s = Err e <->
  e = FileSharingError.InvalidCommand /\
  (split_whitespace s = [] \/ split_whitespace s = [str "register"] \/
   exists w parts, split_whitespace s = w :: parts /\
     w <> str "register" /\ w <> str "ls_peers" /\ starts_with (str "ls@") w = false /\
     (starts_with (str "get@") w = true -> occurs arrow (drop 4 w) = false)).
Proof.
  unfold from_str. generalize (str "register") (str "ls_peers") (str "ls@") (str "get@").
  intros reg peers ls get. change (str "->") with arrow.
  destruct (split_whitespace s) as [|w parts]; [split; [intros [= <-]; auto|by intros [-> _]]|].
  case_bool_decide as E1; [destruct parts as [|u parts]|].
  - split; [intros [= <-]; subst; auto|by intros [-> _]].
  - split; [done|]. intros [_ [?|[?|(w' & p' & Heq & Hw & _)]]]; [done..|]. congruence.
  - assert (forall c : Command.t,
      (w = peers \/ starts_with ls w = true \/ starts_with get w = true /\ occurs arrow (drop 4 w) = true) ->
      Ok c = Err e <-> e = FileSharingError.InvalidCommand /\ (w :: parts = [] \/ w :: parts = [reg] \/
        exists w' p, w :: parts = w' :: p /\ w' <> reg /\ w' <> peers /\ starts_with ls w' = false /\
          (starts_with get w' = true -> occurs arrow (drop 4 w') = false))) as Hok.
    { intros c Hc. split; [done|]. intros [_ [?|[?|(w' & p' & Heq & _ & H1 & H2 & H3)]]]; [done|congruence|].
      injection Heq as <- <-. destruct Hc as [?|[?|[H4 H5]]]; [congruence..|].
      specialize (H3 H4). congruence. }
    case_bool_decide as E2; [apply Hok; auto|].
    destruct (starts_with ls w) eqn:E3; [apply Hok; auto|].
    destruct (starts_with get w) eqn:E4; [destruct (occurs arrow (drop 4 w)) eqn:E5|].
    + destruct (split_str_two _ E5) as (u & f & l & ->). apply Hok; auto.
    + unfold split_str. rewrite split_go_none by done.
      split; [intros [= <-]|by intros [-> _]]. split; [done|]. right; right.
      exists w, parts. split_and!; auto.
    + split; [intros [= <-]|by intros [-> _]]. split; [done|]. right; right.
      exists w, parts. split_and!; auto. congruence.
Qed.
End Parser.

(** * Witnesses *)
Section CommandWitnesses.
#[local] Existing Instance numExt.

Lemma no_whitespace_user1 : no_whitespace (str "user1").
Proof. apply no_whitespace_b_sound. vm_compute. exact eq_refl. Qed.

Lemma no_whitespace_tmp : no_whitespace (str "tmp").
Proof. apply no_whitespace_b_sound. vm_compute. exact eq_refl. Qed.

Lemma occurs_arrow_user1 : occurs arrow (str "user1") = false.
Proof. vm_compute. exact eq_refl. Qed.

Lemma occurs_arrow_tmp : occurs arrow (str "tmp") = false.
Proof. vm_compute. exact eq_refl. Qed.

Lemma parse_render_roundtrip_witness :
  from_str (render (Command.new_get_file (str "user1") (str "tmp"))) =
    Ok (Command.new_get_file (str "user1") (str "tmp")).
Proof.
  exact (parse_render_roundtrip (Command.new_get_file (str "user1") (str "tmp"))
    (conj no_whitespace_user1 (conj no_whitespace_tmp
      (conj occurs_arrow_user1 occurs_arrow_tmp)))).
Defined.

Lemma from_str_sloppy :
  from_str (str "  get@a->b->c  d") = Ok (Command.new_get_file (str "a") (str "b")).
Proof. vm_compute. exact eq_refl. Qed.

Lemma parse_normalises_witness :
  wf_command (Command.new_get_file (str "a") (str "b")) /\
  from_str (render (Command.new_get_file (str "a") (str "b"))) =
    Ok (Command.new_get_file (str "a") (str "b")).
Proof. exact (parse_normalises (str "  get@a->b->c  d") _ from_str_sloppy). Defined.

Lemma get_cuts_file_name_witness :
  from_str (str "get@" ++ str "user1" ++ arrow ++ str "tmp" ++ 32%N :: str "file.txt") =
    Ok (Command.new_get_file (str "user1") (str "tmp")).
Proof.
  exact (proj1 (get_cuts_file_name (str "user1") (str "tmp") (str "file.txt")
    no_whitespace_user1 no_whitespace_tmp occurs_arrow_user1 occurs_arrow_tmp)).
Defined.
End CommandWitnesses.
