(* ===== verification/Streams.v ===== *)
(** * Byte streams and the crates that read and write them

    What awaiting an operation on a stream comes to, readers and writers as
    their observable behaviour, and the interfaces of [tokio::io::copy], of
    [tokio_util]'s length-delimited frames and of the messages [prost]
    derives, each with its documented behaviour as laws. *)
From S2P Require Import Prelude Externals.
From Stdlib Require Export Strings.Byte.

Abbreviation Bytes := (list byte).

(** ** Awaiting

    An awaited operation completes, panics, or never completes. *)
Inductive async (A : Type) : Type :=
| Done (a : A)
| Panicked (msg : Str)
| Waits.
Arguments Done {_} _.
Arguments Panicked {_} _.
Arguments Waits {_}.

#[export] Instance async_ret : MRet async := fun _ => Done.
#[export] Instance async_bind : MBind async := fun _ _ k m =>
  match m with Done a => k a | Panicked msg => Panicked msg | Waits => Waits end.

(** [op.await?] followed by [k]. *)
Definition await_try {A B E} (m : async (result A E)) (k : A -> async (result B E)) :
    async (result B E) :=
  r ← m; match r with Ok a => k a | Err e => Done (Err e) end.

Section Streams.
Context `{Ext}.

(** ** Readers

    The bytes a reader yields and what comes after them: the end of the
    stream, an error, or nothing ever. *)
Inductive ReaderEnd : Type :=
| Eof
| ReadFails (e : IoError)
| ReadHangs.

Record Reader : Type := mkReader { rd_bytes : Bytes; rd_end : ReaderEnd }.

(** ** Writers

    The bytes in front of the position written at, the bytes from there on (a
    file opened for writing keeps its old contents), and how many more bytes
    are taken before writing fails or blocks. *)
Inductive WriterLimit : Type :=
| Unlimited
| WriteFails (room : nat) (e : IoError)
| WriteHangs (room : nat).

Record Writer : Type := mkWriter {
  wr_before : Bytes;
  wr_after : Bytes;
  wr_limit : WriterLimit;
}.

Definition accepts (w : Writer) (n : nat) : Prop :=
  match wr_limit w with
  | Unlimited => True
  | WriteFails room _ | WriteHangs room => (n <= room)%nat
  end.

(** The writer after [b] was written. *)
Definition write (w : Writer) (b : Bytes) : Writer :=
  mkWriter (wr_before w ++ b) (drop (length b) (wr_after w))
    (match wr_limit w with
     | Unlimited => Unlimited
     | WriteFails room e => WriteFails (room - length b) e
     | WriteHangs room => WriteHangs (room - length b)
     end).

(** All the bytes behind a writer. *)
Definition contents (w : Writer) : Bytes := wr_before w ++ wr_after w.

(** A fresh connection to write to, and a file opened with [write(true)] that
    holds [old]. *)
Definition open_pipe : Writer := mkWriter [] [] Unlimited.
Definition open_file (old : Bytes) : Writer := mkWriter [] old Unlimited.

Lemma write_nil w : write w [] = w.
Proof.
  unfold write. rewrite app_nil_r. simpl. rewrite drop_0.
  destruct w as [b a [|room e|room]]; simpl; by rewrite ?Nat.sub_0_r.
Qed.

Lemma contents_open_file old b :
  contents (write (open_file old) b) = b ++ drop (length b) old.
Proof. done. Qed.

Lemma contents_pipe b : contents (write open_pipe b) = b.
Proof. unfold contents. simpl. by rewrite drop_nil, app_nil_r. Qed.

(** ** [std::io::Error]s *)
Class IoErrors : Type := {
  (** [io::Error::from(ErrorKind::UnexpectedEof)] *)
  UnexpectedEof : IoError;
  (** [prost::EncodeError] and its conversion *)
  EncodeError : Type;
  io_error_of_encode : EncodeError -> IoError;
  DecodeError : Type;
}.

(** ** [tokio::io::copy] *)
Class Tokio : Type := {
  io_copy : Reader -> Writer -> async (result nat IoError) * Writer;
}.

(** Some prefix of what was read is written; it is all of it, up to the end of
    the stream, exactly when the copy succeeds.  An error of the reader is
    passed on. *)
Class TokioLaws `{Tokio} : Prop := {
  copy_prefix r w x w' : io_copy r w = (x, w') ->
    exists k, (k <= length (rd_bytes r))%nat /\ w' = write w (take k (rd_bytes r));
  copy_ok r w n w' : io_copy r w = (Done (Ok n), w') ->
    rd_end r = Eof /\ w' = write w (rd_bytes r);
  copy_eof b w : accepts w (length b) ->
    io_copy (mkReader b Eof) w = (Done (Ok (length b)), write w b);
  copy_fails b e w : accepts w (length b) ->
    (io_copy (mkReader b (ReadFails e)) w).1 = Done (Err e);
  copy_hangs b w : accepts w (length b) -> (io_copy (mkReader b ReadHangs) w).1 = Waits;
  copy_no_panic r w msg : (io_copy r w).1 <> Panicked msg;
}.

(** ** [FramedRead] and [FramedWrite] with [LengthDelimitedCodec::new()] *)
Class Framing : Type := {
  (** [max_frame_length] *)
  frame_max : N;
  (** A frame on the wire: the head gives the length of the payload. *)
  frame_head : N -> Bytes;
  (** A frame that is too long to be sent, or to be received. *)
  frame_too_big : IoError;
  frame_refused : IoError;
  bytes_remaining : IoError;
  (** [SinkExt::send] on a fresh [FramedWrite] *)
  framed_send : Bytes -> Writer -> async (result unit IoError) * Writer;
  (** [StreamExt::next] on a fresh [FramedRead] *)
  framed_next : Reader -> async (option (result Bytes IoError));
}.

Definition frame `{Framing} (b : Bytes) : Bytes := frame_head (N.of_nat (length b)) ++ b.

Class FramingLaws `{Framing} : Prop := {
  send_ok b w : (N.of_nat (length b) <= frame_max)%N -> accepts w (length (frame b)) ->
    framed_send b w = (Done (Ok tt), write w (frame b));
  send_too_big b w : (frame_max < N.of_nat (length b))%N ->
    framed_send b w = (Done (Err frame_too_big), w);
  send_done b w w' : framed_send b w = (Done (Ok tt), w') ->
    (N.of_nat (length b) <= frame_max)%N /\ w' = write w (frame b);
  send_no_panic b w msg : (framed_send b w).1 <> Panicked msg;
  (** A frame is yielded as soon as it is complete, whatever follows it. *)
  next_frame b rest e : (N.of_nat (length b) <= frame_max)%N ->
    framed_next (mkReader (frame b ++ rest) e) = Done (Some (Ok b));
  next_eof : framed_next (mkReader [] Eof) = Done None;
  (** A stream that ends inside a frame.  The codec takes the head off the
      buffer once it is complete, and the end of the stream is an error when
      bytes are left in the buffer: not when it comes between the head and the
      payload. *)
  next_cut_head n p q : (n <= frame_max)%N -> p ++ q = frame_head n -> q <> [] -> p <> [] ->
    framed_next (mkReader p Eof) = Done (Some (Err bytes_remaining));
  next_cut_between (b : Bytes) : (N.of_nat (length b) <= frame_max)%N -> b <> [] ->
    framed_next (mkReader (frame_head (N.of_nat (length b))) Eof) = Done None;
  next_cut_payload (b p q : Bytes) : (N.of_nat (length b) <= frame_max)%N -> p ++ q = b -> q <> [] -> p <> [] ->
    framed_next (mkReader (frame_head (N.of_nat (length b)) ++ p) Eof) = Done (Some (Err bytes_remaining));
  next_fails b p q e : (N.of_nat (length b) <= frame_max)%N -> p ++ q = frame b -> q <> [] ->
    framed_next (mkReader p (ReadFails e)) = Done (Some (Err e));
  next_hangs b p q : (N.of_nat (length b) <= frame_max)%N -> p ++ q = frame b -> q <> [] ->
    framed_next (mkReader p ReadHangs) = Waits;
  (** A head that announces more than is accepted. *)
  next_too_big n rest e : (frame_max < n < 2 ^ 32)%N ->
    framed_next (mkReader (frame_head n ++ rest) e) = Done (Some (Err frame_refused));
  next_no_panic r msg : framed_next r <> Panicked msg;
}.

(** ** [prost::Message] *)
Class Message `{!IoErrors} (M : Type) : Type := {
  encode : M -> result Bytes EncodeError;
  decode : Bytes -> result M DecodeError;
}.

(** A [BytesMut] grows as needed, so that encoding into one cannot fail. *)
Class MessageLaws `{!IoErrors} (M : Type) `{!Message M} : Prop := {
  encode_decode (m : M) : exists b, encode m = Ok b /\ decode b = Ok m;
}.

(** [StreamExt::try_next]: [next] with the error moved out. *)
Definition framed_try_next `{Framing} (r : Reader) : async (result (option Bytes) IoError) :=
  x ← framed_next r;
  Done (match x with
        | None => Ok None
        | Some (Ok b) => Ok (Some b)
        | Some (Err e) => Err e
        end).
End Streams.
