(* ===== verification/FileGetTypes.v ===== *)
(** * Data of the [libp2p-file-get] crate

    The types of [file-get/src/lib.rs], [file_get.rs] and [protocol.rs]:
    request identifiers and their generator, the request message, the events
    and the failures, and the values that describe one upgrade. *)
From S2P Require Import Prelude Externals.

(** [struct RequestId(u64)] *)
Record RequestId : Type := mkRequestId { request_id_0 : Z }.

#[export] Instance RequestId_eq_dec : EqDecision RequestId.
Proof. solve_decision. Defined.
#[export] Instance RequestId_countable : Countable RequestId.
Proof. refine (inj_countable' request_id_0 mkRequestId _). by intros []. Defined.

(** [impl From<u64> for RequestId] *)
Definition RequestId_from (value : Z) : RequestId := mkRequestId value.

(** [struct RequestIdGenerator(AtomicU64)] *)
Module RequestIdGenerator.
Record t : Type := mk { counter : Z }.

Definition new : t := mk 1.

(** [fetch_add(1)] returns the old value and wraps around. *)
Definition next_id (g : t) : RequestId * t :=
  (mkRequestId (counter g), mk (wrap64 (counter g + 1))).

(** [n] successive calls. *)
Fixpoint next_ids (n : nat) (g : t) : list RequestId * t :=
  match n with
  | O => ([], g)
  | S n' => let '(r, g1) := next_id g in let '(rs, g2) := next_ids n' g1 in (r :: rs, g2)
  end.

Definition wf (g : t) : Prop := 0 <= counter g < two64.

Lemma wf_new : wf new.
Proof. unfold wf, new. simpl. unfold two64. lia. Qed.

Lemma wf_next_id g : wf (next_id g).2.
Proof. apply wrap64_range. Qed.

Lemma next_ids_app n m g :
  next_ids (n + m) g =
    let '(rs, g1) := next_ids n g in let '(rs', g2) := next_ids m g1 in (rs ++ rs', g2).
Proof.
  revert g; induction n as [|n IH]; intros g; simpl.
  - by destruct (next_ids m g).
  - rewrite IH. destruct (next_ids n _) as [rs g1]. by destruct (next_ids m g1).
Qed.

Lemma next_ids_lookup n g i :
  wf g -> (i < n)%nat ->
  (next_ids n g).1 !! i = Some (mkRequestId (wrap64 (counter g + Z.of_nat i))).
Proof.
  revert g i; induction n as [|n IH]; intros g i Hg Hi; [lia|]. simpl.
  destruct (next_ids n _) as [rs g2] eqn:E. simpl. destruct i as [|i]; simpl.
  - rewrite Z.add_0_r, wrap64_small by done. done.
  - specialize (IH (next_id g).2 i (wf_next_id g) ltac:(lia)).
    unfold next_id in IH. simpl in IH. rewrite E in IH. simpl in IH.
    rewrite IH, wrap64_add_l. do 3 f_equal. lia.
Qed.

Lemma length_next_ids n g : length (next_ids n g).1 = n.
Proof.
  revert g; induction n as [|n IH]; intros g; [done|]. simpl.
  specialize (IH (mk (wrap64 (counter g + 1)))). destruct (next_ids n _). simpl in *. lia.
Qed.

Lemma NoDup_next_ids n g :
  wf g -> Z.of_nat n <= two64 -> NoDup (next_ids n g).1.
Proof.
  intros Hg Hn. apply NoDup_alt. intros i j r Hi Hj.
  assert (i < n)%nat by (apply lookup_lt_Some in Hi; by rewrite length_next_ids in Hi).
  assert (j < n)%nat by (apply lookup_lt_Some in Hj; by rewrite length_next_ids in Hj).
  rewrite next_ids_lookup in Hi, Hj by done. simplify_eq.
  assert (counter g + Z.of_nat i = counter g + Z.of_nat j); [|lia].
  apply wrap64_inj_range; [congruence|lia].
Qed.
End RequestIdGenerator.

(** ** [Arc<RequestIdGenerator>]

    Clones of an [Arc] share one counter: an [Arc] is a location of a store
    of counters, and [next_id] through any clone changes the shared one. *)
Record Arc : Type := mkArc { arc_loc : positive }.

#[export] Instance Arc_eq_dec : EqDecision Arc.
Proof. solve_decision. Defined.

Abbreviation Store := (Arc -> RequestIdGenerator.t).

Definition arc_next_id (a : Arc) (σ : Store) : RequestId * Store :=
  let '(r, g) := RequestIdGenerator.next_id (σ a) in (r, <[a := g]> σ).

(** ** Messages, failures and events *)

(** [struct FileGetMessage] *)
Record FileGetMessage : Type := mkFileGetMessage { file_name : Str }.

#[export] Instance FileGetMessage_eq_dec : EqDecision FileGetMessage.
Proof. solve_decision. Defined.
#[export] Instance FileGetMessage_countable : Countable FileGetMessage.
Proof. refine (inj_countable' file_name mkFileGetMessage _). by intros []. Defined.

(** [FileGetMessage::new] *)
Definition FileGetMessage_new (file_name : Str) : FileGetMessage := mkFileGetMessage file_name.

Module OutboundFailure.
Inductive t : Type := DialFailure | Timeout | ConnectionClosed | UnsupportedProtocols.
#[export] Instance eq_dec : EqDecision t.
Proof. solve_decision. Defined.
End OutboundFailure.

Module InboundFailure.
Inductive t : Type := Timeout | ConnectionClosed | UnsupportedProtocols | ResponseOmission.
#[export] Instance eq_dec : EqDecision t.
Proof. solve_decision. Defined.
End InboundFailure.

(** [enum FileGetEvent]: what the behaviour tells the application. *)
Module FileGetEvent.
Inductive t `{Ext} : Type :=
| RequestReceived (peer_id : PeerId) (request_id : RequestId)
    (message : FileGetMessage) (res_sender : ResSender)
| ResponseReceived (peer_id : PeerId) (request_id : RequestId)
| ResponseSent (peer_id : PeerId) (request_id : RequestId)
| OutboundFailure (peer_id : PeerId) (request_id : RequestId) (error : OutboundFailure.t)
| InboundFailure (peer_id : PeerId) (request_id : RequestId) (error : InboundFailure.t).
End FileGetEvent.

(** [enum FileGetHandlerEvent]: what a connection handler tells the behaviour. *)
Module FileGetHandlerEvent.
Inductive t `{Ext} : Type :=
| Request (request_id : RequestId) (message : FileGetMessage) (res_sender : ResSender)
| Response (request_id : RequestId)
| ResponseSent (request_id : RequestId)
| ResponseOmission (request_id : RequestId)
| OutboundTimeout (request_id : RequestId)
| OutboundUnsupportedProtocols (request_id : RequestId)
| InboundTimeout (request_id : RequestId)
| InboundUnsupportedProtocols (request_id : RequestId).
End FileGetHandlerEvent.

(** [struct FileGetConfig] *)
Record FileGetConfig : Type := mkFileGetConfig { timeout : Z }.

Definition FileGetConfig_new (timeout : Z) : FileGetConfig := mkFileGetConfig timeout.

(** [struct FileGetOutboundProtocol] *)
Module FileGetOutboundProtocol.
Record t `{Ext} : Type := mk {
  request_id : RequestId;
  file_name : Str;
  file_writer : AsyncWrite;
}.
Arguments mk {_} _ _ _.
End FileGetOutboundProtocol.

(** [struct FileGetInboundProtocol] *)
Module FileGetInboundProtocol.
Record t `{Ext} : Type := mk {
  request_sender : ReqSender;
  response_receiver : ResReceiver;
  request_id : RequestId;
}.
Arguments mk {_} _ _ _.

Definition new `{Ext} (request_sender : ReqSender) (response_receiver : ResReceiver)
    (request_id : RequestId) : t := mk request_sender response_receiver request_id.
End FileGetInboundProtocol.

(** [const EMPTY_QUEUE_SHRINK_THRESHOLD: usize = 100] *)
Definition EMPTY_QUEUE_SHRINK_THRESHOLD : nat := 100.
