(* ===== verification/Handler.v ===== *)
(** * The connection handler ([file-get/src/handler.rs])

    One [Handler] per connection: it queues the requests the behaviour sends
    down, opens a substream for each, offers the inbound protocol to every
    substream the peer opens, and passes the outcomes up as
    [FileGetHandlerEvent]s. *)
From S2P Require Import Prelude Externals FileGetTypes.

(** [futures::channel::oneshot::Canceled] *)
Inductive Canceled : Type := mkCanceled.

(** The future [listen_protocol] pushes: a receiver for the request, mapped to
    carry the sender of the response. *)
Abbreviation InboundFut := (ReqReceiver * ResSender)%type.
Abbreviation InboundOut :=
  (result ((RequestId * FileGetMessage) * ResSender) Canceled).
(** What a receiver yields when polled; [None] while nothing was sent and the
    sender lives. *)
Abbreviation ChanEnv :=
  (ReqReceiver -> option (result (RequestId * FileGetMessage) Canceled)).

Module Handler.
Section Handler.
Context `{Ext, Platform} `{!FuturesUnordered InboundFut InboundOut ChanEnv}.

(** [req_receiver.map_ok(|message| ((message.0, message.1), res_sender))] *)
Definition map_ok_inbound (env : ChanEnv) (f : InboundFut) : option InboundOut :=
  match env f.1 with
  | None => None
  | Some (Ok message) => Some (Ok ((message.1, message.2), f.2))
  | Some (Err c) => Some (Err c)
  end.

(** [struct Handler] *)
Record t : Type := mk {
  timeout : Z;
  inbound_id_generator : Arc;
  keep_alive : KeepAlive.t;
  pending_events : VecDeque FileGetHandlerEvent.t;
  inbound : fu InboundFut InboundOut ChanEnv;
  outbound : VecDeque FileGetOutboundProtocol.t;
  pending_error : option ConnectionHandlerUpgrErr.t;
}.

(** Field assignments. *)
Definition set_keep_alive (k : KeepAlive.t) (h : t) : t :=
  mk (timeout h) (inbound_id_generator h) k (pending_events h) (inbound h) (outbound h)
    (pending_error h).
Definition set_pending_events (q : VecDeque FileGetHandlerEvent.t) (h : t) : t :=
  mk (timeout h) (inbound_id_generator h) (keep_alive h) q (inbound h) (outbound h)
    (pending_error h).
Definition set_inbound (fs : fu InboundFut InboundOut ChanEnv) (h : t) : t :=
  mk (timeout h) (inbound_id_generator h) (keep_alive h) (pending_events h) fs (outbound h)
    (pending_error h).
Definition set_outbound (q : VecDeque FileGetOutboundProtocol.t) (h : t) : t :=
  mk (timeout h) (inbound_id_generator h) (keep_alive h) (pending_events h) (inbound h) q
    (pending_error h).
Definition set_pending_error (e : option ConnectionHandlerUpgrErr.t) (h : t) : t :=
  mk (timeout h) (inbound_id_generator h) (keep_alive h) (pending_events h) (inbound h)
    (outbound h) e.

(** [Handler::new] *)
Definition new (timeout : Z) (inbound_id_generator : Arc) : t :=
  mk timeout inbound_id_generator KeepAlive.Yes vd_new fu_new vd_new None.

(** [self.pending_events.push_back(event)] *)
Definition push_event (event : FileGetHandlerEvent.t) (h : t) : t :=
  set_pending_events (push_back (pending_events h) event) h.

(** [SubstreamProtocol<P, RequestId>] with its timeout *)
Record SubstreamProtocol (P : Type) : Type := mkSubstreamProtocol {
  upgrade : P;
  info : RequestId;
  substream_timeout : Z;
}.

(** [listen_protocol]: [req_chan] and [res_chan] are the channels the two
    calls of [oneshot::channel] return. *)
Definition listen_protocol (req_chan : ReqSender * ReqReceiver)
    (res_chan : ResSender * ResReceiver) (h : t) (σ : Store) :
    SubstreamProtocol FileGetInboundProtocol.t * t * Store :=
  let '(request_id, σ') := arc_next_id (inbound_id_generator h) σ in
  let '(req_sender, req_receiver) := req_chan in
  let '(res_sender, res_receiver) := res_chan in
  let inbound_protocol :=
    FileGetInboundProtocol.new req_sender res_receiver request_id in
  let h' := set_inbound (fu_push (req_receiver, res_sender) (inbound h)) h in
  (mkSubstreamProtocol _ inbound_protocol request_id (timeout h), h', σ').

(** [on_behaviour_event] *)
Definition on_behaviour_event (request : FileGetOutboundProtocol.t) (h : t) : t :=
  let h := set_keep_alive KeepAlive.Yes h in
  set_outbound (push_back (outbound h) request) h.

(** [ConnectionEvent] *)
Inductive ConnectionEvent : Type :=
| FullyNegotiatedInbound (protocol : bool) (info : RequestId)
| FullyNegotiatedOutbound (info : RequestId)
| ListenUpgradeError (error : ConnectionHandlerUpgrErr.t) (info : RequestId)
| DialUpgradeError (error : ConnectionHandlerUpgrErr.t) (info : RequestId)
| AddressChange.

(** [on_connection_event] *)
Definition on_connection_event (event : ConnectionEvent) (h : t) : t :=
  match event with
  | FullyNegotiatedInbound sent request_id =>
      match sent with
      | true => push_event (FileGetHandlerEvent.ResponseSent request_id) h
      | false => push_event (FileGetHandlerEvent.ResponseOmission request_id) h
      end
  | FullyNegotiatedOutbound request_id =>
      push_event (FileGetHandlerEvent.Response request_id) h
  | ListenUpgradeError error request_id =>
      match error with
      | ConnectionHandlerUpgrErr.Timeout =>
          push_event (FileGetHandlerEvent.InboundTimeout request_id) h
      | ConnectionHandlerUpgrErr.Upgrade _ =>
          push_event (FileGetHandlerEvent.InboundUnsupportedProtocols request_id) h
      | _ => set_pending_error (Some error) h
      end
  | DialUpgradeError error request_id =>
      match error with
      | ConnectionHandlerUpgrErr.Timeout =>
          push_event (FileGetHandlerEvent.OutboundTimeout request_id) h
      | ConnectionHandlerUpgrErr.Upgrade _ =>
          push_event (FileGetHandlerEvent.OutboundUnsupportedProtocols request_id) h
      | _ => set_pending_error (Some error) h
      end
  | AddressChange => h
  end.

(** [connection_keep_alive] *)
Definition connection_keep_alive (h : t) : KeepAlive.t := keep_alive h.

(** [ConnectionHandlerEvent] *)
Inductive ConnectionHandlerEvent : Type :=
| Close (error : ConnectionHandlerUpgrErr.t)
| Custom (event : FileGetHandlerEvent.t)
| OutboundSubstreamRequest (protocol : SubstreamProtocol FileGetOutboundProtocol.t).

(** The last part of [poll]: nothing was ready. *)
Definition poll_idle (now : Z) (h : t) : exec (Poll ConnectionHandlerEvent * t) :=
  if fu_is_empty (inbound h) && KeepAlive.is_yes (keep_alive h) then
    d ← duration_mul (timeout h) 2;
    until ← instant_add now d;
    Return (Pending, set_keep_alive (KeepAlive.Until until) h)
  else Return (Pending, h).

(** The middle part of [poll]: the futures of inbound requests. *)
Definition poll_inbound (now : Z) (env : ChanEnv) (h : t) :
    exec (Poll ConnectionHandlerEvent * t) :=
  match fu_poll_next env (inbound h) with
  | (Ready (Some (Ok received)), fs) =>
      let h := set_keep_alive KeepAlive.Yes (set_inbound fs h) in
      Return (Ready (Custom (FileGetHandlerEvent.Request
                received.1.1 received.1.2 received.2)), h)
  | (_, fs) => poll_idle now (set_inbound fs h)
  end.

(** [poll], at the time [now] and with the request channels in state [env]. *)
Definition poll (now : Z) (env : ChanEnv) (h : t) :
    exec (Poll ConnectionHandlerEvent * t) :=
  match pending_error h with
  | Some error => Return (Ready (Close error), set_pending_error None h)
  | None =>
      match pop_front (pending_events h) with
      | (Some event, q) => Return (Ready (Custom event), set_pending_events q h)
      | (None, q) =>
          let h := if bool_decide (EMPTY_QUEUE_SHRINK_THRESHOLD < vd_len q)%nat
                   then set_pending_events (shrink_to_fit q) h else h in
          match pop_front (outbound h) with
          | (Some request, q) =>
              let request_id := FileGetOutboundProtocol.request_id request in
              Return (Ready (OutboundSubstreamRequest
                        (mkSubstreamProtocol _ request request_id (timeout h))),
                      set_outbound q h)
          | (None, q) =>
              let h := if bool_decide (EMPTY_QUEUE_SHRINK_THRESHOLD < vd_len q)%nat
                       then set_outbound (shrink_to_fit q) h else h in
              poll_inbound now env h
          end
      end
  end.
End Handler.
End Handler.
