(* ===== verification/HandlerProps.v ===== *)
(** * Properties of the connection handler

    A relational specification of [Handler.poll] and its consequences: the
    order in which events and requests leave, the uniqueness of inbound identifiers, the treatment of cancelled futures; and the runs of a handler,
    with the life of its keep-alive deadline. *)
From S2P Require Import Prelude Externals Instances FileGetTypes Handler.
Import Handler.

Section HandlerProps.
Context `{Ext, Platform} `{!FuturesUnordered InboundFut InboundOut ChanEnv}.
Implicit Types h : Handler.t.

(** The substream request of a queued outbound request. *)
Definition substream_of (timeout : Z) (request : FileGetOutboundProtocol.t) :
    ConnectionHandlerEvent :=
  OutboundSubstreamRequest
    (mkSubstreamProtocol _ request (FileGetOutboundProtocol.request_id request) timeout).

(** What polling may do, by the first source that has something. *)
Inductive poll_spec (now : Z) (env : ChanEnv) (h : Handler.t) :
    Poll ConnectionHandlerEvent -> Handler.t -> Prop :=
| poll_spec_error error :
    pending_error h = Some error ->
    poll_spec now env h (Ready (Close error)) (set_pending_error None h)
| poll_spec_event event events :
    pending_error h = None ->
    vd_items (pending_events h) = event :: events ->
    poll_spec now env h (Ready (Custom event))
      (set_pending_events (mkVecDeque events (vd_capacity (pending_events h))) h)
| poll_spec_outbound request requests :
    pending_error h = None ->
    vd_items (pending_events h) = [] ->
    vd_items (outbound h) = request :: requests ->
    poll_spec now env h (Ready (substream_of (timeout h) request))
      (set_outbound (mkVecDeque requests (vd_capacity (outbound h))) h)
| poll_spec_request request_id message res_sender fs :
    pending_error h = None ->
    vd_items (pending_events h) = [] ->
    vd_items (outbound h) = [] ->
    fu_poll_next env (inbound h) = (Ready (Some (Ok ((request_id, message), res_sender))), fs) ->
    poll_spec now env h
      (Ready (Custom (FileGetHandlerEvent.Request request_id message res_sender)))
      (set_keep_alive KeepAlive.Yes (set_inbound fs h))
| poll_spec_wind_down o fs :
    pending_error h = None ->
    vd_items (pending_events h) = [] ->
    vd_items (outbound h) = [] ->
    fu_poll_next env (inbound h) = (o, fs) ->
    (forall m, o <> Ready (Some (Ok m))) ->
    fu_is_empty fs = true -> keep_alive h = KeepAlive.Yes ->
    timeout h * 2 <= DURATION_MAX -> now + timeout h * 2 <= instant_max ->
    poll_spec now env h Pending
      (set_keep_alive (KeepAlive.Until (now + timeout h * 2)) (set_inbound fs h))
| poll_spec_pending o fs :
    pending_error h = None ->
    vd_items (pending_events h) = [] ->
    vd_items (outbound h) = [] ->
    fu_poll_next env (inbound h) = (o, fs) ->
    (forall m, o <> Ready (Some (Ok m))) ->
    fu_is_empty fs = false \/ keep_alive h <> KeepAlive.Yes ->
    poll_spec now env h Pending (set_inbound fs h).

(** Successive polls, each at its time and channel state. *)
Fixpoint poll_many (inputs : list (Z * ChanEnv)) (h : Handler.t) :
    exec (list (Poll ConnectionHandlerEvent) * Handler.t) :=
  match inputs with
  | [] => Return ([], h)
  | (now, env) :: inputs' =>
      '(r, h1) ← poll now env h;
      '(rs, h2) ← poll_many inputs' h1;
      Return (r :: rs, h2)
  end.

(** Successive inbound substreams, each offered to a handler with the two
    channels created for it: the identifiers the substreams get. *)
Fixpoint listen_many
    (calls : list (Handler.t * (ReqSender * ReqReceiver) * (ResSender * ResReceiver)))
    (σ : Store) : list RequestId * Store :=
  match calls with
  | [] => ([], σ)
  | (h, req_chan, res_chan) :: calls' =>
      let '(p, _, σ1) := listen_protocol req_chan res_chan h σ in
      let '(ids, σ2) := listen_many calls' σ1 in
      (info _ p :: ids, σ2)
  end.

(** ** Runs of a handler *)

(** What the swarm does with a handler. *)
Inductive HandlerOp : Type :=
| Listen (req_chan : ReqSender * ReqReceiver) (res_chan : ResSender * ResReceiver)
| Notify (request : FileGetOutboundProtocol.t)
| Tell (event : ConnectionEvent)
| PollAt (now : Z) (env : ChanEnv).

(** What it gets back. *)
Inductive Outcome : Type :=
| Listening (protocol : SubstreamProtocol FileGetInboundProtocol.t)
| Notified
| Told
| Polled (r : Poll ConnectionHandlerEvent).

Definition handle (op : HandlerOp) (h : Handler.t) (σ : Store) : exec (Outcome * Handler.t * Store) :=
  match op with
  | Listen req_chan res_chan =>
      let '(p, h, σ) := listen_protocol req_chan res_chan h σ in Return (Listening p, h, σ)
  | Notify request => Return (Notified, on_behaviour_event request h, σ)
  | Tell event => Return (Told, on_connection_event event h, σ)
  | PollAt now env => '(r, h) ← poll now env h; Return (Polled r, h, σ)
  end.

Fixpoint handle_all (ops : list HandlerOp) (h : Handler.t) (σ : Store) :
    exec (list Outcome * Handler.t * Store) :=
  match ops with
  | [] => Return ([], h, σ)
  | op :: ops' =>
      '(o, h, σ) ← handle op h σ;
      '(os, h, σ) ← handle_all ops' h σ;
      Return (o :: os, h, σ)
  end.

(** What makes the handler keep the connection alive: a request of ours, and a
    request of the peer that is passed on. *)
Definition revives (o : Outcome) : bool :=
  match o with
  | Notified | Polled (Ready (Custom (FileGetHandlerEvent.Request _ _ _))) => true
  | _ => false
  end.

(** The poll at [now] that starts the deadline: there is nothing left to do. *)
Definition winds_down (now : Z) (env : ChanEnv) (h h' : Handler.t) : Prop :=
  keep_alive h = KeepAlive.Yes /\ poll now env h = Return (Pending, h') /\
  vd_items (pending_events h') = [] /\ vd_items (outbound h') = [] /\
  fu_is_empty (inbound h') = true.

Lemma is_yes_spec k : KeepAlive.is_yes k = true <-> k = KeepAlive.Yes.
Proof. by destruct k. Qed.

Lemma duration_mul_Return d n r :
  duration_mul d n = Return r <-> r = d * n /\ d * n <= DURATION_MAX.
Proof. unfold duration_mul. case_bool_decide; naive_solver. Qed.

Lemma instant_add_Return d n r :
  instant_add d n = Return r <-> r = d + n /\ d + n <= instant_max.
Proof. unfold instant_add. case_bool_decide; naive_solver. Qed.

(** The two [shrink_to_fit] branches of [poll] are never taken. *)
Lemma poll_unfold now env h :
  poll now env h =
  match pending_error h with
  | Some error => Return (Ready (Close error), set_pending_error None h)
  | None =>
      match vd_items (pending_events h) with
      | event :: events => Return (Ready (Custom event),
          set_pending_events (mkVecDeque events (vd_capacity (pending_events h))) h)
      | [] =>
          match vd_items (outbound h) with
          | request :: requests => Return (Ready (substream_of (timeout h) request),
              set_outbound (mkVecDeque requests (vd_capacity (outbound h))) h)
          | [] => poll_inbound now env h
          end
      end
  end.
Proof.
  unfold poll, pop_front, vd_len. destruct (pending_error h); [done|].
  destruct (vd_items (pending_events h)) as [|e es] eqn:E1; [|done].
  rewrite E1. simpl. destruct (vd_items (outbound h)) as [|r rs] eqn:E2; [|done].
  by rewrite E2.
Qed.

Lemma poll_idle_spec now h r h' :
  poll_idle now h = Return (r, h') <->
  r = Pending /\
  ((fu_is_empty (inbound h) = true /\ keep_alive h = KeepAlive.Yes /\
    timeout h * 2 <= DURATION_MAX /\ now + timeout h * 2 <= instant_max /\
    h' = set_keep_alive (KeepAlive.Until (now + timeout h * 2)) h) \/
   ((fu_is_empty (inbound h) = false \/ keep_alive h <> KeepAlive.Yes) /\ h' = h)).
Proof.
  unfold poll_idle. destruct (fu_is_empty (inbound h)) eqn:E; simpl.
  - destruct (keep_alive h) eqn:K; simpl; try naive_solver.
    rewrite exec_bind_Return. setoid_rewrite exec_bind_Return.
    setoid_rewrite duration_mul_Return. setoid_rewrite instant_add_Return. naive_solver.
  - naive_solver.
Qed.

Lemma poll_refines now env h r h' :
  poll now env h = Return (r, h') <-> poll_spec now env h r h'.
Proof.
  rewrite poll_unfold. split.
  - destruct (pending_error h) as [e|] eqn:E.
    { intros [= <- <-]. by constructor. }
    destruct (vd_items (pending_events h)) as [|ev evs] eqn:E1;
      [|intros [= <- <-]; by constructor].
    destruct (vd_items (outbound h)) as [|rq rqs] eqn:E2;
      [|intros [= <- <-]; by constructor].
    unfold poll_inbound. destruct (fu_poll_next env (inbound h)) as [o fs] eqn:E3.
    assert ((forall m, o <> Ready (Some (Ok m))) \/ exists m, o = Ready (Some (Ok m))) as [Ho|[m ->]].
    { destruct o as [[[]|]|]; naive_solver. }
    + intros Hp. assert (poll_idle now (set_inbound fs h) = Return (r, h')) as Hi.
      { destruct o as [[[]|]|]; naive_solver. }
      apply poll_idle_spec in Hi as [-> [(?&?&?&?&->)|[? ->]]]; simpl in *.
      * by eapply poll_spec_wind_down.
      * by eapply poll_spec_pending.
    + intros [= <- <-]. destruct m as [[] ]. by eapply poll_spec_request.
  - destruct 1 as [e E|ev evs E E1|rq rqs E E1 E2|rid m tx fs E E1 E2 E3
      |o fs E E1 E2 E3 Ho|o fs E E1 E2 E3 Ho]; rewrite E, ?E1, ?E2; try done;
      unfold poll_inbound; rewrite E3; [done| |];
      (assert (forall r, poll_idle now (set_inbound fs h) = r ->
        match o with
        | Ready (Some (Ok received)) => Return (Ready (Custom (FileGetHandlerEvent.Request
            received.1.1 received.1.2 received.2)), set_keep_alive KeepAlive.Yes (set_inbound fs h))
        | _ => poll_idle now (set_inbound fs h) end = r) as Hx
        by (destruct o as [[[]|]|]; naive_solver)); apply Hx, poll_idle_spec; simpl; naive_solver.
Qed.

Lemma poll_event now env h event events :
  pending_error h = None -> vd_items (pending_events h) = event :: events ->
  poll now env h = Return (Ready (Custom event),
    set_pending_events (mkVecDeque events (vd_capacity (pending_events h))) h).
Proof. intros. apply poll_refines. by constructor. Qed.

Lemma poll_outbound now env h request requests :
  pending_error h = None -> vd_items (pending_events h) = [] ->
  vd_items (outbound h) = request :: requests ->
  poll now env h = Return (Ready (substream_of (timeout h) request),
    set_outbound (mkVecDeque requests (vd_capacity (outbound h))) h).
Proof. intros. apply poll_refines. by constructor. Qed.

Lemma poll_many_drains inputs h :
  pending_error h = None ->
  length inputs = (vd_len (pending_events h) + vd_len (outbound h))%nat ->
  exists h',
    poll_many inputs h = Return
      ((Ready ∘ Custom <$> vd_items (pending_events h)) ++
       (Ready ∘ substream_of (timeout h) <$> vd_items (outbound h)), h') /\
    vd_items (pending_events h') = [] /\ vd_items (outbound h') = [] /\
    inbound h' = inbound h /\ keep_alive h' = keep_alive h.
Proof.
  revert h; induction inputs as [|[now env] inputs IH]; intros h He Hlen; unfold vd_len in Hlen;
    simpl in *.
  - destruct (vd_items (pending_events h)) eqn:E1, (vd_items (outbound h)) eqn:E2; try done.
    exists h. naive_solver.
  - destruct (vd_items (pending_events h)) as [|ev evs] eqn:E1; simpl in *.
    + destruct (vd_items (outbound h)) as [|rq rqs] eqn:E2; simpl in *; [lia|].
      rewrite (poll_outbound _ _ _ _ _ He E1 E2). simpl.
      edestruct IH as (h' & -> & ?); [..|exists h'; simpl; rewrite E1; split; [done|by simpl in *]];
        [done|]. unfold vd_len; simpl. rewrite E1. simpl. lia.
    + rewrite (poll_event _ _ _ _ _ He E1). simpl.
      edestruct IH as (h' & -> & ?); [..|exists h'; simpl; split; [done|by simpl in *]]; [done|].
      unfold vd_len; simpl. lia.
Qed.

Lemma listen_many_ids calls σ a :
  Forall (fun c => inbound_id_generator c.1.1 = a) calls ->
  (listen_many calls σ).1 = (RequestIdGenerator.next_ids (length calls) (σ a)).1.
Proof.
  revert σ; induction calls as [|[[h rq] rs] calls IH]; intros σ Ha; [done|].
  apply Forall_cons in Ha as [Hh Ha]. simpl in *. unfold listen_protocol, arc_next_id.
  rewrite Hh. destruct rq, rs. simpl.
  specialize (IH (<[a:=RequestIdGenerator.mk (wrap64 (RequestIdGenerator.counter (σ a) + 1))]> σ) Ha).
  destruct (listen_many calls _) as [ids σ2]. simpl in *. rewrite IH, fn_lookup_insert.
  by destruct (RequestIdGenerator.next_ids (length calls) (RequestIdGenerator.mk _)).
Qed.

(** ** The keep-alive of a run *)
Lemma handle_all_app ops1 ops2 h σ :
  handle_all (ops1 ++ ops2) h σ =
  '(os1, h1, σ1) ← handle_all ops1 h σ;
  '(os2, h2, σ2) ← handle_all ops2 h1 σ1;
  Return (os1 ++ os2, h2, σ2).
Proof.
  revert h σ. induction ops1 as [|op ops1 IH]; intros h σ; simpl.
  - by destruct (handle_all ops2 h σ) as [[[os h'] σ']|].
  - destruct (handle op h σ) as [[[o h1] σ1]|]; [simpl|done]. rewrite IH.
    destruct (handle_all ops1 h1 σ1) as [[[os1 h2] σ2]|]; [simpl|done].
    by destruct (handle_all ops2 h2 σ2) as [[[os2 h3] σ3]|].
Qed.

(** The events in the queue are never requests of the peer. *)
Definition no_request (ev : FileGetHandlerEvent.t) : Prop :=
  match ev with FileGetHandlerEvent.Request _ _ _ => False | _ => True end.

Record handler_ok (T : Z) (h : Handler.t) : Prop := {
  ok_timeout : timeout h = T;
  ok_events : Forall no_request (vd_items (pending_events h));
  ok_alive : keep_alive h <> KeepAlive.No;
  ok_deadline d : keep_alive h = KeepAlive.Until d -> vd_items (outbound h) = [];
}.

Lemma handler_ok_push T ev h : no_request ev -> handler_ok T h -> handler_ok T (push_event ev h).
Proof.
  intros Hev [Ht He Ha Hd]. split; try done. unfold push_event. cbn [pending_events set_pending_events]. rewrite vd_items_push_back, Forall_app. by split; [|constructor].
Qed.

Lemma connection_event_ok T ev h :
  handler_ok T h -> handler_ok T (on_connection_event ev h) /\
    keep_alive (on_connection_event ev h) = keep_alive h.
Proof.
  intros Hok. destruct ev as [[]|i|[]|[]|]; simpl; (split; [|done]); try by apply handler_ok_push.
  all: by destruct Hok.
Qed.

(** One call: the keep-alive is [Yes] after a revival and otherwise stays, but
    for the poll that starts the deadline. *)
Lemma handle_ok T op h σ o h' σ' :
  handler_ok T h -> handle op h σ = Return (o, h', σ') ->
  handler_ok T h' /\
  (if revives o then keep_alive h' = KeepAlive.Yes
   else keep_alive h' = keep_alive h \/
     exists now env, op = PollAt now env /\ winds_down now env h h' /\
       keep_alive h' = KeepAlive.Until (now + T * 2)).
Proof.
  intros Hok. destruct op as [req_chan res_chan|request|ev|now env]; simpl.
  - unfold listen_protocol. destruct (arc_next_id _ σ), req_chan, res_chan. intros [= <- <- <-].
    destruct Hok. split; [by split|]. by left.
  - intros [= <- <- <-]. destruct Hok. by split.
  - intros [= <- <- <-]. destruct (connection_event_ok T ev h Hok). split; [done|]. by left.
  - destruct (poll now env h) as [[r h1]|] eqn:Hpoll; [|done]. intros [= <- <- <-].
    pose proof Hpoll as Hspec. apply poll_refines in Hspec. destruct Hok as [Ht He Ha Hd].
    destruct Hspec as [e Hp|ev evs Hp Hev|rq rqs Hp Hev Hrq|i m tx fs Hp Hev Hrq Hfs
      |o fs Hp Hev Hrq Hfs Ho Hemp Hyes Hdur Hinst|o fs Hp Hev Hrq Hfs Ho Hno]; simpl.
    + split; [by split|]. by left.
    + rewrite Hev in He. apply Forall_cons in He as [Hev1 He]. split; [by split|].
      destruct ev; [done|by left..].
    + split; [split; try done|by left]. intros d Hk. apply Hd in Hk. congruence.
    + split; [by split|done].
    + split; [by split|]. right. exists now, env. subst T. by split_and!.
    + split; [by split|]. by left.
Qed.

Lemma handle_all_ok T ops h σ os h' σ' :
  handler_ok T h -> handle_all ops h σ = Return (os, h', σ') -> handler_ok T h'.
Proof.
  revert h σ os. induction ops as [|op ops IH]; intros h σ os Hok; simpl; [by intros [= _ <- _]|].
  destruct (handle op h σ) as [[[o h1] σ1]|] eqn:Ho; [simpl|done].
  destruct (handle_all ops h1 σ1) as [[[os1 h2] σ2]|] eqn:Hos; [simpl|done]. intros [= _ <- <-].
  apply (IH h1 σ1 os1); [|done]. by eapply handle_ok.
Qed.

(** Nothing but a revival moves a deadline. *)
Lemma handle_all_deadline T ops h σ os h' σ' d :
  handler_ok T h -> keep_alive h = KeepAlive.Until d ->
  handle_all ops h σ = Return (os, h', σ') -> Forall (fun o => revives o = false) os ->
  keep_alive h' = KeepAlive.Until d.
Proof.
  revert h σ os. induction ops as [|op ops IH]; intros h σ os Hok Hk; simpl; [by intros [= _ <- _]|].
  destruct (handle op h σ) as [[[o h1] σ1]|] eqn:Ho; [simpl|done].
  destruct (handle_all ops h1 σ1) as [[[os1 h2] σ2]|] eqn:Hos; [simpl|done]. intros [= <- <- <-].
  intros [Hr Hrs]%Forall_cons. destruct (handle_ok T op h σ o h1 σ1 Hok Ho) as [Hok1 Hk1].
  rewrite Hr in Hk1. apply (IH h1 σ1 os1); [done| |done..].
  destruct Hk1 as [->|(now & env & _ & (Hyes & _) & _)]; [done|congruence].
Qed.

(** The poll a deadline comes from. *)
Lemma deadline_started T ops h0 σ0 os h σ d :
  handler_ok T h0 -> keep_alive h0 = KeepAlive.Yes ->
  handle_all ops h0 σ0 = Return (os, h, σ) -> keep_alive h = KeepAlive.Until d ->
  exists before now env after os1 h1 σ1 h2 os2,
    ops = before ++ PollAt now env :: after /\
    handle_all before h0 σ0 = Return (os1, h1, σ1) /\ winds_down now env h1 h2 /\
    d = now + T * 2 /\ handle_all after h2 σ1 = Return (os2, h, σ) /\
    Forall (fun o => revives o = false) os2.
Proof.
  intros Hok0 Hyes. revert os h σ. induction ops as [|op ops IH] using rev_ind; intros os h σ.
  { simpl. intros [= _ <- _]. congruence. }
  rewrite handle_all_app. destruct (handle_all ops h0 σ0) as [[[os1 h1] σ1]|] eqn:H1; [simpl|done].
  destruct (handle op h1 σ1) as [[[o h2] σ2]|] eqn:H2; [simpl|done]. intros [= _ <- <-] Hk.
  destruct (handle_ok T op h1 σ1 o h2 σ2 (handle_all_ok _ _ _ _ _ _ _ Hok0 H1) H2) as [_ Hk2].
  destruct (revives o) eqn:Hr; [congruence|]. destruct Hk2 as [Hsame|(now & env & -> & Hw & Hu)].
  - rewrite Hk in Hsame. destruct (IH os1 h1 σ1 eq_refl (eq_sym Hsame))
      as (before & now & env & after & os3 & h3 & σ3 & h4 & os4 & -> & Hb & Hw & Hd & Ha & Hn).
    exists before, now, env, (after ++ [op]), os3, h3, σ3, h4, (os4 ++ [o]).
    split_and!; [by rewrite <-(assoc_L (++))|done|done|done| |].
    + rewrite handle_all_app, Ha. simpl. by rewrite H2.
    + apply Forall_app. by split; [|constructor].
  - exists ops, now, env, [], os1, h1, σ1, h2, []. split_and!; try done; [congruence|].
    simpl in *. destruct Hw as (_ & Hp & _). rewrite Hp in H2. by injection H2 as _ <-.
Qed.

Lemma handler_ok_new T a : handler_ok T (Handler.new T a).
Proof. by split; [|constructor|..]. Qed.

(** C17: A connection handler without a pending error delivers, over as many
    polls as it has queued items, all queued events in the order they were
    queued and then one substream request per queued outbound request, in
    order, each carrying the identifier of its request; both queues are then
    empty and the inbound futures are untouched.  No request is dropped,
    duplicated or reordered. *)
Theorem handler_drains_in_order inputs h
    (Herr : pending_error h = None)
    (Hlen : length inputs = (vd_len (pending_events h) + vd_len (outbound h))%nat) :
  exists h',
    poll_many inputs h = Return
      ((Ready ∘ Custom <$> vd_items (pending_events h)) ++
       (Ready ∘ substream_of (timeout h) <$> vd_items (outbound h)), h') /\
    vd_items (pending_events h') = [] /\ vd_items (outbound h') = [] /\
    inbound h' = inbound h /\ keep_alive h' = keep_alive h.
Proof. by apply poll_many_drains. Qed.

(** C28: [Handler::poll] implements its specification exactly: an error closes
    the connection before anything else, then come queued events, then queued
    outbound requests, then a completed inbound request, and only when none
    of these has anything does the handler return [Pending], starting the
    keep-alive deadline when no inbound future is left.  The two directions
    say that nothing else happens and that every case of the specification
    does happen. *)
Theorem handler_poll_refines_spec now env h r h' :
  poll now env h = Return (r, h') <-> poll_spec now env h r h'.
Proof. apply poll_refines. Qed.

(** C29: When a handler lets its connection expire.  In any run of a new handler
    the connection is kept alive until, at a poll that found no queued event, no
    queued request of ours and no inbound future, a deadline of twice the
    substream timeout is set; and the deadline of that poll is in force exactly
    as long as no request of ours has been queued and no request of a peer
    passed on since.  So no request of ours is queued while a deadline is in
    force; but a substream accepted after it was set does not move it, and the
    connection may expire while its request is awaited. *)
Theorem handler_deadline T a σ0 ops os h σ
    (Hrun : handle_all ops (Handler.new T a) σ0 = Return (os, h, σ)) :
  keep_alive h <> KeepAlive.No /\
  (forall d, keep_alive h = KeepAlive.Until d -> vd_items (outbound h) = []) /\
  (forall d, keep_alive h = KeepAlive.Until d <->
    exists before now env after os1 h1 σ1 h2 os2,
      ops = before ++ PollAt now env :: after /\
      handle_all before (Handler.new T a) σ0 = Return (os1, h1, σ1) /\
      winds_down now env h1 h2 /\ d = now + T * 2 /\
      handle_all after h2 σ1 = Return (os2, h, σ) /\
      Forall (fun o => revives o = false) os2).
Proof.
  pose proof (handler_ok_new T a) as Hnew. pose proof (handle_all_ok _ _ _ _ _ _ _ Hnew Hrun) as Hok.
  split; [apply Hok|]. split; [apply Hok|]. intros d. split; [by eapply deadline_started|].
  intros (before & now & env & after & os1 & h1 & σ1 & h2 & os2 & _ & Hb & Hw & -> & Ha & Hn).
  pose proof (handle_all_ok _ _ _ _ _ _ _ Hnew Hb) as Hok1. pose proof Hw as (Hyes & Hp & _ & _ & Hemp).
  assert (handle (PollAt now env) h1 σ1 = Return (Polled Pending, h2, σ1)) as Hh by (simpl; by rewrite Hp).
  destruct (handle_ok T _ _ _ _ _ _ Hok1 Hh) as [Hok2 _].
  apply (handle_all_deadline T after h2 σ1 os2 h σ); try done.
  apply poll_refines in Hp. rewrite <-(ok_timeout _ _ Hok1). inversion Hp; subst; [done|].
  simpl in *. destruct_or?; congruence.
Qed.

(** C30: The identifiers of inbound requests are distinct over all connections:
    handlers that share the generator through clones of one [Arc] give
    successive substreams, in any interleaving, pairwise different
    identifiers, as long as there are at most 2^64 of them. *)
Theorem inbound_ids_distinct calls σ a
    (Hshare : Forall (fun c => inbound_id_generator c.1.1 = a) calls)
    (Hwf : RequestIdGenerator.wf (σ a))
    (Hlen : Z.of_nat (length calls) <= two64) :
  NoDup (listen_many calls σ).1.
Proof.
  rewrite (listen_many_ids _ _ _ Hshare). by apply RequestIdGenerator.NoDup_next_ids.
Qed.

(** C37: When the set of inbound futures yields a cancelled one, [poll] returns
    [Pending] without looking at the rest of the set: a request that has
    already arrived stays there undelivered. *)
Theorem handler_cancelled_hides_request complete
    `{!FuturesUnorderedLaws InboundFut InboundOut ChanEnv complete} now env h fs f m
    (Herr : pending_error h = None)
    (Hev : vd_items (pending_events h) = []) (Hout : vd_items (outbound h) = [])
    (Hpoll : fu_poll_next env (inbound h) = (Ready (Some (Err mkCanceled)), fs))
    (Hf : f ∈ fu_futures fs) (Hready : complete env f = Some (Ok m)) :
  poll now env h = Return (Pending, set_inbound fs h) /\
  f ∈ fu_futures (inbound (set_inbound fs h)).
Proof.
  split; [|done]. apply poll_refines. eapply poll_spec_pending; [done..|naive_solver|].
  left. destruct (fu_is_empty fs) eqn:E; [|done].
  apply fu_is_empty_spec in E. rewrite E in Hf. by apply not_elem_of_nil in Hf.
Qed.

(** The [shrink_to_fit] branches of [Handler::poll] are dead: they test the
    length of a queue that was just found empty, so no poll ever gives memory
    back, however large the buffers have grown. *)
Theorem handler_poll_never_shrinks now env h r h'
    (Hpoll : poll now env h = Return (r, h')) :
  vd_capacity (pending_events h') = vd_capacity (pending_events h) /\
  vd_capacity (outbound h') = vd_capacity (outbound h).
Proof. apply poll_refines in Hpoll. by destruct Hpoll. Qed.
End HandlerProps.

(** * Witnesses *)
Section HandlerWitnesses.
#[local] Existing Instance numExt.
#[local] Existing Instance release64.
#[local] Instance handler_inbound_fu : FuturesUnordered InboundFut InboundOut ChanEnv :=
  list_fu Handler.map_ok_inbound.
#[local] Instance handler_inbound_laws :
  FuturesUnorderedLaws InboundFut InboundOut ChanEnv Handler.map_ok_inbound := list_fu_laws _.

Definition idle : Handler.t := Handler.new 1800 (mkArc 1).
Definition request (n : Z) : FileGetOutboundProtocol.t :=
  FileGetOutboundProtocol.mk (mkRequestId n) (str "a") n.
Definition busy : Handler.t :=
  on_connection_event (FullyNegotiatedOutbound (mkRequestId 1))
    (on_behaviour_event (request 3) (on_behaviour_event (request 2) idle)).
Definition quiet : ChanEnv := fun _ => None.
(** Channel 1 was dropped, channel 2 holds a request. *)
Definition one_cancelled : ChanEnv := fun rx =>
  if rx =? 1 then Some (Err mkCanceled)
  else Some (Ok (mkRequestId 6, FileGetMessage_new (str "a"))).
Definition listening : Handler.t := set_inbound [(1, 1); (2, 2)] idle.

Lemma handler_drains_in_order_witness :
  exists h', poll_many [(0, quiet); (1, quiet); (2, quiet)] busy = Return
    ([Ready (Custom (FileGetHandlerEvent.Response (mkRequestId 1)));
      Ready (substream_of 1800 (request 2)); Ready (substream_of 1800 (request 3))], h').
Proof.
  destruct (handler_drains_in_order [(0, quiet); (1, quiet); (2, quiet)] busy eq_refl eq_refl)
    as (h' & Hp & _).
  exists h'. exact Hp.
Defined.

(** An idle poll, then a substream is accepted, and polled again. *)
Definition late_substream : HandlerOp :=
  Listen ((1 : @ReqSender numExt), (1 : @ReqReceiver numExt)) ((1 : @ResSender numExt), (1 : @ResReceiver numExt)).
Definition late : list HandlerOp := [PollAt 5 quiet; late_substream; PollAt 6 quiet].
Definition one_store : Store := fun _ => RequestIdGenerator.new.

(** The deadline stays, with an inbound future outstanding. *)
Lemma handler_deadline_witness : exists os h σ,
  handle_all late idle one_store = Return (os, h, σ) /\
  keep_alive h = KeepAlive.Until 3605 /\ fu_is_empty (inbound h) = false.
Proof.
  eexists _, _, _. split; [vm_compute; reflexivity|]. split; [|vm_compute; reflexivity].
  refine (proj2 (proj2 (proj2 (handler_deadline 1800 (mkArc 1) one_store late _ _ _ _)) 3605) _).
  - vm_compute. reflexivity.
  - exists [], 5, quiet, [late_substream; PollAt 6 quiet].
    eexists _, _, _, _, _. split; [reflexivity|]. split; [reflexivity|].
    split; [split_and!; vm_compute; reflexivity|]. split; [reflexivity|].
    split; [vm_compute; reflexivity|]. repeat constructor.
Defined.

Lemma inbound_ids_distinct_witness :
  NoDup (listen_many [(idle, (1, 1), (1, 1)); (busy, (2, 2), (2, 2)); (idle, (3, 3), (3, 3))]
    (fun _ => RequestIdGenerator.new)).1.
Proof.
  apply (inbound_ids_distinct _ _ (mkArc 1)).
  - repeat constructor.
  - apply RequestIdGenerator.wf_new.
  - vm_compute. discriminate.
Defined.

Lemma handler_cancelled_hides_request_witness :
  poll 5 one_cancelled listening = Return (Pending, set_inbound [(2, 2)] listening).
Proof.
  refine (proj1 (handler_cancelled_hides_request Handler.map_ok_inbound 5 one_cancelled listening
    [(2, 2)] (2, 2) _ eq_refl eq_refl eq_refl eq_refl _ eq_refl)).
  by apply list_elem_of_singleton.
Defined.

Lemma handler_poll_never_shrinks_witness :
  exists r h', poll 5 quiet busy = Return (r, h') /\
    vd_capacity (pending_events h') = vd_capacity (pending_events busy).
Proof.
  eexists _, _. split; [vm_compute; reflexivity|].
  refine (proj1 (handler_poll_never_shrinks 5 quiet busy _ _ _)). vm_compute. reflexivity.
Defined.
End HandlerWitnesses.
