(* ===== verification/StreamInstances.v ===== *)
(** * Concrete stream interfaces

    One implementation of each class of [Streams.v], used by the witnesses: a
    copy that writes everything it can read, frames with the four-byte
    big-endian length header [LengthDelimitedCodec] documents, and messages
    written bit by bit. *)
From S2P Require Import Prelude Externals Instances Streams.

(** ** Big-endian lengths *)
Definition byte_of (n : N) : byte := default x00 (Byte.of_N (n mod 256)).

Lemma to_N_byte_of n : Byte.to_N (byte_of n) = (n mod 256)%N.
Proof.
  unfold byte_of. destruct (Byte.of_N (n mod 256)) as [b|] eqn:E; simpl.
  - by apply Byte.to_of_N.
  - apply Byte.of_N_None_iff in E. pose proof (N.mod_lt n 256 ltac:(done)). lia.
Qed.

Definition be32 (n : N) : Bytes :=
  [byte_of (n / 16777216); byte_of (n / 65536); byte_of (n / 256); byte_of n].

Definition read_be32 (a b c d : byte) : N :=
  (Byte.to_N a * 16777216 + Byte.to_N b * 65536 + Byte.to_N c * 256 + Byte.to_N d)%N.

Lemma read_be32_be32 n :
  (n < 4294967296)%N ->
  read_be32 (byte_of (n / 16777216)) (byte_of (n / 65536)) (byte_of (n / 256)) (byte_of n) = n.
Proof.
  intros Hn. unfold read_be32. rewrite !to_N_byte_of.
  zify. Z.to_euclidean_division_equations. lia.
Qed.

Section StreamInstances.
#[local] Existing Instance numExt.

Definition numIoErrors : IoErrors := {|
  UnexpectedEof := (-1 : @IoError numExt);
  EncodeError := Empty_set;
  io_error_of_encode e := match e with end;
  DecodeError := unit;
|}.

(** ** Copying *)

(** The outcome and the number of bytes taken by a writer offered [n]. *)
Definition write_outcome (w : Writer) (n : nat) : option (async (result nat IoError)) * nat :=
  match wr_limit w with
  | Unlimited => (None, n)
  | WriteFails room e => if decide (n <= room)%nat then (None, n) else (Some (Done (Err e)), room)
  | WriteHangs room => if decide (n <= room)%nat then (None, n) else (Some Waits, room)
  end.

Definition num_copy (r : Reader) (w : Writer) : async (result nat IoError) * Writer :=
  let '(failed, k) := write_outcome w (length (rd_bytes r)) in
  (match failed with
   | Some x => x
   | None => match rd_end r with
             | Eof => Done (Ok (length (rd_bytes r)))
             | ReadFails e => Done (Err e)
             | ReadHangs => Waits
             end
   end, write w (take k (rd_bytes r))).

Definition numTokio : Tokio := {| io_copy := num_copy |}.

Lemma write_outcome_accepts w n : accepts w n -> write_outcome w n = (None, n).
Proof. unfold accepts, write_outcome. destruct (wr_limit w); [done|..]; by intros; case_decide. Qed.

Lemma write_outcome_cases w n o k :
  write_outcome w n = (o, k) ->
  (k <= n)%nat /\ (o = None -> k = n) /\ (forall m, o <> Some (Done (Ok m))) /\
  (forall msg, o <> Some (Panicked msg)).
Proof.
  unfold write_outcome. destruct (wr_limit w) as [|room e|room]; [|case_decide..];
    intros [= <- <-]; split_and!; try done; lia.
Qed.

Lemma numTokio_laws : @TokioLaws numExt numTokio.
Proof.
  split; simpl; unfold num_copy.
  - intros r w x w'. destruct (write_outcome w _) as [o k] eqn:E. intros [= _ <-].
    exists k. split; [|done]. by eapply write_outcome_cases.
  - intros r w n w'. destruct (write_outcome w _) as [o k] eqn:E.
    destruct (write_outcome_cases _ _ _ _ E) as (_ & Hk & Hok & _).
    destruct o as [x|]; [by intros [= -> _]; destruct (Hok n)|].
    rewrite Hk, firstn_all by done. destruct (rd_end r); naive_solver.
  - intros b w Ha. simpl. rewrite write_outcome_accepts by done. by rewrite firstn_all.
  - intros b e w Ha. simpl. by rewrite write_outcome_accepts.
  - intros b w Ha. simpl. by rewrite write_outcome_accepts.
  - intros r w msg. destruct (write_outcome w _) as [o k] eqn:E. simpl.
    destruct (write_outcome_cases _ _ _ _ E) as (_ & _ & _ & Hp).
    destruct o as [x|]; [|by destruct (rd_end r)]. intros ->. by destruct (Hp msg).
Qed.

(** ** Frames *)
Definition num_frame_max : N := 8388608.
Definition num_frame (b : Bytes) : Bytes := be32 (N.of_nat (length b)) ++ b.

Definition num_send (b : Bytes) (w : Writer) : async (result unit IoError) * Writer :=
  if bool_decide (num_frame_max < N.of_nat (length b))%N then (Done (Err (-2)), w)
  else let '(failed, k) := write_outcome w (length (num_frame b)) in
       (match failed with
        | Some (Done (Err e)) => Done (Err e)
        | Some _ => Waits
        | None => Done (Ok tt)
        end, write w (take k (num_frame b))).

(** No complete frame before the end of the stream; [p] is in the buffer. *)
Definition incomplete (p : Bytes) (e : ReaderEnd) : async (option (result Bytes IoError)) :=
  match e with
  | Eof => Done (match p with [] => None | _ => Some (Err (-3)) end)
  | ReadFails e => Done (Some (Err e))
  | ReadHangs => Waits
  end.

Definition num_next (r : Reader) : async (option (result Bytes IoError)) :=
  match rd_bytes r with
  | b3 :: b2 :: b1 :: b0 :: rest =>
      let n := read_be32 b3 b2 b1 b0 in
      if bool_decide (num_frame_max < n)%N then Done (Some (Err (-5)))
      else if bool_decide (n <= N.of_nat (length rest))%N then
        Done (Some (Ok (take (N.to_nat n) rest)))
      else incomplete rest (rd_end r)
  | p => incomplete p (rd_end r)
  end.

Definition numFraming : Framing := {|
  frame_max := num_frame_max;
  frame_head := be32;
  frame_too_big := (-2 : @IoError numExt);
  frame_refused := (-5 : @IoError numExt);
  bytes_remaining := (-3 : @IoError numExt);
  framed_send := num_send;
  framed_next := num_next;
|}.

Lemma num_next_frame b rest e :
  (N.of_nat (length b) <= num_frame_max)%N ->
  num_next (mkReader (num_frame b ++ rest) e) = Done (Some (Ok b)).
Proof.
  intros Hb. assert (num_frame_max < 4294967296)%N as Hm by done.
  unfold num_next. simpl. rewrite read_be32_be32 by lia.
  rewrite bool_decide_eq_false_2 by lia.
  rewrite bool_decide_eq_true_2 by (rewrite length_app; lia).
  by rewrite Nat2N.id, take_app_length.
Qed.

Lemma num_next_short n p q e : p ++ q = be32 n -> q <> [] -> num_next (mkReader p e) = incomplete p e.
Proof.
  intros Hp Hq. destruct p as [|b3 [|b2 [|b1 [|b0 rest]]]]; [done..|].
  apply (f_equal length) in Hp. rewrite length_app in Hp. destruct q; [done|]. simpl in Hp. lia.
Qed.

Lemma num_next_payload b p q e :
  (N.of_nat (length b) <= num_frame_max)%N -> p ++ q = b -> q <> [] ->
  num_next (mkReader (be32 (N.of_nat (length b)) ++ p) e) = incomplete p e.
Proof.
  intros Hb Hp Hq. assert (num_frame_max < 4294967296)%N as Hm by done.
  unfold num_next. simpl. rewrite read_be32_be32 by lia.
  rewrite bool_decide_eq_false_2 by lia. rewrite bool_decide_eq_false_2; [done|].
  apply (f_equal length) in Hp. rewrite length_app in Hp. destruct q; [done|]. simpl in Hp. lia.
Qed.

(** A stream that stops anywhere in a frame: in the head or after it. *)
Lemma num_next_incomplete b p q e :
  (N.of_nat (length b) <= num_frame_max)%N -> p ++ q = num_frame b -> q <> [] ->
  exists p', num_next (mkReader p e) = incomplete p' e.
Proof.
  intros Hb Hp Hq. apply app_eq_inv in Hp as [(k & -> & Hk)|(k & Hh & Hk)].
  - exists k. by apply (num_next_payload b k q).
  - destruct k as [|x k].
    + exists []. rewrite app_nil_r in Hh. simpl in Hk. subst q. rewrite <-Hh, <-(app_nil_r (be32 _)).
      by apply (num_next_payload b [] b).
    + exists p. by apply (num_next_short (N.of_nat (length b)) p (x :: k)).
Qed.

Lemma numFraming_laws : @FramingLaws numExt numFraming.
Proof.
  split; simpl; unfold num_send.
  - intros b w Hb Ha. rewrite bool_decide_eq_false_2 by lia.
    rewrite write_outcome_accepts by done. by rewrite firstn_all.
  - intros b w Hb. by rewrite bool_decide_eq_true_2.
  - intros b w w'. case_bool_decide; [done|].
    destruct (write_outcome w _) as [o k] eqn:E.
    destruct (write_outcome_cases _ _ _ _ E) as (_ & Hk & _).
    destruct o as [[[]| |]|]; [done..|]. rewrite Hk, firstn_all by done.
    intros [= <-]. split; [lia|done].
  - intros b w msg. case_bool_decide; [done|].
    destruct (write_outcome w _) as [o k]. by destruct o as [[[]| |]|].
  - exact num_next_frame.
  - done.
  - intros n p q _ Hp Hq Hne. rewrite (num_next_short n p q) by done. by destruct p.
  - intros b Hb Hne. rewrite <-(app_nil_r (be32 _)). by rewrite (num_next_payload b [] b).
  - intros b p q Hb Hp Hq Hne. rewrite (num_next_payload b p q) by done. by destruct p.
  - intros b p q e Hb Hp Hq. by destruct (num_next_incomplete b p q (ReadFails (e : @IoError numExt)) Hb Hp Hq) as [p' ->].
  - intros b p q Hb Hp Hq. by destruct (num_next_incomplete b p q ReadHangs Hb Hp Hq) as [p' ->].
  - intros n rest e [Hn Hn']. unfold num_next. simpl. rewrite read_be32_be32 by done.
    by rewrite bool_decide_eq_true_2.
  - intros r msg. unfold num_next, incomplete.
    destruct (rd_bytes r) as [|? [|? [|? [|? ?]]]]; repeat case_bool_decide;
      destruct (rd_end r); done.
Qed.

(** ** Messages

    A byte per binary digit of the number stdpp's [Countable] gives the
    message. *)
Fixpoint bits_of (p : positive) : Bytes :=
  match p with
  | xH => []
  | xO p => x00 :: bits_of p
  | xI p => x01 :: bits_of p
  end.

Fixpoint of_bits (l : Bytes) : option positive :=
  match l with
  | [] => Some xH
  | x00 :: l => xO <$> of_bits l
  | x01 :: l => xI <$> of_bits l
  | _ => None
  end.

Lemma of_bits_of p : of_bits (bits_of p) = Some p.
Proof. induction p as [p IH|p IH|]; simpl; by rewrite ?IH. Qed.

Definition numMessage (M : Type) `{Countable M} : @Message numExt numIoErrors M :=
  @Build_Message numExt numIoErrors M
    (fun m => Ok (bits_of (countable.encode m)))
    (fun b => match (p ← of_bits b; countable.decode p) with
              | Some m => Ok m
              | None => Err tt
              end).

Lemma numMessage_laws (M : Type) `{Countable M} :
  @MessageLaws numExt numIoErrors M (numMessage M).
Proof.
  split. intros m. exists (bits_of (countable.encode m)). split; [done|]. simpl.
  rewrite of_bits_of. simpl. by rewrite decode_encode.
Qed.
End StreamInstances.
