(* ===== verification/Protocol.v ===== *)
(** * The two wire protocols

    [file-get/src/protocol.rs]: one substream carries one request frame to the
    responder and the bytes of the file back.  [src/network/protocol.rs] and
    [abi.rs]: the codec of the list-files request and response. *)
From S2P Require Import Prelude Externals FileGetTypes Handler Streams.

(** [const PROTOCOL_NAME: &[u8]] *)
Definition PROTOCOL_NAME : Str := str "/file-get/1.0.0".

(** A negotiated substream: what the peer sends and what we send. *)
Record Socket `{Ext} : Type := mkSocket { incoming : Reader; outgoing : Writer }.
Arguments mkSocket {_} _ _.

Section Protocol.
Context `{Ext, !IoErrors, !Tokio, !Framing, !Message FileGetMessage}.

(** ** Helpers of [file-get/src/protocol.rs] *)

(** [tokio_send_request]: [encode(..).unwrap()] and [send(..).await] *)
Definition tokio_send_request (file_get_message : FileGetMessage) (writer : Writer) :
    async (result unit IoError) * Writer :=
  match encode file_get_message with
  | Err _ => (Panicked (str "called `Result::unwrap()` on an `Err` value"), writer)
  | Ok bytes => framed_send bytes writer
  end.

(** [send_request] *)
Definition send_request (file_get_message : FileGetMessage) (socket : Writer) :=
  tokio_send_request file_get_message socket.

(** [tokio_copy_stream] *)
Definition tokio_copy_stream (reader : Reader) (writer : Writer) :
    async (result unit IoError) * Writer :=
  let '(r, w) := io_copy reader writer in (await_try r (fun _ => Done (Ok tt)), w).

(** [copy_stream] *)
Definition copy_stream (reader : Reader) (writer : Writer) := tokio_copy_stream reader writer.

(** [tokio_receive_message] *)
Definition tokio_receive_message (socket : Reader) : async (result FileGetMessage IoError) :=
  await_try (framed_try_next socket) (fun data =>
    match data with
    | Some data => Done (map_err (fun _ => UnexpectedEof) (decode data))
    | None => Done (Err UnexpectedEof)
    end).

(** [receive_message] *)
Definition receive_message (socket : Reader) := tokio_receive_message socket.

(** ** The upgrades

    [writer_of] and [reader_of] give the stream behind a boxed trait object. *)
Context (writer_of : AsyncWrite -> Writer) (reader_of : AsyncRead -> Reader).

(** [UpgradeInfo::protocol_info] of both directions *)
Definition outbound_protocol_info : list Str := [PROTOCOL_NAME].
Definition inbound_protocol_info : list Str := [PROTOCOL_NAME].

(** [FileGetOutboundProtocol::upgrade_outbound]: the outcome, what was sent on
    the substream, and the file written. *)
Definition upgrade_outbound (self : FileGetOutboundProtocol.t) (socket : Socket) :
    async (result unit IoError) * Writer * Writer :=
  let file_get_message := mkFileGetMessage (FileGetOutboundProtocol.file_name self) in
  let file := writer_of (FileGetOutboundProtocol.file_writer self) in
  let '(sent, out) := send_request file_get_message (outgoing socket) in
  match sent with
  | Done (Ok _) =>
      let '(copied, file') := copy_stream (incoming socket) file in
      (await_try copied (fun _ => Done (Ok tt)), out, file')
  | _ => (sent, out, file)
  end.

(** [FileGetInboundProtocol::upgrade_inbound]: the outcome, what was passed to
    [request_sender], and what was sent on the substream.  [response] is what
    awaiting [response_receiver] comes to. *)
Definition upgrade_inbound (response : ResReceiver -> async (result AsyncRead Canceled))
    (self : FileGetInboundProtocol.t) (socket : Socket) :
    async (result bool IoError) * list (ReqSender * (RequestId * FileGetMessage)) * Writer :=
  match receive_message (incoming socket) with
  | Done (Ok file_get_message) =>
      let sent := [(FileGetInboundProtocol.request_sender self,
                    (FileGetInboundProtocol.request_id self, file_get_message))] in
      match response (FileGetInboundProtocol.response_receiver self) with
      | Done (Ok reader) =>
          let '(copied, out) := copy_stream (reader_of reader) (outgoing socket) in
          (await_try copied (fun _ => Done (Ok true)), sent, out)
      | Done (Err _) => (Panicked (str "Sender exists"), sent, outgoing socket)
      | Panicked msg => (Panicked msg, sent, outgoing socket)
      | Waits => (Waits, sent, outgoing socket)
      end
  | Done (Err e) => (Done (Err e), [], outgoing socket)
  | Panicked msg => (Panicked msg, [], outgoing socket)
  | Waits => (Waits, [], outgoing socket)
  end.
End Protocol.

(** ** The list-files codec *)

(** [struct ListFilesRequest] *)
Inductive ListFilesRequest : Type := mkListFilesRequest.

(** [struct ListFilesResponse] *)
Record ListFilesResponse : Type := mkListFilesResponse { file_names : list Str }.

#[export] Instance ListFilesResponse_eq_dec : EqDecision ListFilesResponse.
Proof. solve_decision. Defined.
#[export] Instance ListFilesResponse_countable : Countable ListFilesResponse.
Proof. refine (inj_countable' file_names mkListFilesResponse _). by intros []. Defined.

Module ListFilesCodec.
Section ListFilesCodec.
Context `{Ext, !IoErrors, !Framing, !Message ListFilesResponse}.

(** [ListFilesProtocol::protocol_name] *)
Definition protocol_name : Str := str "/list-files/1".

(** [read_request] *)
Definition read_request (io : Reader) : async (result ListFilesRequest IoError) :=
  Done (Ok mkListFilesRequest).

(** [read_response] *)
Definition read_response (io : Reader) : async (result ListFilesResponse IoError) :=
  next ← framed_next io;
  match next with
  | Some buf =>
      match buf with
      | Ok buf => Done (map_err (fun _ => UnexpectedEof) (decode buf))
      | Err e => Done (Err e)
      end
  | None => Done (Err UnexpectedEof)
  end.

(** [write_request] *)
Definition write_request (io : Writer) (req : ListFilesRequest) :
    async (result unit IoError) * Writer :=
  (Done (Ok tt), io).

(** [write_response] *)
Definition write_response (io : Writer) (response : ListFilesResponse) :
    async (result unit IoError) * Writer :=
  match encode response with
  | Err e => (Done (Err (io_error_of_encode e)), io)
  | Ok buf =>
      let '(sent, io) := framed_send buf io in
      (await_try sent (fun _ => Done (Ok tt)), io)
  end.
End ListFilesCodec.
End ListFilesCodec.
