(* ===== verification/ProtocolProps.v ===== *)
(** * Properties of the wire protocols

    A whole exchange of a file, the outcomes of the two upgrades on every
    branch, and the list-files codec. *)
From S2P Require Import Prelude Externals Instances Streams StreamInstances FileGetTypes Handler Protocol.

Section ProtocolProps.
Context `{Ext, !IoErrors, !Tokio, !Framing, !Message FileGetMessage}.
Context `{!TokioLaws, !FramingLaws, !MessageLaws FileGetMessage}.
Context (writer_of : AsyncWrite -> Writer) (reader_of : AsyncRead -> Reader).

Abbreviation outbound := (upgrade_outbound writer_of).
Abbreviation inbound := (upgrade_inbound reader_of).

(** The request of an outbound protocol. *)
Definition request_of (p : FileGetOutboundProtocol.t) : FileGetMessage :=
  mkFileGetMessage (FileGetOutboundProtocol.file_name p).

(** A request fits into one frame. *)
Definition fits (m : FileGetMessage) : Prop :=
  forall b, encode m = Ok b -> (N.of_nat (length b) <= frame_max)%N.

Lemma encode_fits m : fits m -> exists b,
  encode m = Ok b /\ decode b = Ok m /\ (N.of_nat (length b) <= frame_max)%N.
Proof. intros Hf. destruct (encode_decode m) as (b & He & Hd). exists b. auto. Qed.

(** ** Sending and receiving the request *)
Lemma send_request_ok m b w :
  encode m = Ok b -> (N.of_nat (length b) <= frame_max)%N -> accepts w (length (frame b)) ->
  send_request m w = (Done (Ok tt), write w (frame b)).
Proof. intros He Hb Ha. unfold send_request, tokio_send_request. rewrite He. by apply send_ok. Qed.

Lemma receive_message_frame m b rest e :
  decode b = Ok m -> (N.of_nat (length b) <= frame_max)%N ->
  receive_message (mkReader (frame b ++ rest) e) = Done (Ok m).
Proof.
  intros Hd Hb. unfold receive_message, tokio_receive_message, framed_try_next.
  rewrite next_frame by done. simpl. by rewrite Hd.
Qed.

Lemma copy_stream_eof b w :
  accepts w (length b) -> copy_stream (mkReader b Eof) w = (Done (Ok tt), write w b).
Proof. intros Ha. unfold copy_stream, tokio_copy_stream. by rewrite copy_eof. Qed.

Lemma copy_stream_inv r w x w' :
  copy_stream r w = (x, w') ->
  (exists k, (k <= length (rd_bytes r))%nat /\ w' = write w (take k (rd_bytes r))) /\
  (forall msg, x <> Panicked msg) /\
  (x = Done (Ok tt) -> rd_end r = Eof /\ w' = write w (rd_bytes r)).
Proof.
  unfold copy_stream, tokio_copy_stream. destruct (io_copy r w) as [y wy] eqn:E. intros [= <- <-].
  split_and!; [by eapply copy_prefix| |].
  - intros msg Hm. destruct y as [[n|e]|msg'|]; try done. simpl in Hm. injection Hm as ->.
    apply (copy_no_panic r w msg). by rewrite E.
  - destruct y as [[n|e]|msg'|]; try done. intros _. by eapply copy_ok.
Qed.

Lemma outbound_unfold p s :
  outbound p s =
    let '(sent, out) := send_request (request_of p) (outgoing s) in
    match sent with
    | Done (Ok _) =>
        let '(copied, file') := copy_stream (incoming s) (writer_of (FileGetOutboundProtocol.file_writer p)) in
        (await_try copied (fun _ => Done (Ok tt)), out, file')
    | _ => (sent, out, writer_of (FileGetOutboundProtocol.file_writer p))
    end.
Proof. done. Qed.

Lemma await_try_ok (x : async (result unit IoError)) : await_try x (fun _ => Done (Ok tt)) = x.
Proof. by destruct x as [[[]|]| |]. Qed.

(** A request that goes out. *)
Lemma outbound_sent p s b :
  encode (request_of p) = Ok b -> (N.of_nat (length b) <= frame_max)%N ->
  accepts (outgoing s) (length (frame b)) ->
  outbound p s =
    let '(x, file) := copy_stream (incoming s) (writer_of (FileGetOutboundProtocol.file_writer p)) in
    (x, write (outgoing s) (frame b), file).
Proof.
  intros He Hb Ha. rewrite outbound_unfold, (send_request_ok _ b) by done.
  destruct (copy_stream _ _). by rewrite await_try_ok.
Qed.

(** ** The exchange *)

(** What either side does while the other has not answered yet. *)
Lemma outbound_waits p b file :
  encode (request_of p) = Ok b -> (N.of_nat (length b) <= frame_max)%N ->
  writer_of (FileGetOutboundProtocol.file_writer p) = open_file file ->
  exists file', outbound p (mkSocket (mkReader [] ReadHangs) open_pipe) =
    (Waits, write open_pipe (frame b), file').
Proof.
  intros He Hb Hf. rewrite (outbound_sent _ _ b), Hf by done. cbn [incoming outgoing].
  unfold copy_stream, tokio_copy_stream. pose proof (copy_hangs [] (open_file file) I) as Hc.
  destruct (io_copy _ _) as [x file']. simpl in Hc. subst x. by exists file'.
Qed.

Lemma inbound_waits response q m b :
  decode b = Ok m -> (N.of_nat (length b) <= frame_max)%N ->
  response (FileGetInboundProtocol.response_receiver q) = Waits ->
  inbound response q (mkSocket (mkReader (frame b) ReadHangs) open_pipe) =
    (Waits, [(FileGetInboundProtocol.request_sender q, (FileGetInboundProtocol.request_id q, m))],
     open_pipe).
Proof.
  intros Hd Hb Hres. unfold upgrade_inbound. cbn [incoming outgoing].
  rewrite <-(app_nil_r (frame b)), (receive_message_frame m), Hres by done. done.
Qed.

Lemma inbound_answers response q m b rd content :
  decode b = Ok m -> (N.of_nat (length b) <= frame_max)%N ->
  response (FileGetInboundProtocol.response_receiver q) = Done (Ok rd) ->
  reader_of rd = mkReader content Eof ->
  inbound response q (mkSocket (mkReader (frame b) ReadHangs) open_pipe) =
    (Done (Ok true),
     [(FileGetInboundProtocol.request_sender q, (FileGetInboundProtocol.request_id q, m))],
     write open_pipe content).
Proof.
  intros Hd Hb Hres Hrd. unfold upgrade_inbound. cbn [incoming outgoing].
  rewrite <-(app_nil_r (frame b)), (receive_message_frame m), Hres, Hrd, copy_stream_eof by done.
  done.
Qed.

Lemma outbound_receives p b content old :
  encode (request_of p) = Ok b -> (N.of_nat (length b) <= frame_max)%N ->
  writer_of (FileGetOutboundProtocol.file_writer p) = open_file old ->
  outbound p (mkSocket (mkReader content Eof) open_pipe) =
    (Done (Ok tt), write open_pipe (frame b), write (open_file old) content).
Proof. intros He Hb Hf. rewrite (outbound_sent _ _ b), Hf by done. cbn. by rewrite copy_stream_eof. Qed.

(** C12: The transfer of a file: when each side reads what the other writes,
    the request fits a frame and the application answers with a reader that
    yields [content], both upgrades complete, the responder's handler is
    passed exactly the file name asked for, and the requester's file starts
    with [content]; a file that was there before keeps whatever reaches
    beyond it. *)
Theorem whole_file_transfer response p q rd content old rout wire file rin sent out
    (Hfits : fits (request_of p))
    (Hfile : writer_of (FileGetOutboundProtocol.file_writer p) = open_file old)
    (Hres : response (FileGetInboundProtocol.response_receiver q) = Done (Ok rd))
    (Hrd : reader_of rd = mkReader content Eof)
    (Hout : outbound p (mkSocket (mkReader (contents out) Eof) open_pipe) = (rout, wire, file))
    (Hin : inbound response q (mkSocket (mkReader (contents wire) ReadHangs) open_pipe) =
             (rin, sent, out)) :
  rout = Done (Ok tt) /\ rin = Done (Ok true) /\
  sent = [(FileGetInboundProtocol.request_sender q,
           (FileGetInboundProtocol.request_id q, request_of p))] /\
  contents file = content ++ drop (length content) old.
Proof.
  destruct (encode_fits _ Hfits) as (b & He & Hd & Hb).
  rewrite (outbound_receives _ b _ old) in Hout by done. injection Hout as <- <- <-.
  rewrite contents_pipe, (inbound_answers _ _ (request_of p) _ rd content) in Hin by done.
  injection Hin as <- <- <-. by rewrite contents_pipe.
Qed.

(** C22: The outcome of an outbound upgrade: it never panics and whatever
    happens the file has got a prefix of what the peer sent; it succeeds only
    if the peer's stream ended, and then with all of it; and when nothing fails
    on our side the outcome is exactly how the peer's stream ended.  A stream
    that ends early is no error: a download cut short also reports success. *)
Theorem outbound_outcome p s x wire file
    (Hout : outbound p s = (x, wire, file)) :
  let f := writer_of (FileGetOutboundProtocol.file_writer p) in
  (forall msg, x <> Panicked msg) /\
  (exists k, file = write f (take k (rd_bytes (incoming s)))) /\
  (x = Done (Ok tt) -> rd_end (incoming s) = Eof /\ file = write f (rd_bytes (incoming s))) /\
  (fits (request_of p) -> wr_limit (outgoing s) = Unlimited -> wr_limit f = Unlimited ->
   x = match rd_end (incoming s) with
       | Eof => Done (Ok tt)
       | ReadFails e => Done (Err e)
       | ReadHangs => Waits
       end).
Proof.
  intros f. rewrite outbound_unfold in Hout. fold f in Hout.
  destruct (send_request (request_of p) (outgoing s)) as [y w] eqn:E.
  assert (forall msg, y <> Panicked msg) as Hy.
  { intros msg ->. unfold send_request, tokio_send_request in E.
    destruct (encode_decode (request_of p)) as (b & He & _). rewrite He in E.
    apply (send_no_panic b (outgoing s) msg). by rewrite E. }
  destruct (copy_stream (incoming s) f) as [z f'] eqn:Ec.
  destruct (copy_stream_inv _ _ _ _ Ec) as ((k & Hk & Hf') & Hz & Hok).
  rewrite await_try_ok in Hout.
  assert ((exists u, y = Done (Ok u) /\ x = z /\ file = f') \/
          (x = y /\ (forall u, y <> Done (Ok u)) /\ file = f)) as Hcase.
  { destruct y as [[u|e]|msg|]; simplify_eq; [left; by exists u|right..]; split_and!; done. }
  split_and!.
  - intros msg. destruct Hcase as [(u & _ & -> & _)|(-> & _ & _)]; auto.
  - destruct Hcase as [(u & _ & _ & ->)|(_ & _ & ->)]; [by exists k|]. exists 0%nat.
    by rewrite take_0, write_nil.
  - intros ->. destruct Hcase as [(u & _ & <- & ->)|(<- & Hne & _)]; [by apply Hok|].
    by destruct (Hne tt).
  - intros Hfits Hw Hfl. destruct (encode_fits _ Hfits) as (b & He & Hd & Hb).
    rewrite (send_request_ok _ b) in E by (try done; unfold accepts; by rewrite Hw).
    injection E as <- <-.
    destruct Hcase as [(u & _ & -> & _)|(_ & Hne & _)]; [|by destruct (Hne tt)].
    unfold copy_stream, tokio_copy_stream in Ec. destruct (incoming s) as [bs [|e|]]; simpl.
    + rewrite copy_eof in Ec by (unfold accepts; by rewrite Hfl). by injection Ec as <- _.
    + pose proof (copy_fails bs e f ltac:(unfold accepts; by rewrite Hfl)) as Hc.
      destruct (io_copy _ _) as [c wc]. simpl in Hc. subst c. by injection Ec as <- _.
    + pose proof (copy_hangs bs f ltac:(unfold accepts; by rewrite Hfl)) as Hc.
      destruct (io_copy _ _) as [c wc]. simpl in Hc. subst c. by injection Ec as <- _.
Qed.

(** What the codec yields decides whether there is a request. *)
Lemma receive_message_none r : framed_next r = Done None -> receive_message r = Done (Err UnexpectedEof).
Proof. unfold receive_message, tokio_receive_message, framed_try_next. by intros ->. Qed.

Lemma receive_message_err r e :
  framed_next r = Done (Some (Err e)) -> receive_message r = Done (Err e).
Proof. unfold receive_message, tokio_receive_message, framed_try_next. by intros ->. Qed.

Lemma receive_message_waits r : framed_next r = Waits -> receive_message r = Waits.
Proof. unfold receive_message, tokio_receive_message, framed_try_next. by intros ->. Qed.

(** Without one the upgrade ends at once. *)
Lemma inbound_refused response q s (x : async (result FileGetMessage IoError)) :
  receive_message (incoming s) = x -> (forall m, x <> Done (Ok m)) ->
  inbound response q s =
    (match x with
     | Done (Err e) => Done (Err e)
     | Panicked msg => Panicked msg
     | _ => Waits
     end, [], outgoing s).
Proof. unfold upgrade_inbound. intros -> Hx. by destruct x as [[m|e]|msg|]; [destruct (Hx m)|..]. Qed.

(** C23: The responder's upgrade on every branch.  Nothing is passed on, and the
    upgrade fails, when there is no request: a substream closed before it, or
    between the head of its frame and the payload, and a payload that does not
    decode are [UnexpectedEof]; one closed inside the head or inside the payload
    is the codec's error, as is a head that announces too much; an error of the
    substream is passed through, and a peer that stops sending is waited for.  A
    complete request is passed on at once, and then the upgrade waits for the
    application, panics when the application drops the sender, and otherwise
    copies the reader to the requester. *)
Theorem inbound_outcome response q s :
  let rx := FileGetInboundProtocol.response_receiver q in
  let passed m := [(FileGetInboundProtocol.request_sender q,
                    (FileGetInboundProtocol.request_id q, m))] in
  let head b := frame_head (N.of_nat (length b)) in
  let fails e := inbound response q s = (Done (Err e), [], outgoing s) in
  (incoming s = mkReader [] Eof -> fails UnexpectedEof) /\
  (forall b, incoming s = mkReader (head b) Eof ->
     (N.of_nat (length b) <= frame_max)%N -> b <> [] -> fails UnexpectedEof) /\
  (forall b rest e d, incoming s = mkReader (frame b ++ rest) e ->
     (N.of_nat (length b) <= frame_max)%N -> decode (M:=FileGetMessage) b = Err d ->
     fails UnexpectedEof) /\
  (forall b p r, incoming s = mkReader p Eof ->
     (N.of_nat (length b) <= frame_max)%N -> p ++ r = head b -> r <> [] -> p <> [] ->
     fails bytes_remaining) /\
  (forall b p r, incoming s = mkReader (head b ++ p) Eof ->
     (N.of_nat (length b) <= frame_max)%N -> p ++ r = b -> r <> [] -> p <> [] ->
     fails bytes_remaining) /\
  (forall n rest e, incoming s = mkReader (frame_head n ++ rest) e ->
     (frame_max < n < 2 ^ 32)%N -> fails frame_refused) /\
  (forall b p r e, incoming s = mkReader p (ReadFails e) ->
     (N.of_nat (length b) <= frame_max)%N -> p ++ r = frame b -> r <> [] -> fails e) /\
  (forall b p r, incoming s = mkReader p ReadHangs ->
     (N.of_nat (length b) <= frame_max)%N -> p ++ r = frame b -> r <> [] ->
     inbound response q s = (Waits, [], outgoing s)) /\
  (forall b rest e m, incoming s = mkReader (frame b ++ rest) e ->
     (N.of_nat (length b) <= frame_max)%N -> decode b = Ok m ->
     (response rx = Waits -> inbound response q s = (Waits, passed m, outgoing s)) /\
     (response rx = Done (Err mkCanceled) ->
        inbound response q s = (Panicked (str "Sender exists"), passed m, outgoing s)) /\
     (forall rd, response rx = Done (Ok rd) ->
        let '(x, out) := copy_stream (reader_of rd) (outgoing s) in
        inbound response q s = (await_try x (fun _ => Done (Ok true)), passed m, out))).
Proof.
  intros rx passed head fails. unfold fails, head.
  split_and!; try (intros *; intros Hs; intros;
    eapply (inbound_refused _ _ _ (Done (Err _))) || eapply (inbound_refused _ _ _ Waits);
    [rewrite Hs|done]; first [apply receive_message_none | apply receive_message_err | apply receive_message_waits];
    eauto using next_eof, next_cut_between, next_cut_head, next_cut_payload, next_too_big, next_fails, next_hangs; fail).
  - intros b rest e d Hs Hb Hd. apply (inbound_refused _ _ _ (Done (Err _))); [|done]. rewrite Hs.
    unfold receive_message, tokio_receive_message, framed_try_next. rewrite next_frame by done. simpl. by rewrite Hd.
  - intros b rest e m Hs Hb Hd. unfold upgrade_inbound. rewrite Hs, (receive_message_frame m) by done. split_and!.
    + unfold rx. by intros ->.
    + unfold rx. by intros ->.
    + unfold rx. intros rd ->. by destruct (copy_stream _ _).
Qed.

Lemma inbound_ok_true response q s sent out b :
  inbound response q s = (Done (Ok b), sent, out) -> b = true.
Proof.
  unfold upgrade_inbound. destruct (receive_message _) as [[m|e]|msg|]; [|done..].
  destruct (response _) as [[rd|c]|msg|]; [|done..]. destruct (copy_stream _ _) as [x w].
  destruct x as [[u|e]|msg|]; [|done..]. by intros [= <- _ _].
Qed.

(** [ResponseOmission] is never reported: an inbound upgrade that
    completes yields [true], so that the handler queues [ResponseSent] for it;
    the branch for an omitted response and the failure of that name are dead
    code. *)
Theorem no_response_omission `{Platform} `{!FuturesUnordered InboundFut InboundOut ChanEnv}
    response q s sent out b info (h : Handler.t)
    (Hin : inbound response q s = (Done (Ok b), sent, out)) :
  Handler.on_connection_event (Handler.FullyNegotiatedInbound b info) h =
    Handler.push_event (FileGetHandlerEvent.ResponseSent info) h.
Proof. by rewrite (inbound_ok_true _ _ _ _ _ _ Hin). Qed.
End ProtocolProps.

(** ** The list-files codec *)
Section ListFilesProps.
Context `{Ext, !IoErrors, !Framing, !Message ListFilesResponse}.
Context `{!FramingLaws, !MessageLaws ListFilesResponse}.
Import ListFilesCodec.

(** C31: A list-files response that fits a frame is read back as it was
    written, whatever follows on the stream; a request needs no bytes: none
    are written and none are read. *)
Theorem list_files_roundtrip response rest e
    (Hfits : forall b, encode response = Ok b -> (N.of_nat (length b) <= frame_max)%N) :
  (write_response open_pipe response).1 = Done (Ok tt) /\
  read_response (mkReader (contents (write_response open_pipe response).2 ++ rest) e) =
    Done (Ok response) /\
  write_request open_pipe mkListFilesRequest = (Done (Ok tt), open_pipe) /\
  read_request (mkReader (contents open_pipe ++ rest) e) = Done (Ok mkListFilesRequest).
Proof.
  destruct (encode_decode response) as (b & He & Hd). specialize (Hfits b He).
  unfold write_response. rewrite He, send_ok by done. simpl. split_and!; try done.
  unfold contents. simpl. rewrite drop_nil, app_nil_r. unfold read_response.
  rewrite next_frame by done. simpl. by rewrite Hd.
Qed.

(** A list-files response longer than the largest frame is not sent: the
    responder fails and writes nothing, and the requester, whose substream
    then ends, sees [UnexpectedEof]; so does a response that does not decode. *)
Theorem list_files_errors :
  (forall response b w, encode response = Ok b -> (frame_max < N.of_nat (length b))%N ->
     write_response w response = (Done (Err frame_too_big), w)) /\
  read_response (mkReader [] Eof) = Done (Err UnexpectedEof) /\
  (forall b rest e d, (N.of_nat (length b) <= frame_max)%N ->
     decode (M:=ListFilesResponse) b = Err d ->
     read_response (mkReader (frame b ++ rest) e) = Done (Err UnexpectedEof)).
Proof.
  split_and!.
  - intros response b w He Hb. unfold write_response. by rewrite He, send_too_big.
  - unfold read_response. by rewrite next_eof.
  - intros b rest e d Hb Hd. unfold read_response. rewrite next_frame by done. simpl. by rewrite Hd.
Qed.
End ListFilesProps.

(** * Witnesses *)
Section ProtocolWitnesses.
#[local] Existing Instances numExt numIoErrors numTokio numFraming.
#[local] Instance RequestMessage : Message FileGetMessage := numMessage FileGetMessage.
#[local] Instance ResponseMessage : Message ListFilesResponse := numMessage ListFilesResponse.
#[local] Instance tokio_laws : TokioLaws := numTokio_laws.
#[local] Instance framing_laws : FramingLaws := numFraming_laws.
#[local] Instance request_laws : MessageLaws FileGetMessage := numMessage_laws FileGetMessage.
#[local] Instance response_laws : MessageLaws ListFilesResponse :=
  numMessage_laws ListFilesResponse.

Definition sample_content : Bytes := [x41; x42; x43].
Definition sample_file : Bytes := [x61; x61; x61; x61; x61].
Definition sample_outbound : FileGetOutboundProtocol.t :=
  FileGetOutboundProtocol.mk (mkRequestId 1) (str "a") (0 : @AsyncWrite numExt).
Definition sample_inbound : FileGetInboundProtocol.t :=
  FileGetInboundProtocol.mk (0 : @ReqSender numExt) (0 : @ResReceiver numExt) (mkRequestId 7).
Definition sample_response (rx : @ResReceiver numExt) : async (result (@AsyncRead numExt) Canceled) :=
  Done (Ok (0 : @AsyncRead numExt)).
(** The two ends of a sample exchange; the request on the wire does not depend
    on the answer. *)
Definition sample_request (answer : Bytes) : async (result unit (@IoError numExt)) * Writer * Writer :=
  upgrade_outbound (fun _ => open_file sample_file) sample_outbound
    (mkSocket (mkReader answer Eof) open_pipe).
Definition sample_wire : Bytes := contents (sample_request []).1.2.
Definition sample_answer :=
  upgrade_inbound (fun _ => mkReader sample_content Eof) sample_response sample_inbound
    (mkSocket (mkReader sample_wire ReadHangs) open_pipe).

Lemma sample_fits : fits (request_of sample_outbound).
Proof. intros b [= <-]. vm_compute. done. Qed.

(** The old file is longer than the new contents: its tail survives. *)
Lemma whole_file_transfer_witness :
  contents (sample_request (contents sample_answer.2)).2 = [x41; x42; x43; x61; x61].
Proof.
  refine (proj2 (proj2 (proj2 (whole_file_transfer (fun _ => open_file sample_file)
    (fun _ => mkReader sample_content Eof) sample_response sample_outbound sample_inbound
    (0 : @AsyncRead numExt) sample_content sample_file
    (sample_request (contents sample_answer.2)).1.1 (sample_request (contents sample_answer.2)).1.2
    _ sample_answer.1.1 sample_answer.1.2 sample_answer.2 sample_fits eq_refl eq_refl
    eq_refl _ _)))); vm_compute; reflexivity.
Defined.

Lemma outbound_outcome_witness :
  (upgrade_outbound (fun _ => open_file []) sample_outbound
    (mkSocket (mkReader [x41] Eof) open_pipe)).2 = write (open_file []) [x41].
Proof.
  refine (proj2 (proj1 (proj2 (proj2 (outbound_outcome (fun _ => open_file []) sample_outbound
    (mkSocket (mkReader [x41] Eof) open_pipe) _ _ _ _))) _)); vm_compute; reflexivity.
Defined.

Lemma no_response_omission_witness (P := release64)
    (F := list_fu (@Handler.map_ok_inbound numExt)) :
  Handler.on_connection_event (Handler.FullyNegotiatedInbound true (mkRequestId 7))
    (Handler.new 5 (mkArc 1)) =
  Handler.push_event (FileGetHandlerEvent.ResponseSent (mkRequestId 7)) (Handler.new 5 (mkArc 1)).
Proof.
  refine (no_response_omission (fun _ => mkReader sample_content Eof) sample_response
    sample_inbound (mkSocket (mkReader sample_wire ReadHangs) open_pipe) _ _ true _ _ _).
  vm_compute; reflexivity.
Defined.

Lemma list_files_roundtrip_witness :
  ListFilesCodec.read_response (mkReader (contents (ListFilesCodec.write_response open_pipe
    (mkListFilesResponse [str "a"; []])).2 ++ []) ReadHangs) =
  Done (Ok (mkListFilesResponse [str "a"; []])).
Proof.
  refine (proj1 (proj2 (list_files_roundtrip (mkListFilesResponse [str "a"; []]) [] ReadHangs _))).
  intros b [= <-]. vm_compute. done.
Defined.

(** The application drops the sender of the response. *)
Lemma inbound_outcome_witness :
  upgrade_inbound (fun _ => mkReader sample_content Eof) (fun _ => Done (Err mkCanceled))
    sample_inbound (mkSocket (mkReader (sample_wire ++ []) ReadHangs) open_pipe) =
  (Panicked (str "Sender exists"),
   [((0 : @ReqSender numExt), (mkRequestId 7, mkFileGetMessage (str "a")))], open_pipe).
Proof.
  destruct (inbound_outcome (fun _ => mkReader sample_content Eof)
    (fun _ => Done (Err mkCanceled)) sample_inbound
    (mkSocket (mkReader (sample_wire ++ []) ReadHangs) open_pipe)) as (_ & _ & _ & _ & _ & _ & _ & _ & Hok).
  refine (proj1 (proj2 (Hok (bits_of (countable.encode (mkFileGetMessage (str "a")))) [] ReadHangs
    (mkFileGetMessage (str "a")) _ _ _)) eq_refl); vm_compute; try reflexivity; discriminate.
Defined.

(** A stream cut after the head of the frame, and one cut a byte later. *)
Example sample_cuts :
  receive_message (mkReader (take 4 sample_wire) Eof) = Done (Err UnexpectedEof) /\
  receive_message (mkReader (take 5 sample_wire) Eof) = Done (Err bytes_remaining).
Proof. split; vm_compute; reflexivity. Qed.

Lemma list_files_errors_witness :
  ListFilesCodec.read_response (mkReader [] Eof) = Done (Err (UnexpectedEof : @IoError numExt)).
Proof. exact (proj1 (proj2 list_files_errors)). Defined.
End ProtocolWitnesses.
