(* ===== verification/Behaviour.v ===== *)
(** * The network behaviour ([file-get/src/lib.rs])

    [FileGet] keeps, per peer, its connections with the requests in flight on
    each, the outbound requests that wait for a connection, the queue of
    actions for the swarm and the addresses added by hand.  Every method is
    one definition; a method that can panic is in [exec]. *)
From S2P Require Import Prelude Externals FileGetTypes Handler.

(** A [for] loop over a vector whose body may panic. *)
Fixpoint exec_foldl {A B} (f : A -> B -> exec A) (a : A) (l : list B) : exec A :=
  match l with
  | [] => Return a
  | x :: l' => a' ← f a x; exec_foldl f a' l'
  end.

(** [struct Connection] *)
Module Connection.
Section Connection.
Context `{Ext}.

Record t : Type := mk {
  id : ConnectionId;
  address : option Multiaddr;
  pending_outbound_responses : gset RequestId;
  pending_inbound_responses : gset RequestId;
}.

(** [Connection::new] *)
Definition new (id : ConnectionId) (address : option Multiaddr) : t := mk id address ∅ ∅.

(** Field assignments. *)
Definition set_address (a : option Multiaddr) (c : t) : t :=
  mk (id c) a (pending_outbound_responses c) (pending_inbound_responses c).
Definition set_outbound (X : gset RequestId) (c : t) : t :=
  mk (id c) (address c) X (pending_inbound_responses c).
Definition set_inbound (X : gset RequestId) (c : t) : t :=
  mk (id c) (address c) (pending_outbound_responses c) X.

(** [|c| c.id == connection_id] *)
Definition has_id (connection_id : ConnectionId) (c : t) : bool :=
  bool_decide (id c = connection_id).
End Connection.
End Connection.

Module FileGet.
Section FileGet.
Context `{Ext, Platform, HashOrder} `{!FuturesUnordered InboundFut InboundOut ChanEnv}.

(** [NetworkBehaviourAction<FileGetEvent, Handler>], the variants used. *)
Inductive Action : Type :=
| GenerateEvent (event : FileGetEvent.t)
| Dial (opts : PeerId) (handler : Handler.t)
| NotifyHandler (peer_id : PeerId) (handler : ConnectionId) (event : FileGetOutboundProtocol.t).

(** [struct FileGet] *)
Record t : Type := mk {
  requset_id_generator : RequestIdGenerator.t;
  inbound_id_generator : Arc;
  config : FileGetConfig;
  connected : gmap PeerId (list Connection.t);
  pending_events : VecDeque Action;
  pending_outbound_requests : gmap PeerId (list FileGetOutboundProtocol.t);
  addresses : gmap PeerId (list Multiaddr);
}.

(** Field assignments. *)
Definition set_requset_id_generator (g : RequestIdGenerator.t) (s : t) : t :=
  mk g (inbound_id_generator s) (config s) (connected s) (pending_events s)
    (pending_outbound_requests s) (addresses s).
Definition set_connected (m : gmap PeerId (list Connection.t)) (s : t) : t :=
  mk (requset_id_generator s) (inbound_id_generator s) (config s) m (pending_events s)
    (pending_outbound_requests s) (addresses s).
Definition set_pending_events (q : VecDeque Action) (s : t) : t :=
  mk (requset_id_generator s) (inbound_id_generator s) (config s) (connected s) q
    (pending_outbound_requests s) (addresses s).
Definition set_pending_outbound_requests (m : gmap PeerId (list FileGetOutboundProtocol.t))
    (s : t) : t :=
  mk (requset_id_generator s) (inbound_id_generator s) (config s) (connected s)
    (pending_events s) m (addresses s).
Definition set_addresses (m : gmap PeerId (list Multiaddr)) (s : t) : t :=
  mk (requset_id_generator s) (inbound_id_generator s) (config s) (connected s)
    (pending_events s) (pending_outbound_requests s) m.

(** [FileGet::from_config]: [arc] is the allocation [Arc::new] makes. *)
Definition from_config (config : FileGetConfig) (arc : Arc) (σ : Store) : t * Store :=
  (mk RequestIdGenerator.new arc config ∅ vd_new ∅ ∅, <[arc := RequestIdGenerator.new]> σ).

(** [self.pending_events.push_back(action)] *)
Definition push_action (a : Action) (s : t) : t :=
  set_pending_events (push_back (pending_events s) a) s.

(** [self.pending_events.push_back(NetworkBehaviourAction::GenerateEvent(event))] *)
Definition push_event (event : FileGetEvent.t) (s : t) : t := push_action (GenerateEvent event) s.

(** [new_handler] *)
Definition new_handler (s : t) : Handler.t :=
  Handler.new (timeout (config s)) (inbound_id_generator s).

(** [try_send_request]: gives the request back when there is no connection. *)
Definition try_send_request (peer_id : PeerId) (request : FileGetOutboundProtocol.t) (s : t) :
    exec (option FileGetOutboundProtocol.t * t) :=
  match connected s !! peer_id with
  | Some connections =>
      match connections with
      | [] => Return (Some request, s)
      | _ =>
          let request_id := FileGetOutboundProtocol.request_id request in
          let idx := Z.to_nat
            (as_usize (request_id_0 request_id) mod Z.of_nat (length connections)) in
          conn ← expect (connections !! idx) (str "index out of bounds");
          let conn' := Connection.set_inbound
            ({[request_id]} ∪ Connection.pending_inbound_responses conn) conn in
          let s := set_connected (<[peer_id := <[idx := conn']> connections]> (connected s)) s in
          Return (None,
            push_action (NotifyHandler peer_id (Connection.id conn) request) s)
      end
  | None => Return (Some request, s)
  end.

(** [send_request] *)
Definition send_request (peer_id : PeerId) (request : FileGetMessage)
    (file_writer : AsyncWrite) (s : t) : exec (RequestId * t) :=
  let '(request_id, g) := RequestIdGenerator.next_id (requset_id_generator s) in
  let s := set_requset_id_generator g s in
  let request := FileGetOutboundProtocol.mk request_id (file_name request) file_writer in
  '(back, s) ← try_send_request peer_id request s;
  let s :=
    match back with
    | Some request =>
        let handler := new_handler s in
        let s := push_action (Dial peer_id handler) s in
        set_pending_outbound_requests
          (<[peer_id := default [] (pending_outbound_requests s !! peer_id) ++ [request]]>
             (pending_outbound_requests s)) s
    | None => s
    end in
  Return (request_id, s).

(** [send_response]: [send] is [oneshot::Sender::send]. *)
Definition send_response (send : ResSender -> AsyncRead -> result unit AsyncRead)
    (res_sender : ResSender) (reader : AsyncRead) (s : t) : result unit AsyncRead * t :=
  (send res_sender reader, s).

(** [add_address] *)
Definition add_address (peer_id : PeerId) (address : Multiaddr) (s : t) : t :=
  set_addresses (<[peer_id := default [] (addresses s !! peer_id) ++ [address]]> (addresses s)) s.

(** [remove_address] *)
Definition remove_address (peer_id : PeerId) (address : Multiaddr) (s : t) : t :=
  match addresses s !! peer_id with
  | Some l =>
      let l' := filter (fun addr => addr <> address) l in
      let s := set_addresses (<[peer_id := l']> (addresses s)) s in
      match l' with
      | [] => set_addresses (delete peer_id (addresses s)) s
      | _ => s
      end
  | None => s
  end.

(** [on_connection_established] *)
Definition on_connection_established (peer_id : PeerId) (connection_id : ConnectionId)
    (endpoint : ConnectedPoint.t) (other_established : Z) (s : t) : exec t :=
  let address := match endpoint with
                 | ConnectedPoint.Dialer address => Some address
                 | ConnectedPoint.Listener => None
                 end in
  let s := set_connected
    (<[peer_id := default [] (connected s !! peer_id) ++ [Connection.new connection_id address]]>
       (connected s)) s in
  if bool_decide (other_established = 0) then
    match pending_outbound_requests s !! peer_id with
    | Some pending =>
        let s := set_pending_outbound_requests (delete peer_id (pending_outbound_requests s)) s in
        exec_foldl (fun s request =>
          '(_, s) ← try_send_request peer_id request s; Return s) s pending
    | None => Return s
    end
  else Return s.

(** [on_connection_closed] *)
Definition on_connection_closed (peer_id : PeerId) (connection_id : ConnectionId) (s : t) :
    exec t :=
  connections ← expect (connected s !! peer_id)
    (str "Expected some connections established to peer before closing.");
  '(conn, connections) ← expect
    (p ← position (Connection.has_id connection_id) connections; vec_remove p connections)
    (str "Expected connection to be establised before close.");
  let s := set_connected (<[peer_id := connections]> (connected s)) s in
  let s := match connections with
           | [] => set_connected (delete peer_id (connected s)) s
           | _ => s
           end in
  let s := foldl (fun s request_id =>
    push_event (FileGetEvent.OutboundFailure peer_id request_id
                  OutboundFailure.ConnectionClosed) s)
    s (set_iter (Connection.pending_outbound_responses conn)) in
  let s := foldl (fun s request_id =>
    push_event (FileGetEvent.InboundFailure peer_id request_id
                  InboundFailure.ConnectionClosed) s)
    s (set_iter (Connection.pending_inbound_responses conn)) in
  Return s.

(** [on_address_change] *)
Definition on_address_change (peer_id : PeerId) (connection_id : ConnectionId)
    (new : ConnectedPoint.t) (s : t) : exec t :=
  let new_address := match new with
                     | ConnectedPoint.Dialer address => Some address
                     | ConnectedPoint.Listener => None
                     end in
  connections ← expect (connected s !! peer_id)
    (str "Address change can only happen for established connections.");
  _ ← expect (find_first (Connection.has_id connection_id) connections)
    (str "Address change can only happen for established connections.");
  Return (set_connected
    (<[peer_id := update_first (Connection.has_id connection_id)
                    (Connection.set_address new_address) connections]> (connected s)) s).

(** [one_dial_failure] *)
Definition one_dial_failure (peer_id : option PeerId) (s : t) : t :=
  match peer_id with
  | Some peer_id =>
      match pending_outbound_requests s !! peer_id with
      | Some pending =>
          let s := set_pending_outbound_requests
            (delete peer_id (pending_outbound_requests s)) s in
          foldl (fun s request =>
            push_event (FileGetEvent.OutboundFailure peer_id
              (FileGetOutboundProtocol.request_id request) OutboundFailure.DialFailure) s)
            s pending
      | None => s
      end
  | None => s
  end.

(** The connection [connected.get_mut(peer_id).and_then(find)] reaches. *)
Definition find_connection (peer_id : PeerId) (connection_id : ConnectionId) (s : t) :
    option Connection.t :=
  connections ← connected s !! peer_id;
  find_first (Connection.has_id connection_id) connections.

(** Mutation through that reference. *)
Definition update_connection (peer_id : PeerId) (connection_id : ConnectionId)
    (f : Connection.t -> Connection.t) (s : t) : t :=
  set_connected
    (alter (update_first (Connection.has_id connection_id) f) peer_id (connected s)) s.

(** [remove_pending_inbound_response] *)
Definition remove_pending_inbound_response (peer_id : PeerId) (connection_id : ConnectionId)
    (request_id : RequestId) (s : t) : bool * t :=
  match find_connection peer_id connection_id s with
  | Some conn =>
      (bool_decide (request_id ∈ Connection.pending_inbound_responses conn),
       update_connection peer_id connection_id (fun conn => Connection.set_inbound
         (Connection.pending_inbound_responses conn ∖ {[request_id]}) conn) s)
  | None => (false, s)
  end.

(** [remove_pending_outbound_response] *)
Definition remove_pending_outbound_response (peer_id : PeerId) (connection_id : ConnectionId)
    (request_id : RequestId) (s : t) : bool * t :=
  match find_connection peer_id connection_id s with
  | Some conn =>
      (bool_decide (request_id ∈ Connection.pending_outbound_responses conn),
       update_connection peer_id connection_id (fun conn => Connection.set_outbound
         (Connection.pending_outbound_responses conn ∖ {[request_id]}) conn) s)
  | None => (false, s)
  end.

(** [FromSwarm] *)
Inductive FromSwarm : Type :=
| ConnectionEstablished (peer_id : PeerId) (connection_id : ConnectionId)
    (endpoint : ConnectedPoint.t) (other_established : Z)
| ConnectionClosed (peer_id : PeerId) (connection_id : ConnectionId)
| AddressChange (peer_id : PeerId) (connection_id : ConnectionId) (new : ConnectedPoint.t)
| DialFailure (peer_id : option PeerId)
| ListenFailure | NewListener | NewListenAddr | ExpiredListenAddr
| ListenerError | ListenerClosed | NewExternalAddr | ExpiredExternalAddr.

(** [on_swarm_event] *)
Definition on_swarm_event (event : FromSwarm) (s : t) : exec t :=
  match event with
  | ConnectionEstablished peer_id connection_id endpoint other_established =>
      on_connection_established peer_id connection_id endpoint other_established s
  | ConnectionClosed peer_id connection_id => on_connection_closed peer_id connection_id s
  | AddressChange peer_id connection_id new => on_address_change peer_id connection_id new s
  | DialFailure peer_id => Return (one_dial_failure peer_id s)
  | ListenFailure | NewListener | NewListenAddr | ExpiredListenAddr
  | ListenerError | ListenerClosed | NewExternalAddr | ExpiredExternalAddr => Return s
  end.

(** [on_connection_handler_event] *)
Definition on_connection_handler_event (peer_id : PeerId) (connection_id : ConnectionId)
    (event : FileGetHandlerEvent.t) (s : t) : exec t :=
  match event with
  | FileGetHandlerEvent.Request request_id message res_sender =>
      let s := push_event
        (FileGetEvent.RequestReceived peer_id request_id message res_sender) s in
      match find_connection peer_id connection_id s with
      | Some _ =>
          Return (update_connection peer_id connection_id (fun conn => Connection.set_outbound
            ({[request_id]} ∪ Connection.pending_outbound_responses conn) conn) s)
      | None =>
          Return (push_event (FileGetEvent.InboundFailure peer_id request_id
            InboundFailure.ConnectionClosed) s)
      end
  | FileGetHandlerEvent.Response request_id =>
      let '(removed, s) :=
        remove_pending_inbound_response peer_id connection_id request_id s in
      _ ← debug_assert debug_assertions removed
        (str "Expect request_id to be pending before receiving response.");
      Return (push_event (FileGetEvent.ResponseReceived peer_id request_id) s)
  | FileGetHandlerEvent.ResponseSent request_id =>
      let '(removed, s) :=
        remove_pending_outbound_response peer_id connection_id request_id s in
      _ ← debug_assert debug_assertions removed
        (str "Expect request_id to be pending before sending response.");
      Return (push_event (FileGetEvent.ResponseSent peer_id request_id) s)
  | FileGetHandlerEvent.ResponseOmission request_id =>
      let '(removed, s) :=
        remove_pending_outbound_response peer_id connection_id request_id s in
      _ ← debug_assert debug_assertions removed
        (str "Expect request_id to be pending before sending response.");
      Return (push_event (FileGetEvent.InboundFailure peer_id request_id
        InboundFailure.ResponseOmission) s)
  | FileGetHandlerEvent.OutboundTimeout request_id =>
      let '(_, s) := remove_pending_inbound_response peer_id connection_id request_id s in
      Return (push_event (FileGetEvent.OutboundFailure peer_id request_id
        OutboundFailure.Timeout) s)
  | FileGetHandlerEvent.OutboundUnsupportedProtocols request_id =>
      let '(_, s) := remove_pending_inbound_response peer_id connection_id request_id s in
      Return (push_event (FileGetEvent.OutboundFailure peer_id request_id
        OutboundFailure.UnsupportedProtocols) s)
  | FileGetHandlerEvent.InboundTimeout request_id =>
      let '(_, s) := remove_pending_outbound_response peer_id connection_id request_id s in
      Return (push_event (FileGetEvent.InboundFailure peer_id request_id
        InboundFailure.Timeout) s)
  | FileGetHandlerEvent.InboundUnsupportedProtocols request_id =>
      let '(_, s) := remove_pending_outbound_response peer_id connection_id request_id s in
      Return (push_event (FileGetEvent.InboundFailure peer_id request_id
        InboundFailure.UnsupportedProtocols) s)
  end.

(** [poll] *)
Definition poll (s : t) : Poll Action * t :=
  match pop_front (pending_events s) with
  | (Some event, q) => (Ready event, set_pending_events q s)
  | (None, q) =>
      let s := if bool_decide (EMPTY_QUEUE_SHRINK_THRESHOLD < vd_capacity q)%nat
               then set_pending_events (shrink_to_fit q) s else s in
      (Pending, s)
  end.
End FileGet.
End FileGet.
