(* ===== verification/Ledger.v ===== *)
(** * The life of an outbound request (abstract specification)

    What the behaviour promises about the requests it is given, without
    connections, queues or maps: every identifier is issued once, waits for a
    connection to its peer or is sent on one, and is finished by one report to
    the application.  [BehaviourRefinement.v] proves that [FileGet] implements
    this machine. *)
From S2P Require Import Prelude Externals FileGetTypes.

Module Ledger.
Section Ledger.
Context `{Ext}.

(** Where an unfinished request is. *)
Inductive status : Type :=
| Waiting (p : PeerId)
| Sent (p : PeerId) (c : ConnectionId).

(** The requests issued so far are those numbered from 1 up to [next]. *)
Record t : Type := mk {
  next : Z;
  live : gmap RequestId status;
  finished : list (RequestId * FileGetEvent.t);
}.

Definition init : t := mk 1 ∅ [].

(** The request a report is about. *)
Definition about (ev : FileGetEvent.t) : RequestId :=
  match ev with
  | FileGetEvent.RequestReceived _ r _ _ => r
  | FileGetEvent.ResponseReceived _ r => r
  | FileGetEvent.ResponseSent _ r => r
  | FileGetEvent.OutboundFailure _ r _ => r
  | FileGetEvent.InboundFailure _ r _ => r
  end.

Inductive step : t -> t -> Prop :=
| step_issue p L :
    next L < two64 ->
    step L (mk (next L + 1) (<[mkRequestId (next L) := Waiting p]> (live L)) (finished L))
| step_dispatch r p c L :
    live L !! r = Some (Waiting p) ->
    step L (mk (next L) (<[r := Sent p c]> (live L)) (finished L))
| step_finish r st ev L :
    live L !! r = Some st -> about ev = r ->
    step L (mk (next L) (delete r (live L)) (finished L ++ [(r, ev)])).

(** Every issued request is either unfinished or finished, and finished at
    most once. *)
Record wf (L : t) : Prop := {
  wf_next : (1 <= next L <= two64)%Z;
  wf_issued r : (1 <= request_id_0 r < next L) <-> r ∈ dom (live L) \/ r ∈ (finished L).*1;
  wf_disjoint r : r ∈ dom (live L) -> r ∉ (finished L).*1;
  wf_once : NoDup (finished L).*1;
  wf_about r ev : (r, ev) ∈ finished L -> about ev = r;
}.

Lemma wf_init : wf init.
Proof.
  split; simpl; try set_solver.
  - unfold two64. lia.
  - intros r. split; [lia|set_solver].
  - constructor.
Qed.

Lemma wf_live_range L r st :
  wf L -> live L !! r = Some st -> 1 <= request_id_0 r < next L.
Proof. intros HL Hr. apply (wf_issued _ HL). left. by apply elem_of_dom_2 in Hr. Qed.

Lemma wf_fresh L : wf L -> live L !! mkRequestId (next L) = None.
Proof.
  intros HL. destruct (live L !! _) eqn:E; [|done].
  apply (wf_live_range _ _ _ HL) in E. simpl in E. lia.
Qed.

Lemma wf_step L L' : step L L' -> wf L -> wf L'.
Proof.
  destruct 1 as [p L Hn|r p c L Hr|r st ev L Hr Hev]; intros HL; destruct HL as [Hnx Hiss Hd Ho Ha].
  - assert ((mkRequestId (next L) ∉ dom (live L)) /\ (mkRequestId (next L) ∉ (finished L).*1)) as [Hf1 Hf2].
    { split; intros Hin; [specialize (Hiss (mkRequestId (next L))) as [_ Hiss];
        specialize (Hiss (or_introl Hin))
      |specialize (Hiss (mkRequestId (next L))) as [_ Hiss]; specialize (Hiss (or_intror Hin))];
      simpl in Hiss; lia. }
    split; simpl; try done; [lia| |].
    + intros [n]. rewrite dom_insert_L, elem_of_union, elem_of_singleton.
      specialize (Hiss (mkRequestId n)) as [Hi1 Hi2]; simpl in *.
      split; [|intros [[[= ->]|?]|?]; [lia|specialize (Hi2 ltac:(auto)); lia..]].
      intros ?. destruct (decide (n = next L)) as [->|]; [by do 2 left|].
      destruct Hi1; [lia| |]; auto.
    + intros r. rewrite dom_insert_L. set_solver.
  - assert (dom (<[r:=Sent p c]> (live L)) = dom (live L)) as Hdom.
    { apply dom_insert_lookup_L. by eexists. }
    split; simpl; rewrite ?Hdom; done.
  - assert (r ∈ dom (live L)) as Hin by (by apply elem_of_dom_2 in Hr).
    split; simpl; rewrite ?fmap_app; simpl; try done.
    + intros r'. rewrite Hiss, dom_delete_L, elem_of_difference, elem_of_app,
        elem_of_singleton, list_elem_of_singleton.
      destruct (decide (r' = r)) as [->|]; naive_solver.
    + intros r'. rewrite dom_delete_L. set_solver.
    + apply NoDup_app. split_and!; [done| |apply NoDup_singleton]. set_solver.
    + intros r' ev'. rewrite elem_of_app, list_elem_of_singleton. naive_solver.
Qed.

Lemma wf_steps L L' : rtc step L L' -> wf L -> wf L'.
Proof. induction 1; eauto using wf_step. Qed.

(** A finished report is never withdrawn, and the count of issued requests
    never decreases. *)
Lemma steps_mono L L' :
  rtc step L L' -> next L <= next L' /\ (finished L `prefix_of` finished L').
Proof.
  induction 1 as [L|L1 L2 L3 H12 _ [IH1 IH2]]; [done|].
  assert (next L1 <= next L2 /\ (finished L1 `prefix_of` finished L2)) as [??].
  { destruct H12; simpl; split; try lia; try done. by apply prefix_app_r. }
  split; [lia|by etrans].
Qed.

(** Reports selected by their kind. *)
Lemma omap_about_elem (f : FileGetEvent.t -> option RequestId)
    (fin : list (RequestId * FileGetEvent.t)) r :
  (forall r ev, (r, ev) ∈ fin -> about ev = r) ->
  (forall ev r, f ev = Some r -> about ev = r) ->
  r ∈ omap f fin.*2 -> r ∈ fin.*1.
Proof.
  intros Ha Hf Hr. apply list_elem_of_omap in Hr as (ev & Hev & Hr).
  apply list_elem_of_fmap in Hev as ([r' ev'] & -> & Hin). simpl in *.
  apply list_elem_of_fmap. exists (r', ev'). split; [|done]. simpl.
  rewrite <-(Ha _ _ Hin). symmetry. by apply Hf.
Qed.

Lemma omap_about_NoDup (f : FileGetEvent.t -> option RequestId)
    (fin : list (RequestId * FileGetEvent.t)) :
  NoDup fin.*1 -> (forall r ev, (r, ev) ∈ fin -> about ev = r) ->
  (forall ev r, f ev = Some r -> about ev = r) ->
  NoDup (omap f fin.*2).
Proof.
  intros Hnd Ha Hf. induction fin as [|[r ev] fin IH]; csimpl in *; [constructor|].
  apply NoDup_cons in Hnd as [Hr Hnd].
  assert (NoDup (omap f fin.*2)) as IH'.
  { apply IH; [done|]. intros. apply Ha. set_solver. }
  destruct (f ev) as [r'|] eqn:E; [|done]. apply NoDup_cons. split; [|done].
  intros Hin. apply Hr. apply (omap_about_elem f) in Hin; [|intros; apply Ha; set_solver|done].
  apply Hf in E. rewrite <-(Ha r ev); [|set_solver]. by rewrite E.
Qed.

(** ** Batches of steps *)

(** Sending all of [rs] from waiting for [p] to connection [c]. *)
Lemma dispatch_all p c rs L :
  NoDup rs -> (forall r, r ∈ rs -> live L !! r = Some (Waiting p)) ->
  exists L', rtc step L L' /\ next L' = next L /\ finished L' = finished L /\
    forall r, live L' !! r = if decide (r ∈ rs) then Some (Sent p c) else live L !! r.
Proof.
  revert L; induction rs as [|r rs IH]; intros L Hnd Hw.
  - exists L. split_and!; [done..|]. intros r. by rewrite decide_False by set_solver.
  - apply NoDup_cons in Hnd as [Hr Hnd].
    assert (live L !! r = Some (Waiting p)) as Hlr by (apply Hw; set_solver).
    set (L1 := mk (next L) (<[r := Sent p c]> (live L)) (finished L)).
    destruct (IH L1) as (L' & Hs & Hn & Hf & Hl); [done| |].
    { intros r' Hr'. simpl. rewrite lookup_insert_ne by set_solver. apply Hw. set_solver. }
    exists L'. split_and!; [|done..|].
    + eapply rtc_l; [|done]. by apply step_dispatch.
    + intros r'. rewrite Hl. simpl. destruct (decide (r = r')) as [->|].
      * rewrite lookup_insert_eq. by rewrite decide_False, decide_True by set_solver.
      * rewrite lookup_insert_ne by done. destruct (decide (r' ∈ rs)).
        -- by rewrite decide_True by set_solver.
        -- by rewrite decide_False by set_solver.
Qed.

(** Finishing all of [rs], each with its report. *)
Lemma finish_all (report : RequestId -> FileGetEvent.t) rs L :
  NoDup rs -> (forall r, r ∈ rs -> is_Some (live L !! r) /\ about (report r) = r) ->
  exists L', rtc step L L' /\ next L' = next L /\
    finished L' = finished L ++ ((fun r => (r, report r)) <$> rs) /\
    forall r, live L' !! r = if decide (r ∈ rs) then None else live L !! r.
Proof.
  revert L; induction rs as [|r rs IH]; intros L Hnd Hw.
  - exists L. rewrite app_nil_r. split_and!; [done..|]. intros r. by rewrite decide_False by set_solver.
  - apply NoDup_cons in Hnd as [Hr Hnd].
    destruct (Hw r) as [[st Hst] Hab]; [set_solver|].
    set (L1 := mk (next L) (delete r (live L)) (finished L ++ [(r, report r)])).
    destruct (IH L1) as (L' & Hs & Hn & Hf & Hl); [done| |].
    { intros r' Hr'. simpl. rewrite lookup_delete_ne by set_solver. apply Hw. set_solver. }
    exists L'. split_and!; [|done| |].
    + eapply rtc_l; [|done]. by eapply step_finish.
    + rewrite Hf, fmap_cons. simpl. by rewrite <-(assoc_L (++)).
    + intros r'. rewrite Hl. simpl. destruct (decide (r = r')) as [->|].
      * rewrite lookup_delete_eq, (decide_True (P := r' ∈ r' :: rs)) by set_solver.
        by case_decide.
      * rewrite lookup_delete_ne by done. destruct (decide (r' ∈ rs)).
        -- by rewrite decide_True by set_solver.
        -- by rewrite decide_False by set_solver.
Qed.
End Ledger.
End Ledger.
