(* ===== verification/BehaviourLemmas.v ===== *)
(** * Lemmas on the operations of the behaviour

    Where a request is ([tracked]), the structural invariant ([wf]), and what
    each operation of [FileGet] does to both.  [BehaviourRefinement.v] builds
    the refinement and the trace theorems from these lemmas. *)
From S2P Require Import Prelude Externals FileGetTypes Handler Behaviour.
Import FileGet.

(** ** Searching and updating a vector of connections *)
Section connections.
Context `{Ext}.
Implicit Types cs : list Connection.t.

Lemma has_id_spec c conn : Connection.has_id c conn = true <-> Connection.id conn = c.
Proof. apply bool_decide_eq_true. Qed.

Lemma has_id_false c conn : Connection.has_id c conn = false <-> Connection.id conn <> c.
Proof. apply bool_decide_eq_false. Qed.

Lemma find_first_Some c cs conn :
  find_first (Connection.has_id c) cs = Some conn -> conn ∈ cs /\ Connection.id conn = c.
Proof.
  induction cs as [|x cs IH]; simpl; [done|].
  destruct (Connection.has_id c x) eqn:E; [|set_solver].
  intros [= <-]. apply has_id_spec in E. set_solver.
Qed.

Lemma find_first_is_Some c cs :
  is_Some (find_first (Connection.has_id c) cs) <-> c ∈ (Connection.id <$> cs).
Proof.
  induction cs as [|x cs IH]; simpl.
  - rewrite is_Some_alt. set_solver.
  - unfold Connection.has_id at 1. case_bool_decide; [|set_solver].
    split; [set_solver|by eexists].
Qed.

Lemma find_first_NoDup cs conn :
  NoDup (Connection.id <$> cs) -> conn ∈ cs ->
  find_first (Connection.has_id (Connection.id conn)) cs = Some conn.
Proof.
  induction cs as [|x cs IH]; simpl; [set_solver|].
  intros [Hx Hnd]%NoDup_cons [->|Hin]%elem_of_cons; unfold Connection.has_id at 1;
    case_bool_decide as E; try naive_solver.
  destruct Hx. rewrite E. apply list_elem_of_fmap. by exists conn.
Qed.

Lemma find_update_first c f cs :
  (forall x, Connection.id (f x) = Connection.id x) ->
  find_first (Connection.has_id c) (update_first (Connection.has_id c) f cs) =
  f <$> find_first (Connection.has_id c) cs.
Proof.
  intros Hf. induction cs as [|x cs IH]; simpl; [done|].
  destruct (Connection.has_id c x) eqn:E; simpl.
  - unfold Connection.has_id in *. rewrite Hf. by rewrite E.
  - by rewrite E.
Qed.

Lemma find_update_first_ne c c' f cs :
  (forall x, Connection.id (f x) = Connection.id x) -> c <> c' ->
  find_first (Connection.has_id c') (update_first (Connection.has_id c) f cs) =
  find_first (Connection.has_id c') cs.
Proof.
  intros Hf Hne. induction cs as [|x cs IH]; simpl; [done|].
  destruct (Connection.has_id c x) eqn:E; simpl.
  - apply has_id_spec in E.
    rewrite !(proj2 (has_id_false c' _)); [done|congruence|rewrite Hf; congruence].
  - by rewrite IH.
Qed.

Lemma update_first_ids c f cs :
  (forall x, Connection.id (f x) = Connection.id x) ->
  Connection.id <$> update_first (Connection.has_id c) f cs = Connection.id <$> cs.
Proof.
  intros Hf. induction cs as [|x cs IH]; simpl; [done|].
  destruct (Connection.has_id c x); csimpl; congruence.
Qed.

Lemma update_first_nil c f cs : update_first (Connection.has_id c) f cs = [] <-> cs = [].
Proof. destruct cs as [|x cs]; simpl; [done|]. by destruct (Connection.has_id c x). Qed.

Lemma insert_update_first i f cs conn :
  NoDup (Connection.id <$> cs) -> cs !! i = Some conn ->
  <[i := f conn]> cs = update_first (Connection.has_id (Connection.id conn)) f cs.
Proof.
  revert i; induction cs as [|x cs IH]; intros i; simpl; [done|].
  intros [Hx Hnd]%NoDup_cons Hi. destruct i as [|i]; simpl in *.
  - simplify_eq. unfold Connection.has_id. by rewrite bool_decide_eq_true_2.
  - unfold Connection.has_id at 1. rewrite bool_decide_eq_false_2.
    + by rewrite (IH i).
    + intros E. apply Hx. rewrite E. apply list_elem_of_fmap. exists conn.
      split; [done|]. by eapply list_elem_of_lookup_2.
Qed.

Lemma position_remove c cs :
  NoDup (Connection.id <$> cs) -> c ∈ (Connection.id <$> cs) ->
  exists conn,
    (p ← position (Connection.has_id c) cs; vec_remove p cs) =
      Some (conn, filter (fun x => Connection.id x <> c) cs) /\
    find_first (Connection.has_id c) cs = Some conn.
Proof.
  induction cs as [|x cs IH]; simpl; [set_solver|].
  intros [Hx Hnd]%NoDup_cons Hin. unfold Connection.has_id at 1 3.
  rewrite filter_cons. case_bool_decide as E; simpl.
  - exists x. split; [|done]. unfold vec_remove; simpl. do 2 f_equal.
    rewrite decide_False by naive_solver. symmetry. apply filter_all.
    intros y Hy Heq. apply Hx. rewrite E, <-Heq. by apply list_elem_of_fmap_2.
  - rewrite decide_True by done.
    destruct IH as (conn & Hr & Hf); [done|set_solver|]. exists conn. split; [|done].
    destruct (position _ cs) as [p|] eqn:Ep; simpl in *; [|done].
    unfold vec_remove in *. simpl. destruct (cs !! p); simpl in *; [|done]. congruence.
Qed.
End connections.

Section BehaviourLemmas.
Context `{Ext, Platform, HashOrder} `{!FuturesUnordered InboundFut InboundOut ChanEnv}.
Implicit Types s : FileGet.t.

(** ** Where a request of ours is *)

(** [r] is buffered until a connection to [p] exists. *)
Definition waits s (p : PeerId) (r : RequestId) : Prop :=
  exists l, pending_outbound_requests s !! p = Some l /\
    r ∈ (FileGetOutboundProtocol.request_id <$> l).

(** [r] was handed to connection [c] of [p] and is not answered yet. *)
Definition inflight s (p : PeerId) (c : ConnectionId) (r : RequestId) : Prop :=
  exists conn, find_connection p c s = Some conn /\
    r ∈ Connection.pending_inbound_responses conn.

(** The identifiers of the connections to [p]. *)
Definition connection_ids s (p : PeerId) : list ConnectionId :=
  Connection.id <$> default [] (connected s !! p).

(** Structural invariant: [connected] holds no empty vector and no duplicate
    connection, and a request is buffered only while its peer is not
    connected. *)
Record wf s : Prop := {
  wf_nonempty p : connected s !! p <> Some [];
  wf_nodup p : NoDup (connection_ids s p);
  wf_waiting p l : pending_outbound_requests s !! p = Some l ->
    NoDup (FileGetOutboundProtocol.request_id <$> l) /\ connected s !! p = None;
}.

(** Marking a request as in flight on a connection. *)
Definition mark (r : RequestId) (conn : Connection.t) : Connection.t :=
  Connection.set_inbound ({[r]} ∪ Connection.pending_inbound_responses conn) conn.

(** Handing a request to connection [c] of [p]. *)
Definition hand_over (p : PeerId) (c : ConnectionId) s (rq : FileGetOutboundProtocol.t) :
    FileGet.t :=
  push_action (NotifyHandler p c rq)
    (update_connection p c (mark (FileGetOutboundProtocol.request_id rq)) s).

(** The actions in the queue. *)
Definition queued s : list Action := vd_items (pending_events s).

(** ** Projections of the composite updates *)
Lemma queued_push_action a s : queued (push_action a s) = queued s ++ [a].
Proof. done. Qed.

Lemma find_connection_set_connected p c m s :
  find_connection p c (set_connected m s) =
  (cs ← m !! p; find_first (Connection.has_id c) cs).
Proof. done. Qed.

Lemma lookup_update_connection p c f s p' :
  connected (update_connection p c f s) !! p' =
  (if decide (p = p') then update_first (Connection.has_id c) f <$> connected s !! p'
   else connected s !! p').
Proof.
  simpl. case_decide as E; [subst; by rewrite lookup_alter_eq|by rewrite lookup_alter_ne].
Qed.

Lemma find_update_connection p c f s p' c' :
  (forall x, Connection.id (f x) = Connection.id x) ->
  find_connection p' c' (update_connection p c f s) =
  (if decide (p = p' /\ c = c') then f <$> find_connection p' c' s
   else find_connection p' c' s).
Proof.
  intros Hf. unfold find_connection at 1. rewrite lookup_update_connection.
  unfold find_connection. destruct (decide (p = p')) as [->|].
  - destruct (connected s !! p') as [cs|]; simpl; [|by repeat case_decide].
    destruct (decide (c = c')) as [->|].
    + rewrite decide_True by done. by apply find_update_first.
    + rewrite decide_False by naive_solver. by apply find_update_first_ne.
  - rewrite decide_False by naive_solver. done.
Qed.

Lemma connection_ids_update_connection p c f s p' :
  (forall x, Connection.id (f x) = Connection.id x) ->
  connection_ids (update_connection p c f s) p' = connection_ids s p'.
Proof.
  intros Hf. unfold connection_ids. rewrite lookup_update_connection. case_decide; [|done].
  destruct (connected s !! p') as [cs|]; simpl; [|done]. by apply update_first_ids.
Qed.

Lemma connected_update_connection_None p c f s p' :
  connected (update_connection p c f s) !! p' = None <-> connected s !! p' = None.
Proof. rewrite lookup_update_connection. case_decide; [|done]. apply fmap_None. Qed.

Lemma wf_update_connection p c f s :
  (forall x, Connection.id (f x) = Connection.id x) -> wf s -> wf (update_connection p c f s).
Proof.
  intros Hf [Hne Hnd Hw]. split.
  - intros p'. rewrite lookup_update_connection. case_decide; [|done].
    rewrite fmap_Some. intros (cs & Hcs & Hn). symmetry in Hn.
    apply update_first_nil in Hn as ->. by destruct (Hne p').
  - intros p'. by rewrite connection_ids_update_connection.
  - intros p' l Hl. rewrite connected_update_connection_None. by apply Hw.
Qed.

Lemma connection_ids_elem s p c :
  c ∈ connection_ids s p <-> is_Some (find_connection p c s).
Proof.
  unfold connection_ids, find_connection. destruct (connected s !! p) as [cs|]; simpl.
  - by rewrite find_first_is_Some.
  - rewrite is_Some_alt. set_solver.
Qed.
End BehaviourLemmas.
