(* ===== verification/BehaviourTracking.v ===== *)
(** * What each operation does to the requests in progress

    [tracked s r st] reads the status of an outbound request off the state of
    the behaviour; the lemmas below give, for every operation that moves a
    request, the new state in closed form, its statuses and its queue. *)
From S2P Require Import Prelude Externals FileGetTypes Handler Behaviour Ledger BehaviourLemmas.
Import FileGet.

Section Tracking.
Context `{Ext, Platform, HashOrder} `{!FuturesUnordered InboundFut InboundOut ChanEnv}.
Implicit Types s : FileGet.t.

(** The status of request [r] in [s]. *)
Definition tracked s (r : RequestId) (st : Ledger.status) : Prop :=
  match st with
  | Ledger.Waiting p => waits s p r
  | Ledger.Sent p c => inflight s p c r
  end.

(** Clearing a request from a connection. *)
Definition unmark (r : RequestId) (conn : Connection.t) : Connection.t :=
  Connection.set_inbound (Connection.pending_inbound_responses conn ∖ {[r]}) conn.

(** Appending events to the queue. *)
Definition push_events (evs : list FileGetEvent.t) s : FileGet.t :=
  set_pending_events (push_back_all (pending_events s) (GenerateEvent <$> evs)) s.

(** The state after a new connection [c] to [p]. *)
Definition established_state (p : PeerId) (c : ConnectionId) (address : option Multiaddr) s :
    FileGet.t :=
  let s1 := set_connected (<[p := default [] (connected s !! p) ++ [Connection.new c address]]>
    (connected s)) s in
  match pending_outbound_requests s !! p with
  | Some pending => foldl (hand_over p c)
      (set_pending_outbound_requests (delete p (pending_outbound_requests s)) s1) pending
  | None => s1
  end.

(** The connections of [p] without [c], as [connected] stores them. *)
Definition without (c : ConnectionId) (cs : list Connection.t) : option (list Connection.t) :=
  match filter (fun x => Connection.id x <> c) cs with
  | [] => None
  | cs' => Some cs'
  end.

(** The reports of a closed connection. *)
Definition closing_events (p : PeerId) (conn : Connection.t) : list FileGetEvent.t :=
  ((fun r => FileGetEvent.OutboundFailure p r OutboundFailure.ConnectionClosed) <$>
     set_iter (Connection.pending_outbound_responses conn)) ++
  ((fun r => FileGetEvent.InboundFailure p r InboundFailure.ConnectionClosed) <$>
     set_iter (Connection.pending_inbound_responses conn)).

(** ** General facts *)
Lemma tracked_ext s s' r st :
  connected s' = connected s -> pending_outbound_requests s' = pending_outbound_requests s ->
  tracked s' r st <-> tracked s r st.
Proof.
  intros Hc Hp. destruct st as [p|p c]; simpl; unfold waits, inflight, find_connection;
    by rewrite ?Hc, ?Hp.
Qed.

Lemma wf_ext s s' :
  connected s' = connected s -> pending_outbound_requests s' = pending_outbound_requests s ->
  wf s -> wf s'.
Proof.
  intros Hc Hp [? Hnd ?]. unfold connection_ids in *.
  split; unfold connection_ids; rewrite ?Hc, ?Hp; done.
Qed.

Lemma wf_push_action a s : wf s -> wf (push_action a s).
Proof. by apply wf_ext. Qed.

Lemma wf_push_events evs s : wf s -> wf (push_events evs s).
Proof. by apply wf_ext. Qed.

Lemma queued_push_events evs s : queued (push_events evs s) = queued s ++ (GenerateEvent <$> evs).
Proof. apply vd_items_push_back_all. Qed.

Lemma foldl_push_event {A} (f : A -> FileGetEvent.t) (l : list A) s :
  foldl (fun s x => push_event (f x) s) s l = push_events (f <$> l) s.
Proof.
  revert s; induction l as [|x l IH]; intros s; [by destruct s|]. simpl. rewrite IH. done.
Qed.

Lemma inflight_connected s p c r : inflight s p c r -> is_Some (find_connection p c s).
Proof. intros (conn & ? & ?). by exists conn. Qed.

Lemma find_connection_None s p c : connected s !! p = None -> find_connection p c s = None.
Proof. unfold find_connection. by intros ->. Qed.

(** ** Sending *)
Lemma try_send_disconnected p rq s :
  connected s !! p = None -> try_send_request p rq s = Return (Some rq, s).
Proof. unfold try_send_request. by intros ->. Qed.

Lemma try_send_connected p rq s cs :
  wf s -> connected s !! p = Some cs ->
  exists conn,
    cs !! Z.to_nat (as_usize (request_id_0 (FileGetOutboundProtocol.request_id rq))
                    mod Z.of_nat (length cs)) = Some conn /\
    is_Some (find_connection p (Connection.id conn) s) /\
    try_send_request p rq s = Return (None, hand_over p (Connection.id conn) s rq).
Proof.
  intros [Hne Hnd _] Hcs. specialize (Hnd p). unfold connection_ids in Hnd. rewrite Hcs in Hnd.
  simpl in Hnd. destruct (lookup_lt_is_Some_2 cs
    (Z.to_nat (as_usize (request_id_0 (FileGetOutboundProtocol.request_id rq))
               mod Z.of_nat (length cs)))) as [conn Hconn].
  { destruct cs; [by destruct (Hne p)|].
    match goal with |- context [?a mod ?b] => pose proof (Z.mod_pos_bound a b) end.
    simpl length in *. lia. }
  exists conn. split_and!; [done| |].
  - unfold find_connection. rewrite Hcs. simpl. apply find_first_is_Some, list_elem_of_fmap.
    exists conn. split; [done|]. by eapply list_elem_of_lookup_2.
  - unfold try_send_request. rewrite Hcs. destruct cs as [|c0 cs0] eqn:E; [done|].
    rewrite <-E in *. clear E c0 cs0. rewrite Hconn. simpl. do 2 f_equal.
    unfold hand_over, update_connection. f_equal. f_equal.
    apply map_eq. intros p'. destruct (decide (p = p')) as [->|].
    + rewrite lookup_insert_eq, lookup_alter_eq, Hcs. simpl. f_equal.
      by apply (insert_update_first _ (mark (FileGetOutboundProtocol.request_id rq))).
    + by rewrite lookup_insert_ne, lookup_alter_ne.
Qed.

Lemma wf_hand_over p c s rq : wf s -> wf (hand_over p c s rq).
Proof. intros. by apply wf_push_action, wf_update_connection. Qed.

Lemma find_connection_hand_over p c s rq p' c' :
  find_connection p' c' (hand_over p c s rq) =
  (if decide (p = p' /\ c = c')
   then mark (FileGetOutboundProtocol.request_id rq) <$> find_connection p' c' s
   else find_connection p' c' s).
Proof. by apply find_update_connection. Qed.

Lemma tracked_hand_over p c s rq r st :
  is_Some (find_connection p c s) ->
  tracked (hand_over p c s rq) r st <->
  tracked s r st \/ (r = FileGetOutboundProtocol.request_id rq /\ st = Ledger.Sent p c).
Proof.
  intros [conn Hconn]. destruct st as [p'|p' c']; simpl.
  - unfold waits. simpl. naive_solver.
  - unfold inflight. rewrite find_connection_hand_over.
    destruct (decide (p = p' /\ c = c')) as [[<- <-]|Hne].
    + rewrite Hconn. simpl. split.
      * intros (? & [= <-] & Hr). simpl in Hr. set_solver.
      * intros [(? & [= <-] & Hr)|[-> _]]; eexists; (split; [done|]); simpl; set_solver.
    + naive_solver.
Qed.

(** A whole buffer handed to one connection. *)
Lemma hand_over_all p c l s :
  is_Some (find_connection p c s) -> wf s ->
  let s' := foldl (hand_over p c) s l in
  wf s' /\ is_Some (find_connection p c s') /\
  queued s' = queued s ++ (NotifyHandler p c <$> l) /\
  requset_id_generator s' = requset_id_generator s /\
  (forall r st, tracked s' r st <->
    tracked s r st \/ ((r ∈ (FileGetOutboundProtocol.request_id <$> l)) /\ st = Ledger.Sent p c)).
Proof.
  revert s; induction l as [|rq l IH]; intros s Hc Hs; simpl.
  - rewrite app_nil_r. split_and!; try done. set_solver.
  - destruct (IH (hand_over p c s rq)) as (Hwf & Hc' & Hq & Hg & Ht).
    { rewrite find_connection_hand_over, decide_True by done. by apply fmap_is_Some. }
    { by apply wf_hand_over. }
    split_and!; [done..| | |].
    + rewrite Hq. unfold hand_over at 1. rewrite queued_push_action.
      by rewrite <-(assoc_L (++)).
    + by rewrite Hg.
    + intros r st. rewrite Ht, tracked_hand_over by done. set_solver.
Qed.

Lemma exec_foldl_hand_over p c l s conn :
  connected s !! p = Some [conn] -> Connection.id conn = c -> wf s ->
  exec_foldl (fun s request => '(_, s) ← try_send_request p request s; Return s) s l =
  Return (foldl (hand_over p c) s l).
Proof.
  revert s conn; induction l as [|rq l IH]; intros s conn Hp Hc Hs; [done|]. simpl.
  destruct (try_send_connected p rq s _ Hs Hp) as (conn' & Hconn & _ & ->).
  apply list_elem_of_lookup_2, list_elem_of_singleton in Hconn as ->. rewrite Hc. simpl.
  apply (IH _ (mark (FileGetOutboundProtocol.request_id rq) conn)); [|done|by apply wf_hand_over].
  unfold hand_over. simpl. rewrite lookup_alter_eq, Hp. simpl.
  by rewrite (proj2 (has_id_spec c conn)).
Qed.

(** ** A new connection *)
Lemma find_connection_default p c s :
  find_connection p c s = find_first (Connection.has_id c) (default [] (connected s !! p)).
Proof. unfold find_connection. by destruct (connected s !! p). Qed.

Lemma find_first_snoc c c' address cs :
  c ∉ (Connection.id <$> cs) ->
  find_first (Connection.has_id c') (cs ++ [Connection.new c address]) =
  (if decide (c = c') then Some (Connection.new c address)
   else find_first (Connection.has_id c') cs).
Proof.
  intros Hc. induction cs as [|x cs IH]; simpl.
  - unfold Connection.has_id. simpl. by repeat (case_decide || case_bool_decide).
  - rewrite fmap_cons, not_elem_of_cons in Hc. destruct Hc as [Hx Hc]. rewrite (IH Hc).
    destruct (Connection.has_id c' x) eqn:E; [|done]. apply has_id_spec in E.
    rewrite decide_False by congruence. done.
Qed.

(** The state with the connection added and the buffer [m] left. *)
Definition added_state (p : PeerId) (c : ConnectionId) (address : option Multiaddr)
    (m : gmap PeerId (list FileGetOutboundProtocol.t)) s : FileGet.t :=
  set_pending_outbound_requests m (set_connected
    (<[p := default [] (connected s !! p) ++ [Connection.new c address]]> (connected s)) s).

Lemma find_connection_added p c address m s p' c' :
  c ∉ connection_ids s p ->
  find_connection p' c' (added_state p c address m s) =
  (if decide (p = p' /\ c = c') then Some (Connection.new c address)
   else find_connection p' c' s).
Proof.
  intros Hc. rewrite !find_connection_default. simpl.
  destruct (decide (p = p')) as [<-|Hp].
  - rewrite lookup_insert_eq. simpl. rewrite find_first_snoc by done.
    by destruct (decide (c = c')), (decide (p = p /\ c = c')); try naive_solver.
  - rewrite lookup_insert_ne by done. rewrite decide_False by naive_solver. done.
Qed.

Lemma inflight_added p c address m s p' c' r :
  c ∉ connection_ids s p ->
  inflight (added_state p c address m s) p' c' r <-> inflight s p' c' r.
Proof.
  intros Hc. unfold inflight. rewrite find_connection_added by done.
  case_decide as E; [|done]. destruct E as [<- <-]. split.
  - intros (conn & [= <-] & Hr). set_solver.
  - intros (conn & Hconn & _). destruct Hc. apply connection_ids_elem. by eexists.
Qed.

Lemma wf_added p c address m s :
  c ∉ connection_ids s p -> wf s ->
  (forall p' l, m !! p' = Some l -> p' <> p /\ pending_outbound_requests s !! p' = Some l) ->
  wf (added_state p c address m s).
Proof.
  intros Hc [Hne Hnd Hw] Hm. split.
  - intros p'. simpl. destruct (decide (p = p')) as [<-|].
    + rewrite lookup_insert_eq. intros [= E]. by apply app_eq_nil in E as [_ [=]].
    + by rewrite lookup_insert_ne.
  - intros p'. unfold connection_ids. simpl. destruct (decide (p = p')) as [<-|].
    + rewrite lookup_insert_eq. simpl. rewrite fmap_app. apply NoDup_app. split_and!.
      * apply Hnd.
      * intros c' Hc' ->%list_elem_of_singleton. done.
      * apply NoDup_singleton.
    + rewrite lookup_insert_ne by done. apply Hnd.
  - intros p' l Hl. apply Hm in Hl as [Hp Hl]. simpl. rewrite lookup_insert_ne by done. by apply Hw.
Qed.

Lemma established_spec p c ep n s :
  wf s -> c ∉ connection_ids s p -> n = Z.of_nat (length (connection_ids s p)) ->
  exists address,
    let s' := established_state p c address s in
    on_connection_established p c ep n s = Return s' /\
    wf s' /\ requset_id_generator s' = requset_id_generator s /\
    queued s' = queued s ++ (NotifyHandler p c <$> default [] (pending_outbound_requests s !! p)) /\
    (forall r st, tracked s' r st <->
      (tracked s r st /\ st <> Ledger.Waiting p) \/ (waits s p r /\ st = Ledger.Sent p c)).
Proof.
  intros Hs Hc Hn. exists (match ep with ConnectedPoint.Dialer a => Some a | _ => None end).
  set (address := match ep with ConnectedPoint.Dialer a => Some a | _ => None end). simpl.
  unfold established_state, on_connection_established. fold address. simpl.
  destruct (pending_outbound_requests s !! p) as [l|] eqn:Hl; simpl.
  - pose proof (wf_waiting _ Hs _ _ Hl) as [Hnd Hdis].
    rewrite Hdis. simpl. unfold connection_ids in Hn, Hc. rewrite Hdis in Hn, Hc. simpl in Hn.
    rewrite bool_decide_eq_true_2 by done.
    fold (added_state p c address (delete p (pending_outbound_requests s)) s).
    set (s1 := set_pending_outbound_requests _ _).
    assert (s1 = added_state p c address (delete p (pending_outbound_requests s)) s) as Hs1.
    { unfold added_state. by rewrite Hdis. }
    assert (wf s1) as Hwf1.
    { rewrite Hs1. apply wf_added; [|done|].
      - unfold connection_ids. by rewrite Hdis.
      - intros p' l'. rewrite lookup_delete_Some. naive_solver. }
    assert (c ∉ connection_ids s p) as Hc' by (unfold connection_ids; by rewrite Hdis).
    assert (is_Some (find_connection p c s1)) as Hc1.
    { rewrite Hs1, find_connection_added, decide_True by done. by eexists. }
    destruct (hand_over_all p c l s1 Hc1 Hwf1) as (Hwf & _ & Hq & Hg & Ht).
    split_and!; [|done|done|done|].
    + rewrite (exec_foldl_hand_over p c l s1 (Connection.new c address)); [done| |done|done].
      unfold s1. simpl. by rewrite lookup_insert_eq.
    + intros r st. rewrite Ht.
      assert (tracked s1 r st <-> tracked s r st /\ st <> Ledger.Waiting p) as ->.
      { rewrite Hs1. destruct st as [p'|p' c']; simpl.
        - unfold waits. simpl. setoid_rewrite lookup_delete_Some. naive_solver.
        - rewrite inflight_added by done. naive_solver. }
      unfold waits. rewrite Hl. naive_solver.
  - rewrite app_nil_r.
    match goal with |- (?X = _) /\ _ => replace X with
      (Return (added_state p c address (pending_outbound_requests s) s)) end.
    2:{ unfold added_state. case_bool_decide; by destruct s. }
    split_and!; [by destruct s| |done|done|].
    + apply (wf_ext (added_state p c address (pending_outbound_requests s) s)); [done..|].
      apply wf_added; [done..|]. intros p' l' Hp'. split; [congruence|done].
    + intros r st.
      rewrite <-(tracked_ext _ (added_state p c address (pending_outbound_requests s) s)) by done.
      destruct st as [p'|p' c']; simpl.
      * unfold waits. simpl. naive_solver.
      * rewrite inflight_added by done. unfold waits. naive_solver.
Qed.

(** ** A closed connection *)

(** The state with the connection taken out. *)
Definition removed_state (p : PeerId) (c : ConnectionId) s : FileGet.t :=
  set_connected (partial_alter (fun o => cs ← o; without c cs) p (connected s)) s.

Lemma default_without c cs :
  default [] (without c cs) = filter (fun x => Connection.id x <> c) cs.
Proof. unfold without. by destruct (filter _ cs). Qed.

Lemma find_first_filter_ne c c' cs :
  find_first (Connection.has_id c') (filter (fun x => Connection.id x <> c) cs) =
  (if decide (c = c') then None else find_first (Connection.has_id c') cs).
Proof.
  induction cs as [|x cs IH]; simpl; [by case_decide|]. rewrite filter_cons.
  destruct (decide (Connection.id x <> c)) as [Hx|Hx]; simpl.
  - rewrite IH. destruct (Connection.has_id c' x) eqn:E; [|done].
    apply has_id_spec in E. by rewrite decide_False by congruence.
  - apply dec_stable in Hx. rewrite IH. case_decide; [done|]. by rewrite (proj2 (has_id_false c' x)) by congruence.
Qed.

Lemma find_connection_removed p c s p' c' :
  find_connection p' c' (removed_state p c s) =
  (if decide (p = p' /\ c = c') then None else find_connection p' c' s).
Proof.
  rewrite !find_connection_default. simpl. destruct (decide (p = p')) as [<-|Hp].
  - rewrite lookup_partial_alter_eq. destruct (connected s !! p) as [cs|]; simpl.
    + rewrite default_without, find_first_filter_ne.
      by destruct (decide (c = c')), (decide (p = p /\ c = c')); try naive_solver.
    + by case_decide.
  - rewrite lookup_partial_alter_ne by done. by rewrite decide_False by naive_solver.
Qed.

Lemma wf_removed p c s : wf s -> wf (removed_state p c s).
Proof.
  intros [Hne Hnd Hw]. split.
  - intros p'. simpl. destruct (decide (p = p')) as [<-|].
    + rewrite lookup_partial_alter_eq. destruct (connected s !! p) as [cs|]; simpl; [|done].
      unfold without. by destruct (filter _ cs).
    + by rewrite lookup_partial_alter_ne.
  - intros p'. unfold connection_ids. simpl. destruct (decide (p = p')) as [<-|].
    + rewrite lookup_partial_alter_eq. specialize (Hnd p). unfold connection_ids in Hnd.
      destruct (connected s !! p) as [cs|]; simpl in *; [|constructor].
      rewrite default_without. eapply sublist_NoDup; [done|].
      by apply fmap_sublist, sublist_filter.
    + rewrite lookup_partial_alter_ne by done. apply Hnd.
  - intros p' l Hl. simpl in *. apply Hw in Hl as [? Hp']. split; [done|].
    destruct (decide (p = p')) as [<-|].
    + by rewrite lookup_partial_alter_eq, Hp'.
    + by rewrite lookup_partial_alter_ne.
Qed.

Lemma tracked_removed p c s r st :
  tracked (removed_state p c s) r st <-> tracked s r st /\ st <> Ledger.Sent p c.
Proof.
  destruct st as [p'|p' c']; simpl.
  - unfold waits. simpl. naive_solver.
  - unfold inflight. rewrite find_connection_removed. case_decide; naive_solver.
Qed.

Lemma closed_spec p c s :
  wf s -> c ∈ connection_ids s p ->
  exists conn, find_connection p c s = Some conn /\
    on_connection_closed p c s =
      Return (push_events (closing_events p conn) (removed_state p c s)).
Proof.
  intros Hs Hc. pose proof (wf_nodup _ Hs p) as Hnd. unfold connection_ids in *.
  unfold find_connection, on_connection_closed.
  destruct (connected s !! p) as [cs|] eqn:Hcs; simpl in *; [|set_solver].
  destruct (position_remove c cs Hnd Hc) as (conn & Hr & Hf). exists conn. split; [done|].
  simpl in Hr. rewrite Hr. simpl. rewrite !foldl_push_event.
  set (s1 := match filter _ cs with [] => _ | _ => _ end).
  assert (s1 = removed_state p c s) as ->.
  { unfold s1, removed_state.
    replace (partial_alter _ p (connected s)) with
      (partial_alter (fun _ => without c cs) p (connected s)).
    2:{ apply map_eq. intros p'. destruct (decide (p = p')) as [<-|].
        - by rewrite !lookup_partial_alter_eq, Hcs.
        - by rewrite !lookup_partial_alter_ne. }
    unfold without. destruct (filter _ cs); [|done].
    unfold set_connected. simpl. by rewrite delete_insert_eq. }
  unfold push_events, closing_events. f_equal. simpl.
  unfold set_pending_events. simpl. f_equal. rewrite fmap_app.
  unfold push_back_all. by rewrite foldl_app.
Qed.

(** ** Failed dials *)
Definition undialled_state (p : PeerId) s : FileGet.t :=
  set_pending_outbound_requests (delete p (pending_outbound_requests s)) s.

Lemma dial_failure_spec p s :
  let l := default [] (pending_outbound_requests s !! p) in
  one_dial_failure (Some p) s =
    push_events ((fun r => FileGetEvent.OutboundFailure p r OutboundFailure.DialFailure) <$>
      (FileGetOutboundProtocol.request_id <$> l)) (undialled_state p s).
Proof.
  unfold one_dial_failure, undialled_state.
  destruct (pending_outbound_requests s !! p) as [l|] eqn:Hl; simpl.
  - rewrite (foldl_push_event (fun request => FileGetEvent.OutboundFailure p
      (FileGetOutboundProtocol.request_id request) OutboundFailure.DialFailure)).
    by rewrite <-list_fmap_compose.
  - destruct s. unfold push_events, set_pending_events, set_pending_outbound_requests. simpl in *.
    by rewrite delete_id.
Qed.

Lemma wf_undialled p s : wf s -> wf (undialled_state p s).
Proof.
  intros [Hne Hnd Hw]. split; [done..|]. intros p' l. simpl. rewrite lookup_delete_Some.
  intros [_ ?]. by apply Hw.
Qed.

Lemma tracked_undialled p s r st :
  tracked (undialled_state p s) r st <-> tracked s r st /\ st <> Ledger.Waiting p.
Proof.
  destruct st as [p'|p' c']; simpl.
  - unfold waits. simpl. setoid_rewrite lookup_delete_Some. naive_solver.
  - unfold inflight, find_connection. simpl. naive_solver.
Qed.

(** ** Reports of a handler about our requests *)
Lemma find_connection_unmark p c r s p' c' :
  find_connection p' c' (update_connection p c (unmark r) s) =
  (if decide (p = p' /\ c = c') then unmark r <$> find_connection p' c' s
   else find_connection p' c' s).
Proof. by apply find_update_connection. Qed.

Lemma tracked_unmark p c r s r' st :
  tracked (update_connection p c (unmark r) s) r' st <->
  tracked s r' st /\ (r', st) <> (r, Ledger.Sent p c).
Proof.
  destruct st as [p'|p' c']; simpl.
  - unfold waits. simpl. naive_solver.
  - unfold inflight. rewrite find_connection_unmark. case_decide as E; [|naive_solver].
    destruct E as [<- <-]. setoid_rewrite fmap_Some. split.
    + intros (? & (conn & ? & ->) & Hr). simpl in Hr. set_solver.
    + intros [(conn & ? & Hr) Hne]. exists (unmark r conn). split; [by eexists|].
      simpl. set_solver.
Qed.

Lemma remove_inbound_spec p c r s :
  inflight s p c r ->
  remove_pending_inbound_response p c r s = (true, update_connection p c (unmark r) s).
Proof.
  intros (conn & Hconn & Hr). unfold remove_pending_inbound_response. rewrite Hconn.
  by rewrite bool_decide_eq_true_2.
Qed.

(** Updating the inbound half of a connection moves none of our requests. *)
Lemma tracked_update_outbound p c f s r st :
  (forall x, Connection.id (f x) = Connection.id x) ->
  (forall x, Connection.pending_inbound_responses (f x) =
             Connection.pending_inbound_responses x) ->
  tracked (update_connection p c f s) r st <-> tracked s r st.
Proof.
  intros Hid Hin. destruct st as [p'|p' c']; simpl; [done|].
  unfold inflight. rewrite find_update_connection by done. case_decide; [|done].
  setoid_rewrite fmap_Some. split.
  - intros (? & (conn & ? & ->) & Hr). rewrite Hin in Hr. by exists conn.
  - intros (conn & ? & Hr). exists (f conn). rewrite Hin. naive_solver.
Qed.
End Tracking.
