(* ===== verification/BehaviourRefinement.v ===== *)
(** * The behaviour implements the ledger

    The operations of [FileGet] as one alphabet [Op], the conditions under
    which the swarm and the connection handlers call them ([contract]), the
    simulation of every operation by steps of [Ledger.step], and runs. *)
From S2P Require Import Prelude Externals FileGetTypes Handler Behaviour Ledger BehaviourLemmas BehaviourTracking.
Import FileGet.

Section Refinement.
Context `{Ext, Platform, HashOrder} `{!FuturesUnordered InboundFut InboundOut ChanEnv}.
Implicit Types s : FileGet.t.

(** A call of the application or of the swarm. *)
Inductive Op : Type :=
| SendRequest (peer_id : PeerId) (request : FileGetMessage) (file_writer : AsyncWrite)
| AddAddress (peer_id : PeerId) (address : Multiaddr)
| RemoveAddress (peer_id : PeerId) (address : Multiaddr)
| OnSwarmEvent (event : FromSwarm)
| OnHandlerEvent (peer_id : PeerId) (connection_id : ConnectionId) (event : FileGetHandlerEvent.t)
| PollOp.

(** The call, and the actions it returns to the swarm. *)
Definition apply_op (op : Op) s : exec (list Action * FileGet.t) :=
  match op with
  | SendRequest p rq w => '(_, s) ← send_request p rq w s; Return ([], s)
  | AddAddress p a => Return ([], add_address p a s)
  | RemoveAddress p a => Return ([], remove_address p a s)
  | OnSwarmEvent ev => s ← on_swarm_event ev s; Return ([], s)
  | OnHandlerEvent p c ev => s ← on_connection_handler_event p c ev s; Return ([], s)
  | PollOp => match poll s with
              | (Ready a, s) => Return ([a], s)
              | (Pending, s) => Return ([], s)
              end
  end.

(** When the swarm and the handlers make a call: connections are announced
    once, with the number of other connections to the peer, before they are
    closed; a handler reports on a request of ours only while the request is
    in flight on its connection, and on a response of ours while it is owed;
    and fewer than 2^64 requests are sent. *)
Definition contract (op : Op) s : Prop :=
  match op with
  | SendRequest _ _ _ => RequestIdGenerator.counter (requset_id_generator s) <> 0
  | OnSwarmEvent (ConnectionEstablished p c _ other_established) =>
      (c ∉ connection_ids s p) /\ other_established = Z.of_nat (length (connection_ids s p))
  | OnSwarmEvent (ConnectionClosed p c) => c ∈ connection_ids s p
  | OnSwarmEvent (AddressChange p c _) => c ∈ connection_ids s p
  | OnHandlerEvent p c (FileGetHandlerEvent.Response r)
  | OnHandlerEvent p c (FileGetHandlerEvent.OutboundTimeout r)
  | OnHandlerEvent p c (FileGetHandlerEvent.OutboundUnsupportedProtocols r) => inflight s p c r
  | OnHandlerEvent p c (FileGetHandlerEvent.ResponseSent r)
  | OnHandlerEvent p c (FileGetHandlerEvent.ResponseOmission r) =>
      exists conn, find_connection p c s = Some conn /\
        r ∈ Connection.pending_outbound_responses conn
  | _ => True
  end.

(** The relation between states of the behaviour and ledgers. *)
Record sim s (L : Ledger.t) : Prop := {
  sim_wf : wf s;
  sim_counter : RequestIdGenerator.counter (requset_id_generator s) = wrap64 (Ledger.next L);
  sim_live r st : Ledger.live L !! r = Some st <-> tracked s r st;
  sim_ledger : Ledger.wf L;
}.

(** Responses among queued actions and among reports. *)
Definition response_of (ev : FileGetEvent.t) : option RequestId :=
  match ev with FileGetEvent.ResponseReceived _ r => Some r | _ => None end.
Definition action_event (a : Action) : option FileGetEvent.t :=
  match a with GenerateEvent ev => Some ev | _ => None end.
Definition responses (acts : list Action) : list RequestId :=
  omap response_of (omap action_event acts).

(** The reports that end a request of ours: a response, a failure to send or to
    hear of it, and, with the direction [on_connection_closed] gives it, the
    loss of its connection. *)
Definition ends_request (ev : FileGetEvent.t) : bool :=
  match ev with
  | FileGetEvent.ResponseReceived _ _ => true
  | FileGetEvent.OutboundFailure _ _ OutboundFailure.ConnectionClosed => false
  | FileGetEvent.OutboundFailure _ _ _ => true
  | FileGetEvent.InboundFailure _ _ InboundFailure.ConnectionClosed => true
  | _ => false
  end.
Definition reports_of (acts : list Action) : list FileGetEvent.t :=
  filter (fun ev => ends_request ev = true) (omap action_event acts).

(** One report looks like them and is about a request of the peer: that of a
    request that comes from a connection which is gone. *)
Definition orphan (op : Op) s : list FileGetEvent.t :=
  match op with
  | OnHandlerEvent p c (FileGetHandlerEvent.Request r _ _) =>
      match find_connection p c s with
      | Some _ => []
      | None => [FileGetEvent.InboundFailure p r InboundFailure.ConnectionClosed]
      end
  | _ => []
  end.

Lemma reports_of_app l1 l2 : reports_of (l1 ++ l2) = reports_of l1 ++ reports_of l2.
Proof. unfold reports_of. by rewrite omap_app, filter_app. Qed.

Lemma reports_of_elem ev acts : ev ∈ reports_of acts -> GenerateEvent ev ∈ acts.
Proof.
  unfold reports_of. rewrite list_elem_of_filter. intros [_ (a & Ha & Hev)%list_elem_of_omap].
  destruct a; simpl in Hev; [injection Hev as ->; done|done..].
Qed.

Lemma responses_reports acts : responses acts = omap response_of (reports_of acts).
Proof.
  unfold responses, reports_of. induction (omap action_event acts) as [|ev evs IH]; [done|].
  rewrite filter_cons. destruct ev as [|p r| |p r e|p r e]; csimpl; try done.
  - by rewrite IH.
  - by destruct e; csimpl.
  - by destruct e; csimpl.
Qed.

Lemma responses_orphan op s : omap response_of (orphan op s) = [].
Proof. destruct op as [| | | |p c []|]; simpl; try done. by destruct (find_connection p c s). Qed.

(** One simulated operation: [acts] are the actions it appends to the queue,
    [fin] the reports it makes about requests of ours: each once, and there are
    no others. *)
Definition simulated (op : Op) s (L : Ledger.t) (out : list Action) s' (L' : Ledger.t)
    (acts : list Action) (fin : list (RequestId * FileGetEvent.t)) : Prop :=
  apply_op op s = Return (out, s') /\
  out ++ queued s' = queued s ++ acts /\
  rtc Ledger.step L L' /\ sim s' L' /\
  Ledger.next L' = Ledger.next L + match op with SendRequest _ _ _ => 1 | _ => 0 end /\
  Ledger.finished L' = Ledger.finished L ++ fin /\
  reports_of acts = fin.*2 ++ orphan op s /\
  responses acts = omap response_of fin.*2.

Lemma reports_responses op s acts (fin : list (RequestId * FileGetEvent.t)) :
  reports_of acts = fin.*2 ++ orphan op s -> responses acts = omap response_of fin.*2.
Proof. intros Hr. by rewrite responses_reports, Hr, omap_app, responses_orphan, app_nil_r. Qed.

(** Nothing moves: the queue may grow by actions that report nothing. *)
Lemma simulated_stutter op s L out s' acts :
  match op with SendRequest _ _ _ => False | _ => True end ->
  sim s L -> apply_op op s = Return (out, s') ->
  out ++ queued s' = queued s ++ acts -> reports_of acts = orphan op s ->
  wf s' -> requset_id_generator s' = requset_id_generator s ->
  (forall r st, tracked s' r st <-> tracked s r st) ->
  simulated op s L out s' L acts [].
Proof.
  intros Hop [Hwf Hc Hl HL] Ha Hq Hr Hwf' Hg Ht. unfold simulated. split_and!; try done.
  - split; [done|congruence| |done]. intros r st. by rewrite Ht.
  - destruct op; try done; lia.
  - by rewrite app_nil_r.
  - by apply (reports_responses op s).
Qed.

(** The simulation relation is kept when the ledger finishes the requests [rs]
    that [s'] no longer tracks. *)
Lemma sim_finished s s' L L' (rs : list RequestId) :
  sim s L -> rtc Ledger.step L L' -> wf s' ->
  requset_id_generator s' = requset_id_generator s -> Ledger.next L' = Ledger.next L ->
  (forall r, Ledger.live L' !! r = if decide (r ∈ rs) then None else Ledger.live L !! r) ->
  (forall r st, tracked s' r st <-> tracked s r st /\ r ∉ rs) ->
  sim s' L'.
Proof.
  intros [Hwf Hc Hl HL] Hs Hwf' Hg Hn Hl' Ht. split; [done|congruence| |].
  - intros r st. rewrite Hl', Ht. case_decide; [naive_solver|]. rewrite Hl. naive_solver.
  - by eapply Ledger.wf_steps.
Qed.

(** Finishing a batch: the requests [rs] leave, each reported by [report]. *)
Lemma simulated_finish op s L s' acts (rs : list RequestId) report :
  match op with SendRequest _ _ _ => False | _ => True end ->
  sim s L -> apply_op op s = Return ([], s') ->
  queued s' = queued s ++ acts ->
  NoDup rs -> (forall r, r ∈ rs -> exists st, tracked s r st) ->
  (forall r, Ledger.about (report r) = r) ->
  orphan op s = [] -> reports_of acts = report <$> rs ->
  wf s' -> requset_id_generator s' = requset_id_generator s ->
  (forall r st, tracked s' r st <-> tracked s r st /\ r ∉ rs) ->
  exists L', simulated op s L [] s' L' acts ((fun r => (r, report r)) <$> rs).
Proof.
  intros Hop Hsim Ha Hq Hnd Hrs Hab Hno Hacts Hwf' Hg Ht.
  destruct (Ledger.finish_all report rs L) as (L' & Hs & Hn & Hf & Hl); [done| |].
  { intros r Hr. split; [|done]. destruct (Hrs r Hr) as [st Hst].
    exists st. by apply (sim_live _ _ Hsim). }
  assert (reports_of acts = ((fun r => (r, report r)) <$> rs).*2 ++ orphan op s) as Hreports.
  { rewrite Hno, app_nil_r, Hacts, <-list_fmap_compose. by apply list_fmap_ext. }
  exists L'. unfold simulated. split_and!; try done.
  - by eapply sim_finished.
  - destruct op; try done; lia.
  - by apply (reports_responses op s).
Qed.

(** ** Sending a request *)
Lemma sim_fresh s L st : sim s L -> ~ tracked s (mkRequestId (Ledger.next L)) st.
Proof.
  intros Hsim Ht. apply (sim_live _ _ Hsim) in Ht.
  by rewrite (Ledger.wf_fresh _ (sim_ledger _ _ Hsim)) in Ht.
Qed.

Lemma sim_next_id s L :
  sim s L -> RequestIdGenerator.counter (requset_id_generator s) <> 0 ->
  Ledger.next L < two64 /\
  RequestIdGenerator.next_id (requset_id_generator s) =
    (mkRequestId (Ledger.next L), RequestIdGenerator.mk (wrap64 (Ledger.next L + 1))).
Proof.
  intros [_ Hc _ HL] Hnz. destruct (Ledger.wf_next _ HL) as [Hge Hle].
  assert (Ledger.next L < two64) as Hlt.
  { destruct (decide (Ledger.next L = two64)) as [E|]; [|lia].
    rewrite Hc, E in Hnz. by destruct Hnz. }
  split; [done|]. unfold RequestIdGenerator.next_id. rewrite Hc, wrap64_small by lia. done.
Qed.

(** A request that goes to the buffer. *)
Lemma wf_buffer p rq s :
  wf s -> connected s !! p = None ->
  (forall st, ~ tracked s (FileGetOutboundProtocol.request_id rq) st) ->
  wf (set_pending_outbound_requests
    (<[p := default [] (pending_outbound_requests s !! p) ++ [rq]]>
       (pending_outbound_requests s)) s).
Proof.
  intros [Hne Hnd Hw] Hp Hfresh. split; [done..|]. intros p' l. simpl.
  destruct (decide (p = p')) as [<-|]; [|rewrite lookup_insert_ne by done; apply Hw].
  rewrite lookup_insert_eq. intros [= <-]. split; [|done].
  destruct (pending_outbound_requests s !! p) as [l|] eqn:Hl; simpl; [|apply NoDup_singleton].
  rewrite fmap_app. apply NoDup_app. split_and!; [by apply (Hw p)| |apply NoDup_singleton].
  intros r Hr ->%list_elem_of_singleton. apply (Hfresh (Ledger.Waiting p)). by exists l.
Qed.

Lemma tracked_buffer p rq s r st :
  tracked (set_pending_outbound_requests
    (<[p := default [] (pending_outbound_requests s !! p) ++ [rq]]>
       (pending_outbound_requests s)) s) r st <->
  tracked s r st \/ (r = FileGetOutboundProtocol.request_id rq /\ st = Ledger.Waiting p).
Proof.
  destruct st as [p'|p' c']; simpl; [|unfold inflight, find_connection; simpl; naive_solver].
  unfold waits. simpl. destruct (decide (p = p')) as [<-|].
  - rewrite lookup_insert_eq. destruct (pending_outbound_requests s !! p) as [l|]; simpl;
      (split; [intros (? & [= <-] & Hr)|intros Hr; eexists; split; [done|]]);
      rewrite ?fmap_app, ?elem_of_app in *; csimpl in *;
      rewrite ?list_elem_of_singleton in *; naive_solver.
  - rewrite lookup_insert_ne by done. naive_solver.
Qed.

Lemma simulate_send p rq w s L :
  sim s L -> contract (SendRequest p rq w) s ->
  exists out s' L' acts fin, simulated (SendRequest p rq w) s L out s' L' acts fin.
Proof.
  intros Hsim Hcon. destruct (sim_next_id _ _ Hsim Hcon) as [Hlt Hid].
  pose proof (fun st => sim_fresh s L st Hsim) as Hfresh. destruct Hsim as [Hwf Hc Hl HL].
  pose proof (Ledger.wf_fresh _ HL) as Hnone.
  set (r := mkRequestId (Ledger.next L)) in *.
  set (s0 := set_requset_id_generator (RequestIdGenerator.mk (wrap64 (Ledger.next L + 1))) s).
  set (req := FileGetOutboundProtocol.mk r (file_name rq) w).
  set (L1 := Ledger.mk (Ledger.next L + 1) (<[r := Ledger.Waiting p]> (Ledger.live L))
               (Ledger.finished L)).
  assert (Ledger.step L L1) as Hstep1 by (by apply Ledger.step_issue).
  assert (wf s0) as Hwf0 by (by apply (wf_ext s)).
  assert (forall r' st, tracked s0 r' st <-> tracked s r' st) as Ht0
    by (intros; by apply tracked_ext).
  unfold simulated, apply_op, send_request. rewrite Hid. fold s0 r req.
  destruct (connected s !! p) as [cs|] eqn:Hp.
  - destruct (try_send_connected p req s0 cs) as (conn & _ & Hconn & ->); [done..|]. simpl.
    exists [], (hand_over p (Connection.id conn) s0 req),
      (Ledger.mk (Ledger.next L + 1) (<[r := Ledger.Sent p (Connection.id conn)]> (Ledger.live L1))
         (Ledger.finished L)), [NotifyHandler p (Connection.id conn) req], [].
    assert (Ledger.step L1 (Ledger.mk (Ledger.next L + 1)
      (<[r := Ledger.Sent p (Connection.id conn)]> (Ledger.live L1)) (Ledger.finished L))) as Hstep2.
    { apply (Ledger.step_dispatch r p (Connection.id conn) L1). apply lookup_insert_eq. }
    split_and!; try done.
    + eapply rtc_l; [done|]. by eapply rtc_once.
    + split; [by apply wf_hand_over|done| |eauto using Ledger.wf_step].
      intros r' st. rewrite tracked_hand_over, Ht0, <-Hl by done. simpl.
      rewrite insert_insert_eq. destruct (decide (r = r')) as [<-|].
      * rewrite lookup_insert_eq, Hnone. naive_solver.
      * rewrite lookup_insert_ne by done. naive_solver.
    + by rewrite app_nil_r.
  - rewrite try_send_disconnected by done. simpl.
    eexists [], _, L1, [Dial p (new_handler s0)], []. split_and!; try done.
    + by apply rtc_once.
    + split; [|done| |eauto using Ledger.wf_step].
      * apply (wf_buffer p req (push_action (Dial p (new_handler s0)) s0)); [by apply wf_push_action|done|].
        intros st. rewrite (tracked_ext s) by done. apply Hfresh.
      * intros r' st.
        etrans; [|symmetry; apply (tracked_buffer p req (push_action (Dial p (new_handler s0)) s0))].
        rewrite (tracked_ext s) by done.
        rewrite <-Hl. simpl. destruct (decide (r = r')) as [<-|].
        -- rewrite lookup_insert_eq, Hnone. naive_solver.
        -- rewrite lookup_insert_ne by done. naive_solver.
    + by rewrite app_nil_r.
Qed.

(** ** Events of the swarm *)
Lemma tracked_functional s L r st st' :
  sim s L -> tracked s r st -> tracked s r st' -> st = st'.
Proof. intros Hsim. rewrite <-!(sim_live _ _ Hsim). congruence. Qed.

Lemma responses_events evs : responses (GenerateEvent <$> evs) = omap response_of evs.
Proof.
  unfold responses. f_equal. induction evs as [|ev evs IH]; [done|]. csimpl. by rewrite IH.
Qed.

Lemma omap_fmap_None {A B C} (f : A -> B) (g : B -> option C) (l : list A) :
  (forall x, g (f x) = None) -> omap g (f <$> l) = [].
Proof. intros Hg. induction l as [|x l IH]; [done|]. csimpl. by rewrite Hg. Qed.

Lemma reports_notify p c l : reports_of (NotifyHandler p c <$> l) = [].
Proof. unfold reports_of. by rewrite omap_fmap_None. Qed.

Lemma reports_events evs : reports_of (GenerateEvent <$> evs) = filter (fun ev => ends_request ev = true) evs.
Proof.
  unfold reports_of. f_equal. induction evs as [|ev evs IH]; [done|]. csimpl. by rewrite IH.
Qed.

(** Events of one kind. *)
Lemma filter_fmap_all {A} (f : A -> FileGetEvent.t) (l : list A) :
  (forall x, ends_request (f x) = true) -> filter (fun ev => ends_request ev = true) (f <$> l) = f <$> l.
Proof.
  intros Hf. induction l as [|x l IH]; [done|]. rewrite fmap_cons, filter_cons, decide_True by done.
  by rewrite IH.
Qed.

Lemma filter_fmap_none {A} (f : A -> FileGetEvent.t) (l : list A) :
  (forall x, ends_request (f x) = false) -> filter (fun ev => ends_request ev = true) (f <$> l) = [].
Proof.
  intros Hf. induction l as [|x l IH]; [done|]. rewrite fmap_cons, filter_cons, Hf. done.
Qed.

Lemma responses_notify p c l : responses (NotifyHandler p c <$> l) = [].
Proof. unfold responses. by rewrite omap_fmap_None. Qed.

Lemma simulate_established p c ep n s L :
  sim s L -> contract (OnSwarmEvent (ConnectionEstablished p c ep n)) s ->
  exists out s' L' acts fin,
    simulated (OnSwarmEvent (ConnectionEstablished p c ep n)) s L out s' L' acts fin.
Proof.
  intros Hsim [Hc Hn].
  destruct (established_spec p c ep n s (sim_wf _ _ Hsim) Hc Hn)
    as (address & He & Hwf & Hg & Hq & Ht).
  set (l := default [] (pending_outbound_requests s !! p)) in *.
  assert (forall r, r ∈ (FileGetOutboundProtocol.request_id <$> l) <-> waits s p r) as Hl.
  { intros r. unfold waits, l. destruct (pending_outbound_requests s !! p); simpl; set_solver. }
  destruct (Ledger.dispatch_all p c (FileGetOutboundProtocol.request_id <$> l) L)
    as (L' & Hs & Hnx & Hf & Hlive).
  { unfold l. destruct (pending_outbound_requests s !! p) eqn:E; simpl; [|constructor].
    by apply (wf_waiting _ (sim_wf _ _ Hsim)) in E as [? _]. }
  { intros r Hr. apply (sim_live _ _ Hsim). by apply Hl. }
  eexists [], _, L', _, []. unfold simulated, apply_op. simpl. rewrite He. simpl.
  split_and!; [done|exact Hq|done| |lia|by rewrite app_nil_r|apply reports_notify|apply responses_notify].
  split; [done|rewrite Hg, Hnx; apply Hsim| |eauto using Ledger.wf_steps, sim_ledger].
  intros r st. rewrite Hlive, Ht. destruct (decide (r ∈ _)) as [Hr|Hr]; rewrite Hl in Hr.
  - split; [naive_solver|]. intros [[Hst Hne]|[_ ->]]; [|done].
    by destruct Hne; apply (tracked_functional s L r st (Ledger.Waiting p)).
  - rewrite (sim_live _ _ Hsim). split; [|naive_solver]. intros Hst. left. split; [done|].
    intros ->. by apply Hr.
Qed.

Lemma simulate_closed p c s L :
  sim s L -> contract (OnSwarmEvent (ConnectionClosed p c)) s ->
  exists out s' L' acts fin,
    simulated (OnSwarmEvent (ConnectionClosed p c)) s L out s' L' acts fin.
Proof.
  intros Hsim Hc. simpl in Hc. pose proof (sim_wf _ _ Hsim) as Hwf.
  destruct (closed_spec p c s Hwf Hc) as (conn & Hconn & He).
  edestruct (simulated_finish (OnSwarmEvent (ConnectionClosed p c)) s L
    (push_events (closing_events p conn) (removed_state p c s))
    (GenerateEvent <$> closing_events p conn)
    (set_iter (Connection.pending_inbound_responses conn))
    (fun r => FileGetEvent.InboundFailure p r InboundFailure.ConnectionClosed))
    as [L' HL']; [done|done|..|by eexists _, _, L', _, _].
  - unfold apply_op. simpl. by rewrite He.
  - by rewrite queued_push_events.
  - apply NoDup_set_iter.
  - intros r Hr. exists (Ledger.Sent p c). exists conn. by rewrite elem_of_set_iter in Hr.
  - done.
  - done.
  - rewrite reports_events. unfold closing_events.
    by rewrite filter_app, filter_fmap_none, filter_fmap_all.
  - by apply wf_push_events, wf_removed.
  - done.
  - intros r st. rewrite (tracked_ext (removed_state p c s)) by done.
    rewrite tracked_removed. split; intros [Hst Hne]; (split; [done|]).
    + intros Hr. apply Hne. apply (tracked_functional s L r); [done..|]. exists conn.
      by rewrite elem_of_set_iter in Hr.
    + intros ->. destruct Hst as (conn' & Hconn' & Hr). apply Hne, elem_of_set_iter. congruence.
Qed.

Lemma on_address_change_spec p c ep s :
  c ∈ connection_ids s p ->
  exists address, on_address_change p c ep s =
    Return (update_connection p c (Connection.set_address address) s).
Proof.
  intros Hc. exists (match ep with ConnectedPoint.Dialer a => Some a | _ => None end).
  apply connection_ids_elem in Hc as [conn Hconn]. unfold find_connection in Hconn.
  unfold on_address_change, update_connection.
  destruct (connected s !! p) as [cs|] eqn:Hp; simpl in *; [|done]. rewrite Hconn. simpl.
  do 2 f_equal. apply map_eq. intros p'. destruct (decide (p = p')) as [<-|].
  - by rewrite lookup_insert_eq, lookup_alter_eq, Hp.
  - by rewrite lookup_insert_ne, lookup_alter_ne.
Qed.

Lemma simulate_dial_failure p s L :
  sim s L ->
  exists out s' L' acts fin,
    simulated (OnSwarmEvent (DialFailure (Some p))) s L out s' L' acts fin.
Proof.
  intros Hsim. pose proof (sim_wf _ _ Hsim) as Hwf.
  pose proof (dial_failure_spec p s) as He. cbv zeta in He.
  set (l := default [] (pending_outbound_requests s !! p)) in *.
  assert (forall r, r ∈ (FileGetOutboundProtocol.request_id <$> l) <-> waits s p r) as Hl.
  { intros r. unfold waits, l. destruct (pending_outbound_requests s !! p); simpl; set_solver. }
  edestruct (simulated_finish (OnSwarmEvent (DialFailure (Some p))) s L
    (one_dial_failure (Some p) s)
    (GenerateEvent <$> ((fun r => FileGetEvent.OutboundFailure p r OutboundFailure.DialFailure)
       <$> (FileGetOutboundProtocol.request_id <$> l)))
    (FileGetOutboundProtocol.request_id <$> l)
    (fun r => FileGetEvent.OutboundFailure p r OutboundFailure.DialFailure))
    as [L' HL']; [done|done|..|by eexists _, _, L', _, _].
  - done.
  - by rewrite He, queued_push_events.
  - unfold l. destruct (pending_outbound_requests s !! p) eqn:E; simpl; [|constructor].
    by apply (wf_waiting _ Hwf) in E as [? _].
  - intros r Hr. exists (Ledger.Waiting p). by apply Hl.
  - done.
  - done.
  - by rewrite reports_events, filter_fmap_all.
  - by rewrite He; apply wf_push_events, wf_undialled.
  - by rewrite He.
  - intros r st. rewrite He. rewrite (tracked_ext (undialled_state p s)) by done.
    rewrite tracked_undialled, Hl. split; intros [Hst Hne]; (split; [done|]).
    + intros Hr. apply Hne. by apply (tracked_functional s L r).
    + intros ->. by apply Hne.
Qed.

Lemma simulate_swarm ev s L :
  sim s L -> contract (OnSwarmEvent ev) s ->
  exists out s' L' acts fin, simulated (OnSwarmEvent ev) s L out s' L' acts fin.
Proof.
  intros Hsim Hcon. pose proof (sim_wf _ _ Hsim) as Hwf.
  destruct ev as [p c ep n|p c|p c ep|[p|]| | | | | | | |].
  1: by apply simulate_established.
  1: by apply simulate_closed.
  1: { destruct (on_address_change_spec p c ep s Hcon) as [address He].
    exists [], (update_connection p c (Connection.set_address address) s), L, [], [].
    apply simulated_stutter; try done.
    - unfold apply_op. simpl. by rewrite He.
    - by rewrite app_nil_r.
    - by apply wf_update_connection.
    - intros. by apply tracked_update_outbound. }
  1: by apply simulate_dial_failure.
  all: eexists [], s, L, [], []; by apply simulated_stutter; rewrite ?app_nil_r.
Qed.

(** ** Events of the handlers *)

(** A handler ends a request of ours with one report. *)
Lemma simulate_end p c r hev ev s L :
  sim s L -> inflight s p c r ->
  (forall s, on_connection_handler_event p c hev s =
     '(_, s) ← (let '(b, s1) := remove_pending_inbound_response p c r s in
                _ ← debug_assert (match hev with FileGetHandlerEvent.Response _ => debug_assertions
                                  | _ => false end) b
                   (str "Expect request_id to be pending before receiving response.");
                Return (b, s1));
     Return (push_event ev s)) ->
  Ledger.about ev = r -> ends_request ev = true -> orphan (OnHandlerEvent p c hev) s = [] ->
  exists out s' L' acts fin,
    simulated (OnHandlerEvent p c hev) s L out s' L' acts fin.
Proof.
  intros Hsim Hr Heq Hab Hev Hno. pose proof (sim_wf _ _ Hsim) as Hwf.
  assert (apply_op (OnHandlerEvent p c hev) s =
    Return ([], push_event ev (update_connection p c (unmark r) s))) as He.
  { unfold apply_op. rewrite Heq, (remove_inbound_spec _ _ _ _ Hr). simpl.
    unfold debug_assert. by rewrite andb_false_r. }
  destruct (Ledger.finish_all (fun _ => ev) [r] L) as (L' & Hs & Hn & Hf & Hl).
  { apply NoDup_singleton. }
  { intros r' ->%list_elem_of_singleton. split; [|done].
    exists (Ledger.Sent p c). by apply (sim_live _ _ Hsim). }
  assert (reports_of [GenerateEvent ev] = [(r, ev)].*2 ++ orphan (OnHandlerEvent p c hev) s) as Hreports.
  { rewrite Hno. unfold reports_of. csimpl. by rewrite filter_cons, Hev. }
  eexists [], _, L', [GenerateEvent ev], [(r, ev)]. unfold simulated.
  split_and!; [exact He|done|done| |lia|done|exact Hreports|by eapply reports_responses].
  - eapply (sim_finished _ _ _ _ [r]); [done|done|by apply wf_push_action, wf_update_connection|done|done|done|].
    intros r' st. rewrite (tracked_ext (update_connection p c (unmark r) s)) by done.
    rewrite tracked_unmark, not_elem_of_cons. split; intros [Hst Hne]; (split; [done|]).
    + split; [|set_solver]. intros ->. apply Hne. f_equal. by apply (tracked_functional s L r).
    + intros [= -> ->]. by destruct Hne.
Qed.

(** A handler reports on a request of the peer: ours do not move. *)
Lemma remove_outbound_cases p c r s :
  exists f, (forall x, Connection.id (f x) = Connection.id x) /\
    (forall x, Connection.pending_inbound_responses (f x) =
               Connection.pending_inbound_responses x) /\
    ((remove_pending_outbound_response p c r s).2 = update_connection p c f s \/
     (remove_pending_outbound_response p c r s).2 = s).
Proof.
  exists (fun conn => Connection.set_outbound
    (Connection.pending_outbound_responses conn ∖ {[r]}) conn).
  split_and!; [done..|]. unfold remove_pending_outbound_response.
  destruct (find_connection p c s); simpl; auto.
Qed.

Lemma simulate_peer_report p c r hev ev s L :
  sim s L -> ends_request ev = false -> orphan (OnHandlerEvent p c hev) s = [] ->
  apply_op (OnHandlerEvent p c hev) s =
    Return ([], push_event ev (remove_pending_outbound_response p c r s).2) ->
  exists out s' L' acts fin,
    simulated (OnHandlerEvent p c hev) s L out s' L' acts fin.
Proof.
  intros Hsim Hev Hno He. pose proof (sim_wf _ _ Hsim) as Hwf.
  destruct (remove_outbound_cases p c r s) as (f & Hid & Hin & Hcases).
  eexists [], _, L, [GenerateEvent ev], [].
  apply simulated_stutter; [done|done|exact He| | | | |].
  - rewrite (app_nil_l (queued _)). unfold push_event. rewrite queued_push_action.
    by destruct Hcases as [-> | ->].
  - rewrite Hno. unfold reports_of. csimpl. by rewrite filter_cons, Hev.
  - apply wf_push_action. destruct Hcases as [-> | ->]; [by apply wf_update_connection|done].
  - by destruct Hcases as [-> | ->].
  - intros r' st. rewrite (tracked_ext (remove_pending_outbound_response p c r s).2) by done.
    destruct Hcases as [-> | ->]; [by apply tracked_update_outbound|done].
Qed.

Lemma simulate_request p c r m tx s L :
  sim s L -> exists out s' L' acts fin,
    simulated (OnHandlerEvent p c (FileGetHandlerEvent.Request r m tx)) s L out s' L' acts fin.
Proof.
  intros Hsim. pose proof (sim_wf _ _ Hsim) as Hwf. set (rr := FileGetEvent.RequestReceived p r m tx).
  destruct (find_connection p c s) as [conn|] eqn:Hconn.
  - eexists [], (update_connection p c _ (push_event rr s)), L, [GenerateEvent rr], [].
    apply simulated_stutter; [done|done| |done|by simpl; rewrite Hconn| |done|].
    + unfold apply_op. simpl. unfold find_connection in *. simpl. rewrite Hconn. done.
    + by apply wf_update_connection, wf_push_action.
    + intros r' st. by rewrite tracked_update_outbound, (tracked_ext s).
  - set (f := FileGetEvent.InboundFailure p r InboundFailure.ConnectionClosed).
    exists [], (push_event f (push_event rr s)), L, [GenerateEvent rr; GenerateEvent f], [].
    apply simulated_stutter; [done|done| | |by simpl; rewrite Hconn| |done|].
    + unfold apply_op. simpl. unfold find_connection in *. simpl. by rewrite Hconn.
    + unfold push_event. rewrite app_nil_l, !queued_push_action. by rewrite <-(assoc_L (++)).
    + by do 2 apply wf_push_action.
    + intros r' st. by apply tracked_ext.
Qed.

Lemma simulate_handler p c hev s L :
  sim s L -> contract (OnHandlerEvent p c hev) s ->
  exists out s' L' acts fin,
    simulated (OnHandlerEvent p c hev) s L out s' L' acts fin.
Proof.
  intros Hsim Hcon. destruct hev as [r m tx|r|r|r|r|r|r|r]; simpl in Hcon.
  - by apply simulate_request.
  - apply (simulate_end p c r _ (FileGetEvent.ResponseReceived p r)); [done..| |done|done|done].
    intros s0. simpl. destruct (remove_pending_inbound_response p c r s0). simpl.
    by destruct (debug_assert _ _ _).
  - destruct Hcon as (conn & Hconn & Hr).
    apply (simulate_peer_report p c r _ (FileGetEvent.ResponseSent p r)); [done..|].
    simpl. unfold remove_pending_outbound_response. rewrite Hconn. simpl.
    rewrite bool_decide_eq_true_2 by done. unfold debug_assert. by rewrite andb_false_r.
  - destruct Hcon as (conn & Hconn & Hr).
    apply (simulate_peer_report p c r _
      (FileGetEvent.InboundFailure p r InboundFailure.ResponseOmission)); [done..|].
    simpl. unfold remove_pending_outbound_response. rewrite Hconn. simpl.
    rewrite bool_decide_eq_true_2 by done. unfold debug_assert. by rewrite andb_false_r.
  - apply (simulate_end p c r _ (FileGetEvent.OutboundFailure p r OutboundFailure.Timeout));
      [done..| |done|done|done]. intros s0. simpl. by destruct (remove_pending_inbound_response p c r s0).
  - apply (simulate_end p c r _
      (FileGetEvent.OutboundFailure p r OutboundFailure.UnsupportedProtocols)); [done..| |done|done|done].
    intros s0. simpl. by destruct (remove_pending_inbound_response p c r s0).
  - apply (simulate_peer_report p c r _
      (FileGetEvent.InboundFailure p r InboundFailure.Timeout)); [done..|].
    simpl. by destruct (remove_pending_outbound_response p c r s).
  - apply (simulate_peer_report p c r _
      (FileGetEvent.InboundFailure p r InboundFailure.UnsupportedProtocols)); [done..|].
    simpl. by destruct (remove_pending_outbound_response p c r s).
Qed.

(** ** All operations *)

(** Polling only moves the front of the queue. *)
Lemma poll_queue s :
  (poll s).2 = set_pending_events (pending_events (poll s).2) s /\
  match (poll s).1 with
  | Ready a => queued s = a :: queued (poll s).2
  | Pending => queued s = [] /\ queued (poll s).2 = []
  end.
Proof.
  unfold poll, pop_front, queued. destruct (vd_items (pending_events s)) as [|a l] eqn:E; simpl.
  - case_bool_decide; simpl; by destruct s.
  - done.
Qed.

Lemma simulate_poll s L :
  sim s L -> exists out s' L' acts fin, simulated PollOp s L out s' L' acts fin.
Proof.
  intros Hsim. destruct (poll_queue s) as [Hs Hq].
  exists (match (poll s).1 with Ready a => [a] | Pending => [] end), (poll s).2, L, [], [].
  apply simulated_stutter; [done|done| | |done| | |].
  - unfold apply_op. by destruct (poll s) as [[a|] s'].
  - rewrite app_nil_r. destruct (poll s) as [[a|] s']; simpl in *; [done|].
    destruct Hq as [-> ->]. done.
  - rewrite Hs. apply (wf_ext s); [done..|by apply (sim_wf _ _ Hsim)].
  - by rewrite Hs.
  - intros r st. rewrite Hs. by apply tracked_ext.
Qed.

Lemma simulate_op op s L :
  sim s L -> contract op s -> exists out s' L' acts fin, simulated op s L out s' L' acts fin.
Proof.
  intros Hsim Hcon. destruct op as [p rq w|p a|p a|ev|p c hev|].
  - by apply simulate_send.
  - exists [], (add_address p a s), L, [], [].
    apply simulated_stutter; [done|done|done|by rewrite app_nil_r|done| |done|].
    + apply (wf_ext s); [done..|by apply (sim_wf _ _ Hsim)].
    + intros r st. by apply tracked_ext.
  - assert (remove_address p a s = set_addresses (addresses (remove_address p a s)) s) as Hs.
    { unfold remove_address. destruct (addresses s !! p) as [l|]; [|by destruct s].
      by destruct (filter _ l). }
    exists [], (remove_address p a s), L, [], [].
    apply simulated_stutter; [done|done|done| |done| |by rewrite Hs|];
      rewrite Hs, ?app_nil_r; [done| |].
    + apply (wf_ext s); [done..|by apply (sim_wf _ _ Hsim)].
    + intros r st. by apply tracked_ext.
  - by apply simulate_swarm.
  - by apply simulate_handler.
  - by apply simulate_poll.
Qed.

(** ** Runs *)

(** [run s ops out s']: from [s] the calls [ops], each made under the contract,
    return the actions [out] and end in [s']. *)
Inductive run : FileGet.t -> list Op -> list Action -> FileGet.t -> Prop :=
| run_nil s : run s [] [] s
| run_cons op ops s o s1 out s2 :
    contract op s -> apply_op op s = Return (o, s1) -> run s1 ops out s2 ->
    run s (op :: ops) (o ++ out) s2.

(** The number of requests sent. *)
Fixpoint sends (ops : list Op) : Z :=
  match ops with
  | [] => 0
  | SendRequest _ _ _ :: ops' => 1 + sends ops'
  | _ :: ops' => sends ops'
  end.

(** The reports about requests of peers that came from connections which were
    gone. *)
Fixpoint orphans s (ops : list Op) : list FileGetEvent.t :=
  match ops with
  | [] => []
  | op :: ops' => orphan op s ++
      match apply_op op s with Return (_, s1) => orphans s1 ops' | Panic _ => [] end
  end.

Lemma sim_init cfg a σ : sim (from_config cfg a σ).1 Ledger.init.
Proof.
  split.
  - split; simpl; intros *; unfold connection_ids; simpl; rewrite ?lookup_empty; try done.
    constructor.
  - done.
  - intros r st. simpl. rewrite lookup_empty. split; [done|].
    destruct st as [p|p c]; simpl; unfold waits, inflight, find_connection; simpl;
      setoid_rewrite lookup_empty; naive_solver.
  - apply Ledger.wf_init.
Qed.

Lemma responses_app l1 l2 : responses (l1 ++ l2) = responses l1 ++ responses l2.
Proof. unfold responses. by rewrite !omap_app. Qed.

Lemma run_simulated s ops out s' L :
  run s ops out s' -> sim s L ->
  exists L' acts fin,
    rtc Ledger.step L L' /\ sim s' L' /\ out ++ queued s' = queued s ++ acts /\
    Ledger.next L' = Ledger.next L + sends ops /\
    Ledger.finished L' = Ledger.finished L ++ fin /\
    reports_of acts ≡ₚ fin.*2 ++ orphans s ops /\
    responses acts = omap response_of fin.*2.
Proof.
  intros Hrun. revert L. induction Hrun as [s|op ops s o s1 out s2 Hcon Hap Hrun IH]; intros L Hsim.
  - exists L, [], []. rewrite !app_nil_r. split_and!; try done. simpl. lia.
  - destruct (simulate_op op s L Hsim Hcon)
      as (o' & s1' & L1 & acts1 & fin1 & Ha & Hq & Hs & Hsim1 & Hn & Hf & Hin & Hr).
    assert (o' = o /\ s1' = s1) as [-> ->] by (split; congruence).
    destruct (IH L1 Hsim1) as (L2 & acts2 & fin2 & Hs2 & Hsim2 & Hq2 & Hn2 & Hf2 & Hin2 & Hr2).
    exists L2, (acts1 ++ acts2), (fin1 ++ fin2). split_and!.
    + by etrans.
    + done.
    + rewrite <-(assoc_L (++)), Hq2, !(assoc_L (++)). by rewrite Hq.
    + rewrite Hn2, Hn. destruct op; simpl; lia.
    + by rewrite Hf2, Hf, (assoc_L (++)).
    + rewrite reports_of_app, Hin, Hin2, fmap_app. simpl. rewrite Hap. solve_Permutation.
    + by rewrite responses_app, fmap_app, omap_app, Hr, Hr2.
Qed.

Lemma reachable_wf cfg a σ ops out s : run (from_config cfg a σ).1 ops out s -> wf s.
Proof.
  intros Hrun. destruct (run_simulated _ _ _ _ _ Hrun (sim_init cfg a σ))
    as (L & _ & _ & _ & Hsim & _). apply Hsim.
Qed.

(** ** Checking a concrete run *)
Definition inflight_b s (p : PeerId) (c : ConnectionId) (r : RequestId) : bool :=
  match find_connection p c s with
  | Some conn => bool_decide (r ∈ Connection.pending_inbound_responses conn)
  | None => false
  end.

Definition owed_b s (p : PeerId) (c : ConnectionId) (r : RequestId) : bool :=
  match find_connection p c s with
  | Some conn => bool_decide (r ∈ Connection.pending_outbound_responses conn)
  | None => false
  end.

Definition contract_b (op : Op) s : bool :=
  match op with
  | SendRequest _ _ _ => negb (RequestIdGenerator.counter (requset_id_generator s) =? 0)
  | OnSwarmEvent (ConnectionEstablished p c _ n) =>
      bool_decide (c ∉ connection_ids s p) && (n =? Z.of_nat (length (connection_ids s p)))
  | OnSwarmEvent (ConnectionClosed p c)
  | OnSwarmEvent (AddressChange p c _) => bool_decide (c ∈ connection_ids s p)
  | OnHandlerEvent p c (FileGetHandlerEvent.Response r)
  | OnHandlerEvent p c (FileGetHandlerEvent.OutboundTimeout r)
  | OnHandlerEvent p c (FileGetHandlerEvent.OutboundUnsupportedProtocols r) => inflight_b s p c r
  | OnHandlerEvent p c (FileGetHandlerEvent.ResponseSent r)
  | OnHandlerEvent p c (FileGetHandlerEvent.ResponseOmission r) => owed_b s p c r
  | _ => true
  end.

Fixpoint run_exec s (ops : list Op) : option (list Action * FileGet.t) :=
  match ops with
  | [] => Some ([], s)
  | op :: ops' =>
      if contract_b op s then
        match apply_op op s with
        | Return (o, s1) =>
            match run_exec s1 ops' with
            | Some (out, s2) => Some (o ++ out, s2)
            | None => None
            end
        | Panic _ => None
        end
      else None
  end.

Lemma contract_b_sound op s : contract_b op s = true -> contract op s.
Proof.
  destruct op as [p rq w|p a|p a|ev|p c hev|]; simpl; try done.
  - rewrite negb_true_iff, Z.eqb_neq. done.
  - destruct ev; simpl; rewrite ?andb_true_iff, ?bool_decide_eq_true, ?Z.eqb_eq; done.
  - unfold inflight_b, owed_b.
    destruct hev; simpl; try done; destruct (find_connection p c s) as [conn|] eqn:E;
      rewrite ?bool_decide_eq_true; try done; by exists conn.
Qed.

Lemma run_exec_sound s ops out s' : run_exec s ops = Some (out, s') -> run s ops out s'.
Proof.
  revert s out; induction ops as [|op ops IH]; intros s out; simpl.
  - intros [= <- <-]. constructor.
  - destruct (contract_b op s) eqn:Hc; [|done].
    destruct (apply_op op s) as [[o s1]|] eqn:Ha; [|done].
    destruct (run_exec s1 ops) as [[out' s2]|] eqn:Hr; [|done]. intros [= <- <-].
    eapply run_cons; eauto using contract_b_sound.
Qed.
End Refinement.
