(* ===== verification/BehaviourProps.v ===== *)
(** * Properties of the behaviour

    The claims about [FileGet]: refinement of the ledger, conservation of
    requests over whole runs, and the functional behaviour of the operations; with the defect in [on_connection_closed] and the
    unused address book stated as theorems. *)
From S2P Require Import Prelude Externals Instances FileGetTypes Handler Behaviour Ledger BehaviourLemmas BehaviourTracking BehaviourRefinement.
Import FileGet.

Section BehaviourProps.
Context `{Ext, Platform, HashOrder} `{!FuturesUnordered InboundFut InboundOut ChanEnv}.
Implicit Types s : FileGet.t.

(** ** Definitions *)

(** The calls that touch the address book. *)
Definition is_address_op (op : Op) : Prop :=
  match op with AddAddress _ _ | RemoveAddress _ _ => True | _ => False end.

#[export] Instance is_address_op_dec op : Decision (is_address_op op).
Proof. destruct op; simpl; apply _. Defined.

(** The result of a call, with the address book put aside. *)
Definition with_addresses (m : gmap PeerId (list Multiaddr))
    (r : exec (list Action * FileGet.t)) : exec (list Action * FileGet.t) :=
  '(o, s) ← r; Return (o, set_addresses m s).

(** [n] polls. *)
Fixpoint poll_times (n : nat) s : list (Poll Action) * FileGet.t :=
  match n with
  | O => ([], s)
  | S n' => let '(r, s1) := poll s in let '(rs, s2) := poll_times n' s1 in (r :: rs, s2)
  end.

(** The events the behaviour queues for an event of a handler. *)
Definition handler_reports (p : PeerId) (c : ConnectionId) (hev : FileGetHandlerEvent.t) s :
    list FileGetEvent.t :=
  match hev with
  | FileGetHandlerEvent.Request r m tx =>
      FileGetEvent.RequestReceived p r m tx ::
      match find_connection p c s with
      | Some _ => []
      | None => [FileGetEvent.InboundFailure p r InboundFailure.ConnectionClosed]
      end
  | FileGetHandlerEvent.Response r => [FileGetEvent.ResponseReceived p r]
  | FileGetHandlerEvent.ResponseSent r => [FileGetEvent.ResponseSent p r]
  | FileGetHandlerEvent.ResponseOmission r =>
      [FileGetEvent.InboundFailure p r InboundFailure.ResponseOmission]
  | FileGetHandlerEvent.OutboundTimeout r =>
      [FileGetEvent.OutboundFailure p r OutboundFailure.Timeout]
  | FileGetHandlerEvent.OutboundUnsupportedProtocols r =>
      [FileGetEvent.OutboundFailure p r OutboundFailure.UnsupportedProtocols]
  | FileGetHandlerEvent.InboundTimeout r =>
      [FileGetEvent.InboundFailure p r InboundFailure.Timeout]
  | FileGetHandlerEvent.InboundUnsupportedProtocols r =>
      [FileGetEvent.InboundFailure p r InboundFailure.UnsupportedProtocols]
  end.

(** The two pending sets of a connection after an event of its handler. *)
Definition handler_effect (hev : FileGetHandlerEvent.t) (conn : Connection.t) : Connection.t :=
  match hev with
  | FileGetHandlerEvent.Request r _ _ =>
      Connection.set_outbound ({[r]} ∪ Connection.pending_outbound_responses conn) conn
  | FileGetHandlerEvent.Response r
  | FileGetHandlerEvent.OutboundTimeout r
  | FileGetHandlerEvent.OutboundUnsupportedProtocols r =>
      Connection.set_inbound (Connection.pending_inbound_responses conn ∖ {[r]}) conn
  | FileGetHandlerEvent.ResponseSent r
  | FileGetHandlerEvent.ResponseOmission r
  | FileGetHandlerEvent.InboundTimeout r
  | FileGetHandlerEvent.InboundUnsupportedProtocols r =>
      Connection.set_outbound (Connection.pending_outbound_responses conn ∖ {[r]}) conn
  end.

(** ** Lemmas *)
Lemma try_send_addresses p rq m s :
  try_send_request p rq (set_addresses m s) =
  '(o, s) ← try_send_request p rq s; Return (o, set_addresses m s).
Proof.
  unfold try_send_request. simpl. destruct (connected s !! p) as [[|c0 cs]|]; [done| |done].
  by destruct ((c0 :: cs) !! _).
Qed.

Lemma flush_addresses p l m s :
  exec_foldl (fun s request => '(_, s) ← try_send_request p request s; Return s)
    (set_addresses m s) l =
  s ← exec_foldl (fun s request => '(_, s) ← try_send_request p request s; Return s) s l;
  Return (set_addresses m s).
Proof.
  revert s; induction l as [|rq l IH]; intros s; [done|]. simpl.
  rewrite try_send_addresses. destruct (try_send_request p rq s) as [[o s1]|]; simpl; [|done].
  apply IH.
Qed.

Lemma swarm_event_addresses ev m s :
  on_swarm_event ev (set_addresses m s) =
  s ← on_swarm_event ev s; Return (set_addresses m s).
Proof.
  destruct ev as [p c ep n|p c|p c ep|[p|]| | | | | | | |]; simpl; try done.
  - unfold on_connection_established. simpl. case_bool_decide; [|done].
    destruct (pending_outbound_requests s !! p) as [l|]; [|done].
    match goal with |- _ = exec_foldl _ ?s0 l ≫= _ => exact (flush_addresses p l m s0) end.
  - unfold on_connection_closed. simpl. destruct (connected s !! p) as [cs|]; simpl; [|done].
    destruct (position _ cs) as [i|]; simpl; [|done].
    destruct (vec_remove i cs) as [[conn cs']|]; simpl; [|done].
    rewrite !foldl_push_event. by destruct cs'.
  - unfold on_address_change. simpl. destruct (connected s !! p) as [cs|]; simpl; [|done].
    by destruct (find_first _ cs).
  - destruct (pending_outbound_requests s !! p) as [l|]; [|done].
    rewrite !(foldl_push_event (fun request => FileGetEvent.OutboundFailure p
      (FileGetOutboundProtocol.request_id request) OutboundFailure.DialFailure)). done.
Qed.

Lemma apply_op_addresses op m s :
  ~ is_address_op op -> apply_op op (set_addresses m s) = with_addresses m (apply_op op s).
Proof.
  intros Hop. unfold with_addresses. destruct op as [p rq w|p a|p a|ev|p c hev|]; simpl in *;
    [| by destruct Hop| by destruct Hop| | |].
  - unfold send_request. simpl.
    match goal with |- context [set_requset_id_generator ?g (set_addresses m s)] =>
      change (set_requset_id_generator g (set_addresses m s))
        with (set_addresses m (set_requset_id_generator g s)) end.
    rewrite try_send_addresses.
    by destruct (try_send_request _ _ _) as [[[rq'|] s1]|].
  - rewrite swarm_event_addresses. by destruct (on_swarm_event ev s).
  - destruct hev; simpl; unfold remove_pending_inbound_response,
      remove_pending_outbound_response; unfold find_connection; simpl;
      destruct (connected s !! p ≫= _); simpl; unfold debug_assert; by try case_match.
  - unfold poll. simpl. unfold pop_front. destruct (vd_items (pending_events s)); simpl; [|done].
    by case_bool_decide.
Qed.

Lemma contract_addresses op m s : contract op s -> contract op (set_addresses m s).
Proof. by destruct op. Qed.

Lemma address_op_only op s o s1 m :
  is_address_op op -> apply_op op s = Return (o, s1) ->
  o = [] /\ set_addresses m s1 = set_addresses m s.
Proof.
  destruct op as [|p a|p a| | |]; simpl; intros Hop; try done; intros [= <- <-]; [done|].
  split; [done|]. unfold remove_address. destruct (addresses s !! p) as [l|]; [|done].
  by destruct (filter _ l).
Qed.

Lemma poll_times_drains s :
  exists s', poll_times (S (length (queued s))) s = ((Ready <$> queued s) ++ [Pending], s') /\
    queued s' = [] /\ (vd_capacity (pending_events s') <= EMPTY_QUEUE_SHRINK_THRESHOLD)%nat /\
    s' = set_pending_events (pending_events s') s.
Proof.
  remember (queued s) as l eqn:Hl. symmetry in Hl. revert s Hl.
  induction l as [|a l IH]; intros s Hl; unfold queued in Hl.
  - simpl. unfold poll, pop_front. rewrite Hl. eexists. split; [done|].
    case_bool_decide; unfold queued, shrink_to_fit, vd_len; simpl; rewrite ?Hl; simpl;
      (split_and!; [done|lia|by destruct s]).
  - change (length (a :: l)) with (S (length l)).
    destruct (IH (set_pending_events (mkVecDeque l (vd_capacity (pending_events s))) s) eq_refl)
      as (s' & Hp & Hq & Hc & Hs).
    exists s'. split_and!; [|done|done|by rewrite Hs].
    remember (S (length l)) as n. simpl. unfold poll at 1, pop_front. rewrite Hl.
    rewrite Hp. done.
Qed.

Definition asserted (p : PeerId) (c : ConnectionId) (hev : FileGetHandlerEvent.t) s : Prop :=
  match hev with
  | FileGetHandlerEvent.Response r => exists conn, find_connection p c s = Some conn /\
      r ∈ Connection.pending_inbound_responses conn
  | FileGetHandlerEvent.ResponseSent r
  | FileGetHandlerEvent.ResponseOmission r => exists conn, find_connection p c s = Some conn /\
      r ∈ Connection.pending_outbound_responses conn
  | _ => True
  end.

(** Reporting events and changing the connection they are about. *)
Definition handled_state (p : PeerId) (c : ConnectionId) (hev : FileGetHandlerEvent.t) s :
    FileGet.t :=
  push_events (handler_reports p c hev s)
    (match find_connection p c s with
     | Some _ => update_connection p c (handler_effect hev) s
     | None => s
     end).

Lemma remove_inbound_unfold p c r s :
  remove_pending_inbound_response p c r s =
  match find_connection p c s with
  | Some conn => (bool_decide (r ∈ Connection.pending_inbound_responses conn),
      update_connection p c (fun conn => Connection.set_inbound
        (Connection.pending_inbound_responses conn ∖ {[r]}) conn) s)
  | None => (false, s)
  end.
Proof. done. Qed.

Lemma handler_event_cases p c hev s :
  (debug_assertions = false \/ asserted p c hev s ->
   on_connection_handler_event p c hev s = Return (handled_state p c hev s)) /\
  (debug_assertions = true -> ~ asserted p c hev s ->
   exists msg, on_connection_handler_event p c hev s = Panic msg).
Proof.
  unfold handled_state.
  destruct hev as [r m tx|r|r|r|r|r|r|r]; simpl;
    unfold remove_pending_inbound_response, remove_pending_outbound_response, debug_assert;
    change (find_connection p c (push_event (FileGetEvent.RequestReceived p r m tx) s))
      with (find_connection p c s) || idtac;
    destruct (find_connection p c s) as [conn|] eqn:E; simpl;
    try (case_bool_decide as Hr); destruct debug_assertions; simpl;
    (split; [|try naive_solver]); intros Has; try done; exfalso; naive_solver.
Qed.

(** * Claims *)

(** C3: [FileGet] implements the ledger of outbound requests.  From related
    states, every call the swarm and the handlers may make returns, and its
    effect is a sequence of ledger steps: requests are issued, dispatched and
    finished exactly as the specification allows; each newly finished request
    has its report among the actions the call appends to the queue, and apart
    from that of a request of the peer whose connection is gone these are all
    the reports there are; the queue is only appended to at the back and read at
    the front, and the responses reported are exactly those of the finished
    requests. *)
Theorem behaviour_refines_ledger op s L (Hsim : sim s L) (Hcon : contract op s) :
  exists out s' L' acts fin,
    apply_op op s = Return (out, s') /\
    rtc Ledger.step L L' /\ sim s' L' /\
    out ++ queued s' = queued s ++ acts /\
    Ledger.finished L' = Ledger.finished L ++ fin /\
    (forall r ev, (r, ev) ∈ fin -> GenerateEvent ev ∈ acts) /\
    responses acts = omap response_of fin.*2 /\
    reports_of acts = fin.*2 ++ orphan op s.
Proof.
  destruct (simulate_op op s L Hsim Hcon) as (out & s' & L' & acts & fin & ? & ? & ? & ? & ? & ? & Hr & ?).
  exists out, s', L', acts, fin. split_and!; try done. intros r ev Hin. apply reports_of_elem.
  rewrite Hr. apply elem_of_app. left. apply list_elem_of_fmap. by exists (r, ev).
Qed.

(** C4: No request is lost and none is answered twice.  After any run of a
    fresh behaviour, the requests it was given are the identifiers 1 to n; each
    is either still in progress at exactly one place (buffered for its peer,
    or in flight on one connection of its peer) or has had exactly one report,
    which was handed to the swarm or is in the queue.  No report comes twice and
    there are no others: the events handed out or queued that end a request are
    the reports listed, each once, and the failures of those requests of peers
    that came from connections which were gone. *)
Theorem requests_conserved cfg a σ ops out s
    (Hrun : run (from_config cfg a σ).1 ops out s) :
  exists reports : list (RequestId * FileGetEvent.t),
    NoDup reports.*1 /\
    (forall r ev, (r, ev) ∈ reports ->
      Ledger.about ev = r /\ GenerateEvent ev ∈ out ++ queued s) /\
    reports_of (out ++ queued s) ≡ₚ reports.*2 ++ orphans (from_config cfg a σ).1 ops /\
    (forall r, (1 <= request_id_0 r <= sends ops) <->
      r ∈ reports.*1 \/ exists st, tracked s r st) /\
    (forall r st, tracked s r st ->
      (r ∉ reports.*1) /\ forall st', tracked s r st' -> st' = st).
Proof.
  destruct (run_simulated _ _ _ _ _ Hrun (sim_init cfg a σ))
    as (L & acts & fin & _ & Hsim & Hq & Hn & Hf & Hin & _).
  pose proof (sim_ledger _ _ Hsim) as HL. simpl in Hf, Hn, Hq. exists fin.
  assert (forall r, r ∈ dom (Ledger.live L) <-> exists st, tracked s r st) as Hdom.
  { intros r. rewrite elem_of_dom. unfold is_Some. by setoid_rewrite (sim_live _ _ Hsim). }
  rewrite <-Hf. split_and!.
  - apply HL.
  - intros r ev Hr. split; [by apply (Ledger.wf_about _ HL)|]. rewrite Hq.
    apply reports_of_elem. rewrite Hin, <-Hf. apply elem_of_app. left.
    apply list_elem_of_fmap. by exists (r, ev).
  - by rewrite Hq, Hf.
  - intros r. pose proof (Ledger.wf_issued _ HL r) as Hi. rewrite Hn in Hi. rewrite <-Hdom.
    rewrite (Logic.or_comm (r ∈ _)), <-Hi. lia.
  - intros r st Hr. split.
    + apply (Ledger.wf_disjoint _ HL), Hdom. by exists st.
    + intros st' Hr'. by apply (tracked_functional s L r).
Qed.

(** C13: The application sees at most one response per request, and only for
    requests that were sent and are no longer in progress: the identifiers in
    the [ResponseReceived] events handed out or queued in a run are pairwise
    distinct and lie between 1 and the number of requests sent. *)
Theorem responses_unique cfg a σ ops out s
    (Hrun : run (from_config cfg a σ).1 ops out s) :
  NoDup (responses (out ++ queued s)) /\
  forall r, r ∈ responses (out ++ queued s) ->
    1 <= request_id_0 r <= sends ops /\ forall st, ~ tracked s r st.
Proof.
  destruct (run_simulated _ _ _ _ _ Hrun (sim_init cfg a σ))
    as (L & acts & fin & _ & Hsim & Hq & Hn & Hf & _ & Hr).
  pose proof (sim_ledger _ _ Hsim) as HL. simpl in Hf, Hn, Hq. rewrite Hq, Hr, <-Hf.
  split.
  - apply Ledger.omap_about_NoDup; [apply HL..|]. by intros [] ? [= ->].
  - intros r Hin. apply Ledger.omap_about_elem in Hin; [|apply HL|by intros [] ? [= ->]].
    split.
    + pose proof (proj2 (Ledger.wf_issued _ HL r) (or_intror Hin)). lia.
    + intros st Hst. apply (sim_live _ _ Hsim), elem_of_dom_2 in Hst.
      by apply (Ledger.wf_disjoint _ HL) in Hst.
Qed.

(** C25: [send_request] numbers the request with the next identifier and, when
    the peer is connected, hands it to the connection the identifier selects
    modulo the number of connections, recording it there as in flight; when
    the peer is not connected, it buffers the request behind those already
    waiting for the peer and asks the swarm to dial. *)
Theorem send_request_spec p rq w s (Hwf : wf s) :
  let n := RequestIdGenerator.counter (requset_id_generator s) in
  let r := mkRequestId n in
  let req := FileGetOutboundProtocol.mk r (file_name rq) w in
  exists s', send_request p rq w s = Return (r, s') /\
    RequestIdGenerator.counter (requset_id_generator s') = wrap64 (n + 1) /\
    match connected s !! p with
    | Some cs => exists conn,
        cs !! Z.to_nat (as_usize n mod Z.of_nat (length cs)) = Some conn /\
        queued s' = queued s ++ [NotifyHandler p (Connection.id conn) req] /\
        inflight s' p (Connection.id conn) r /\
        pending_outbound_requests s' = pending_outbound_requests s
    | None =>
        queued s' = queued s ++ [Dial p (new_handler s)] /\
        connected s' = connected s /\
        pending_outbound_requests s' =
          <[p := default [] (pending_outbound_requests s !! p) ++ [req]]>
            (pending_outbound_requests s)
    end.
Proof.
  intros n r req. set (s0 := set_requset_id_generator (RequestIdGenerator.mk (wrap64 (n + 1))) s).
  change (send_request p rq w s) with
    ('(back, s1) ← try_send_request p req s0;
     Return (r, match back with
                | Some request => set_pending_outbound_requests
                    (<[p := default [] (pending_outbound_requests s1 !! p) ++ [request]]>
                       (pending_outbound_requests s1)) (push_action (Dial p (new_handler s1)) s1)
                | None => s1
                end)).
  destruct (connected s !! p) as [cs|] eqn:Hp.
  - destruct (try_send_connected p req s0 cs) as (conn & Hconn & Hc & ->); [by apply (wf_ext s)|done|].
    eexists. split; [done|]. split; [done|]. exists conn. split_and!; [done..| |done].
    apply (tracked_hand_over p (Connection.id conn) s0 req r (Ledger.Sent p (Connection.id conn)));
      auto.
  - rewrite try_send_disconnected by done. eexists. split; [done|]. by split_and!.
Qed.

(** C20: When the first connection to a peer is established, every request
    buffered for it, in order, is handed to that connection: the buffer is
    empty afterwards, exactly one [NotifyHandler] per request is queued, and
    each is in flight on the new connection; no request is dropped although
    the code ignores the result of [try_send_request]. *)
Theorem established_flushes_buffer p c ep n s
    (Hwf : wf s) (Hc : c ∉ connection_ids s p)
    (Hn : n = Z.of_nat (length (connection_ids s p))) :
  exists s', on_connection_established p c ep n s = Return s' /\ wf s' /\
    (forall r, ~ waits s' p r) /\
    (forall r, waits s p r -> inflight s' p c r) /\
    queued s' = queued s ++
      (NotifyHandler p c <$> default [] (pending_outbound_requests s !! p)).
Proof.
  destruct (established_spec p c ep n s Hwf Hc Hn) as (address & He & Hwf' & _ & Hq & Ht).
  eexists. split_and!; [done|done| | |done].
  - intros r Hr. change (tracked (established_state p c address s) r (Ledger.Waiting p)) in Hr.
    apply Ht in Hr. naive_solver.
  - intros r Hr. change (tracked (established_state p c address s) r (Ledger.Sent p c)).
    apply Ht. auto.
Qed.

(** C19: Closing a connection reports our requests the wrong way round.  For
    every request of ours in flight on the connection the application gets an
    [InboundFailure], and, unless the peer happens to have a request with the
    same number on that connection, no [OutboundFailure]; for every request
    of the peer still to be answered it gets an [OutboundFailure]. *)
Theorem closing_swaps_directions p c s conn
    (Hwf : wf s) (Hconn : find_connection p c s = Some conn) :
  exists s', on_connection_closed p c s = Return s' /\
    find_connection p c s' = None /\
    (forall r, r ∈ Connection.pending_inbound_responses conn ->
      GenerateEvent (FileGetEvent.InboundFailure p r InboundFailure.ConnectionClosed) ∈ queued s' /\
      (r ∉ Connection.pending_outbound_responses conn ->
       forall e, GenerateEvent (FileGetEvent.OutboundFailure p r e) ∈ queued s' ->
         GenerateEvent (FileGetEvent.OutboundFailure p r e) ∈ queued s)) /\
    (forall r, r ∈ Connection.pending_outbound_responses conn ->
      GenerateEvent (FileGetEvent.OutboundFailure p r OutboundFailure.ConnectionClosed) ∈ queued s').
Proof.
  destruct (closed_spec p c s Hwf) as (conn' & Hconn' & He).
  { apply connection_ids_elem. by exists conn. }
  assert (conn' = conn) as -> by congruence.
  eexists. split_and!; [exact He| | |].
  - change (find_connection p c (removed_state p c s) = None).
    by rewrite find_connection_removed, decide_True.
  - intros r Hr. rewrite queued_push_events. unfold closing_events. split.
    + apply elem_of_app. right. apply list_elem_of_fmap_2, elem_of_app. right.
      apply list_elem_of_fmap. exists r. by rewrite elem_of_set_iter.
    + intros Hno e. rewrite elem_of_app. intros [?|Hin]; [done|].
      apply list_elem_of_fmap in Hin as (ev & [= <-] & Hev). exfalso. apply elem_of_app in Hev as [Hev|Hev];
        apply list_elem_of_fmap in Hev as (r' & [=] & Hr').
      apply elem_of_set_iter in Hr'. by subst.
  - intros r Hr. rewrite queued_push_events. apply elem_of_app. right.
    apply list_elem_of_fmap_2, elem_of_app. left. apply list_elem_of_fmap. exists r.
    by rewrite elem_of_set_iter.
Qed.

(** C34: [on_connection_handler_event], branch by branch: outside of a failed
    [debug_assert] each event of a handler queues exactly the reports of
    [handler_reports] and changes, on its connection only, the pending set
    [handler_effect] says; in a debug build the three events about a request
    that is not pending panic. *)
Theorem handler_event_spec p c hev s :
  (debug_assertions = false \/ asserted p c hev s ->
   exists s', on_connection_handler_event p c hev s = Return s' /\
     queued s' = queued s ++ (GenerateEvent <$> handler_reports p c hev s) /\
     (forall p' c', find_connection p' c' s' =
        if decide (p = p' /\ c = c') then handler_effect hev <$> find_connection p' c' s
        else find_connection p' c' s)) /\
  (debug_assertions = true -> ~ asserted p c hev s ->
   exists msg, on_connection_handler_event p c hev s = Panic msg).
Proof.
  destruct (handler_event_cases p c hev s) as [H1' H2']. split; [|done]. intros Ha.
  exists (handled_state p c hev s). split_and!; [by apply H1'| |].
  - unfold handled_state. rewrite queued_push_events. by destruct (find_connection p c s).
  - intros p' c'. unfold handled_state.
    change (find_connection p' c' (push_events ?evs ?s0)) with (find_connection p' c' s0).
    destruct (find_connection p c s) as [conn|] eqn:E.
    + apply find_update_connection. by destruct hev.
    + case_decide as D; [|done]. destruct D as [<- <-]. by rewrite E.
Qed.

(** C36: Polling drains the behaviour: as many polls as there are queued actions
    return them all in the order they were queued, the next poll returns
    [Pending], and by then the buffer of the queue has been shrunk to the
    threshold; nothing else changes. *)
Theorem behaviour_poll_drains s :
  exists s', poll_times (S (length (queued s))) s = ((Ready <$> queued s) ++ [Pending], s') /\
    queued s' = [] /\ (vd_capacity (pending_events s') <= EMPTY_QUEUE_SHRINK_THRESHOLD)%nat /\
    s' = set_pending_events (pending_events s') s.
Proof. apply poll_times_drains. Qed.

(** C38: The address book is never used: erasing from any run every
    [add_address] and [remove_address], and starting with any other address
    book, changes none of the actions the behaviour gives the swarm, so the
    addresses added by hand take no part in dialling. *)
Theorem address_book_unused s ops out s' m (Hrun : run s ops out s') :
  run (set_addresses m s) (filter (fun op => ~ is_address_op op) ops) out (set_addresses m s').
Proof.
  induction Hrun as [s|op ops s o s1 out s2 Hcon Hap Hrun IH]; [constructor|].
  rewrite filter_cons. destruct (decide (~ is_address_op op)) as [Hop|Hop].
  - eapply run_cons; [by apply contract_addresses| |exact IH].
    rewrite apply_op_addresses, Hap by done. done.
  - apply dec_stable in Hop. destruct (address_op_only op s o s1 m Hop Hap) as [-> Hs].
    by rewrite <-Hs.
Qed.
End BehaviourProps.

(** * Witnesses *)
Section BehaviourWitnesses.
#[local] Existing Instance numExt.
#[local] Existing Instance debug64.
#[local] Existing Instance canonicalOrder.
#[local] Instance inbound_fu : FuturesUnordered InboundFut InboundOut ChanEnv :=
  list_fu Handler.map_ok_inbound.

Definition peer : @PeerId numExt := 7.
Definition conn1 : @ConnectionId numExt := 1.
Definition address : @Multiaddr numExt := 99.
Definition sink : @AsyncWrite numExt := 10.

Definition fresh_store : Store := fun _ => RequestIdGenerator.new.

Definition start : FileGet.t :=
  (from_config (FileGetConfig_new 1800) (mkArc 1) fresh_store).1.

(** Two requests to peer 7 before it is connected, a connection, an answer to
    the first request, a third request, the loss of the connection. *)
Definition day : list Op := [
  AddAddress peer address;
  SendRequest peer (FileGetMessage_new (str "a")) sink;
  SendRequest peer (FileGetMessage_new (str "b")) sink;
  OnSwarmEvent (ConnectionEstablished peer conn1 (ConnectedPoint.Dialer address) 0);
  PollOp;
  OnHandlerEvent peer conn1 (FileGetHandlerEvent.Response (mkRequestId 1));
  SendRequest peer (FileGetMessage_new (str "c")) sink;
  OnSwarmEvent (ConnectionClosed peer conn1)
].

(** The state and the actions after a scenario. *)
Definition after (ops : list Op) : list Action * FileGet.t := default ([], start) (run_exec start ops).

Lemma day_runs : run start day (after day).1 (after day).2.
Proof. apply run_exec_sound. vm_compute. reflexivity. Qed.

Definition end_of_day : FileGet.t := (after day).2.

(** The connection of peer 7 before it is lost. *)
Definition last_connection : Connection.t :=
  default (Connection.new conn1 None) (find_connection peer conn1 (after (take 7 day)).2).

Lemma before_close_runs : run start (take 7 day) (after (take 7 day)).1 (after (take 7 day)).2.
Proof. apply run_exec_sound. vm_compute. reflexivity. Qed.

Lemma behaviour_refines_ledger_witness :
  exists out s' L' acts fin,
    apply_op (SendRequest peer (FileGetMessage_new (str "a")) sink) start = Return (out, s') /\
    rtc Ledger.step Ledger.init L' /\ sim s' L' /\
    out ++ queued s' = queued start ++ acts /\
    Ledger.finished L' = [] ++ fin /\
    (forall r ev, (r, ev) ∈ fin -> GenerateEvent ev ∈ acts) /\
    responses acts = omap response_of fin.*2 /\
    reports_of acts = fin.*2 ++ orphan (SendRequest peer (FileGetMessage_new (str "a")) sink) start.
Proof.
  apply (behaviour_refines_ledger _ start Ledger.init); [apply sim_init|discriminate].
Defined.

Lemma requests_conserved_witness :
  exists reports : list (RequestId * FileGetEvent.t),
    NoDup reports.*1 /\
    (forall r ev, (r, ev) ∈ reports ->
      Ledger.about ev = r /\ GenerateEvent ev ∈ (after day).1 ++ queued end_of_day) /\
    reports_of ((after day).1 ++ queued end_of_day) ≡ₚ reports.*2 ++ orphans start day /\
    (forall r, (1 <= request_id_0 r <= sends day) <->
      r ∈ reports.*1 \/ exists st, tracked end_of_day r st) /\
    (forall r st, tracked end_of_day r st ->
      (r ∉ reports.*1) /\ forall st', tracked end_of_day r st' -> st' = st).
Proof. exact (requests_conserved (FileGetConfig_new 1800) (mkArc 1) fresh_store day _ _ day_runs). Defined.

Lemma responses_unique_witness :
  responses ((after day).1 ++ queued end_of_day) = [mkRequestId 1] /\
  NoDup (responses ((after day).1 ++ queued end_of_day)).
Proof.
  split; [vm_compute; reflexivity|].
  exact (proj1 (responses_unique (FileGetConfig_new 1800) (mkArc 1) fresh_store day _ _ day_runs)).
Defined.

Lemma send_request_spec_witness :
  exists s', send_request peer (FileGetMessage_new (str "d")) sink (after (take 7 day)).2 =
    Return (mkRequestId 4, s').
Proof.
  destruct (send_request_spec peer (FileGetMessage_new (str "d")) sink (after (take 7 day)).2
    (reachable_wf (FileGetConfig_new 1800) (mkArc 1) fresh_store _ _ _ before_close_runs)) as (s' & Hs & _).
  exists s'. rewrite Hs. vm_compute. reflexivity.
Defined.

Lemma established_flushes_buffer_witness :
  exists s', on_connection_established peer conn1 (ConnectedPoint.Dialer address) 0 (after (take 3 day)).2 =
      Return s' /\
    waits (after (take 3 day)).2 peer (mkRequestId 2) /\ inflight s' peer conn1 (mkRequestId 2).
Proof.
  assert (run start (take 3 day) (after (take 3 day)).1 (after (take 3 day)).2) as Hrun
    by (apply run_exec_sound; vm_compute; reflexivity).
  destruct (established_flushes_buffer peer conn1 (ConnectedPoint.Dialer address) 0 (after (take 3 day)).2
    (reachable_wf (FileGetConfig_new 1800) (mkArc 1) fresh_store _ _ _ Hrun)) as (s' & Hs & _ & _ & Hf & _).
  - apply (bool_decide_unpack _). vm_compute. exact I.
  - vm_compute. reflexivity.
  - assert (waits (after (take 3 day)).2 peer (mkRequestId 2)) as Hw.
    { eexists. split; [vm_compute; reflexivity|].
      apply (bool_decide_unpack _). vm_compute. exact I. }
    exists s'. auto.
Defined.

Lemma closing_swaps_directions_witness :
  exists s', on_connection_closed peer conn1 (after (take 7 day)).2 = Return s' /\
    GenerateEvent (FileGetEvent.InboundFailure peer (mkRequestId 2) InboundFailure.ConnectionClosed)
      ∈ queued s'.
Proof.
  destruct (closing_swaps_directions peer conn1 (after (take 7 day)).2 last_connection
    (reachable_wf (FileGetConfig_new 1800) (mkArc 1) fresh_store _ _ _ before_close_runs)) as (s' & Hs & _ & Hin & _).
  - vm_compute. reflexivity.
  - exists s'. split; [exact Hs|]. apply (Hin (mkRequestId 2)).
    apply (bool_decide_unpack _). vm_compute. exact I.
Defined.

Lemma address_book_unused_witness :
  run (set_addresses ∅ start) (filter (fun op => ~ is_address_op op) day) (after day).1
    (set_addresses ∅ end_of_day).
Proof. exact (address_book_unused _ _ _ _ ∅ day_runs). Defined.
End BehaviourWitnesses.
