(* ===== verification/Links.v ===== *)
(** * The behaviour and the connection handlers together

    One [FileGet], one [Handler] per connection, and between them what the
    swarm keeps: the notifications and events under way, the substreams that
    are being opened or served, and which connections exist.  [react] is the
    composition of the operations of the two components; [enabled] says what
    the swarm and the substreams guarantee, without reference to the state of
    [FileGet].  [LinksInvariant.v] shows that this discharges the contract of
    [BehaviourRefinement.v]. *)
From S2P Require Import Prelude Externals FileGetTypes Handler Behaviour.

(** One connection. *)
Module Link.
Section Link.
Context `{Ext, Platform} `{!FuturesUnordered InboundFut InboundOut ChanEnv}.

Record t : Type := mk {
  handler : Handler.t;
  (** Notifications of the behaviour not yet delivered to the handler. *)
  inbox : list FileGetOutboundProtocol.t;
  (** Events of the handler not yet delivered to the behaviour. *)
  outbox : list FileGetHandlerEvent.t;
  (** Outbound substreams being opened or upgraded: what they are for. *)
  dialling : list FileGetOutboundProtocol.t;
  (** Inbound substreams being upgraded. *)
  serving : list FileGetInboundProtocol.t;
  (** The channel of every inbound substream there was. *)
  channels : list (RequestId * ReqReceiver);
}.

(** Their requests. *)
Definition dialling_ids (l : t) : list RequestId :=
  FileGetOutboundProtocol.request_id <$> dialling l.
Definition serving_ids (l : t) : list RequestId :=
  FileGetInboundProtocol.request_id <$> serving l.

Definition open (h : Handler.t) : t := mk h [] [] [] [] [].

Definition set_handler (h : Handler.t) (l : t) : t :=
  mk h (inbox l) (outbox l) (dialling l) (serving l) (channels l).
Definition set_inbox (x : list FileGetOutboundProtocol.t) (l : t) : t :=
  mk (handler l) x (outbox l) (dialling l) (serving l) (channels l).
Definition set_outbox (x : list FileGetHandlerEvent.t) (l : t) : t :=
  mk (handler l) (inbox l) x (dialling l) (serving l) (channels l).
Definition set_dialling (x : list FileGetOutboundProtocol.t) (l : t) : t :=
  mk (handler l) (inbox l) (outbox l) x (serving l) (channels l).
Definition set_serving (x : list FileGetInboundProtocol.t) (l : t) : t :=
  mk (handler l) (inbox l) (outbox l) (dialling l) x (channels l).

(** Delivering the oldest notification. *)
Definition deliver (l : t) : t :=
  match inbox l with
  | [] => l
  | rq :: rest => set_inbox rest (set_handler (Handler.on_behaviour_event rq (handler l)) l)
  end.

(** The swarm polls the handler: an event is sent to the behaviour, a substream
    is opened for a request.  An error closes the connection later. *)
Definition poll (now : Z) (env : ChanEnv) (l : t) : exec t :=
  '(r, h) ← Handler.poll now env (handler l);
  let l := set_handler h l in
  Return (match r with
          | Ready (Handler.Custom event) => set_outbox (outbox l ++ [event]) l
          | Ready (Handler.OutboundSubstreamRequest protocol) =>
              set_dialling (dialling l ++ [Handler.upgrade _ protocol]) l
          | Ready (Handler.Close _) | Pending => l
          end).

(** The peer opens a substream. *)
Definition open_inbound (req_chan : ReqSender * ReqReceiver) (res_chan : ResSender * ResReceiver)
    (l : t) (σ : Store) : t * Store :=
  let '(protocol, h, σ) := Handler.listen_protocol req_chan res_chan (handler l) σ in
  (mk h (inbox l) (outbox l) (dialling l) (Handler.upgrade _ protocol :: serving l)
     ((Handler.info _ protocol, req_chan.2) :: channels l), σ).

(** The outcome of an outbound substream. *)
Definition outbound_done (r : RequestId) (outcome : result unit ConnectionHandlerUpgrErr.t)
    (l : t) : t :=
  let event := match outcome with
               | Ok _ => Handler.FullyNegotiatedOutbound r
               | Err e => Handler.DialUpgradeError e r
               end in
  set_dialling (filter (fun p => FileGetOutboundProtocol.request_id p <> r) (dialling l))
    (set_handler (Handler.on_connection_event event (handler l)) l).

(** The outcome of an inbound substream. *)
Definition inbound_done (r : RequestId) (outcome : result bool ConnectionHandlerUpgrErr.t)
    (l : t) : t :=
  let event := match outcome with
               | Ok sent => Handler.FullyNegotiatedInbound sent r
               | Err e => Handler.ListenUpgradeError e r
               end in
  set_serving (filter (fun p => FileGetInboundProtocol.request_id p <> r) (serving l))
    (set_handler (Handler.on_connection_event event (handler l)) l).
End Link.
End Link.

Module Net.
Section Net.
Context `{Ext, Platform, HashOrder} `{!FuturesUnordered InboundFut InboundOut ChanEnv}.

Record t : Type := mk {
  file_get : FileGet.t;
  (** The live connections; [established] in the order they came. *)
  links : PeerId -> ConnectionId -> option Link.t;
  established : PeerId -> list ConnectionId;
  (** All connections there were: identifiers are never used twice. *)
  used : list (PeerId * ConnectionId);
  (** The counters behind the [Arc]s. *)
  store : Store;
  (** Inbound requests the application was told about. *)
  given : list RequestId;
  (** How many requests were sent and inbound substreams opened. *)
  sent : Z;
  opened : Z;
}.

Definition init (cfg : FileGetConfig) (arc : Arc) (σ : Store) : t :=
  let '(s, σ) := FileGet.from_config cfg arc σ in
  mk s (fun _ _ => None) (fun _ => []) [] σ [] 0 0.

Definition set_file_get (s : FileGet.t) (n : t) : t :=
  mk s (links n) (established n) (used n) (store n) (given n) (sent n) (opened n).
Definition set_link (p : PeerId) (c : ConnectionId) (o : option Link.t) (n : t) : t :=
  mk (file_get n) (fun p' c' => if decide (p' = p /\ c' = c) then o else links n p' c')
    (established n) (used n) (store n) (given n) (sent n) (opened n).
Definition set_established (p : PeerId) (l : list ConnectionId) (n : t) : t :=
  mk (file_get n) (links n) (fun p' => if decide (p' = p) then l else established n p')
    (used n) (store n) (given n) (sent n) (opened n).
Definition use (p : PeerId) (c : ConnectionId) (n : t) : t :=
  mk (file_get n) (links n) (established n) ((p, c) :: used n) (store n) (given n) (sent n)
    (opened n).
Definition set_store (σ : Store) (n : t) : t :=
  mk (file_get n) (links n) (established n) (used n) σ (given n) (sent n) (opened n).
Definition give (r : RequestId) (n : t) : t :=
  mk (file_get n) (links n) (established n) (used n) (store n) (r :: given n) (sent n) (opened n).
Definition count_sent (n : t) : t :=
  mk (file_get n) (links n) (established n) (used n) (store n) (given n) (sent n + 1) (opened n).
Definition count_opened (n : t) : t :=
  mk (file_get n) (links n) (established n) (used n) (store n) (given n) (sent n) (opened n + 1).

(** What happens next. *)
Inductive Label : Type :=
| Send (p : PeerId) (request : FileGetMessage) (file_writer : AsyncWrite)
| Connect (p : PeerId) (c : ConnectionId) (endpoint : ConnectedPoint.t)
| Disconnect (p : PeerId) (c : ConnectionId)
| DialFailure (p : option PeerId)
| AddressChange (p : PeerId) (c : ConnectionId) (endpoint : ConnectedPoint.t)
| Poll
| Deliver (p : PeerId) (c : ConnectionId)
| PollHandler (p : PeerId) (c : ConnectionId) (now : Z) (env : ChanEnv)
| OpenInbound (p : PeerId) (c : ConnectionId) (req_chan : ReqSender * ReqReceiver)
    (res_chan : ResSender * ResReceiver)
| OutboundDone (p : PeerId) (c : ConnectionId) (r : RequestId)
    (outcome : result unit ConnectionHandlerUpgrErr.t)
| InboundDone (p : PeerId) (c : ConnectionId) (r : RequestId)
    (outcome : result bool ConnectionHandlerUpgrErr.t)
| Report (p : PeerId) (c : ConnectionId).

(** Changing a live connection. *)
Definition on_link (p : PeerId) (c : ConnectionId) (f : Link.t -> Link.t) (n : t) : t :=
  match links n p c with
  | Some l => set_link p c (Some (f l)) n
  | None => n
  end.

Definition react (x : Label) (n : t) : exec t :=
  match x with
  | Send p request w =>
      '(_, s) ← FileGet.send_request p request w (file_get n);
      Return (count_sent (set_file_get s n))
  | Connect p c endpoint =>
      s ← FileGet.on_swarm_event (FileGet.ConnectionEstablished p c endpoint
            (Z.of_nat (length (established n p)))) (file_get n);
      Return (use p c (set_established p (established n p ++ [c])
        (set_link p c (Some (Link.open (FileGet.new_handler (file_get n)))) (set_file_get s n))))
  | Disconnect p c =>
      s ← FileGet.on_swarm_event (FileGet.ConnectionClosed p c) (file_get n);
      Return (set_established p (filter (fun c' => c' <> c) (established n p))
        (set_link p c None (set_file_get s n)))
  | DialFailure p =>
      s ← FileGet.on_swarm_event (FileGet.DialFailure p) (file_get n);
      Return (set_file_get s n)
  | AddressChange p c endpoint =>
      s ← FileGet.on_swarm_event (FileGet.AddressChange p c endpoint) (file_get n);
      Return (set_file_get s n)
  | Poll =>
      let '(r, s) := FileGet.poll (file_get n) in
      let n := set_file_get s n in
      Return (match r with
              | Ready (FileGet.NotifyHandler p c rq) =>
                  on_link p c (fun l => Link.set_inbox (Link.inbox l ++ [rq]) l) n
              | Ready (FileGet.GenerateEvent (FileGetEvent.RequestReceived _ r _ _)) => give r n
              | _ => n
              end)
  | Deliver p c => Return (on_link p c Link.deliver n)
  | PollHandler p c now env =>
      match links n p c with
      | Some l => l ← Link.poll now env l; Return (set_link p c (Some l) n)
      | None => Return n
      end
  | OpenInbound p c req_chan res_chan =>
      match links n p c with
      | Some l =>
          let '(l, σ) := Link.open_inbound req_chan res_chan l (store n) in
          Return (count_opened (set_store σ (set_link p c (Some l) n)))
      | None => Return n
      end
  | OutboundDone p c r outcome => Return (on_link p c (Link.outbound_done r outcome) n)
  | InboundDone p c r outcome => Return (on_link p c (Link.inbound_done r outcome) n)
  | Report p c =>
      match links n p c with
      | Some l =>
          match Link.outbox l with
          | event :: rest =>
              s ← FileGet.on_connection_handler_event p c event (file_get n);
              Return (set_link p c (Some (Link.set_outbox rest l)) (set_file_get s n))
          | [] => Return n
          end
      | None => Return n
      end
  end.

(** What the swarm and the substreams guarantee: a connection identifier is
    new; events of a connection come before its end; a channel carries what
    its own upgrade sent; an outcome is reported once, for a substream that is
    open, and an inbound substream is only served after the application was
    told about the request; fewer than 2^64 - 2 requests and substreams; and no
    deadline lies beyond the clock. *)
Definition enabled (x : Label) (n : t) : Prop :=
  match x with
  | Send _ _ _ => sent n + 1 < two64
  | Connect p c _ => (p, c) ∉ used n
  | Disconnect p c => exists l, links n p c = Some l /\ Link.outbox l = []
  | DialFailure _ | Poll | Deliver _ _ | Report _ _ => True
  | AddressChange p c _ => is_Some (links n p c)
  | PollHandler p c now env =>
      forall l, links n p c = Some l ->
        Handler.timeout (Link.handler l) * 2 <= DURATION_MAX /\
        now + Handler.timeout (Link.handler l) * 2 <= instant_max /\
        forall rx m, env rx = Some (Ok m) -> (m.1, rx) ∈ Link.channels l
  | OpenInbound _ _ _ _ => opened n + 2 < two64
  | OutboundDone p c r _ => exists l, links n p c = Some l /\ r ∈ Link.dialling_ids l
  | InboundDone p c r outcome =>
      exists l, links n p c = Some l /\ r ∈ Link.serving_ids l /\
        match outcome with Ok sent => sent = true /\ r ∈ given n | Err _ => True end
  end.

Inductive reachable (cfg : FileGetConfig) (arc : Arc) (σ : Store) : t -> Prop :=
| reachable_init : reachable cfg arc σ (init cfg arc σ)
| reachable_step n x n' :
    reachable cfg arc σ n -> enabled x n -> react x n = Return n' -> reachable cfg arc σ n'.
End Net.
End Net.
