(* ===== verification/LinksViews.v ===== *)
(** * What the connections see of the behaviour

    For one connection: the requests in flight on it ([inflight]), the
    responses owed on it ([owed]) and the notifications queued for it
    ([notified]); and what each operation of [FileGet] does to them. *)
From S2P Require Import Prelude Externals FileGetTypes Handler Behaviour Ledger BehaviourLemmas BehaviourTracking BehaviourRefinement.
Import FileGet.

Section Views.
Context `{Ext, Platform, HashOrder} `{!FuturesUnordered InboundFut InboundOut ChanEnv}.
Implicit Types s : FileGet.t.

(** The peer's request [r] on connection [c] is not answered yet. *)
Definition owed s (p : PeerId) (c : ConnectionId) (r : RequestId) : Prop :=
  exists conn, find_connection p c s = Some conn /\
    r ∈ Connection.pending_outbound_responses conn.

(** Notifications for a connection among actions. *)
Definition notified (p : PeerId) (c : ConnectionId) (acts : list Action) : list RequestId :=
  omap (fun a => match a with
    | NotifyHandler p' c' rq =>
        if decide (p' = p /\ c' = c) then Some (FileGetOutboundProtocol.request_id rq) else None
    | _ => None
    end) acts.

(** Requests of peers the application is told about. *)
Definition received (acts : list Action) : list RequestId :=
  omap (fun a => match a with
    | GenerateEvent (FileGetEvent.RequestReceived _ r _ _) => Some r
    | _ => None
    end) acts.

Lemma notified_app p c a1 a2 : notified p c (a1 ++ a2) = notified p c a1 ++ notified p c a2.
Proof. apply omap_app. Qed.

Lemma received_app a1 a2 : received (a1 ++ a2) = received a1 ++ received a2.
Proof. apply omap_app. Qed.

Lemma notified_events p c evs : notified p c (GenerateEvent <$> evs) = [].
Proof. unfold notified. by rewrite omap_fmap_None. Qed.

Lemma notified_notify p c p' c' l :
  notified p c (NotifyHandler p' c' <$> l) =
    if decide (p' = p /\ c' = c) then FileGetOutboundProtocol.request_id <$> l else [].
Proof.
  induction l as [|rq l IH]; csimpl; [by case_decide|]. unfold notified in *. rewrite IH.
  by case_decide.
Qed.

Lemma received_notify p c l : received (NotifyHandler p c <$> l) = [].
Proof. unfold received. by rewrite omap_fmap_None. Qed.

(** ** Connections that keep their sets *)
Lemma views_ext s s' :
  connected s' = connected s ->
  (forall p, connection_ids s' p = connection_ids s p) /\
  (forall p c r, inflight s' p c r <-> inflight s p c r) /\
  (forall p c r, owed s' p c r <-> owed s p c r).
Proof.
  intros Hc. unfold connection_ids, inflight, owed, find_connection. by rewrite Hc.
Qed.

Lemma owed_update p c f s p' c' r :
  (forall x, Connection.id (f x) = Connection.id x) ->
  (forall x, Connection.pending_outbound_responses (f x) =
             Connection.pending_outbound_responses x) ->
  owed (update_connection p c f s) p' c' r <-> owed s p' c' r.
Proof.
  intros Hid Hout. unfold owed. rewrite find_update_connection by done. case_decide; [|done].
  setoid_rewrite fmap_Some. split.
  - intros (? & (conn & ? & ->) & Hr). rewrite Hout in Hr. by exists conn.
  - intros (conn & ? & Hr). exists (f conn). rewrite Hout. naive_solver.
Qed.

Lemma inflight_update p c f s p' c' r :
  (forall x, Connection.id (f x) = Connection.id x) ->
  (forall x, Connection.pending_inbound_responses (f x) =
             Connection.pending_inbound_responses x) ->
  inflight (update_connection p c f s) p' c' r <-> inflight s p' c' r.
Proof. intros Hid Hin. exact (tracked_update_outbound p c f s r (Ledger.Sent p' c') Hid Hin). Qed.

Lemma owed_hand_over p c s rq p' c' r : owed (hand_over p c s rq) p' c' r <-> owed s p' c' r.
Proof. by apply owed_update. Qed.

Lemma owed_hand_over_all p c l s p' c' r :
  owed (foldl (hand_over p c) s l) p' c' r <-> owed s p' c' r.
Proof. revert s; induction l as [|rq l IH]; intros s; [done|]. simpl. by rewrite IH, owed_hand_over. Qed.

Lemma ids_hand_over p c s rq p' : connection_ids (hand_over p c s rq) p' = connection_ids s p'.
Proof.
  exact (connection_ids_update_connection p c (mark (FileGetOutboundProtocol.request_id rq)) s p'
    (fun _ => eq_refl)).
Qed.

Lemma ids_hand_over_all p c l s p' :
  connection_ids (foldl (hand_over p c) s l) p' = connection_ids s p'.
Proof.
  revert s; induction l as [|rq l IH]; intros s; [done|]. simpl. rewrite IH.
  apply ids_hand_over.
Qed.

(** ** Sending *)
Lemma send_views p rq w s r s' :
  wf s -> send_request p rq w s = Return (r, s') ->
  r = (RequestIdGenerator.next_id (requset_id_generator s)).1 /\
  (forall p', connection_ids s' p' = connection_ids s p') /\
  (forall p' c' r', owed s' p' c' r' <-> owed s p' c' r') /\
  exists acts, queued s' = queued s ++ acts /\ received acts = [] /\
    forall p' c', exists new, notified p' c' acts = new /\ (new = [] \/ new = [r]) /\
      (new <> [] -> c' ∈ connection_ids s p') /\
      forall r', inflight s' p' c' r' <-> inflight s p' c' r' \/ r' ∈ new.
Proof.
  intros Hwf. unfold send_request. destruct (RequestIdGenerator.next_id _) as [r0 g]. cbv zeta.
  set (s0 := set_requset_id_generator g s). set (req := FileGetOutboundProtocol.mk r0 _ _).
  assert (wf s0) as Hwf0 by (by apply (wf_ext s)).
  destruct (views_ext s s0 eq_refl) as (Hi0 & Hf0 & Ho0).
  destruct (connected s !! p) as [cs|] eqn:Hp.
  - destruct (try_send_connected p req s0 cs) as (conn & _ & Hconn & ->); [done..|]. simpl.
    intros [= <- <-]. split_and!; [done| |by intros; rewrite owed_hand_over|].
    { intros p'. by rewrite ids_hand_over, Hi0. }
    exists [NotifyHandler p (Connection.id conn) req]. split_and!; [done..|]. intros p' c'.
    eexists. split; [reflexivity|]. csimpl.
    pose proof (fun r' => tracked_hand_over p (Connection.id conn) s0 req r' (Ledger.Sent p' c') Hconn) as Ht.
    simpl in Ht. case_decide as E.
    + destruct E as [<- <-]. split_and!; [by right| |].
      * intros _. rewrite <-Hi0. by apply connection_ids_elem.
      * intros r'. rewrite Ht, Hf0, list_elem_of_singleton. naive_solver.
    + split_and!; [by left|done|]. intros r'. rewrite Ht, Hf0. set_solver.
  - rewrite try_send_disconnected by done. simpl. intros [= <- <-].
    match goal with |- context [connection_ids ?s1 _] => set (s1' := s1) end.
    destruct (views_ext s s1' eq_refl) as (Hi & Hf & Ho). split_and!; [done..|].
    exists [Dial p (new_handler s0)]. split_and!; [done..|]. intros p' c'. exists [].
    split_and!; [done|by left|done|]. intros r'. rewrite Hf. set_solver.
Qed.

(** ** Connections *)
Lemma owed_added p c address m s p' c' r :
  c ∉ connection_ids s p ->
  owed (added_state p c address m s) p' c' r <-> owed s p' c' r.
Proof.
  intros Hc. unfold owed. rewrite find_connection_added by done.
  case_decide as E; [|done]. destruct E as [<- <-]. split.
  - intros (conn & [= <-] & Hr). set_solver.
  - intros (conn & Hconn & _). destruct Hc. apply connection_ids_elem. by eexists.
Qed.

Lemma ids_added p c address m s p' :
  connection_ids (added_state p c address m s) p' =
    if decide (p' = p) then connection_ids s p ++ [c] else connection_ids s p'.
Proof.
  unfold connection_ids, added_state. simpl. case_decide as E.
  - subst. rewrite lookup_insert_eq. simpl. by rewrite fmap_app.
  - by rewrite lookup_insert_ne by done.
Qed.

Lemma established_views p c ep n s s' :
  wf s -> c ∉ connection_ids s p -> n = Z.of_nat (length (connection_ids s p)) ->
  on_connection_established p c ep n s = Return s' ->
  (forall p', connection_ids s' p' =
     if decide (p' = p) then connection_ids s p ++ [c] else connection_ids s p') /\
  (forall p' c' r', owed s' p' c' r' <-> owed s p' c' r') /\
  exists acts, queued s' = queued s ++ acts /\ received acts = [] /\
    forall p' c', NoDup (notified p' c' acts) /\
      (notified p' c' acts <> [] -> p' = p /\ c' = c) /\
      forall r', inflight s' p' c' r' <-> inflight s p' c' r' \/ r' ∈ notified p' c' acts.
Proof.
  intros Hwf Hc Hn Hs.
  destruct (established_spec p c ep n s Hwf Hc Hn) as (address & Hs' & Hwf' & _ & Hq & Ht).
  rewrite Hs in Hs'. injection Hs' as ->.
  set (m := match pending_outbound_requests s !! p with
            | Some _ => delete p (pending_outbound_requests s)
            | None => pending_outbound_requests s end).
  set (l := default [] (pending_outbound_requests s !! p)) in *.
  assert (established_state p c address s =
            foldl (hand_over p c) (added_state p c address m s) l) as Heq.
  { unfold established_state, m, l, added_state. destruct (pending_outbound_requests s !! p); [done|].
    by destruct s. }
  split_and!.
  - intros p'. by rewrite Heq, ids_hand_over_all, ids_added.
  - intros p' c' r'. by rewrite Heq, owed_hand_over_all, owed_added.
  - exists (NotifyHandler p c <$> l). split_and!; [done|by rewrite received_notify|].
    intros p' c'. rewrite notified_notify.
    assert (forall r, waits s p r <-> r ∈ (FileGetOutboundProtocol.request_id <$> l)) as Hw.
    { intros r. unfold waits, l. destruct (pending_outbound_requests s !! p); simpl; [naive_solver|].
      set_solver. }
    split_and!.
    + case_decide; [|constructor]. unfold l.
      destruct (pending_outbound_requests s !! p) as [l0|] eqn:E; [|constructor].
      by apply (wf_waiting _ Hwf _ _ E).
    + case_decide; naive_solver.
    + intros r'. pose proof (Ht r' (Ledger.Sent p' c')) as Htr. simpl in Htr. rewrite Htr, Hw.
      case_decide; [naive_solver|]. set_solver.
Qed.

Lemma closed_views p c s s' :
  wf s -> c ∈ connection_ids s p -> on_connection_closed p c s = Return s' ->
  (forall p', connection_ids s' p' =
     if decide (p' = p) then filter (fun c' => c' <> c) (connection_ids s p)
     else connection_ids s p') /\
  exists acts, queued s' = queued s ++ acts /\ received acts = [] /\
    forall p' c', notified p' c' acts = [] /\
      (~ (p' = p /\ c' = c) ->
       forall r', (inflight s' p' c' r' <-> inflight s p' c' r') /\
                  (owed s' p' c' r' <-> owed s p' c' r')).
Proof.
  intros Hwf Hc Hs. destruct (closed_spec p c s Hwf Hc) as (conn & Hconn & Hs').
  rewrite Hs in Hs'. injection Hs' as ->.
  destruct (views_ext (removed_state p c s) (push_events (closing_events p conn) (removed_state p c s))
    eq_refl) as (Hi & Hf & Ho).
  split.
  - intros p'. rewrite Hi. unfold connection_ids, removed_state. simpl.
    case_decide as E; [subst p'|by rewrite lookup_partial_alter_ne].
    rewrite lookup_partial_alter_eq. destruct (connected s !! p) as [cs|]; simpl; [|done].
    rewrite default_without. clear. induction cs as [|x cs IH]; [done|].
    rewrite fmap_cons, !filter_cons. case_decide; csimpl; [|done]. by rewrite IH.
  - exists (GenerateEvent <$> closing_events p conn).
    rewrite queued_push_events. split_and!; [done| |].
    { unfold closing_events, received. rewrite fmap_app, omap_app, <-!list_fmap_compose.
      by rewrite !omap_fmap_None. }
    intros p' c'. split; [apply notified_events|]. intros Hne r'. rewrite Hf, Ho.
    unfold inflight, owed. rewrite find_connection_removed.
    rewrite decide_False by naive_solver. done.
Qed.

(** ** Dials and addresses *)
Lemma dial_failure_views p s :
  let s' := one_dial_failure p s in
  (forall p', connection_ids s' p' = connection_ids s p') /\
  (forall p' c' r', (inflight s' p' c' r' <-> inflight s p' c' r') /\
                    (owed s' p' c' r' <-> owed s p' c' r')) /\
  exists acts, queued s' = queued s ++ acts /\ received acts = [] /\
    forall p' c', notified p' c' acts = [].
Proof.
  cbv zeta. destruct p as [p|].
  - rewrite dial_failure_spec. set (evs := _ <$> _).
    destruct (views_ext s (push_events evs (undialled_state p s)) eq_refl) as (Hi & Hf & Ho).
    split_and!; [done|by intros; rewrite Hf, Ho|]. exists (GenerateEvent <$> evs).
    rewrite queued_push_events. split_and!; [done| |intros; apply notified_events].
    unfold evs, received. rewrite <-!list_fmap_compose. by rewrite omap_fmap_None.
  - split_and!; [done..|]. exists []. by rewrite app_nil_r.
Qed.

Lemma address_change_views p c ep s s' :
  wf s -> on_address_change p c ep s = Return s' ->
  (forall p', connection_ids s' p' = connection_ids s p') /\
  (forall p' c' r', (inflight s' p' c' r' <-> inflight s p' c' r') /\
                    (owed s' p' c' r' <-> owed s p' c' r')) /\
  queued s' = queued s.
Proof.
  intros Hwf. unfold on_address_change. set (a := match ep with ConnectedPoint.Dialer a => Some a | _ => None end).
  destruct (connected s !! p) as [cs|] eqn:Hp; [|done]. simpl.
  destruct (find_first (Connection.has_id c) cs) as [conn|]; [|done]. simpl. intros [= <-].
  set (f := Connection.set_address a).
  assert (set_connected (<[p := update_first (Connection.has_id c) f cs]> (connected s)) s =
          update_connection p c f s) as ->.
  { unfold update_connection. f_equal. apply map_eq. intros p'.
    destruct (decide (p = p')) as [<-|]; [|by rewrite lookup_insert_ne, lookup_alter_ne].
    by rewrite lookup_insert_eq, lookup_alter_eq, Hp. }
  split_and!; [by intros; apply connection_ids_update_connection| |done].
  intros p' c' r'. split; [by apply inflight_update|by apply owed_update].
Qed.

(** ** Events of the handlers *)

(** The request of ours an event ends, and the request of the peer. *)
Definition outcome_id (ev : FileGetHandlerEvent.t) : option RequestId :=
  match ev with
  | FileGetHandlerEvent.Response r
  | FileGetHandlerEvent.OutboundTimeout r
  | FileGetHandlerEvent.OutboundUnsupportedProtocols r => Some r
  | _ => None
  end.

Definition reply_id (ev : FileGetHandlerEvent.t) : option RequestId :=
  match ev with
  | FileGetHandlerEvent.ResponseSent r
  | FileGetHandlerEvent.ResponseOmission r
  | FileGetHandlerEvent.InboundTimeout r
  | FileGetHandlerEvent.InboundUnsupportedProtocols r => Some r
  | _ => None
  end.

Definition request_id_of (ev : FileGetHandlerEvent.t) : option RequestId :=
  match ev with FileGetHandlerEvent.Request r _ _ => Some r | _ => None end.

(** How the views of [s'] follow from those of [s] when connection [c] of [p]
    loses [out] of ours, loses [reply] of the peer and gains [req]. *)
Definition reported (p : PeerId) (c : ConnectionId) (out reply req : option RequestId) s s' : Prop :=
  (forall p', connection_ids s' p' = connection_ids s p') /\
  (forall p' c' r, inflight s' p' c' r <->
     inflight s p' c' r /\ ~ (out = Some r /\ p' = p /\ c' = c)) /\
  (forall p' c' r, owed s' p' c' r <->
     (owed s p' c' r /\ ~ (reply = Some r /\ p' = p /\ c' = c)) \/
     (req = Some r /\ p' = p /\ c' = c /\ c ∈ connection_ids s p)).

Lemma reported_push p c out reply req s s' a :
  reported p c out reply req s s' -> reported p c out reply req s (push_action a s').
Proof. done. Qed.

Lemma remove_inbound_reported p c r s :
  reported p c (Some r) None None s (remove_pending_inbound_response p c r s).2.
Proof.
  unfold remove_pending_inbound_response. destruct (find_connection p c s) as [conn|] eqn:Hc; simpl.
  - split_and!.
    + intros p'. by apply connection_ids_update_connection.
    + intros p' c' r'. pose proof (tracked_unmark p c r s r' (Ledger.Sent p' c')) as Ht. simpl in Ht.
      unfold unmark in Ht. rewrite Ht. naive_solver.
    + intros p' c' r'. rewrite owed_update by done. naive_solver.
  - split_and!; [done| |naive_solver]. intros p' c' r'. split; [|naive_solver].
    intros Hr. split; [done|]. intros ([= <-] & -> & ->). destruct Hr as (conn & Hr & _). congruence.
Qed.

Lemma remove_outbound_reported p c r s :
  reported p c None (Some r) None s (remove_pending_outbound_response p c r s).2.
Proof.
  unfold remove_pending_outbound_response. destruct (find_connection p c s) as [conn|] eqn:Hc; simpl.
  - split_and!.
    + intros p'. by apply connection_ids_update_connection.
    + intros p' c' r'. rewrite inflight_update by done. naive_solver.
    + intros p' c' r'. unfold owed. rewrite find_update_connection by done.
      destruct (decide (p = p' /\ c = c')) as [[<- <-]|Hne]; [|naive_solver].
      rewrite Hc. simpl. split.
      * intros (? & [= <-] & Hr'). simpl in Hr'. left. split; [exists conn; set_solver|set_solver].
      * intros [[(? & [= <-] & Hr') Hne]|?]; [|naive_solver]. eexists. split; [done|].
        simpl. set_solver.
  - split_and!; [done|naive_solver|]. intros p' c' r'. split.
    + intros Hr. left. split; [done|]. intros ([= <-] & -> & ->).
      destruct Hr as (conn & Hr & _). congruence.
    + naive_solver.
Qed.

Lemma request_reported p c r s conn :
  find_connection p c s = Some conn ->
  reported p c None None (Some r) s (update_connection p c (fun conn => Connection.set_outbound
    ({[r]} ∪ Connection.pending_outbound_responses conn) conn) s).
Proof.
  intros Hc. split_and!.
  - intros p'. by apply connection_ids_update_connection.
  - intros p' c' r'. rewrite inflight_update by done. naive_solver.
  - intros p' c' r'. unfold owed. rewrite find_update_connection by done.
    assert (c ∈ connection_ids s p) as Hin by (apply connection_ids_elem; by eexists).
    destruct (decide (p = p' /\ c = c')) as [[<- <-]|Hne]; [|naive_solver].
    rewrite Hc. simpl. split.
    + intros (? & [= <-] & Hr'). simpl in Hr'.
      apply elem_of_union in Hr' as [->%elem_of_singleton|Hr']; [by right|]. left.
      split; [by exists conn|naive_solver].
    + intros [[(? & [= <-] & Hr') _]|([= <-] & _)]; eexists; (split; [done|]); simpl; set_solver.
Qed.

Lemma report_views p c ev s s' :
  on_connection_handler_event p c ev s = Return s' ->
  reported p c (outcome_id ev) (reply_id ev) (request_id_of ev) s s' /\
  exists acts, queued s' = queued s ++ acts /\
    received acts = match request_id_of ev with Some r => [r] | None => [] end /\
    forall p' c', notified p' c' acts = [].
Proof.
  assert (forall s0 fe, queued s0 = queued s -> received [GenerateEvent fe] = [] ->
    exists acts, queued (push_event fe s0) = queued s ++ acts /\ received acts = [] /\
      forall p' c', notified p' c' acts = []) as Hpush.
  { intros s0 fe Hq Hr. exists [GenerateEvent fe]. split_and!; [|done|done].
    unfold push_event. by rewrite queued_push_action, Hq. }
  assert (forall r, queued (remove_pending_inbound_response p c r s).2 = queued s) as Hqi.
  { intros r. unfold remove_pending_inbound_response. by destruct (find_connection p c s). }
  assert (forall r, queued (remove_pending_outbound_response p c r s).2 = queued s) as Hqo.
  { intros r. unfold remove_pending_outbound_response. by destruct (find_connection p c s). }
  destruct ev as [r m tx|r|r|r|r|r|r|r]; unfold on_connection_handler_event;
    try (pose proof (remove_inbound_reported p c r s) as Hri;
         pose proof (remove_outbound_reported p c r s) as Hro;
         specialize (Hqi r); specialize (Hqo r);
         destruct (remove_pending_inbound_response p c r s) as [bi si];
         destruct (remove_pending_outbound_response p c r s) as [bo so]; simpl in *;
         try (destruct (debug_assert _ _ _); [simpl|done]);
         intros [= <-]; split; [by apply reported_push|by apply Hpush]).
  set (fe := FileGetEvent.RequestReceived p r m tx).
  destruct (find_connection p c (push_event fe s)) as [conn|] eqn:Hc; intros [= <-].
  - split; [by apply (request_reported p c r (push_event fe s) conn)|].
    exists [GenerateEvent fe]. split_and!; done.
  - split; [|exists [GenerateEvent fe; GenerateEvent (FileGetEvent.InboundFailure p r
      InboundFailure.ConnectionClosed)]; split_and!; [|done..]].
    + split_and!; [done|naive_solver|]. intros p' c' r'. split; [naive_solver|].
      intros [[? _]|(_ & -> & -> & Hin)]; [done|].
      apply connection_ids_elem in Hin as [conn Hin]. unfold find_connection in *. simpl in Hc. congruence.
    + unfold push_event. by rewrite !queued_push_action, <-(assoc_L (++)).
Qed.
End Views.
