(* ===== verification/LinksInvariant.v ===== *)
(** * The connections keep the contract of the behaviour

    Where a request is on its way through a connection, what the behaviour
    knows about it, and that every reaction of [Links.v] preserves the two
    fitting together: every call of the behaviour is then made under
    [contract]. *)
From S2P Require Import Prelude Externals FileGetTypes Handler HandlerProps Behaviour Ledger BehaviourLemmas BehaviourTracking BehaviourRefinement Links LinksViews.
Import FileGet.

Section LinksInvariant.
Context `{Ext, Platform, HashOrder} `{!FuturesUnordered InboundFut InboundOut ChanEnv}.
Context `{!FuturesUnorderedLaws InboundFut InboundOut ChanEnv Handler.map_ok_inbound}.

(** ** One connection *)

(** The handler's events on their way to the behaviour. *)
Definition events (l : Link.t) : list FileGetHandlerEvent.t :=
  vd_items (Handler.pending_events (Link.handler l)) ++ Link.outbox l.

(** Our requests on the connection that have not been reported on. *)
Definition link_out (l : Link.t) : list RequestId :=
  (FileGetOutboundProtocol.request_id <$>
     Link.inbox l ++ vd_items (Handler.outbound (Link.handler l))) ++
  Link.dialling_ids l ++ omap outcome_id (events l).

(** The peer's substreams that have not been reported on. *)
Definition link_in (l : Link.t) : list RequestId :=
  Link.serving_ids l ++ omap reply_id (events l).

Record link_ok (given : list RequestId) (opened : Z) (arc : Arc) (l : Link.t) : Prop := {
  link_arc : Handler.inbound_id_generator (Link.handler l) = arc;
  link_nodup : NoDup (link_in l);
  link_in_channels r : r ∈ link_in l -> r ∈ (Link.channels l).*1;
  link_range r : r ∈ (Link.channels l).*1 -> 1 <= request_id_0 r <= opened;
  link_event ev : ev ∈ events l ->
    match ev with
    | FileGetHandlerEvent.ResponseSent r => r ∈ given
    | FileGetHandlerEvent.ResponseOmission _ => False
    | FileGetHandlerEvent.Request r _ _ => r ∈ (Link.channels l).*1
    | _ => True
    end;
}.

(** What a change inside a connection may do: requests may be dropped and
    reported on, and events that are allowed may be added. *)
Record link_step (given : list RequestId) (l l' : Link.t) : Prop := {
  step_arc : Handler.inbound_id_generator (Link.handler l') =
             Handler.inbound_id_generator (Link.handler l);
  step_channels : Link.channels l' = Link.channels l;
  step_out : link_out l' ⊆+ link_out l;
  step_in : link_in l' ⊆+ link_in l;
  step_event ev : ev ∈ events l' -> ev ∈ events l \/
    match ev with
    | FileGetHandlerEvent.ResponseSent r => r ∈ given
    | FileGetHandlerEvent.ResponseOmission _ => False
    | FileGetHandlerEvent.Request r _ _ => r ∈ (Link.channels l).*1
    | _ => True
    end;
}.

Lemma NoDup_submseteq {A} (l1 l2 : list A) : l1 ⊆+ l2 -> NoDup l2 -> NoDup l1.
Proof.
  intros [k Hk]%submseteq_Permutation Hnd. rewrite Hk in Hnd. by apply NoDup_app in Hnd as [? _].
Qed.

Lemma link_ok_step given opened arc l l' :
  link_ok given opened arc l -> link_step given l l' -> link_ok given opened arc l'.
Proof.
  intros [Ha Hn Hc Hr He] [Sa Sc So Si Se]. split.
  - congruence.
  - by eapply NoDup_submseteq.
  - intros r Hin. rewrite Sc. apply Hc. by eapply elem_of_submseteq.
  - rewrite Sc. done.
  - intros ev Hev. rewrite Sc. destruct (Se ev Hev) as [Hold|Hnew]; [by apply He|done].
Qed.

Lemma link_ok_grow given given' opened opened' arc l :
  link_ok given opened arc l -> (forall r, r ∈ given -> r ∈ given') -> opened <= opened' ->
  link_ok given' opened' arc l.
Proof.
  intros [Ha Hn Hc Hr He] Hg Ho. split; try done.
  - intros r Hin. specialize (Hr r Hin). lia.
  - intros ev Hev. specialize (He ev Hev). destruct ev; auto.
Qed.

(** Taking [r] out of a list that has it, and putting it elsewhere. *)
Lemma filter_ne_submseteq (r : RequestId) l :
  r ∈ l -> r :: filter (fun r' => r' <> r) l ⊆+ l.
Proof.
  induction l as [|x l IH]; [set_solver|]. rewrite filter_cons.
  destruct (decide (x = r)) as [->|Hx].
  - rewrite decide_False by naive_solver. intros _. apply submseteq_skip.
    apply sublist_submseteq, sublist_filter.
  - rewrite decide_True by done. intros Hr. rewrite elem_of_cons in Hr.
    rewrite (Permutation_swap x r). apply submseteq_skip, IH. naive_solver.
Qed.

Lemma move_submseteq (r : RequestId) l a b :
  r ∈ l -> filter (fun r' => r' <> r) l ++ a ++ r :: b ⊆+ l ++ a ++ b.
Proof.
  intros Hr. trans ((r :: filter (fun r' => r' <> r) l) ++ a ++ b).
  - apply Permutation_submseteq. solve_Permutation.
  - apply submseteq_app; [by apply filter_ne_submseteq|done].
Qed.

Lemma drop_submseteq (r : RequestId) l a :
  filter (fun r' => r' <> r) l ++ a ⊆+ l ++ a.
Proof. apply submseteq_app; [apply sublist_submseteq, sublist_filter|done]. Qed.

Lemma link_step_deliver given l : link_step given l (Link.deliver l).
Proof.
  unfold Link.deliver. destruct (Link.inbox l) as [|rq rest] eqn:E.
  - by split; auto.
  - split; try done; [|by auto]. unfold link_out, events. rewrite E. simpl.
    rewrite !fmap_app. simpl. apply Permutation_submseteq. solve_Permutation.
Qed.

(** The event a handler queues for the end of a substream. *)
Definition handler_event (event : Handler.ConnectionEvent) : option FileGetHandlerEvent.t :=
  match event with
  | Handler.FullyNegotiatedInbound true r => Some (FileGetHandlerEvent.ResponseSent r)
  | Handler.FullyNegotiatedInbound false r => Some (FileGetHandlerEvent.ResponseOmission r)
  | Handler.FullyNegotiatedOutbound r => Some (FileGetHandlerEvent.Response r)
  | Handler.ListenUpgradeError ConnectionHandlerUpgrErr.Timeout r =>
      Some (FileGetHandlerEvent.InboundTimeout r)
  | Handler.ListenUpgradeError (ConnectionHandlerUpgrErr.Upgrade _) r =>
      Some (FileGetHandlerEvent.InboundUnsupportedProtocols r)
  | Handler.DialUpgradeError ConnectionHandlerUpgrErr.Timeout r =>
      Some (FileGetHandlerEvent.OutboundTimeout r)
  | Handler.DialUpgradeError (ConnectionHandlerUpgrErr.Upgrade _) r =>
      Some (FileGetHandlerEvent.OutboundUnsupportedProtocols r)
  | _ => None
  end.

Lemma on_connection_event_spec event h :
  let h' := Handler.on_connection_event event h in
  Handler.inbound_id_generator h' = Handler.inbound_id_generator h /\
  Handler.outbound h' = Handler.outbound h /\
  vd_items (Handler.pending_events h') =
    vd_items (Handler.pending_events h) ++ match handler_event event with Some e => [e] | None => [] end.
Proof. destruct event as [[] r|r|[] r|[] r|]; simpl; by rewrite ?app_nil_r. Qed.

(** The substreams left after one is done. *)
Lemma fmap_filter_ne {A} (f : A -> RequestId) r (l : list A) :
  f <$> filter (fun a => f a <> r) l = filter (fun r' => r' <> r) (f <$> l).
Proof.
  induction l as [|a l IH]; [done|]. csimpl. rewrite !filter_cons.
  destruct (decide (f a <> r)); csimpl; by rewrite IH.
Qed.

Lemma dialling_ids_done r outcome l :
  Link.dialling_ids (Link.outbound_done r outcome l) =
  filter (fun r' => r' <> r) (Link.dialling_ids l).
Proof. apply fmap_filter_ne. Qed.

Lemma serving_ids_done r outcome l :
  Link.serving_ids (Link.inbound_done r outcome l) =
  filter (fun r' => r' <> r) (Link.serving_ids l).
Proof. apply fmap_filter_ne. Qed.

Lemma link_step_outbound given l r outcome :
  r ∈ Link.dialling_ids l -> link_step given l (Link.outbound_done r outcome l).
Proof.
  intros Hr. pose proof (dialling_ids_done r outcome l) as Hd. unfold Link.outbound_done in *.
  set (event := match outcome with Ok _ => _ | Err _ => _ end) in *.
  destruct (on_connection_event_spec event (Link.handler l)) as (Ha & Ho & He).
  assert (match handler_event event with
          | Some e => outcome_id e = Some r /\ reply_id e = None /\
              (forall r m tx, e <> FileGetHandlerEvent.Request r m tx)
          | None => True end) as Hev.
  { unfold event. destruct outcome as [|[]]; simpl; naive_solver. }
  split; simpl; try done.
  - unfold link_out. rewrite Hd. unfold events. simpl. rewrite Ho, He.
    apply submseteq_app; [done|]. rewrite !omap_app, <-!(assoc_L (++)).
    destruct (handler_event event) as [e|]; simpl.
    + destruct Hev as (-> & _). by apply move_submseteq.
    + apply drop_submseteq.
  - unfold link_in, events. simpl. rewrite He, !omap_app, <-!(assoc_L (++)).
    destruct (handler_event event) as [e|]; simpl; [destruct Hev as (_ & -> & _)|]; done.
  - intros ev. unfold events. simpl. rewrite He, !elem_of_app.
    intros [[?|Hin]|?]; [by auto| |by auto]. right.
    destruct (handler_event event) as [e|]; [|by apply not_elem_of_nil in Hin].
    apply list_elem_of_singleton in Hin as ->. destruct Hev as (Ho' & Hr' & Hq).
    by destruct e.
Qed.

Lemma link_step_inbound given l r outcome :
  r ∈ Link.serving_ids l ->
  match outcome with Ok sent => sent = true /\ r ∈ given | Err _ => True end ->
  link_step given l (Link.inbound_done r outcome l).
Proof.
  intros Hr Hout. pose proof (serving_ids_done r outcome l) as Hd. unfold Link.inbound_done in *.
  set (event := match outcome with
               | Ok sent => Handler.FullyNegotiatedInbound sent r
               | Err e => Handler.ListenUpgradeError e r
               end) in *.
  destruct (on_connection_event_spec event (Link.handler l)) as (Ha & Ho & He).
  assert (match handler_event event with
          | Some e => outcome_id e = None /\ reply_id e = Some r /\
              match e with
              | FileGetHandlerEvent.ResponseSent r => r ∈ given
              | FileGetHandlerEvent.ResponseOmission _ => False
              | FileGetHandlerEvent.Request _ _ _ => False
              | _ => True
              end
          | None => True end) as Hev.
  { unfold event. destruct outcome as [sent|[]]; [destruct Hout as [-> ?]|..]; simpl; done. }
  split; simpl; try done.
  - unfold link_out, events. simpl. rewrite Ho, He, !omap_app, <-!(assoc_L (++)).
    destruct (handler_event event) as [e|]; simpl; [destruct Hev as (-> & _)|]; done.
  - unfold link_in. rewrite Hd. unfold events. simpl. rewrite He, !omap_app, <-!(assoc_L (++)).
    destruct (handler_event event) as [e|]; simpl.
    + destruct Hev as (_ & -> & _). by apply move_submseteq.
    + apply drop_submseteq.
  - intros ev. unfold events. simpl. rewrite He, !elem_of_app.
    intros [[?|Hin]|?]; [by auto| |by auto]. right.
    destruct (handler_event event) as [e|]; [|by apply not_elem_of_nil in Hin].
    apply list_elem_of_singleton in Hin as ->. destruct Hev as (_ & _ & Hev). by destruct e.
Qed.

Lemma link_step_poll given now env l l' :
  (forall rx m, env rx = Some (Ok m) -> (m.1, rx) ∈ Link.channels l) ->
  Link.poll now env l = Return l' -> link_step given l l'.
Proof.
  intros Henv. unfold Link.poll. rewrite exec_bind_Return. intros ([r h] & Hp & Hl).
  apply poll_refines in Hp. injection Hl as <-.
  destruct Hp as [e _|ev evs _ E1|rq rqs _ E1 E2|rid m tx fs _ E1 E2 E3|o fs _ E1 E2 _ _ _ _ _ _
    |o fs _ E1 E2 _ _ _]; (split; [done|done|..]); unfold link_out, link_in, events; simpl;
    rewrite ?E1, ?E2; simpl; try done; try (intros ev'; set_solver).
  - apply submseteq_app; [done|]. apply submseteq_app; [done|]. rewrite !omap_app. simpl.
    apply Permutation_submseteq. destruct (outcome_id ev); [solve_Permutation|by rewrite app_nil_r].
  - apply submseteq_app; [done|]. rewrite !omap_app. simpl.
    apply Permutation_submseteq. destruct (reply_id ev); [solve_Permutation|by rewrite app_nil_r].
  - unfold Link.dialling_ids. simpl. rewrite !fmap_app. simpl. apply Permutation_submseteq.
    solve_Permutation.
  - rewrite !omap_app. simpl. by rewrite !app_nil_r.
  - rewrite !omap_app. simpl. by rewrite !app_nil_r.
  - intros ev'. rewrite elem_of_app, list_elem_of_singleton. intros [?| ->]; [by left|]. right.
    destruct (fu_poll_some _ _ _ _ E3) as ((rx & tx') & Hm & _). unfold Handler.map_ok_inbound in Hm.
    simpl in Hm. destruct (env rx) as [[[r' m']|]|] eqn:Hrx; [|done..]. simpl in Hm. injection Hm as -> -> _.
    apply Henv in Hrx. apply list_elem_of_fmap. by exists (rid, rx).
Qed.
End LinksInvariant.
