(* ===== verification/LinksSteps.v ===== *)
(** * Every reaction of the connections keeps their invariant *)
From S2P Require Import Prelude Externals FileGetTypes Handler HandlerProps Behaviour Ledger BehaviourLemmas BehaviourTracking BehaviourRefinement Links LinksViews LinksInvariant.
Import FileGet.

Section LinksSteps.
Context `{Ext, Platform, HashOrder} `{!FuturesUnordered InboundFut InboundOut ChanEnv}.
Context `{!FuturesUnorderedLaws InboundFut InboundOut ChanEnv Handler.map_ok_inbound}.

(** ** What the operations leave alone *)
Definition same_setup (s s' : FileGet.t) : Prop :=
  inbound_id_generator s' = inbound_id_generator s /\ config s' = config s.

Lemma try_send_setup p rq s o s' :
  try_send_request p rq s = Return (o, s') -> same_setup s s'.
Proof.
  unfold try_send_request. destruct (connected s !! p) as [[|conn cs]|]; [by intros [= <- <-]| |by intros [= <- <-]].
  cbv zeta. rewrite exec_bind_Return. intros (? & _ & [= <- <-]). done.
Qed.

Lemma foldl_push_setup {A} (f : A -> FileGetEvent.t) (l : list A) s :
  same_setup s (foldl (fun s x => push_event (f x) s) s l).
Proof. by rewrite foldl_push_event. Qed.

Lemma exec_foldl_setup p l s s' :
  exec_foldl (fun s request => '(_, s) ← try_send_request p request s; Return s) s l = Return s' ->
  same_setup s s'.
Proof.
  revert s; induction l as [|rq l IH]; intros s; simpl; [by intros [= <-]|].
  rewrite exec_bind_Return. intros (s1 & Hs & Hl). apply exec_bind_Return in Hs as ([o s1'] & Ht & [= <-]).
  apply try_send_setup in Ht as [??]. apply IH in Hl as [??]. split; congruence.
Qed.

Lemma removal_setup p c r s :
  same_setup s (remove_pending_inbound_response p c r s).2 /\
  same_setup s (remove_pending_outbound_response p c r s).2.
Proof.
  unfold remove_pending_inbound_response, remove_pending_outbound_response.
  by destruct (find_connection p c s).
Qed.

Lemma handler_event_setup p c ev s s' :
  on_connection_handler_event p c ev s = Return s' -> same_setup s s'.
Proof.
  destruct ev as [r m tx|r|r|r|r|r|r|r]; unfold on_connection_handler_event;
    try (destruct (removal_setup p c r s) as [Hi Ho];
         destruct (remove_pending_inbound_response p c r s) as [bi si];
         destruct (remove_pending_outbound_response p c r s) as [bo so]; simpl in *;
         try (destruct (debug_assert _ _ _); [simpl|done]); intros [= <-]; done).
  destruct (find_connection p c _); by intros [= <-].
Qed.

Lemma apply_op_setup op s o s' : apply_op op s = Return (o, s') -> same_setup s s'.
Proof.
  destruct op as [p rq w|p a|p a|[p c ep n|p c|p c ep|p| | | | | | | | ]|p c ev|]; simpl;
    try (by intros [= _ <-]).
  - rewrite exec_bind_Return. intros ([r s1] & Hs & [= _ <-]). unfold send_request in Hs.
    destruct (RequestIdGenerator.next_id _) as [r0 g]. cbv zeta in Hs.
    apply exec_bind_Return in Hs as ([back s2] & Ht & Hb). apply try_send_setup in Ht as [??].
    injection Hb as _ <-. by destruct back.
  - intros [= _ <-]. unfold remove_address. destruct (addresses s !! p); [|done].
    by destruct (filter _ _).
  - rewrite exec_bind_Return. intros (s1 & Hs & [= _ <-]). unfold on_connection_established in Hs.
    cbv zeta in Hs. case_bool_decide; [|by injection Hs as <-].
    destruct (pending_outbound_requests _ !! p); [|by injection Hs as <-].
    by apply exec_foldl_setup in Hs.
  - rewrite exec_bind_Return. intros (s1 & Hs & [= _ <-]). unfold on_connection_closed in Hs.
    apply exec_bind_Return in Hs as (cs & _ & Hs). apply exec_bind_Return in Hs as ([conn cs'] & _ & Hs).
    cbv zeta in Hs. rewrite !foldl_push_event in Hs. injection Hs as <-. by destruct cs'.
  - rewrite exec_bind_Return. intros (s1 & Hs & [= _ <-]). unfold on_address_change in Hs.
    apply exec_bind_Return in Hs as (cs & _ & Hs). apply exec_bind_Return in Hs as (? & _ & Hs).
    by injection Hs as <-.
  - intros [= _ <-]. unfold one_dial_failure. destruct p as [p|]; [|done].
    destruct (pending_outbound_requests s !! p); [|done]. by rewrite (foldl_push_event (fun request =>
      FileGetEvent.OutboundFailure p (FileGetOutboundProtocol.request_id request) _)).
  - rewrite exec_bind_Return. intros (s1 & Hs & [= _ <-]). by eapply handler_event_setup.
  - unfold poll, pop_front. destruct (vd_items (pending_events s)).
    + intros [= _ <-]. by case_bool_decide.
    + by intros [= _ <-].
Qed.

(** ** The invariant *)
Definition asked (n : Net.t) (r : RequestId) : Prop :=
  r ∈ Net.given n \/ r ∈ received (queued (Net.file_get n)).

(** The requests on a connection are known to the behaviour. *)
Record carries (s : FileGet.t) (is_asked : RequestId -> Prop) (p : PeerId) (c : ConnectionId)
    (l : Link.t) : Prop := {
  carries_nodup : NoDup (notified p c (queued s) ++ link_out l);
  carries_inflight r : r ∈ notified p c (queued s) ++ link_out l -> inflight s p c r;
  carries_owed r : is_asked r -> r ∈ link_in l -> owed s p c r;
}.

Record ok (cfg : FileGetConfig) (arc : Arc) (σ : Store) (n : Net.t) : Prop := {
  ok_run : exists ops out,
    BehaviourRefinement.run (from_config cfg arc σ).1 ops out (Net.file_get n) /\
    sends ops = Net.sent n;
  ok_setup : same_setup (from_config cfg arc σ).1 (Net.file_get n);
  ok_ids p : connection_ids (Net.file_get n) p = Net.established n p;
  ok_live p c : is_Some (Net.links n p c) <-> c ∈ Net.established n p;
  ok_used p c : is_Some (Net.links n p c) \/ notified p c (queued (Net.file_get n)) <> [] ->
    (p, c) ∈ Net.used n;
  ok_store : RequestIdGenerator.counter (Net.store n arc) = 1 + Net.opened n;
  ok_opened : 0 <= Net.opened n /\ 1 + Net.opened n < two64;
  ok_asked r : asked n r -> 1 <= request_id_0 r <= Net.opened n;
  ok_link p c l : Net.links n p c = Some l ->
    link_ok (Net.given n) (Net.opened n) arc l /\
    carries (Net.file_get n) (asked n) p c l;
  ok_apart p c l p' c' l' r : Net.links n p c = Some l -> Net.links n p' c' = Some l' ->
    r ∈ (Link.channels l).*1 -> r ∈ (Link.channels l').*1 -> p = p' /\ c = c';
}.

(** One more call of the behaviour. *)
Lemma run_snoc s ops out s1 op o s2 :
  BehaviourRefinement.run s ops out s1 -> contract op s1 -> apply_op op s1 = Return (o, s2) ->
  BehaviourRefinement.run s (ops ++ [op]) (out ++ o) s2.
Proof.
  intros Hrun Hcon Hap. induction Hrun as [s|op' ops s o' s' out s'' Hc Ha Hr IH]; simpl.
  - rewrite <-(app_nil_r o). eapply run_cons; [done..|constructor].
  - rewrite <-(assoc_L (++)). eapply run_cons; [done..|]. by apply IH.
Qed.

Lemma sends_app ops1 ops2 : sends (ops1 ++ ops2) = sends ops1 + sends ops2.
Proof. induction ops1 as [|[] ops1 IH]; simpl; lia. Qed.

Section calls.
Context (cfg : FileGetConfig) (arc : Arc) (σ : Store).

Lemma ok_sim n : ok cfg arc σ n -> exists L, sim (Net.file_get n) L /\
  Ledger.next L = 1 + Net.sent n.
Proof.
  intros [(ops & out & Hrun & Hs) _ _ _ _ _ _ _ _ _].
  destruct (run_simulated _ _ _ _ _ Hrun (sim_init cfg arc σ))
    as (L & _ & _ & _ & Hsim & _ & Hn & _). exists L. split; [done|]. rewrite Hn, Hs. done.
Qed.

Lemma ok_wf n : ok cfg arc σ n -> wf (Net.file_get n).
Proof. intros Hok. destruct (ok_sim n Hok) as (L & Hsim & _). apply Hsim. Qed.

(** A call under the contract returns and keeps the part of the invariant that
    is about the behaviour alone. *)
Lemma ok_call n op :
  ok cfg arc σ n -> contract op (Net.file_get n) ->
  exists o s, apply_op op (Net.file_get n) = Return (o, s) /\
    same_setup (from_config cfg arc σ).1 s /\
    exists ops out, BehaviourRefinement.run (from_config cfg arc σ).1 ops out s /\
      sends ops = Net.sent n + match op with SendRequest _ _ _ => 1 | _ => 0 end.
Proof.
  intros Hok Hcon. destruct (ok_sim n Hok) as (L & Hsim & _).
  destruct (simulate_op op _ L Hsim Hcon) as (o & s & L' & acts & fin & Ha & _).
  exists o, s. split; [done|]. split.
  - destruct (apply_op_setup _ _ _ _ Ha), (ok_setup _ _ _ _ Hok). split; congruence.
  - destruct (ok_run _ _ _ _ Hok) as (ops & out & Hrun & Hs). exists (ops ++ [op]), (out ++ o).
    split; [by eapply run_snoc|]. rewrite sends_app, Hs. destruct op; simpl; lia.
Qed.

(** Notifications added for a connection. *)
Lemma carries_call s s' (A A' : RequestId -> Prop) p c l acts :
  carries s A p c l -> queued s' = queued s ++ acts ->
  NoDup (notified p c acts) ->
  (forall r, r ∈ notified p c acts -> ~ inflight s p c r) ->
  (forall r, inflight s' p c r <-> inflight s p c r \/ r ∈ notified p c acts) ->
  (forall r, A' r -> r ∈ link_in l -> owed s' p c r) ->
  carries s' A' p c l.
Proof.
  intros [Hnd Hin Ho] Hq Hn Hfresh Hinf Ho'. split; [|  |done]; rewrite Hq, notified_app.
  - apply NoDup_app in Hnd as (Hnd1 & Hnd2 & Hnd3). rewrite <-(assoc_L (++)).
    apply NoDup_app. split_and!; [done| |].
    + intros r Hr. rewrite elem_of_app. intros [Hr'|Hr']; [|by apply (Hnd2 r)].
      apply (Hfresh r Hr'). apply Hin, elem_of_app. by left.
    + apply NoDup_app. split_and!; [done| |done]. intros r Hr Hr'.
      apply (Hfresh r Hr). apply Hin, elem_of_app. by right.
  - intros r. rewrite Hinf, !elem_of_app. intros [[Hr|Hr]|Hr]; [|by right|]; left; apply Hin, elem_of_app; auto.
Qed.

(** A call that moves nothing. *)
Lemma carries_same s s' (A A' : RequestId -> Prop) p c l acts :
  carries s A p c l -> queued s' = queued s ++ acts -> notified p c acts = [] ->
  (forall r, inflight s' p c r <-> inflight s p c r) ->
  (forall r, owed s' p c r <-> owed s p c r) ->
  (forall r, A' r -> r ∈ link_in l -> A r) ->
  carries s' A' p c l.
Proof.
  intros Hc Hq Hn Hinf Ho HA. apply (carries_call s s' A A' p c l acts); [done..| | | |].
  - rewrite Hn. constructor.
  - rewrite Hn. set_solver.
  - intros r. rewrite Hn, Hinf. set_solver.
  - intros r Hr Hin. rewrite Ho. apply (carries_owed _ _ _ _ _ Hc); auto.
Qed.

(** ** Reactions that change no connection *)
Lemma asked_received n s acts r :
  queued s = queued (Net.file_get n) ++ acts -> received acts = [] ->
  (r ∈ Net.given n \/ r ∈ received (queued s)) <-> asked n r.
Proof. intros Hq Hr. unfold asked. by rewrite Hq, received_app, Hr, app_nil_r. Qed.

Lemma ok_frame n s (sent' : Z) acts :
  ok cfg arc σ n ->
  same_setup (from_config cfg arc σ).1 s ->
  (exists ops out, BehaviourRefinement.run (from_config cfg arc σ).1 ops out s /\ sends ops = sent') ->
  (forall p, connection_ids s p = connection_ids (Net.file_get n) p) ->
  queued s = queued (Net.file_get n) ++ acts -> received acts = [] ->
  (forall p c, notified p c acts <> [] -> c ∈ connection_ids (Net.file_get n) p) ->
  (forall p c l, Net.links n p c = Some l -> carries s (asked n) p c l) ->
  ok cfg arc σ (Net.mk s (Net.links n) (Net.established n) (Net.used n) (Net.store n)
    (Net.given n) sent' (Net.opened n)).
Proof.
  intros [Hrun Hset Hids Hlive Hused Hst Hop Hask Hlink Hap] Hset' Hrun' Hids' Hq Hr Hn Hc.
  split; simpl; try done.
  - intros p. by rewrite Hids'.
  - intros p c. rewrite Hq, notified_app. intros [Hl|Hl]; [by apply Hused; left|].
    destruct (decide (notified p c acts = [])) as [He|He].
    + apply Hused. right. by rewrite He, app_nil_r in Hl.
    + apply Hused. left. apply Hlive. rewrite <-Hids. by apply Hn.
  - intros r Hr'. apply Hask. by apply (asked_received n s acts r Hq Hr).
  - intros p c l Hl. destruct (Hlink p c l Hl) as [Hok _]. split; [done|].
    destruct (Hc p c l Hl) as [K1 K2 K3]. split; [done..|]. intros r Hr'. apply K3.
    by apply (asked_received n s acts r Hq Hr).
Qed.

Lemma ok_link_live n p c l :
  ok cfg arc σ n -> Net.links n p c = Some l -> c ∈ connection_ids (Net.file_get n) p.
Proof. intros Hok Hl. rewrite (ok_ids _ _ _ _ Hok). apply (ok_live _ _ _ _ Hok). by eexists. Qed.

Lemma send_contract n p rq w :
  ok cfg arc σ n -> Net.enabled (Net.Send p rq w) n ->
  contract (SendRequest p rq w) (Net.file_get n).
Proof.
  intros Hok Hen. simpl in Hen. destruct (ok_sim _ Hok) as (L & Hsim & Hnx).
  pose proof (Ledger.wf_next _ (sim_ledger _ _ Hsim)) as Hwfn.
  simpl. rewrite (sim_counter _ _ Hsim), wrap64_small by lia. lia.
Qed.

Lemma send_ok n p rq w :
  ok cfg arc σ n -> Net.enabled (Net.Send p rq w) n ->
  exists n', Net.react (Net.Send p rq w) n = Return n' /\ ok cfg arc σ n'.
Proof.
  intros Hok Hen. pose proof (send_contract n p rq w Hok Hen) as Hcon. simpl in Hen.
  destruct (ok_sim _ Hok) as (L & Hsim & Hnx).
  pose proof (Ledger.wf_next _ (sim_ledger _ _ Hsim)) as Hwfn.
  destruct (ok_call n _ Hok Hcon) as (o & s & Hap & Hset & Hrun).
  unfold apply_op in Hap. apply exec_bind_Return in Hap as ([r s1] & Hs & [= _ <-]).
  destruct (send_views p rq w _ r s1 (ok_wf n Hok) Hs) as (Hr & Hids & Ho & acts & Hq & Hrec & Hv).
  destruct (sim_next_id _ _ Hsim Hcon) as [_ Hid]. rewrite Hid in Hr. simpl in Hr.
  eexists. simpl. rewrite Hs. split; [reflexivity|].
  apply (ok_frame n s1 (Net.sent n + 1) acts Hok Hset Hrun Hids Hq Hrec).
  - intros p' c' Hne. destruct (Hv p' c') as (new & <- & _ & Hin & _). by apply Hin.
  - intros p' c' l Hl. destruct (ok_link _ _ _ _ Hok _ _ _ Hl) as [_ Hc].
    destruct (Hv p' c') as (new & Hnew & Hcase & _ & Hinf).
    apply (carries_call _ s1 (asked n) (asked n) p' c' l acts Hc Hq); rewrite ?Hnew.
    + destruct Hcase as [->| ->]; [constructor|apply NoDup_singleton].
    + intros r' Hr' Hi. destruct Hcase as [->| ->]; [set_solver|].
      apply list_elem_of_singleton in Hr' as ->.
      apply (sim_fresh _ _ (Ledger.Sent p' c') Hsim). by rewrite <-Hr.
    + done.
    + intros r' Hr' Hin. rewrite Ho. by apply (carries_owed _ _ _ _ _ Hc).
Qed.

Lemma dial_failure_ok n p :
  ok cfg arc σ n ->
  exists n', Net.react (Net.DialFailure p) n = Return n' /\ ok cfg arc σ n'.
Proof.
  intros Hok. destruct (ok_call n (OnSwarmEvent (DialFailure p)) Hok I) as (o & s & Hap & Hset & Hrun).
  simpl in Hap. injection Hap as _ <-. rewrite Z.add_0_r in Hrun.
  destruct (dial_failure_views p (Net.file_get n)) as (Hids & Hv & acts & Hq & Hrec & Hn).
  eexists. split; [reflexivity|]. simpl.
  apply (ok_frame n _ (Net.sent n) acts Hok Hset Hrun Hids Hq Hrec).
  - intros p' c' Hne. by rewrite Hn in Hne.
  - intros p' c' l Hl. destruct (ok_link _ _ _ _ Hok _ _ _ Hl) as [_ Hc].
    apply (carries_same _ _ (asked n) (asked n) p' c' l acts Hc Hq (Hn p' c')); [apply Hv..|done].
Qed.

Lemma address_change_ok n p c ep :
  ok cfg arc σ n -> Net.enabled (Net.AddressChange p c ep) n ->
  exists n', Net.react (Net.AddressChange p c ep) n = Return n' /\ ok cfg arc σ n'.
Proof.
  intros Hok [l0 Hl0]. pose proof (ok_link_live _ _ _ _ Hok Hl0) as Hlive.
  destruct (ok_call n (OnSwarmEvent (AddressChange p c ep)) Hok Hlive) as (o & s & Hap & Hset & Hrun).
  simpl in Hap. apply exec_bind_Return in Hap as (s1 & Hs & [= _ <-]). rewrite Z.add_0_r in Hrun.
  destruct (address_change_views p c ep _ _ (ok_wf n Hok) Hs) as (Hids & Hv & Hq).
  exists (Net.set_file_get s1 n). split; [simpl; by rewrite Hs|].
  rewrite <-(app_nil_r (queued (Net.file_get n))) in Hq.
  apply (ok_frame n s1 (Net.sent n) [] Hok Hset Hrun Hids Hq eq_refl); [done|].
  intros p' c' l Hl. destruct (ok_link _ _ _ _ Hok _ _ _ Hl) as [_ Hc].
  apply (carries_same _ _ (asked n) (asked n) p' c' l [] Hc Hq eq_refl); [apply Hv..|done].
Qed.

(** ** Reactions inside a connection *)
Lemma set_link_lookup p c o n p' c' :
  Net.links (Net.set_link p c o n) p' c' = if decide (p' = p /\ c' = c) then o else Net.links n p' c'.
Proof. done. Qed.

Lemma ok_relink n p c l l' :
  ok cfg arc σ n -> Net.links n p c = Some l -> link_step (Net.given n) l l' ->
  ok cfg arc σ (Net.set_link p c (Some l') n).
Proof.
  intros [Hrun Hset Hids Hlive Hused Hst Hop Hask Hlink Hap] Hl Hstep.
  assert (forall p' c' x, Net.links (Net.set_link p c (Some l') n) p' c' = Some x ->
    exists y, Net.links n p' c' = Some y /\ link_step (Net.given n) y x) as Hold.
  { intros p' c' x. rewrite set_link_lookup. case_decide as E.
    - destruct E as [-> ->]. intros [= <-]. by exists l.
    - intros Hx. exists x. split; [done|]. split; auto. }
  split; try done.
  - intros p' c'. rewrite set_link_lookup. case_decide as E; [|apply Hlive].
    destruct E as [-> ->]. split; [intros _|by eexists]. apply Hlive. by eexists.
  - intros p' c' [[x Hx]|Hn]; [|apply Hused; by right]. destruct (Hold _ _ _ Hx) as (y & Hy & _).
    apply Hused. left. by eexists.
  - intros p' c' x Hx. destruct (Hold _ _ _ Hx) as (y & Hy & Hs).
    destruct (Hlink _ _ _ Hy) as [Hok [K1 K2 K3]]. split; [by eapply link_ok_step|].
    pose proof (step_out _ _ _ Hs) as Ho. pose proof (step_in _ _ _ Hs) as Hi. split.
    + eapply NoDup_submseteq; [|exact K1]. by apply submseteq_app.
    + intros r Hr. apply K2. eapply elem_of_submseteq; [done|]. by apply submseteq_app.
    + intros r Hr Hin. apply K3; [done|]. by eapply elem_of_submseteq.
  - intros p1 c1 l1 p2 c2 l2 r K1 K2. destruct (Hold _ _ _ K1) as (y1 & Hy1 & Hs1).
    destruct (Hold _ _ _ K2) as (y2 & Hy2 & Hs2).
    rewrite (step_channels _ _ _ Hs1), (step_channels _ _ _ Hs2). by apply Hap.
Qed.

Lemma ok_on_link n p c f :
  ok cfg arc σ n -> (forall l, Net.links n p c = Some l -> link_step (Net.given n) l (f l)) ->
  ok cfg arc σ (Net.on_link p c f n).
Proof.
  intros Hok Hf. unfold Net.on_link. destruct (Net.links n p c) as [l|] eqn:Hl; [|done].
  eapply ok_relink; eauto.
Qed.

Lemma poll_handler_ok n p c now env :
  ok cfg arc σ n -> Net.enabled (Net.PollHandler p c now env) n ->
  exists n', Net.react (Net.PollHandler p c now env) n = Return n' /\ ok cfg arc σ n'.
Proof.
  intros Hok Hen. simpl. destruct (Net.links n p c) as [l|] eqn:Hl; [|by exists n].
  destruct (Hen l Hl) as (Ht1 & Ht2 & Henv).
  assert (exists l', Link.poll now env l = Return l') as [l' Hl'].
  { unfold Link.poll. rewrite poll_unfold.
    destruct (Handler.pending_error (Link.handler l)); [by eexists|].
    destruct (vd_items (Handler.pending_events (Link.handler l))); [|by eexists].
    destruct (vd_items (Handler.outbound (Link.handler l))); [|by eexists].
    unfold Handler.poll_inbound, Handler.poll_idle.
    destruct (fu_poll_next env _) as [[[[]|]|] fs]; [by eexists|..];
      simpl; (destruct (_ && _); [|by eexists]); unfold duration_mul, instant_add; simpl;
      (rewrite bool_decide_eq_true_2 by done); simpl;
      (rewrite bool_decide_eq_true_2 by done); simpl; by eexists. }
  rewrite Hl'. eexists. split; [reflexivity|].
  eapply ok_relink; [done..|]. by eapply link_step_poll.
Qed.

(** ** Polling the behaviour *)
Lemma ok_poll_ready n s a links' given' :
  ok cfg arc σ n -> poll (Net.file_get n) = (Ready a, s) ->
  (forall p c, is_Some (links' p c) <-> is_Some (Net.links n p c)) ->
  (forall r, r ∈ given' \/ r ∈ received (queued s) -> asked n r) ->
  (forall r, r ∈ Net.given n -> r ∈ given') ->
  (forall p c l', links' p c = Some l' -> exists l, Net.links n p c = Some l /\
     (link_ok (Net.given n) (Net.opened n) arc l -> link_ok (Net.given n) (Net.opened n) arc l') /\
     Link.channels l' = Link.channels l /\ link_in l' = link_in l /\
     notified p c (queued s) ++ link_out l' ⊆+ notified p c (a :: queued s) ++ link_out l) ->
  ok cfg arc σ (Net.mk s links' (Net.established n) (Net.used n) (Net.store n) given'
    (Net.sent n) (Net.opened n)).
Proof.
  intros Hok Hp Hlive' Hask' Hgiven Hlinks.
  destruct (poll_queue (Net.file_get n)) as [Hs Hq]. rewrite Hp in Hs, Hq. simpl in Hs, Hq.
  destruct (ok_call n PollOp Hok I) as (o & s1 & Hap & Hset & Hrun). simpl in Hap. rewrite Hp in Hap.
  injection Hap as _ <-. rewrite Z.add_0_r in Hrun.
  assert (connected s = connected (Net.file_get n)) as Hcs by (by rewrite Hs).
  destruct (views_ext _ _ Hcs) as (Hids' & Hinf & Howe).
  destruct Hok as [_ _ Hids Hlive Hused Hst Hop Hask Hlink Hap]. split; simpl; try done.
  - intros p. by rewrite Hids'.
  - intros p c. by rewrite Hlive'.
  - intros p c [Hl|Hn]; [apply Hused; left; by apply Hlive'|]. apply Hused. right. rewrite Hq.
    change (a :: queued s) with ([a] ++ queued s). rewrite notified_app. by intros [_ ?]%app_eq_nil.
  - intros r Hr. by apply Hask, Hask'.
  - intros p c l' Hl'. destruct (Hlinks p c l' Hl') as (l & Hl & Hlok & Hch & Hin & Hout).
    destruct (Hlink p c l Hl) as [Hok [K1 K2 K3]]. rewrite Hq in K1, K2. split.
    { eapply link_ok_grow; [by apply Hlok|done|lia]. }
    split.
    + by eapply NoDup_submseteq.
    + intros r Hr. rewrite Hinf. apply K2. by eapply elem_of_submseteq.
    + intros r Hr. rewrite Hin, Howe. apply K3. by apply Hask'.
  - intros p1 c1 l1 p2 c2 l2 r Hl1 Hl2. destruct (Hlinks _ _ _ Hl1) as (y1 & Hy1 & _ & -> & _).
    destruct (Hlinks _ _ _ Hl2) as (y2 & Hy2 & _ & -> & _). by apply Hap.
Qed.

Lemma asked_poll n s a r :
  poll (Net.file_get n) = (Ready a, s) ->
  (asked n r <-> r ∈ Net.given n \/ r ∈ received [a] \/ r ∈ received (queued s)).
Proof.
  intros Hp. destruct (poll_queue (Net.file_get n)) as [_ Hq]. rewrite Hp in Hq. simpl in Hq.
  unfold asked. rewrite Hq. change (a :: queued s) with ([a] ++ queued s).
  by rewrite received_app, elem_of_app.
Qed.

(** A poll whose action leaves the connections alone. *)
Lemma ok_poll_plain n s a given' :
  ok cfg arc σ n -> poll (Net.file_get n) = (Ready a, s) ->
  (forall r, r ∈ given' <-> r ∈ Net.given n \/ r ∈ received [a]) ->
  (forall p c l, Net.links n p c = Some l -> notified p c [a] = []) ->
  ok cfg arc σ (Net.mk s (Net.links n) (Net.established n) (Net.used n) (Net.store n) given'
    (Net.sent n) (Net.opened n)).
Proof.
  intros Hok Hp Hg Hn. apply (ok_poll_ready n s a); try done.
  - intros r. rewrite Hg, (asked_poll n s a r Hp). tauto.
  - intros r Hr. apply Hg. by left.
  - intros p c l Hl. exists l. split_and!; try done.
    change (a :: queued s) with ([a] ++ queued s). by rewrite notified_app, (Hn p c l Hl).
Qed.

Lemma poll_ok n :
  ok cfg arc σ n -> exists n', Net.react Net.Poll n = Return n' /\ ok cfg arc σ n'.
Proof.
  intros Hok. simpl. destruct (poll (Net.file_get n)) as [[a|] s] eqn:Hp.
  - eexists. split; [reflexivity|].
    assert (forall given', (forall p c rq, a <> NotifyHandler p c rq) ->
      (forall r, r ∈ given' <-> r ∈ Net.given n \/ r ∈ received [a]) ->
      ok cfg arc σ (Net.mk s (Net.links n) (Net.established n) (Net.used n) (Net.store n) given'
        (Net.sent n) (Net.opened n))) as Hplain.
    { intros given' Ha Hg. apply (ok_poll_plain n s a); [done..|]. intros p c l _.
      destruct a as [ev|p' h|p' c' rq]; try done. by destruct (Ha p' c' rq). }
    destruct a as [[p r m tx|p r|p r|p r e|p r e]|p h|p c rq]; try (apply Hplain; set_solver).
    unfold Net.on_link. simpl. destruct (Net.links n p c) as [l|] eqn:Hl.
    + apply (ok_poll_ready n s (NotifyHandler p c rq)); try done.
      * intros p' c'. case_decide as E; [|done]. destruct E as [-> ->]. rewrite Hl. split; by eexists.
      * intros r Hr. apply (asked_poll n s _ r Hp). tauto.
      * intros p' c' l'. unfold notified. csimpl. case_decide as E.
        -- destruct E as [-> ->]. intros [= <-]. exists l. rewrite decide_True by done.
           split_and!; [done|by intros []|done|done|]. unfold link_out, events. simpl.
           rewrite !fmap_app. simpl. apply Permutation_submseteq. solve_Permutation.
        -- intros Hl'. exists l'. rewrite decide_False by naive_solver. done.
    + apply (ok_poll_plain n s (NotifyHandler p c rq)); [done..|set_solver|].
      intros p' c' l Hl'. unfold notified. csimpl. case_decide as E; [|done].
      destruct E as [-> ->]. congruence.
  - eexists. split; [reflexivity|].
    destruct (poll_queue (Net.file_get n)) as [Hs Hq]. rewrite Hp in Hs, Hq. simpl in Hs, Hq.
    destruct Hq as [Hq1 Hq2].
    destruct (ok_call n PollOp Hok I) as (o & s1 & Hap & Hset & Hrun). simpl in Hap. rewrite Hp in Hap.
    injection Hap as _ <-. rewrite Z.add_0_r in Hrun.
    assert (connected s = connected (Net.file_get n)) as Hcs by (by rewrite Hs).
    destruct (views_ext _ _ Hcs) as (Hids' & Hinf & Howe).
    apply (ok_frame n s (Net.sent n) []); try done.
    + by rewrite app_nil_r, Hq1, Hq2.
    + intros p c l Hl. destruct (ok_link _ _ _ _ Hok _ _ _ Hl) as [_ Hc].
      apply (carries_same _ s (asked n) (asked n) p c l [] Hc); try done. by rewrite app_nil_r, Hq1, Hq2.
Qed.

(** ** Connections come and go *)
Lemma link_ok_open given opened (s : FileGet.t) :
  inbound_id_generator s = arc -> link_ok given opened arc (Link.open (new_handler s)).
Proof.
  intros Ha. split; unfold link_in, events; simpl.
  - done.
  - constructor.
  - intros r Hr. by apply not_elem_of_nil in Hr.
  - intros r Hr. by apply not_elem_of_nil in Hr.
  - intros ev Hev. by apply not_elem_of_nil in Hev.
Qed.

Lemma connect_contract n p c ep :
  ok cfg arc σ n -> Net.enabled (Net.Connect p c ep) n ->
  contract (OnSwarmEvent (ConnectionEstablished p c ep (Z.of_nat (length (Net.established n p)))))
    (Net.file_get n).
Proof.
  intros Hok Hen. simpl. rewrite (ok_ids _ _ _ _ Hok). split; [|done]. intros Hin.
  apply Hen, (ok_used _ _ _ _ Hok). left. by apply (ok_live _ _ _ _ Hok).
Qed.

Lemma connect_ok n p c ep :
  ok cfg arc σ n -> Net.enabled (Net.Connect p c ep) n ->
  exists n', Net.react (Net.Connect p c ep) n = Return n' /\ ok cfg arc σ n'.
Proof.
  intros Hok Hen. simpl in Hen. destruct (ok_sim n Hok) as (L & Hsim & _).
  assert (Net.links n p c = None) as Hnone.
  { destruct (Net.links n p c) eqn:E; [|done]. destruct Hen. apply (ok_used _ _ _ _ Hok).
    left. by eexists. }
  assert (notified p c (queued (Net.file_get n)) = []) as Hnq.
  { destruct (decide (notified p c (queued (Net.file_get n)) = [])) as [|Hne]; [done|].
    destruct Hen. apply (ok_used _ _ _ _ Hok). by right. }
  pose proof (connect_contract n p c ep Hok Hen) as Hcon.
  set (k := Z.of_nat (length (Net.established n p))) in Hcon. pose proof Hcon as [Hc Hk].
  destruct (ok_call n _ Hok Hcon) as (o & s & Hap & Hset & Hrun).
  simpl in Hap. apply exec_bind_Return in Hap as (s1 & Hs & [= _ <-]). rewrite Z.add_0_r in Hrun.
  destruct (established_views p c ep k _ s1 (ok_wf n Hok) Hc Hk Hs) as (Hids & Ho & acts & Hq & Hrec & Hv).
  eexists. simpl. fold k. rewrite Hs. simpl. split; [reflexivity|].
  pose proof Hok as [_ Hset0 Hids0 Hlive Hused Hst Hop Hask Hlink Hap].
  split; simpl; try done.
  - intros p'. rewrite Hids. case_decide; [|done]. subst. by rewrite Hids0.
  - intros p' c'. destruct (decide (p' = p)) as [->|]; [|rewrite decide_False by naive_solver; apply Hlive].
    rewrite elem_of_app, list_elem_of_singleton. case_decide as E.
    + destruct E as [_ ->]. split; [auto|by eexists].
    + rewrite Hlive. naive_solver.
  - intros p' c'. rewrite elem_of_cons. case_decide as E; [destruct E as [-> ->]; by left|].
    rewrite Hq, notified_app. intros Hx. right. apply Hused. destruct Hx as [?|Hx]; [by left|].
    right. intros Hn. rewrite Hn in Hx. destruct (Hv p' c') as (_ & Hne & _). auto.
  - intros r Hr. apply Hask. by apply (asked_received n s1 acts r Hq Hrec).
  - intros p' c' l. case_decide as E.
    + destruct E as [-> ->]. intros [= <-]. split.
      { apply link_ok_open. by destruct Hset0 as [Ha _]. }
      destruct (Hv p c) as (Hnd & _ & Hinf).
      split; rewrite ?Hq, ?notified_app, ?Hnq; unfold link_out, link_in; simpl; rewrite ?app_nil_r.
      * done.
      * intros r Hr. apply Hinf. by right.
      * intros r _ Hr. by apply not_elem_of_nil in Hr.
    + intros Hl. destruct (Hlink p' c' l Hl) as [Hlok Hcar]. split; [done|].
      destruct (Hv p' c') as (Hnd & Hne & Hinf).
      assert (notified p' c' acts = []) as Hno.
      { destruct (decide (notified p' c' acts = [])); [done|]. naive_solver. }
      apply (carries_same _ s1 (asked n) _ p' c' l acts Hcar Hq Hno); [| |].
      * intros r. rewrite Hinf, Hno. set_solver.
      * intros r. apply Ho.
      * intros r Hr _. by apply (asked_received n s1 acts r Hq Hrec).
  - intros p1 c1 l1 p2 c2 l2 r. case_decide as E1; case_decide as E2;
      [by destruct E1, E2; subst|intros [= <-] _ Hr; by apply not_elem_of_nil in Hr
      |intros _ [= <-] _ Hr; by apply not_elem_of_nil in Hr|apply Hap].
Qed.

Lemma disconnect_ok n p c :
  ok cfg arc σ n -> Net.enabled (Net.Disconnect p c) n ->
  exists n', Net.react (Net.Disconnect p c) n = Return n' /\ ok cfg arc σ n'.
Proof.
  intros Hok (l0 & Hl0 & _). pose proof (ok_link_live _ _ _ _ Hok Hl0) as Hlive0.
  destruct (ok_call n (OnSwarmEvent (ConnectionClosed p c)) Hok Hlive0) as (o & s & Hap & Hset & Hrun).
  simpl in Hap. apply exec_bind_Return in Hap as (s1 & Hs & [= _ <-]). rewrite Z.add_0_r in Hrun.
  destruct (closed_views p c _ s1 (ok_wf n Hok) Hlive0 Hs) as (Hids & acts & Hq & Hrec & Hv).
  eexists. simpl. rewrite Hs. simpl. split; [reflexivity|].
  pose proof Hok as [_ Hset0 Hids0 Hlive Hused Hst Hop Hask Hlink Hap].
  split; simpl; try done.
  - intros p'. rewrite Hids. case_decide; [|done]. subst. by rewrite Hids0.
  - intros p' c'. destruct (decide (p' = p)) as [->|]; [|rewrite decide_False by naive_solver; apply Hlive].
    rewrite list_elem_of_filter. case_decide as E; [destruct E as [_ ->]|].
    + split; [by intros [? ?]|naive_solver].
    + rewrite Hlive. naive_solver.
  - intros p' c'. destruct (Hv p' c') as [Hno _]. rewrite Hq, notified_app, Hno, app_nil_r.
    intros [Hl|Hn]; apply Hused; [left|by right]. case_decide; [by destruct Hl|done].
  - intros r Hr. apply Hask. by apply (asked_received n s1 acts r Hq Hrec).
  - intros p' c' l. case_decide as E; [done|]. intros Hl. destruct (Hlink p' c' l Hl) as [Hlok Hcar].
    split; [done|]. destruct (Hv p' c') as [Hno Hsame]. specialize (Hsame E).
    apply (carries_same _ s1 (asked n) _ p' c' l acts Hcar Hq Hno); [apply Hsame..|].
    intros r Hr _. by apply (asked_received n s1 acts r Hq Hrec).
  - intros p1 c1 l1 p2 c2 l2 r. repeat case_decide; try done. apply Hap.
Qed.

(** ** A new inbound substream *)
Lemma open_inbound_spec req_chan res_chan l (st : Store) :
  let '(l', st') := Link.open_inbound req_chan res_chan l st in
  let a := Handler.inbound_id_generator (Link.handler l) in
  let r := mkRequestId (RequestIdGenerator.counter (st a)) in
  Handler.inbound_id_generator (Link.handler l') = a /\
  Link.channels l' = (r, req_chan.2) :: Link.channels l /\
  link_out l' = link_out l /\ link_in l' = r :: link_in l /\ events l' = events l /\
  st' a = RequestIdGenerator.mk (wrap64 (RequestIdGenerator.counter (st a) + 1)).
Proof.
  unfold Link.open_inbound, Handler.listen_protocol, arc_next_id. simpl.
  destruct req_chan as [tx rx], res_chan as [tx' rx']. simpl.
  split_and!; try done. by rewrite fn_lookup_insert.
Qed.

Lemma open_inbound_ok n p c req_chan res_chan :
  ok cfg arc σ n -> Net.enabled (Net.OpenInbound p c req_chan res_chan) n ->
  exists n', Net.react (Net.OpenInbound p c req_chan res_chan) n = Return n' /\ ok cfg arc σ n'.
Proof.
  intros Hok Hen. simpl in Hen. simpl. destruct (Net.links n p c) as [l|] eqn:Hl; [|by exists n].
  pose proof (open_inbound_spec req_chan res_chan l (Net.store n)) as Hspec.
  destruct (Link.open_inbound req_chan res_chan l (Net.store n)) as [l' st'].
  eexists. split; [reflexivity|].
  destruct Hok as [Hrun Hset Hids Hlive Hused Hst Hop Hask Hlink Hap].
  destruct (Hlink p c l Hl) as [[La Ln Lc Lr Le] [K1 K2 K3]].
  cbv zeta in Hspec. rewrite La, Hst in Hspec. destruct Hspec as (Ha & Hch & Hout & Hin & Hev & Hst').
  assert (forall r, r ∈ (Link.channels l).*1 -> r <> mkRequestId (1 + Net.opened n)) as Hfresh.
  { intros r Hr ->. specialize (Lr _ Hr). simpl in Lr. lia. }
  split; simpl; try done.
  - intros p' c'. case_decide as E; [|apply Hlive]. destruct E as [-> ->].
    split; [intros _; apply Hlive; by eexists|by eexists].
  - intros p' c' [Hx|Hx]; apply Hused; [left|by right].
    case_decide as E; [destruct E as [-> ->]; by eexists|done].
  - rewrite Hst'. simpl. rewrite wrap64_small by lia. lia.
  - lia.
  - intros r Hr. specialize (Hask r Hr). lia.
  - intros p' c' x. case_decide as E.
    + destruct E as [-> ->]. intros [= <-]. split; split.
      * done.
      * rewrite Hin. apply NoDup_cons. split; [|done]. intros Hr. by apply (Hfresh _ (Lc _ Hr)).
      * intros r. rewrite Hin, Hch. csimpl. rewrite !elem_of_cons. intros [?|?]; auto.
      * intros r. rewrite Hch. csimpl. rewrite elem_of_cons. intros [->|Hr]; [simpl; lia|].
        specialize (Lr r Hr). lia.
      * intros ev. rewrite Hev. intros Hin'. specialize (Le ev Hin'). destruct ev; try done.
        rewrite Hch. csimpl. by right.
      * by rewrite Hout.
      * by rewrite Hout.
      * intros r Hr. rewrite Hin, elem_of_cons. intros [->|?]; [|by apply K3].
        specialize (Hask _ Hr). simpl in Hask. lia.
    + intros Hx. destruct (Hlink p' c' x Hx) as [Hlok Hc]. split; [|by destruct Hc].
      eapply link_ok_grow; [done|done|lia].
  - assert (forall p' c' x, Net.links n p' c' = Some x ->
      mkRequestId (1 + Net.opened n) ∉ (Link.channels x).*1) as Hnew.
    { intros p' c' x Hx Hr. destruct (Hlink p' c' x Hx) as [Hlok _].
      apply (link_range _ _ _ _ Hlok) in Hr. simpl in Hr. lia. }
    intros p1 c1 l1 p2 c2 l2 r. case_decide as E1; case_decide as E2.
    + by destruct E1, E2; subst.
    + destruct E1 as [-> ->]. intros [= <-] Hl2. rewrite Hch. csimpl. rewrite elem_of_cons.
      intros [->|Hr] Hr2; [by destruct (Hnew _ _ _ Hl2)|]. by apply (Hap _ _ l _ _ l2 r).
    + destruct E2 as [-> ->]. intros Hl1 [= <-] Hr1. rewrite Hch. csimpl. rewrite elem_of_cons.
      intros [->|Hr]; [by destruct (Hnew _ _ _ Hl1)|]. by apply (Hap _ _ l1 _ _ l r).
    + apply Hap.
Qed.

(** ** A report of a handler *)
Lemma report_contract n p c l ev rest :
  ok cfg arc σ n -> Net.links n p c = Some l -> Link.outbox l = ev :: rest ->
  contract (OnHandlerEvent p c ev) (Net.file_get n).
Proof.
  intros Hok Hl Hout. destruct (ok_link _ _ _ _ Hok _ _ _ Hl) as [Hlok Hc].
  assert (ev ∈ events l) as Hev by (unfold events; rewrite Hout; set_solver).
  assert (forall r, outcome_id ev = Some r -> inflight (Net.file_get n) p c r) as Ho.
  { intros r Hr. apply (carries_inflight _ _ _ _ _ Hc). unfold link_out.
    rewrite !elem_of_app, list_elem_of_omap. do 3 right. by exists ev. }
  assert (forall r, reply_id ev = Some r -> r ∈ Net.given n -> owed (Net.file_get n) p c r) as Hi.
  { intros r Hr Hg. apply (carries_owed _ _ _ _ _ Hc); [by left|]. unfold link_in.
    rewrite elem_of_app, list_elem_of_omap. right. by exists ev. }
  pose proof (link_event _ _ _ _ Hlok ev Hev) as Hle.
  destruct ev; simpl; try done; first [by apply Ho|by apply Hi].
Qed.

Lemma link_step_outbox given l ev rest :
  Link.outbox l = ev :: rest -> link_step given l (Link.set_outbox rest l).
Proof.
  intros Ho. split; unfold link_out, link_in, events; simpl; rewrite ?Ho; try done.
  - apply submseteq_app; [done|]. apply submseteq_app; [done|]. rewrite !omap_app.
    apply submseteq_app; [done|]. csimpl. destruct (outcome_id ev); [by apply submseteq_cons|done].
  - apply submseteq_app; [done|]. rewrite !omap_app.
    apply submseteq_app; [done|]. csimpl. destruct (reply_id ev); [by apply submseteq_cons|done].
  - intros ev'. set_solver.
Qed.

(** An event that is reported stands for a request nothing else stands for. *)
Lemma outbox_apart nt l ev rest r :
  Link.outbox l = ev :: rest -> NoDup (nt ++ link_out l) -> outcome_id ev = Some r ->
  r ∉ nt ++ link_out (Link.set_outbox rest l).
Proof.
  intros Ho Hnd Hr. unfold link_out, events in *. rewrite Ho in Hnd. simpl.
  rewrite !omap_app in *. csimpl in *. rewrite Hr in Hnd.
  match type of Hnd with NoDup ?x => match goal with |- r ∉ ?y =>
    assert (x ≡ₚ r :: y) as Hp by solve_Permutation end end.
  rewrite Hp in Hnd. by apply NoDup_cons in Hnd as [? _].
Qed.

Lemma outbox_apart_in l ev rest r :
  Link.outbox l = ev :: rest -> NoDup (link_in l) -> reply_id ev = Some r ->
  r ∉ link_in (Link.set_outbox rest l).
Proof.
  intros Ho Hnd Hr. unfold link_in, events in *. rewrite Ho in Hnd. simpl.
  rewrite !omap_app in *. csimpl in *. rewrite Hr in Hnd.
  match type of Hnd with NoDup ?x => match goal with |- r ∉ ?y =>
    assert (x ≡ₚ r :: y) as Hp by solve_Permutation end end.
  rewrite Hp in Hnd. by apply NoDup_cons in Hnd as [? _].
Qed.

Lemma report_ok n p c :
  ok cfg arc σ n -> exists n', Net.react (Net.Report p c) n = Return n' /\ ok cfg arc σ n'.
Proof.
  intros Hok. simpl. destruct (Net.links n p c) as [l|] eqn:Hl; [|by exists n].
  destruct (Link.outbox l) as [|ev rest] eqn:Hout; [by exists n|].
  destruct (ok_call n _ Hok (report_contract n p c l ev rest Hok Hl Hout)) as (o & s & Hap & Hset & Hrun).
  cbn [apply_op] in Hap. apply exec_bind_Return in Hap as (s1 & Hs & [= _ <-]). rewrite Z.add_0_r in Hrun.
  destruct (report_views p c ev _ s1 Hs) as ((Hids' & Hinf & Howe) & acts & Hq & Hrec & Hno).
  rewrite Hs. eexists. split; [reflexivity|].
  pose proof (ok_link_live _ _ _ _ Hok Hl) as Hlive0.
  destruct Hok as [_ _ Hids Hlive Hused Hst Hop Hask Hlink Hap].
  assert (forall r, r ∈ Net.given n \/ r ∈ received (queued s1) -> asked n r \/ request_id_of ev = Some r) as Hask'.
  { intros r. rewrite Hq, received_app, Hrec, elem_of_app. unfold asked.
    destruct (request_id_of ev) as [r'|]; [|set_solver]. rewrite list_elem_of_singleton. naive_solver. }
  assert (forall r, request_id_of ev = Some r -> r ∈ (Link.channels l).*1) as Hreq.
  { intros r Hr. destruct (Hlink p c l Hl) as [Hlok _].
    assert (ev ∈ events l) as Hev by (unfold events; rewrite Hout; set_solver).
    pose proof (link_event _ _ _ _ Hlok ev Hev) as He. destruct ev; try done. simpl in Hr. by injection Hr as <-. }
  split; simpl; try done.
  - intros p'. by rewrite Hids'.
  - intros p' c'. case_decide as E; [|apply Hlive]. destruct E as [-> ->].
    split; [intros _; apply Hlive; by eexists|by eexists].
  - intros p' c'. rewrite Hq, notified_app, Hno, app_nil_r. intros [Hx|Hx]; apply Hused; [left|by right].
    case_decide as E; [destruct E as [-> ->]; by eexists|done].
  - intros r Hr. destruct (Hask' r Hr) as [?|Hr']; [by apply Hask|].
    destruct (Hlink p c l Hl) as [Hlok _]. apply (link_range _ _ _ _ Hlok). auto.
  - intros p' c' x. case_decide as E.
    + destruct E as [-> ->]. intros [= <-]. destruct (Hlink p c l Hl) as [Hlok [K1 K2 K3]].
      pose proof (link_step_outbox (Net.given n) l ev rest Hout) as Hstep.
      pose proof (step_out _ _ _ Hstep) as Hso. pose proof (step_in _ _ _ Hstep) as Hsi.
      split; [by eapply link_ok_step|].
      split; rewrite ?Hq, ?notified_app, ?Hno, ?app_nil_r.
      * eapply NoDup_submseteq; [|done]. by apply submseteq_app.
      * intros r Hr. rewrite Hinf. split.
        -- apply K2. eapply elem_of_submseteq; [done|]. by apply submseteq_app.
        -- intros (Hev & _). by apply (outbox_apart _ l ev rest r Hout K1 Hev).
      * intros r Hr Hin. rewrite Howe. destruct (Hask' r Hr) as [Hr'|Hr']; [left|right; auto].
        split; [apply K3; [done|]; by eapply elem_of_submseteq|].
        intros (Hev & _). by apply (outbox_apart_in l ev rest r Hout (link_nodup _ _ _ _ Hlok) Hev).
    + intros Hx. destruct (Hlink p' c' x Hx) as [Hlok Hcar]. split; [done|].
      apply (carries_call _ s1 (asked n) _ p' c' x acts Hcar Hq); rewrite ?Hno.
      * constructor.
      * set_solver.
      * intros r. rewrite Hinf. set_solver.
      * intros r Hr Hin. rewrite Howe. destruct (Hask' r Hr) as [Hr'|Hr'].
        -- left. split; [by apply (carries_owed _ _ _ _ _ Hcar)|naive_solver].
        -- destruct E. destruct (Hap p' c' x p c l r Hx Hl) as [-> ->]; [|by apply Hreq|done].
           by apply (link_in_channels _ _ _ _ Hlok).
  - intros p1 c1 l1 p2 c2 l2 r. case_decide as E1; case_decide as E2.
    + by destruct E1, E2; subst.
    + destruct E1 as [-> ->]. intros [= <-] Hl2. by apply (Hap _ _ l _ _ l2 r).
    + destruct E2 as [-> ->]. intros Hl1 [= <-]. by apply (Hap _ _ l1 _ _ l r).
    + apply Hap.
Qed.

(** ** All reactions *)
Lemma react_ok n x :
  ok cfg arc σ n -> Net.enabled x n -> exists n', Net.react x n = Return n' /\ ok cfg arc σ n'.
Proof.
  intros Hok Hen. destruct x as [p rq w|p c ep|p c|p|p c ep| |p c|p c now env|p c rq rs|p c r out|p c r out|p c].
  - by apply send_ok.
  - by apply connect_ok.
  - by apply disconnect_ok.
  - by apply dial_failure_ok.
  - by apply address_change_ok.
  - by apply poll_ok.
  - eexists. split; [reflexivity|]. apply ok_on_link; [done|]. intros l _. apply link_step_deliver.
  - by apply poll_handler_ok.
  - by apply open_inbound_ok.
  - eexists. split; [reflexivity|]. destruct Hen as (l0 & Hl0 & Hr). apply ok_on_link; [done|].
    intros l Hl. apply link_step_outbound. congruence.
  - eexists. split; [reflexivity|]. destruct Hen as (l0 & Hl0 & Hr & Hout). apply ok_on_link; [done|].
    intros l Hl. apply link_step_inbound; [congruence|done].
  - by apply report_ok.
Qed.

(** The call of [FileGet] a reaction makes. *)
Definition call_of (x : Net.Label) (n : Net.t) : option Op :=
  match x with
  | Net.Send p rq w => Some (SendRequest p rq w)
  | Net.Connect p c ep => Some (OnSwarmEvent
      (ConnectionEstablished p c ep (Z.of_nat (length (Net.established n p)))))
  | Net.Disconnect p c => Some (OnSwarmEvent (ConnectionClosed p c))
  | Net.DialFailure p => Some (OnSwarmEvent (DialFailure p))
  | Net.AddressChange p c ep => Some (OnSwarmEvent (AddressChange p c ep))
  | Net.Poll => Some PollOp
  | Net.Report p c =>
      l ← Net.links n p c; ev ← head (Link.outbox l); Some (OnHandlerEvent p c ev)
  | _ => None
  end.

(** It is made under the contract. *)
Lemma call_contract n x op :
  ok cfg arc σ n -> Net.enabled x n -> call_of x n = Some op -> contract op (Net.file_get n).
Proof.
  intros Hok Hen. destruct x as [p rq w|p c ep|p c|p|p c ep| |p c|p c now env|p c rq rs|p c r out|p c r out|p c];
    simpl; try (by intros [= <-]).
  - intros [= <-]. by apply send_contract.
  - intros [= <-]. by apply connect_contract.
  - intros [= <-]. destruct Hen as (l & Hl & _). by eapply ok_link_live.
  - intros [= <-]. destruct Hen as (l & Hl). by eapply ok_link_live.
  - destruct (Net.links n p c) as [l|] eqn:Hl; [|done]. simpl.
    destruct (Link.outbox l) as [|ev rest] eqn:Ho; [done|]. intros [= <-].
    by eapply report_contract.
Qed.

(** It is the only thing that changes [FileGet]. *)
Lemma react_call n x n' :
  Net.react x n = Return n' ->
  match call_of x n with
  | Some op => exists o, apply_op op (Net.file_get n) = Return (o, Net.file_get n')
  | None => Net.file_get n' = Net.file_get n
  end.
Proof.
  destruct x as [p rq w|p c ep|p c|p|p c ep| |p c|p c now env|p c rq rs|p c r out|p c r out|p c];
    unfold Net.react, call_of, apply_op;
    try (rewrite exec_bind_Return; intros (s & Hs & [= <-]); rewrite Hs; by eexists).
  - rewrite exec_bind_Return. intros ([r s] & Hs & [= <-]). rewrite Hs. by eexists.
  - destruct (poll (Net.file_get n)) as [[a|] s]; intros [= <-]; [|by eexists].
    exists [a]. destruct a as [[]| |p c rq]; try done. unfold Net.on_link.
    by destruct (Net.links _ p c).
  - intros [= <-]. unfold Net.on_link. by destruct (Net.links n p c).
  - destruct (Net.links n p c); [|by intros [= <-]]. rewrite exec_bind_Return. by intros (l' & _ & [= <-]).
  - destruct (Net.links n p c); [|by intros [= <-]].
    destruct (Link.open_inbound _ _ _ _). by intros [= <-].
  - intros [= <-]. unfold Net.on_link. by destruct (Net.links n p c).
  - intros [= <-]. unfold Net.on_link. by destruct (Net.links n p c).
  - destruct (Net.links n p c) as [l|]; [|by intros [= <-]]. cbn [mbind option_bind].
    destruct (Link.outbox l) as [|ev rest]; [by intros [= <-]|]. cbn [head mbind option_bind].
    rewrite exec_bind_Return. intros (s & Hs & [= <-]). rewrite Hs. by eexists.
Qed.

Lemma init_ok : ok cfg arc σ (Net.init cfg arc σ).
Proof.
  split; simpl; try done.
  - exists [], []. split; [constructor|done].
  - intros p c. split; [by intros [? ?]|intros Hc; by apply not_elem_of_nil in Hc].
  - intros p c [[? ?]|?]; done.
  - by rewrite fn_lookup_insert.
  - intros r [Hr|Hr]; by apply not_elem_of_nil in Hr.
Qed.

Lemma reachable_ok n : Net.reachable cfg arc σ n -> ok cfg arc σ n.
Proof.
  induction 1 as [|n x n' _ IH Hen Hr]; [apply init_ok|].
  destruct (react_ok n x IH Hen) as (n1 & Hr' & Hok). congruence.
Qed.
End calls.
End LinksSteps.
