(* ===== verification/LinksProps.v ===== *)
(** * Properties of the behaviour together with its handlers

    The contract under which the theorems on [FileGet] hold is kept by the
    handlers and the swarm. *)
From S2P Require Import Prelude Externals Instances FileGetTypes Handler HandlerProps Behaviour Ledger BehaviourLemmas BehaviourTracking BehaviourRefinement Links LinksViews LinksInvariant LinksSteps.

Section LinksProps.
Context `{Ext, Platform, HashOrder} `{!FuturesUnordered InboundFut InboundOut ChanEnv}.
Context `{!FuturesUnorderedLaws InboundFut InboundOut ChanEnv Handler.map_ok_inbound}.

(** C6: The handlers keep the contract: at every reachable state of the
    composition of [FileGet] with one [Handler] per connection, the state of
    [FileGet] is one it reaches by calls that were all made under [contract],
    with as many requests as the application sent; and on every live
    connection the requests on their way through it, from the queue of
    [FileGet] to the outbox of the handler, are pairwise distinct and in flight
    for [FileGet]. *)
Theorem handlers_keep_contract cfg arc σ n (Hreach : Net.reachable cfg arc σ n) :
  (exists ops out, run (FileGet.from_config cfg arc σ).1 ops out (Net.file_get n) /\
     sends ops = Net.sent n) /\
  forall p c l, Net.links n p c = Some l ->
    NoDup (notified p c (queued (Net.file_get n)) ++ link_out l) /\
    forall r, r ∈ notified p c (queued (Net.file_get n)) ++ link_out l ->
      inflight (Net.file_get n) p c r.
Proof.
  pose proof (reachable_ok cfg arc σ n Hreach) as Hok. split; [apply Hok|].
  intros p c l Hl. destruct (ok_link _ _ _ _ Hok p c l Hl) as [_ [Hnd Hin _]]. done.
Qed.

(** The composition never panics: whatever the swarm, the peers and the
    application do next within what [enabled] grants them, the reaction
    returns; the [expect]s and debug assertions of [FileGet] hold because of
    what the handlers do, not by assumption. *)
Theorem links_never_panic cfg arc σ n x
    (Hreach : Net.reachable cfg arc σ n) (Hen : Net.enabled x n) :
  exists n', Net.react x n = Return n' /\ Net.reachable cfg arc σ n'.
Proof.
  destruct (react_ok cfg arc σ n x (reachable_ok cfg arc σ n Hreach) Hen) as (n' & Hr & _).
  exists n'. split; [done|]. by eapply Net.reachable_step.
Qed.
End LinksProps.

(** * Witnesses *)
Section LinksWitnesses.
#[local] Existing Instances numExt debug64 canonicalOrder.
#[local] Instance wire_fu : FuturesUnordered InboundFut InboundOut ChanEnv :=
  list_fu Handler.map_ok_inbound.
#[local] Instance wire_laws :
  FuturesUnorderedLaws InboundFut InboundOut ChanEnv Handler.map_ok_inbound :=
  list_fu_laws Handler.map_ok_inbound.

Definition quiet_env : ChanEnv := fun _ => None.

(** The request [m] has arrived at [rx], and nothing elsewhere. *)
Definition asked_env (rx : ReqReceiver) (m : RequestId * FileGetMessage) : ChanEnv :=
  fun rx' => if decide (rx' = rx) then Some (Ok m) else None.

(** A script: reactions, and polls of a handler when no request or one has
    arrived. *)
Inductive Line : Type :=
| Do (x : Net.Label)
| QuietPoll (p : PeerId) (c : ConnectionId)
| AskedPoll (p : PeerId) (c : ConnectionId) (rx : ReqReceiver) (m : RequestId * FileGetMessage).

Definition label_of (l : Line) : Net.Label :=
  match l with
  | Do x => x
  | QuietPoll p c => Net.PollHandler p c 0 quiet_env
  | AskedPoll p c rx m => Net.PollHandler p c 0 (asked_env rx m)
  end.

Definition in_time (l : Link.t) : bool :=
  (Handler.timeout (Link.handler l) * 2 <=? DURATION_MAX) &&
  (0 + Handler.timeout (Link.handler l) * 2 <=? instant_max).

Definition line_enabled (l : Line) (n : Net.t) : bool :=
  match l with
  | Do (Net.Send _ _ _) => Net.sent n + 1 <? two64
  | Do (Net.Connect p c _) => bool_decide ((p, c) ∉ Net.used n)
  | Do (Net.OutboundDone p c r _) =>
      match Net.links n p c with Some l => bool_decide (r ∈ Link.dialling_ids l) | None => false end
  | Do (Net.DialFailure _ | Net.Poll | Net.Deliver _ _ | Net.Report _ _) => true
  | Do (Net.OpenInbound _ _ _ _) => Net.opened n + 2 <? two64
  | QuietPoll p c =>
      match Net.links n p c with Some l => in_time l | None => true end
  | AskedPoll p c rx m =>
      match Net.links n p c with
      | Some l => in_time l && bool_decide ((m.1, rx) ∈ Link.channels l)
      | None => true
      end
  | _ => false
  end.

Lemma line_enabled_sound l n : line_enabled l n = true -> Net.enabled (label_of l) n.
Proof.
  destruct l as [[]|p c|p c rx m]; cbn [line_enabled label_of]; try done.
  - by rewrite Z.ltb_lt.
  - by rewrite bool_decide_eq_true.
  - by rewrite Z.ltb_lt.
  - destruct (Net.links n p c) as [l|] eqn:E; [|done]. rewrite bool_decide_eq_true.
    intros Hr. by exists l.
  - intros Hb l Hl. rewrite Hl in Hb. apply andb_true_iff in Hb as [?%Z.leb_le ?%Z.leb_le]. done.
  - intros Hb l Hl. rewrite Hl in Hb.
    apply andb_true_iff in Hb as [[?%Z.leb_le ?%Z.leb_le]%andb_true_iff Hin%bool_decide_eq_true].
    split_and!; [done..|]. intros rx' m'. unfold asked_env. case_decide; [|done]. by intros [= ->]; subst.
Qed.

Fixpoint perform (script : list Line) (n : Net.t) : option Net.t :=
  match script with
  | [] => Some n
  | l :: script =>
      if line_enabled l n then
        match Net.react (label_of l) n with
        | Return n' => perform script n'
        | Panic _ => None
        end
      else None
  end.

Definition net_config : FileGetConfig := FileGetConfig_new (30 * 10 ^ 9).
Definition net_store : Store := fun _ => RequestIdGenerator.new.
Abbreviation net_reachable := (Net.reachable net_config (mkArc 1) net_store).

Lemma perform_sound script n n' : net_reachable n -> perform script n = Some n' -> net_reachable n'.
Proof.
  revert n. induction script as [|l script IH]; intros n Hn; simpl; [by intros [= <-]|].
  destruct (line_enabled l n) eqn:He; [|done].
  destruct (Net.react (label_of l) n) as [n1|] eqn:Hr; [|done].
  apply IH. eapply Net.reachable_step; [done|by apply line_enabled_sound|done].
Qed.

Definition net_start : Net.t := Net.init net_config (mkArc 1) net_store.
Definition final (script : list Line) : Net.t := default net_start (perform script net_start).
Definition performs (script : list Line) : bool :=
  match perform script net_start with Some _ => true | None => false end.

Lemma final_reachable script : performs script = true -> net_reachable (final script).
Proof.
  unfold performs, final. destruct (perform script net_start) as [n|] eqn:E; [|done].
  intros _. simpl. apply (perform_sound script net_start); [constructor|done].
Qed.

Definition seven : PeerId := (7 : @PeerId numExt).
Definition one : ConnectionId := (1 : @ConnectionId numExt).

(** A request travels to a new connection and its response back to the
    outbox. *)
Definition travel : list Line :=
  [Do (Net.Send seven (mkFileGetMessage (str "a")) (0 : AsyncWrite)); Do Net.Poll;
   Do (Net.Connect seven one (ConnectedPoint.Dialer (0 : Multiaddr))); Do Net.Poll;
   Do (Net.Deliver seven one); QuietPoll seven one;
   Do (Net.OutboundDone seven one (mkRequestId 1) (Ok tt)); QuietPoll seven one].

Lemma performs_travel : performs travel = true.
Proof. vm_compute. reflexivity. Qed.

Lemma travel_link : exists l, Net.links (final travel) seven one = Some l /\
  link_out l = [mkRequestId 1].
Proof. eexists. split; [vm_compute; reflexivity|]. vm_compute. reflexivity. Qed.

Lemma handlers_keep_contract_witness : inflight (Net.file_get (final travel)) seven one (mkRequestId 1).
Proof.
  destruct travel_link as (l & Hl & Hout).
  refine (proj2 (proj2 (handlers_keep_contract net_config (mkArc 1) net_store (final travel)
    (final_reachable travel performs_travel)) seven one l Hl) (mkRequestId 1) _).
  rewrite Hout. apply elem_of_app. right. apply list_elem_of_singleton. reflexivity.
Defined.

Lemma links_never_panic_witness :
  exists n', Net.react (Net.Report seven one) (final travel) = Return n' /\ net_reachable n'.
Proof.
  exact (links_never_panic net_config (mkArc 1) net_store (final travel) (Net.Report seven one)
    (final_reachable travel performs_travel) I).
Defined.
End LinksWitnesses.
