(* ===== verification/NetworkTypes.v ===== *)
(** * What the application's event loop works with

    Paths, the file system, the parts of libp2p the event loop calls, and the
    events it receives.  The libp2p behaviours other than [FileGet] and the
    file system are not part of the repository: they are the operations of two
    classes, with their documented behaviour as laws. *)
From S2P Require Import Prelude Externals FileGetTypes Streams Protocol Error Command.

(** ** [PathBuf] on Unix *)
Abbreviation PathBuf := Str.

Definition slash : N := 47%N.

(** [Path::is_absolute] *)
Definition is_absolute (p : PathBuf) : bool :=
  match p with c :: _ => bool_decide (c = slash) | [] => false end.

(** A separator is put after a non-empty path that does not end with one. *)
Definition need_sep (p : PathBuf) : bool :=
  match last p with Some c => negb (bool_decide (c = slash)) | None => false end.

(** [PathBuf::push] and [Path::join]: an absolute path replaces the receiver. *)
Definition path_push (self path : PathBuf) : PathBuf :=
  if is_absolute path then path
  else if need_sep self then self ++ slash :: path else self ++ path.

Definition path_join (self path : PathBuf) : PathBuf := path_push self path.

(** ** The file system *)
Class FileSystem `{Ext} : Type := {
  FS : Type;
  (** [OpenOptions::new().create(true).write(true).open(path)] *)
  fs_open_create : PathBuf -> FS -> result AsyncWrite IoError * FS;
  (** [File::open(path)] *)
  fs_open : PathBuf -> FS -> result AsyncRead IoError;
  (** [read_dir(path)], and the entries its stream yields *)
  DirEntry : Type;
  fs_read_dir : PathBuf -> FS -> result (list (result DirEntry IoError)) IoError;
  (** [entry.path().is_dir()], [entry.file_name().to_string_lossy()] *)
  entry_is_dir : DirEntry -> FS -> bool;
  entry_file_name : DirEntry -> Str;
}.

(** [TryStreamExt::try_filter], [map_ok], [try_collect::<Vec<_>>] on the items
    of a stream. *)
Definition try_filter {A E} (p : A -> bool) (l : list (result A E)) : list (result A E) :=
  List.filter (fun r => match r with Ok a => p a | Err _ => true end) l.

Definition map_ok {A B E} (f : A -> B) (l : list (result A E)) : list (result B E) :=
  (fun r => match r with Ok a => Ok (f a) | Err e => Err e end) <$> l.

Fixpoint try_collect {A E} (l : list (result A E)) : result (list A) E :=
  match l with
  | [] => Ok []
  | Ok a :: l' => match try_collect l' with Ok l'' => Ok (a :: l'') | Err e => Err e end
  | Err e :: _ => Err e
  end.

(** ** libp2p *)
Class Libp2p `{Ext} : Type := {
  (** [rendezvous::Namespace]; [new] fails with [NamespaceTooLong] *)
  Namespace : Type;
  Namespace_eq_dec :: EqDecision Namespace;
  Namespace_countable :: Countable Namespace;
  Namespace_new : Str -> option Namespace;
  Namespace_to_string : Namespace -> Str;
  (** [Multiaddr::from_str] *)
  multiaddr_parse : Str -> option Multiaddr;
  (** [rendezvous::client::Behaviour] *)
  RendezvousClient : Type;
  rendezvous_register : Namespace -> PeerId -> option Z -> RendezvousClient -> RendezvousClient;
  Cookie : Type;
  rendezvous_discover : option Namespace -> option Cookie -> option Z -> PeerId ->
    RendezvousClient -> RendezvousClient;
  (** [RequestResponse<ListFilesCodec>] *)
  ReqResRequestId : Type;
  ReqResRequestId_eq_dec :: EqDecision ReqResRequestId;
  ReqResRequestId_countable :: Countable ReqResRequestId;
  ResponseChannel : Type;
  RequestResponse : Type;
  rr_send_request : PeerId -> ListFilesRequest -> RequestResponse ->
    ReqResRequestId * RequestResponse;
  rr_send_response : ResponseChannel -> ListFilesResponse -> RequestResponse ->
    result unit ListFilesResponse * RequestResponse;
  (** [identify], [ping] and [keep_alive], which the source only constructs,
      and [ping::Event], which it does not look into *)
  OtherBehaviours : Type;
  PingEvent : Type;
  (** The swarm around the behaviours. *)
  SwarmCore : Type;
  TransportError : Type;
  swarm_dial : Multiaddr -> SwarmCore -> result unit Externals.DialError * SwarmCore;
  swarm_listen_on : Multiaddr -> SwarmCore -> result unit TransportError * SwarmCore;
  (** [oneshot::Sender<Result<CommandResponse, FileSharingError>>] *)
  CommandSender : Type;
  CommandSender_eq_dec :: EqDecision CommandSender;
}.

Class Libp2pLaws `{Libp2p} : Prop := {
  (** A namespace holds at most 255 bytes and displays as it was given. *)
  Namespace_new_to_string s n : Namespace_new s = Some n -> Namespace_to_string n = s;
  (** The literal of the source is an address. *)
  multiaddr_parse_local : is_Some (multiaddr_parse (str "/ip4/0.0.0.0/tcp/0"));
}.

(** [struct CommandRequest] *)
Module CommandRequest.
Record t `{Libp2p} : Type := mk {
  command_request_id : Z;
  command : Command.t;
  response_sender : CommandSender;
}.
Arguments mk {_ _} _ _ _.
End CommandRequest.

(** ** Events *)
Module Registration.
Record t `{Libp2p} : Type := mk {
  namespace : Namespace;
  peer_id : PeerId;
  addresses : list Multiaddr;
}.
Arguments mk {_ _} _ _ _.
End Registration.

(** [rendezvous::client::Event] *)
Module RendezvousEvent.
Inductive t `{Libp2p} : Type :=
| Discovered (registrations : list Registration.t)
| Registered (namespace : Namespace) (ttl : Z) (rendezvous_node : PeerId)
| RegisterFailed
| DiscoverFailed
| Expired (peer : PeerId).
End RendezvousEvent.

(** [RequestResponseEvent<ListFilesRequest, ListFilesResponse>]; the error of a
    failure is only logged. *)
Module ListFilesEvent.
Inductive Message `{Libp2p} : Type :=
| Request (request : ListFilesRequest) (channel : ResponseChannel)
| Response (request_id : ReqResRequestId) (response : ListFilesResponse).
Inductive t `{Libp2p} : Type :=
| MessageReceived (peer : PeerId) (message : Message)
| OutboundFailure (peer : PeerId) (request_id : ReqResRequestId)
| InboundFailure (peer : PeerId) (request_id : ReqResRequestId)
| ResponseSent (peer : PeerId) (request_id : ReqResRequestId).
End ListFilesEvent.

(** [identify::Event] *)
Module IdentifyEvent.
Inductive t `{Ext} : Type :=
| Received (peer_id : PeerId)
| Other.
End IdentifyEvent.

(** [enum ComposedEvent] *)
Module ComposedEvent.
Inductive t `{Libp2p} : Type :=
| Rendezvous (event : RendezvousEvent.t)
| Identify (event : IdentifyEvent.t)
| Ping (event : PingEvent)
| ListFiles (event : ListFilesEvent.t)
| FileGet (event : FileGetEvent.t).

(** [impl From<E> for ComposedEvent]: how the derived behaviour passes on the
    event of each of its parts; [keep_alive] has none. *)
Class From `{Libp2p} (E : Type) : Type := from : E -> t.

#[global] Instance from_rendezvous `{Libp2p} : From RendezvousEvent.t := Rendezvous.
#[global] Instance from_identify `{Libp2p} : From IdentifyEvent.t := Identify.
#[global] Instance from_ping `{Libp2p} : From PingEvent := Ping.
#[global] Instance from_void `{Libp2p} : From Empty_set := fun event => match event with end.
#[global] Instance from_list_files `{Libp2p} : From ListFilesEvent.t := ListFiles.
#[global] Instance from_file_get `{Libp2p} : From FileGetEvent.t := FileGet.
End ComposedEvent.

(** [SwarmEvent], the variants the source names. *)
Module SwarmEvent.
Inductive t `{Libp2p} : Type :=
| Behaviour (event : ComposedEvent.t)
| NewListenAddr (address : Multiaddr)
| ListenerError
| Other.
End SwarmEvent.
