(* ===== verification/Debug.v ===== *)
(** * [Debug] output

    The [fmt::Debug] implementations of both crates, written out or derived, on
    the builders of [std::fmt] they use (without [#]), and the [Display] of what
    the prompt prints.  How [std] quotes a string depends on Unicode tables and
    the formats of libp2p's own types on libp2p: they are the operations of a
    class.  What the prompt prints for a response is shown to determine it. *)
From S2P Require Import Prelude Externals FileGetTypes Error Command NetworkTypes.
From stdpp Require Import pretty.

#[local] Open Scope Z_scope.

(** ** The builders of [std::fmt] *)

(** Joined by a separator. *)
Fixpoint join_with (sep : Str) (l : list Str) : Str :=
  match l with
  | [] => []
  | [x] => x
  | x :: l' => x ++ sep ++ join_with sep l'
  end.

(** [f.debug_struct(name).field(..)..finish()] *)
Definition debug_struct (name : Str) (fields : list (Str * Str)) : Str :=
  match fields with
  | [] => name
  | _ => name ++ str " { " ++
      join_with (str ", ") ((fun kv => kv.1 ++ str ": " ++ kv.2) <$> fields) ++ str " }"
  end.

(** [f.debug_tuple(name).field(..)..finish()] *)
Definition debug_tuple (name : Str) (fields : list Str) : Str :=
  match fields with
  | [] => name
  | _ => name ++ str "(" ++ join_with (str ", ") fields ++ str ")"
  end.

(** [f.debug_list().entries(..).finish()], the format of a [Vec] *)
Definition debug_list (entries : list Str) : Str :=
  str "[" ++ join_with (str ", ") entries ++ str "]".

(** The decimal digits of an unsigned integer. *)
Definition debug_u64 (n : Z) : Str := str (pretty (Z.to_N n)).

(** The formats that are not part of the repository. *)
Class DebugFormat `{Ext} : Type := {
  debug_str : Str -> Str;
  debug_peer_id : PeerId -> Str;
  debug_multiaddr : Multiaddr -> Str;
  debug_io : IoError -> Str;
  debug_dial : DialError -> Str;
  debug_namespace_too_long : Str;
  (** prost derives the format of a message *)
  debug_message : FileGetMessage -> Str;
}.

(** The characters of a string come between double quotes, and those that could
    be taken for the end are escaped. *)
Class DebugFormatLaws `{DebugFormat} : Prop := {
  debug_str_quote s : exists r, debug_str s = 34%N :: r;
  debug_str_delimited s t x y : debug_str s ++ x = debug_str t ++ y -> s = t /\ x = y;
}.

(** ** The implementations of the [libp2p-file-get] crate *)

Section Debug.
Context `{DebugFormat}.

(** [#[derive(Debug)]] on [RequestId] *)
Definition debug_request_id (r : RequestId) : Str :=
  debug_tuple (str "RequestId") [debug_u64 (request_id_0 r)].

(** [#[derive(Debug)]] on the failures *)
Definition debug_outbound_failure (e : OutboundFailure.t) : Str :=
  match e with
  | OutboundFailure.DialFailure => str "DialFailure"
  | OutboundFailure.Timeout => str "Timeout"
  | OutboundFailure.ConnectionClosed => str "ConnectionClosed"
  | OutboundFailure.UnsupportedProtocols => str "UnsupportedProtocols"
  end.

Definition debug_inbound_failure (e : InboundFailure.t) : Str :=
  match e with
  | InboundFailure.Timeout => str "Timeout"
  | InboundFailure.ConnectionClosed => str "ConnectionClosed"
  | InboundFailure.UnsupportedProtocols => str "UnsupportedProtocols"
  | InboundFailure.ResponseOmission => str "ResponseOmission"
  end.

(** [impl fmt::Debug for FileGetEvent] *)
Definition debug_file_get_event (self : FileGetEvent.t) : Str :=
  match self with
  | FileGetEvent.RequestReceived peer_id request_id message _ =>
      debug_struct (str "RequestReceived")
        [(str "peer_id", debug_peer_id peer_id); (str "request_id", debug_request_id request_id);
         (str "message", debug_message message)]
  | FileGetEvent.ResponseReceived peer_id request_id =>
      debug_struct (str "ResponseReceived")
        [(str "peer_id", debug_peer_id peer_id); (str "request_id", debug_request_id request_id)]
  | FileGetEvent.ResponseSent peer_id request_id =>
      debug_struct (str "ResponseSent")
        [(str "peer_id", debug_peer_id peer_id); (str "request_id", debug_request_id request_id)]
  | FileGetEvent.OutboundFailure peer_id request_id error =>
      debug_struct (str "OutboundFailure")
        [(str "peer_id", debug_peer_id peer_id); (str "request_id", debug_request_id request_id);
         (str "error", debug_outbound_failure error)]
  | FileGetEvent.InboundFailure peer_id request_id error =>
      debug_struct (str "InboundFailure")
        [(str "peer_id", debug_peer_id peer_id); (str "request_id", debug_request_id request_id);
         (str "error", debug_inbound_failure error)]
  end.

(** [impl Debug for FileGetHandlerEvent] *)
Definition debug_handler_event (self : FileGetHandlerEvent.t) : Str :=
  match self with
  | FileGetHandlerEvent.Request _ message _ =>
      debug_struct (str "Request") [(str "message", debug_message message)]
  | FileGetHandlerEvent.Response arg0 => debug_tuple (str "Response") [debug_request_id arg0]
  | FileGetHandlerEvent.ResponseSent arg0 =>
      debug_tuple (str "ResponseSent") [debug_request_id arg0]
  | FileGetHandlerEvent.ResponseOmission arg0 =>
      debug_tuple (str "ResponseOmission") [debug_request_id arg0]
  | FileGetHandlerEvent.OutboundTimeout arg0 =>
      debug_tuple (str "OutboundTimeout") [debug_request_id arg0]
  | FileGetHandlerEvent.OutboundUnsupportedProtocols arg0 =>
      debug_tuple (str "OutboundUnsupportedProtocols") [debug_request_id arg0]
  | FileGetHandlerEvent.InboundTimeout arg0 =>
      debug_tuple (str "InboundTimeout") [debug_request_id arg0]
  | FileGetHandlerEvent.InboundUnsupportedProtocols arg0 =>
      debug_tuple (str "InboundUnsupportedProtocols") [debug_request_id arg0]
  end.

(** [impl fmt::Debug for FileGetOutboundProtocol] *)
Definition debug_outbound_protocol (self : FileGetOutboundProtocol.t) : Str :=
  debug_struct (str "FileGetOutboundProtocol")
    [(str "request_id", debug_request_id (FileGetOutboundProtocol.request_id self));
     (str "file_name", debug_str (FileGetOutboundProtocol.file_name self))].

(** ** What the prompt prints *)

(** [Debug] of a [Vec<String>] *)
Definition debug_names (names : list Str) : Str := debug_list (debug_str <$> names).

(** [#[derive(Debug)]] on [CommandResult] *)
Definition debug_command_result (self : CommandResult.t) : Str :=
  match self with
  | CommandResult.Register => str "Register"
  | CommandResult.ListPeers names =>
      debug_tuple (str "ListPeers") [debug_names names]
  | CommandResult.ListFiles names =>
      debug_tuple (str "ListFiles") [debug_names names]
  | CommandResult.GetFile user_name file_name =>
      debug_struct (str "GetFile")
        [(str "user_name", debug_str user_name); (str "file_name", debug_str file_name)]
  end.

(** [#[derive(Debug)]] on [CommandResponse] *)
Definition debug_command_response (self : CommandResponse.t) : Str :=
  debug_struct (str "CommandResponse")
    [(str "command_request_id", debug_u64 (CommandResponse.command_request_id self));
     (str "result", debug_command_result (CommandResponse.result self))].

(** [#[derive(Debug)]] on [FileSharingError] *)
Definition debug_error (self : FileSharingError.t) : Str :=
  match self with
  | FileSharingError.InvalidCommand => str "InvalidCommand"
  | FileSharingError.Io e => debug_tuple (str "Io") [debug_io e]
  | FileSharingError.DialError e => debug_tuple (str "DialError") [debug_dial e]
  | FileSharingError.RendezvousPointNotConnected => str "RendezvousPointNotConnected"
  | FileSharingError.NamespaceTooLong =>
      debug_tuple (str "NamespaceTooLong") [debug_namespace_too_long]
  | FileSharingError.ListenError address =>
      debug_tuple (str "ListenError") [debug_multiaddr address]
  | FileSharingError.UserNotRegistered user_name =>
      debug_tuple (str "UserNotRegistered") [debug_str user_name]
  end.
End Debug.
