(* ===== verification/DebugProps.v ===== *)
(** * What the prompt prints determines the response

    The texts of [Debug.v] are read back: a decimal number up to the character
    after it, a quoted string, a list of them, and with them a whole response. *)
From S2P Require Import Prelude Externals Instances FileGetTypes Error Command NetworkTypes Debug.
From stdpp Require Import pretty.

#[local] Open Scope Z_scope.

(** [f a] can be told from what follows it. *)
Definition delimited {A} (f : A -> Str) : Prop :=
  forall a b x y, f a ++ x = f b ++ y -> a = b /\ x = y.

(** ** Numbers *)
Definition is_digit (c : N) : Prop := (48 <= c <= 57)%N.

Lemma pretty_digit n : is_digit (Ascii.N_of_ascii (pretty_N_char n)).
Proof. unfold is_digit, pretty_N_char. repeat case_match; vm_compute; by split. Qed.

Lemma pretty_go_digits n s : Forall is_digit (str s) -> Forall is_digit (str (pretty_N_go n s)).
Proof.
  revert s. induction (N.lt_wf_0 n) as [n _ IH]; intros s Hs.
  destruct (decide (0 < n)%N) as [Hn|Hn].
  - rewrite pretty_N_go_step by done. apply IH; [apply N.div_lt; lia|].
    unfold str. simpl. constructor; [apply pretty_digit|done].
  - replace n with 0%N by lia. by rewrite pretty_N_go_0.
Qed.

Lemma debug_u64_digits z : Forall is_digit (debug_u64 z).
Proof.
  unfold debug_u64, pretty, pretty_N. case_decide.
  - apply Forall_singleton. by vm_compute; split.
  - apply pretty_go_digits. constructor.
Qed.

Lemma str_inj s1 s2 : str s1 = str s2 -> s1 = s2.
Proof.
  unfold str. revert s2. induction s1 as [|c s1 IH]; intros [|c2 s2]; simpl; try done.
  intros [= Hc Hs]. f_equal; [|by apply IH].
  rewrite <-(Ascii.ascii_N_embedding c), <-(Ascii.ascii_N_embedding c2). by rewrite Hc.
Qed.

(** Two runs of digits, each with another character after it. *)
Lemma digits_delimited (l1 l2 : Str) c x y : ~ is_digit c -> Forall is_digit l1 -> Forall is_digit l2 ->
  l1 ++ c :: x = l2 ++ c :: y -> l1 = l2 /\ x = y.
Proof.
  intros Hc Hl1. revert l2. induction Hl1 as [|d l1 Hd Hl1 IH]; intros l2 Hl2; destruct Hl2 as [|d2 l2 Hd2 Hl2];
    simpl; intros [= He].
  - done.
  - by subst.
  - by subst.
  - destruct (IH l2 Hl2) as [-> ->]; [done|]. by subst.
Qed.

Lemma debug_u64_delimited (a b : Z) c x y : 0 <= a -> 0 <= b -> ~ is_digit c ->
  debug_u64 a ++ c :: x = debug_u64 b ++ c :: y -> a = b /\ x = y.
Proof.
  intros Ha Hb Hc He. apply digits_delimited in He as [He ->]; [|done|apply debug_u64_digits..].
  apply str_inj, (inj (pretty (A := N))) in He. by apply Z2N.inj in He.
Qed.

Section DebugProps.
Context `{DebugFormat, !DebugFormatLaws}.

(** ** Lists of names *)
Abbreviation quoted := (fmap (M := list) debug_str).

Lemma join_delimited (l1 l2 : list Str) (x y : Str) :
  join_with (str ", ") (quoted l1) ++ 93%N :: x = join_with (str ", ") (quoted l2) ++ 93%N :: y ->
  l1 = l2 /\ x = y.
Proof.
  revert l2 x y. induction l1 as [|s l1 IH]; intros [|s2 l2] x y; csimpl.
  - intros [= ->]. done.
  - destruct (debug_str_quote s2) as [r Hr]. rewrite Hr. by destruct l2.
  - destruct (debug_str_quote s) as [r Hr]. rewrite Hr. by destruct l1.
  - destruct l1 as [|s' l1], l2 as [|s2' l2]; csimpl; rewrite <-?(assoc_L (++)).
    + intros [-> [= ->]]%debug_str_delimited. done.
    + intros [-> ?]%debug_str_delimited. done.
    + intros [-> ?]%debug_str_delimited. done.
    + intros [-> He]%debug_str_delimited. injection He as He.
      destruct (IH (s2' :: l2) x y He) as [[= -> ->] ->]. done.
Qed.

Lemma debug_names_delimited : delimited debug_names.
Proof.
  intros l1 l2 x y. unfold debug_names, debug_list.
  change (str "[") with [91%N]. change (str "]") with [93%N].
  rewrite <-!(assoc_L (++)). intros [= He]. by apply join_delimited in He.
Qed.

(** ** Results and responses *)
#[local] Opaque debug_names.

(** The literals as lists of characters. *)
Ltac eval_literals :=
  repeat match goal with
  | |- context [str ?s] => let v := eval vm_compute in (str s) in change (str s) with v
  end.

Lemma cons_tail {A} (c : A) l1 l2 : c :: l1 = c :: l2 -> l1 = l2.
Proof. by intros [= ->]. Qed.

(** Common first characters. *)
Ltac peel H :=
  repeat match type of H with _ :: _ = _ :: _ => apply cons_tail in H end;
  simpl in H; rewrite <-?(assoc_L (++)) in H; simpl in H.

Lemma debug_command_result_delimited : delimited debug_command_result.
Proof.
  intros [|n1|n1|u1 f1] [|n2|n2|u2 f2] x y;
    unfold debug_command_result, debug_tuple, debug_struct, join_with; eval_literals;
    simpl; try done; rewrite <-?(assoc_L (++)); intros He; peel He.
  - done.
  - apply debug_names_delimited in He as [-> He]. by injection He as ->.
  - apply debug_names_delimited in He as [-> He]. by injection He as ->.
  - apply debug_str_delimited in He as [-> He]. peel He.
    apply debug_str_delimited in He as [-> He]. by injection He as ->.
Qed.

(** C35: The line printed for a response determines it: two responses with the
    same [Debug] output have the same identifier and the same result, whatever
    the names in it. *)
Theorem printed_response_unambiguous (a b : CommandResponse.t)
    (Ha : 0 <= CommandResponse.command_request_id a) (Hb : 0 <= CommandResponse.command_request_id b)
    (Heq : debug_command_response a = debug_command_response b) : a = b.
Proof.
  destruct a as [i1 r1], b as [i2 r2]. simpl in Ha, Hb. revert Heq.
  unfold debug_command_response, debug_struct, join_with. eval_literals. simpl.
  rewrite <-!(assoc_L (++)). simpl. intros He. peel He.
  apply debug_u64_delimited in He as [-> He]; [|done..|by intros [? ?]].
  peel He. by apply debug_command_result_delimited in He as [-> _].
Qed.
End DebugProps.

(** * Witness *)
Section DebugWitnesses.
#[local] Existing Instance numExt.

(** Quoting that escapes quotes and backslashes. *)
Fixpoint escape (s : Str) : Str :=
  match s with
  | [] => []
  | c :: s' => if bool_decide (c = 34%N \/ c = 92%N) then 92%N :: c :: escape s' else c :: escape s'
  end.

Definition quote (s : Str) : Str := 34%N :: escape s ++ [34%N].

Lemma escape_delimited s t x y :
  escape s ++ 34%N :: x = escape t ++ 34%N :: y -> s = t /\ x = y.
Proof.
  revert t. induction s as [|c s IH]; intros [|d t]; simpl; repeat case_bool_decide; simpl;
    intros [= ?]; simplify_eq; try tauto.
  - by destruct (IH t) as [-> ->].
  - by destruct (IH t) as [-> ->].
Qed.

#[export] Instance ascii_format : DebugFormat := {|
  debug_str := quote;
  debug_peer_id p := [];
  debug_multiaddr a := [];
  debug_io e := [];
  debug_dial e := [];
  debug_namespace_too_long := str "NamespaceTooLong";
  debug_message m := debug_struct (str "FileGetMessage") [(str "file_name", quote (file_name m))];
|}.

#[export] Instance ascii_format_laws : DebugFormatLaws.
Proof.
  split; simpl; [by eexists|]. intros s t x y [= He]. rewrite <-!(assoc_L (++)) in He.
  by apply escape_delimited.
Qed.

Definition listing (names : list Str) : CommandResponse.t :=
  CommandResponse.mk 12 (CommandResult.ListFiles names).

(** Names with quotes and commas in them. *)
Example listing_text :
  debug_command_response (listing [str "a.txt"; str "b"]) =
  str "CommandResponse { command_request_id: 12, result: ListFiles([" ++ quote (str "a.txt") ++
  str ", " ++ quote (str "b") ++ str "]) }".
Proof. vm_compute. reflexivity. Qed.

Lemma printed_response_unambiguous_witness :
  listing [str "a, b"] = CommandResponse.new 12 (CommandResult.ListFiles [str "a, b"]).
Proof.
  refine (printed_response_unambiguous _ _ _ _ _); [vm_compute; congruence..|].
  vm_compute. reflexivity.
Defined.
End DebugWitnesses.
