(* ===== verification/EventLoop.v ===== *)
(** * The event loop of the application ([src/network/mod.rs]) *)
From S2P Require Import Prelude Externals FileGetTypes Streams Protocol Handler Behaviour Error Command NetworkTypes.

(** [CommandRequestIdGenerator(AtomicU64)]; [derive(Default)] starts at 0 *)
Module CommandRequestIdGenerator.
Record t : Type := mk { counter : Z }.

Definition default : t := mk 0.

Definition next_id (g : t) : Z * t := (counter g, mk (wrap64 (counter g + 1))).
End CommandRequestIdGenerator.

(** [struct ComposedBehaviour] inside its [Swarm] *)
Module ComposedBehaviour.
Record t `{Libp2p, Platform, HashOrder} `{!FuturesUnordered InboundFut InboundOut ChanEnv} :
    Type := mk {
  others : OtherBehaviours;
  rendezvous : RendezvousClient;
  list_files : RequestResponse;
  file_get : FileGet.t;
}.
Arguments mk {_ _ _ _ _} _ _ _ _.
End ComposedBehaviour.

Module Swarm.
Record t `{Libp2p, Platform, HashOrder} `{!FuturesUnordered InboundFut InboundOut ChanEnv} :
    Type := mk {
  core : SwarmCore;
  behaviour : ComposedBehaviour.t;
}.
Arguments mk {_ _ _ _ _} _ _.
End Swarm.

Module EventLoop.
Section EventLoop.
Context `{Libp2p, Platform, HashOrder, !FileSystem}.
Context `{!FuturesUnordered InboundFut InboundOut ChanEnv}.

(** [struct EventLoop]; the receiver of commands is the input of [run]. *)
Record t : Type := mk {
  swarm : Swarm.t;
  rendezvous_point_address : Multiaddr;
  rendezvous_point_peer_id : option PeerId;
  namespace_peers : gmap Namespace PeerId;
  pending_command_requests : gmap Z CommandRequest.t;
  pending_list_files : gmap ReqResRequestId Z;
  pending_file_gets : gmap RequestId Z;
  sharing_dir : PathBuf;
}.

(** [EventLoop::new] *)
Definition new (swarm : Swarm.t) (rendezvous_point_address : Multiaddr) (sharing_dir : PathBuf) :
    t := mk swarm rendezvous_point_address None ∅ ∅ ∅ ∅ sharing_dir.

(** Field assignments. *)
Definition set_swarm (x : Swarm.t) (e : t) : t :=
  mk x (rendezvous_point_address e) (rendezvous_point_peer_id e) (namespace_peers e)
    (pending_command_requests e) (pending_list_files e) (pending_file_gets e) (sharing_dir e).
Definition set_rendezvous_point_peer_id (x : option PeerId) (e : t) : t :=
  mk (swarm e) (rendezvous_point_address e) x (namespace_peers e)
    (pending_command_requests e) (pending_list_files e) (pending_file_gets e) (sharing_dir e).
Definition set_namespace_peers (x : gmap Namespace PeerId) (e : t) : t :=
  mk (swarm e) (rendezvous_point_address e) (rendezvous_point_peer_id e) x
    (pending_command_requests e) (pending_list_files e) (pending_file_gets e) (sharing_dir e).
Definition set_pending_command_requests (x : gmap Z CommandRequest.t) (e : t) : t :=
  mk (swarm e) (rendezvous_point_address e) (rendezvous_point_peer_id e) (namespace_peers e)
    x (pending_list_files e) (pending_file_gets e) (sharing_dir e).
Definition set_pending_list_files (x : gmap ReqResRequestId Z) (e : t) : t :=
  mk (swarm e) (rendezvous_point_address e) (rendezvous_point_peer_id e) (namespace_peers e)
    (pending_command_requests e) x (pending_file_gets e) (sharing_dir e).
Definition set_pending_file_gets (x : gmap RequestId Z) (e : t) : t :=
  mk (swarm e) (rendezvous_point_address e) (rendezvous_point_peer_id e) (namespace_peers e)
    (pending_command_requests e) (pending_list_files e) x (sharing_dir e).

(** [self.swarm.behaviour_mut()] and its fields. *)
Definition behaviour (e : t) : ComposedBehaviour.t := Swarm.behaviour (swarm e).
Definition file_get (e : t) : FileGet.t := ComposedBehaviour.file_get (behaviour e).
Definition set_behaviour (b : ComposedBehaviour.t) (e : t) : t :=
  set_swarm (Swarm.mk (Swarm.core (swarm e)) b) e.
Definition set_core (c : SwarmCore) (e : t) : t :=
  set_swarm (Swarm.mk c (behaviour e)) e.
Definition set_rendezvous (x : RendezvousClient) (e : t) : t :=
  set_behaviour (ComposedBehaviour.mk (ComposedBehaviour.others (behaviour e)) x
    (ComposedBehaviour.list_files (behaviour e)) (file_get e)) e.
Definition set_list_files (x : RequestResponse) (e : t) : t :=
  set_behaviour (ComposedBehaviour.mk (ComposedBehaviour.others (behaviour e))
    (ComposedBehaviour.rendezvous (behaviour e)) x (file_get e)) e.
Definition set_file_get (x : FileGet.t) (e : t) : t :=
  set_behaviour (ComposedBehaviour.mk (ComposedBehaviour.others (behaviour e))
    (ComposedBehaviour.rendezvous (behaviour e)) (ComposedBehaviour.list_files (behaviour e)) x) e.

(** ** Effects on the outside *)

(** Values sent into oneshot channels. *)
Inductive Effect : Type :=
| Respond (tx : CommandSender) (response : result CommandResponse.t FileSharingError.t)
| SendReader (tx : ResSender) (reader : AsyncRead).

Record World : Type := mkWorld { loop : t; fs : FS; log : list Effect }.

Definition set_loop (e : t) (w : World) : World := mkWorld e (fs w) (log w).

(** The asynchronous methods: they change the world and return, fail with a
    [FileSharingError], or panic. *)
Definition M (A : Type) : Type := World -> exec (result A FileSharingError.t * World).

#[export] Instance M_ret : MRet M := fun _ a w => Return (Ok a, w).
#[export] Instance M_bind : MBind M := fun _ _ k m w =>
  match m w with
  | Return (Ok a, w') => k a w'
  | Return (Err e, w') => Return (Err e, w')
  | Panic msg => Panic msg
  end.

Definition get : M t := fun w => Return (Ok (loop w), w).
Definition modify (f : t -> t) : M unit := fun w => Return (Ok tt, set_loop (f (loop w)) w).
(** The [?] operator and [expect]. *)
Definition try_ {A} (r : result A FileSharingError.t) : M A := fun w => Return (r, w).
Definition expect_ {A} (o : option A) (msg : Str) : M A := fun w =>
  match o with Some a => Return (Ok a, w) | None => Panic msg end.
Definition emit (x : Effect) : M unit := fun w => Return (Ok tt, mkWorld (loop w) (fs w) (log w ++ [x])).
Definition with_fs {A} (f : FS -> A * FS) : M A := fun w =>
  let '(a, fs') := f (fs w) in Return (Ok a, mkWorld (loop w) fs' (log w)).

(** A [for] loop. *)
Fixpoint for_each {A} (l : list A) (f : A -> M unit) : M unit :=
  match l with
  | [] => mret tt
  | x :: l' => _ ← f x; for_each l' f
  end.

(** [get_peer_id] *)
Definition get_peer_id (user_name : Str) (e : t) : option PeerId :=
  namespace ← Namespace_new user_name; namespace_peers e !! namespace.

(** [self.pending_command_requests.insert(id, request)] *)
Definition insert_command (command_request_id : Z) (c : CommandRequest.t) : M unit :=
  modify (fun e => set_pending_command_requests
    (<[command_request_id := c]> (pending_command_requests e)) e).

Definition not_set_before_register : Str :=
  str "Rendezvous point peer id has been set before register".

(** [handle_command] *)
Definition handle_command (command_request : CommandRequest.t) : M unit :=
  let command := CommandRequest.command command_request in
  let response_sender := CommandRequest.response_sender command_request in
  let command_request_id := CommandRequest.command_request_id command_request in
  match command with
  | Command.Register r =>
      let user_name := Register.user_name r in
      namespace ← try_ (ok_or (Namespace_new user_name) FileSharingError.NamespaceTooLong);
      e ← get;
      peer ← expect_ (rendezvous_point_peer_id e) not_set_before_register;
      _ ← modify (fun e => set_rendezvous
        (rendezvous_register namespace peer None (ComposedBehaviour.rendezvous (behaviour e))) e);
      emit (Respond response_sender
        (Ok (CommandResponse.new command_request_id CommandResult.Register)))
  | Command.ListPeers =>
      e ← get;
      peer ← expect_ (rendezvous_point_peer_id e) not_set_before_register;
      _ ← modify (fun e => set_rendezvous
        (rendezvous_discover None None None peer (ComposedBehaviour.rendezvous (behaviour e))) e);
      insert_command command_request_id
        (CommandRequest.mk command_request_id Command.ListPeers response_sender)
  | Command.ListFiles l =>
      let user_name := ListFiles.user_name l in
      e ← get;
      match get_peer_id user_name e with
      | Some peer_id =>
          let '(request_id, rr) := rr_send_request peer_id mkListFilesRequest
            (ComposedBehaviour.list_files (behaviour e)) in
          _ ← modify (set_list_files rr);
          _ ← insert_command command_request_id
            (CommandRequest.mk command_request_id (Command.ListFiles (ListFiles.mk user_name))
               response_sender);
          modify (fun e => set_pending_list_files
            (<[request_id := command_request_id]> (pending_list_files e)) e)
      | None =>
          emit (Respond response_sender (Err (FileSharingError.UserNotRegistered user_name)))
      end
  | Command.GetFile g =>
      let user_name := GetFile.user_name g in
      let file_name := GetFile.file_name g in
      let request := FileGetMessage_new file_name in
      e ← get;
      let file_path := path_push (sharing_dir e) file_name in
      opened ← with_fs (fs_open_create file_path);
      writer ← try_ (map_err FileSharingError.Io opened);
      match get_peer_id user_name e with
      | Some peer_id =>
          sent ← (fun w => '(request_id, s) ← FileGet.send_request peer_id request writer
                     (file_get (loop w));
                   Return (Ok request_id, set_loop (set_file_get s (loop w)) w));
          _ ← insert_command command_request_id
            (CommandRequest.mk command_request_id
               (Command.GetFile (GetFile.mk user_name file_name)) response_sender);
          modify (fun e => set_pending_file_gets
            (<[sent := command_request_id]> (pending_file_gets e)) e)
      | None =>
          emit (Respond response_sender (Err (FileSharingError.UserNotRegistered user_name)))
      end
  end.

(** ** Events *)

(** The loop over the registrations of [Event::Discovered]. *)
Definition insert_registrations (registrations : list Registration.t)
    (peers : gmap Namespace PeerId) : gmap Namespace PeerId :=
  foldl (fun m registration =>
    foldl (fun m _ =>
      <[Registration.namespace registration := Registration.peer_id registration]> m)
      m (Registration.addresses registration))
    peers registrations.

(** [matches!(value, CommandRequest { command: Command::ListPeers, .. })] *)
Definition is_list_peers (c : CommandRequest.t) : bool :=
  match CommandRequest.command c with Command.ListPeers => true | _ => false end.

(** The body of the loop over the commands to answer. *)
Definition answer_list_peers (key : Z) : M unit :=
  e ← get;
  match pending_command_requests e !! key with
  | Some command =>
      _ ← modify (fun e => set_pending_command_requests
        (delete key (pending_command_requests e)) e);
      emit (Respond (CommandRequest.response_sender command)
        (Ok (CommandResponse.mk (CommandRequest.command_request_id command)
               (CommandResult.ListPeers
                  (Namespace_to_string <$> (map_iter (namespace_peers e)).*1)))))
  | None => mret tt
  end.

(** [Event::Discovered] *)
Definition on_discovered (registrations : list Registration.t) : M unit :=
  _ ← modify (fun e => set_namespace_peers
    (insert_registrations registrations (namespace_peers e)) e);
  e ← get;
  let to_remove :=
    (List.filter (fun kv => is_list_peers kv.2) (map_iter (pending_command_requests e))).*1 in
  for_each to_remove answer_list_peers.

(** A request of a peer to list the shared files *)
Definition on_list_files_request (channel : ResponseChannel) : M unit :=
  e ← get;
  fs ← with_fs (fun fs => (fs, fs));
  dir ← try_ (map_err FileSharingError.Io (fs_read_dir (sharing_dir e) fs));
  file_names ← try_ (map_err FileSharingError.Io (try_collect
    (map_ok entry_file_name (try_filter (fun entry => negb (entry_is_dir entry fs)) dir))));
  modify (fun e => set_list_files (rr_send_response channel (mkListFilesResponse file_names)
    (ComposedBehaviour.list_files (behaviour e))).2 e).

(** The response of a peer to such a request of ours *)
Definition on_list_files_response (request_id : ReqResRequestId) (response : ListFilesResponse) :
    M unit :=
  e ← get;
  match pending_list_files e !! request_id with
  | Some command_request_id =>
      _ ← modify (fun e => set_pending_list_files (delete request_id (pending_list_files e)) e);
      match pending_command_requests e !! command_request_id with
      | Some command_request =>
          _ ← modify (fun e => set_pending_command_requests
            (delete command_request_id (pending_command_requests e)) e);
          emit (Respond (CommandRequest.response_sender command_request)
            (Ok (CommandResponse.mk command_request_id
                   (CommandResult.ListFiles (file_names response)))))
      | None => mret tt
      end
  | None => mret tt
  end.

(** [FileGetEvent::RequestReceived] *)
Definition on_file_request (message : FileGetMessage) (res_sender : ResSender) : M unit :=
  e ← get;
  let file_path := path_join (sharing_dir e) (file_name message) in
  fs ← with_fs (fun fs => (fs, fs));
  file ← try_ (map_err FileSharingError.Io (fs_open file_path fs));
  emit (SendReader res_sender file).

Definition not_pending : Str :=
  str "Expect command request to be pending before response is received.".

(** [FileGetEvent::ResponseReceived] *)
Definition on_file_response (request_id : RequestId) : M unit :=
  e ← get;
  command_request_id ← expect_ (pending_file_gets e !! request_id) not_pending;
  _ ← modify (fun e => set_pending_file_gets (delete request_id (pending_file_gets e)) e);
  command_request ← expect_ (pending_command_requests e !! command_request_id) not_pending;
  _ ← modify (fun e => set_pending_command_requests
    (delete command_request_id (pending_command_requests e)) e);
  match CommandRequest.command command_request with
  | Command.GetFile g =>
      emit (Respond (CommandRequest.response_sender command_request)
        (Ok (CommandResponse.mk command_request_id
               (CommandResult.GetFile (GetFile.user_name g) (GetFile.file_name g)))))
  | _ => if debug_assertions then expect_ None (str "Expect command to be GetFile") else mret tt
  end.

(** [handle_event]; logging is left out. *)
Definition handle_event (event : SwarmEvent.t) : M unit :=
  match event with
  | SwarmEvent.Behaviour (ComposedEvent.Rendezvous (RendezvousEvent.Discovered registrations)) =>
      on_discovered registrations
  | SwarmEvent.Behaviour (ComposedEvent.ListFiles (ListFilesEvent.MessageReceived _ message)) =>
      match message with
      | ListFilesEvent.Request _ channel => on_list_files_request channel
      | ListFilesEvent.Response request_id response =>
          on_list_files_response request_id response
      end
  | SwarmEvent.Behaviour (ComposedEvent.FileGet
      (FileGetEvent.RequestReceived _ _ message res_sender)) => on_file_request message res_sender
  | SwarmEvent.Behaviour (ComposedEvent.FileGet (FileGetEvent.ResponseReceived _ request_id)) =>
      on_file_response request_id
  | _ => mret tt
  end.

(** ** Starting and running *)

(** What the swarm yields, and the swarm after it. *)
Definition Yield : Type := Swarm.t * SwarmEvent.t.

(** [start_listen]: the events the swarm yields before the delay of three
    seconds has passed; the last case is the delay. *)
Fixpoint listen_loop (events : list Yield) : M bool :=
  match events with
  | [] => mret false
  | (s, event) :: events =>
      _ ← modify (set_swarm s);
      match event with
      | SwarmEvent.NewListenAddr _ => mret true
      | SwarmEvent.ListenerError => mret false
      | _ => listen_loop events
      end
  end.

Definition start_listen (events : list Yield) : M unit :=
  local_address ← expect_ (multiaddr_parse (str "/ip4/0.0.0.0/tcp/0"))
    (str "called `Result::unwrap()` on an `Err` value");
  _ ← modify (fun e => set_core (swarm_listen_on local_address (Swarm.core (swarm e))).2 e);
  listen_success ← listen_loop events;
  match listen_success with
  | true => mret tt
  | false => try_ (Err (FileSharingError.ListenError local_address))
  end.

(** [conntect_rendezvous] *)
Fixpoint connect_loop (events : list Yield) : M unit :=
  match events with
  | [] => mret tt
  | (s, event) :: events =>
      _ ← modify (set_swarm s);
      match event with
      | SwarmEvent.Behaviour (ComposedEvent.Identify (IdentifyEvent.Received peer_id)) =>
          modify (set_rendezvous_point_peer_id (Some peer_id))
      | _ => connect_loop events
      end
  end.

Definition conntect_rendezvous (events : list Yield) : M unit :=
  e ← get;
  let '(r, c) := swarm_dial (rendezvous_point_address e) (Swarm.core (swarm e)) in
  _ ← modify (set_core c);
  _ ← try_ (map_err FileSharingError.DialError r);
  _ ← connect_loop events;
  e ← get;
  match rendezvous_point_peer_id e with
  | Some _ => mret tt
  | None => try_ (Err FileSharingError.RendezvousPointNotConnected)
  end.

(** [init] *)
Definition init (listen_events connect_events : list Yield) : M unit :=
  _ ← start_listen listen_events;
  conntect_rendezvous connect_events.

(** [run]: what [select!] takes, one after the other.  The loop itself never
    ends but by an error, [Ok] says that it is still running after [inputs]. *)
Inductive Input : Type :=
| CommandRequested (command_request : CommandRequest.t)
| SwarmYields (y : Yield).

Definition handle_input (input : Input) : M unit :=
  match input with
  | CommandRequested command_request => handle_command command_request
  | SwarmYields (s, event) => _ ← modify (set_swarm s); handle_event event
  end.

Definition run (inputs : list Input) : M unit := for_each inputs handle_input.
End EventLoop.
End EventLoop.

(** Running the monad of the event loop in a proof. *)
#[global] Arguments str : simpl never.
#[global] Arguments FileGet.send_request : simpl never.

Ltac run_m := cbv [mbind mret EventLoop.M_bind EventLoop.M_ret exec_bind exec_ret EventLoop.get
  EventLoop.modify EventLoop.try_ EventLoop.expect_ EventLoop.emit EventLoop.with_fs
  EventLoop.insert_command]; cbn.

Section Lemmas.
Context `{Libp2p, HashOrder}.

(** The keys the loop goes through. *)
Lemma to_remove_spec (m : gmap Z CommandRequest.t) :
  let keys := (List.filter (fun kv => EventLoop.is_list_peers kv.2) (map_iter m)).*1 in
  NoDup keys /\
  forall key, key ∈ keys <-> exists c, m !! key = Some c /\ EventLoop.is_list_peers c = true.
Proof.
  split.
  - eapply sublist_NoDup; [apply (NoDup_map_iter m)|].
    induction (map_iter m) as [|kv l IH]; csimpl; [constructor|].
    destruct (EventLoop.is_list_peers kv.2); csimpl; by constructor.
  - intros key. rewrite list_elem_of_fmap. split.
    + intros ([k c] & -> & Hin). apply list_elem_of_In, filter_In in Hin as [Hin Hl].
      exists c. split; [|done]. by apply elem_of_map_iter, list_elem_of_In.
    + intros (c & Hc & Hl). exists (key, c). split; [done|].
      apply list_elem_of_In, filter_In. split; [|done]. by apply list_elem_of_In, elem_of_map_iter.
Qed.

End Lemmas.
