(* ===== verification/Network.v ===== *)
(** * The client side and the set-up of a node

    [Client] and [new_network] of [src/network/mod.rs], and [handle_input] of
    [src/bin/file-sharing.rs]. *)
From S2P Require Import Prelude Externals FileGetTypes Streams Protocol Handler Behaviour Error Command NetworkTypes EventLoop.

(** What [new_network] calls to build keys, the transport and the behaviours. *)
Class Setup `{Libp2p} : Type := {
  SecretKey : Type;
  SecretKey_from_bytes : list Z -> option SecretKey;
  Keypair : Type;
  Keypair_of_secret : SecretKey -> Keypair;
  (** [Keypair::generate_ed25519], with the randomness it draws *)
  Entropy : Type;
  generate_ed25519 : Entropy -> Keypair;
  to_peer_id : Keypair -> PeerId;
  Transport : Type;
  tokio_development_transport : Keypair -> result Transport IoError;
  with_tokio_executor : Transport -> PeerId -> SwarmCore;
  (** identify with its protocol version and key, ping with its interval, and
      keep-alive *)
  others_new : Str -> Keypair -> Z -> OtherBehaviours;
  rendezvous_new : Keypair -> RendezvousClient;
  (** [RequestResponse::new] with the protocol names it supports *)
  rr_new : list Str -> RequestResponse;
}.

(** Durations in nanoseconds. *)
Definition from_secs (n : Z) : Z := n * 10 ^ 9.

Module Client.
Section Client.
Context `{Libp2p}.

(** [struct Client]; the sender of commands is what [run] reads. *)
Record t : Type := mk { command_request_id_generator : CommandRequestIdGenerator.t }.

(** [Client::new] *)
Definition new : t := mk CommandRequestIdGenerator.default.

(** The line printed for a response. *)
Inductive Printed : Type :=
| Stdout (response : CommandResponse.t)
| Stderr (error : FileSharingError.t).

(** What awaiting the response prints. *)
Definition await_response
    (response : async (result (result CommandResponse.t FileSharingError.t) Canceled)) :
    async Printed :=
  r ← response;
  match r with
  | Err _ => Panicked (str "called `Result::unwrap()` on an `Err` value")
  | Ok (Ok response) => Done (Stdout response)
  | Ok (Err e) => Done (Stderr e)
  end.

(** [send_command]: [response_sender] is the sending half of the channel it
    creates, [response] what awaiting the receiving half comes to. *)
Definition send_command (command : Command.t) (response_sender : CommandSender)
    (response : async (result (result CommandResponse.t FileSharingError.t) Canceled)) (c : t) :
    CommandRequest.t * async Printed * t :=
  let '(id, g) := CommandRequestIdGenerator.next_id (command_request_id_generator c) in
  let command_request := CommandRequest.mk id command response_sender in
  (command_request, await_response response, mk g).

(** [handle_input]: [Err] for a line that is not a command. *)
Definition handle_input (line : Str) (response_sender : CommandSender)
    (response : async (result (result CommandResponse.t FileSharingError.t) Canceled)) (c : t) :
    result (CommandRequest.t * async Printed * t) FileSharingError.t :=
  match from_str line with
  | Ok command => Ok (send_command command response_sender response c)
  | Err e => Err e
  end.
End Client.
End Client.

Section Network.
Context `{Libp2p, Platform, HashOrder, !FileSystem, !Setup}.
Context `{!FuturesUnordered InboundFut InboundOut ChanEnv}.

(** The thirty-two bytes of a seed: [[0u8; 32]] with the first one set. *)
Definition seed_bytes (seed : Z) : list Z := <[0%nat := seed]> (replicate 32 0).

(** The key pair. *)
Definition keypair_of_seed (entropy : Entropy) (secret_key_seed : option Z) : exec Keypair :=
  match secret_key_seed with
  | Some seed =>
      secret_key ← expect (SecretKey_from_bytes (seed_bytes seed))
        (str "Only occur when the length is incorrect, no problem here.");
      Return (Keypair_of_secret secret_key)
  | None => Return (generate_ed25519 entropy)
  end.

(** The swarm [new_network] builds; [arc] is the allocation [FileGet] makes. *)
Definition new_swarm (keypair : Keypair) (transport : Transport) (arc : Arc) (σ : Store) :
    Swarm.t * Store :=
  let local_peer_id := to_peer_id keypair in
  let '(file_get, σ) :=
    FileGet.from_config (FileGetConfig_new (from_secs (60 * 30))) arc σ in
  (Swarm.mk (with_tokio_executor transport local_peer_id)
     (ComposedBehaviour.mk
        (others_new (str "rendezvous-example/1.0.0") keypair (from_secs 1))
        (rendezvous_new keypair)
        (rr_new [ListFilesCodec.protocol_name])
        file_get), σ).

(** [new_network]; the last two arguments are what the swarm yields while
    [init] runs. *)
Definition new_network (rendezvous_point_address : Multiaddr) (secret_key_seed : option Z)
    (sharing_dir : PathBuf) (entropy : Entropy) (arc : Arc) (σ : Store) (fs : FS)
    (listen_events connect_events : list EventLoop.Yield) :
    exec (result Client.t FileSharingError.t * EventLoop.World * Store) :=
  keypair ← keypair_of_seed entropy secret_key_seed;
  transport ← (match tokio_development_transport keypair with
               | Ok transport => Return transport
               | Err _ => Panic (str "called `Result::unwrap()` on an `Err` value")
               end);
  let '(swarm, σ) := new_swarm keypair transport arc σ in
  let client := Client.new in
  let event_loop := EventLoop.new swarm rendezvous_point_address sharing_dir in
  '(r, w) ← EventLoop.init listen_events connect_events (EventLoop.mkWorld event_loop fs []);
  match r with
  | Ok _ => Return (Ok client, w, σ)
  | Err e => Return (Err e, w, σ)
  end.
End Network.
