(* ===== verification/NetworkInstances.v ===== *)
(** * Concrete interfaces of the application

    One implementation of each class of [NetworkTypes.v] and [Network.v], used
    by the witnesses: a namespace is its text, a request of the list-files
    behaviour is numbered from a counter, the swarm accepts everything, and a
    file system maps paths to handles. *)
From S2P Require Import Prelude Externals Instances Streams StreamInstances FileGetTypes Protocol Handler Behaviour Error Command NetworkTypes EventLoop Network.

Section NetworkInstances.
#[local] Existing Instance numExt.

Definition num_namespace (s : Str) : option Str :=
  if bool_decide (length s <= 255)%nat then Some s else None.

Definition numLibp2p : Libp2p := {|
  Namespace := Str;
  Namespace_new := num_namespace;
  Namespace_to_string s := s;
  multiaddr_parse _ := Some (0 : @Multiaddr numExt);
  RendezvousClient := unit;
  rendezvous_register _ _ _ x := x;
  Cookie := unit;
  rendezvous_discover _ _ _ _ x := x;
  ReqResRequestId := Z;
  ResponseChannel := Z;
  RequestResponse := Z;
  rr_send_request _ _ n := (n, n + 1);
  rr_send_response _ _ n := (Ok tt, n);
  OtherBehaviours := unit;
  PingEvent := unit;
  SwarmCore := unit;
  TransportError := unit;
  swarm_dial _ c := (Ok tt, c);
  swarm_listen_on _ c := (Ok tt, c);
  CommandSender := Z;
|}.

Lemma numLibp2p_laws : @Libp2pLaws numExt numLibp2p.
Proof.
  split.
  - intros s n. unfold Namespace_new, numLibp2p, num_namespace. case_bool_decide; [|done].
    by intros [= <-].
  - by eexists.
Qed.

Definition numFileSystem : FileSystem := {|
  FS := gmap Str Z;
  fs_open_create p m :=
    match m !! p with
    | Some h => (Ok (h : @AsyncWrite numExt), m)
    | None => (Ok (Z.of_nat (size m) : @AsyncWrite numExt), <[p := Z.of_nat (size m)]> m)
    end;
  fs_open p m := match m !! p with Some h => Ok (h : @AsyncRead numExt) | None => Err (-4 : @IoError numExt) end;
  DirEntry := Str;
  fs_read_dir _ m := Ok (Ok <$> (map_to_list m).*1);
  entry_is_dir _ _ := false;
  entry_file_name p := p;
|}.

Definition numSetup : @Setup numExt numLibp2p := {|
  SecretKey := list Z;
  SecretKey_from_bytes l := if bool_decide (length l = 32%nat) then Some l else None;
  Keypair := list Z;
  Keypair_of_secret l := l;
  Entropy := list Z;
  generate_ed25519 l := l;
  to_peer_id l := (hd 0 l : @PeerId numExt);
  Transport := unit;
  tokio_development_transport _ := Ok tt;
  with_tokio_executor _ _ := (tt : @SwarmCore numExt numLibp2p);
  others_new _ _ _ := (tt : @OtherBehaviours numExt numLibp2p);
  rendezvous_new _ := (tt : @RendezvousClient numExt numLibp2p);
  rr_new _ := (0 : @RequestResponse numExt numLibp2p);
|}.
End NetworkInstances.
