(* ===== verification/EventLoopProps.v ===== *)
(** * Properties of the event loop

    The functional behaviour of the handlers: the answers to [ls_peers], the
    order of effects of [get@], the paths served to peers, the list of shared
    files, the errors that end the loop, the outcome of the start-up loops,
    and the identifiers of commands. *)
From S2P Require Import Prelude Externals Instances FileGetTypes Streams Protocol Handler Behaviour Error Command CommandProps NetworkTypes EventLoop Network NetworkInstances.
Import EventLoop.

(** ** Paths *)

(** The components of a path, as far as separators go. *)
Definition components (p : PathBuf) : list Str :=
  List.filter nonempty (split_by (fun c => bool_decide (c = slash)) p).

(** A name with a single component. *)
Definition plain_name (f : Str) : Prop := (slash ∉ f) /\ f <> [].

Lemma split_by_app_sep p a c b :
  p c = true -> split_by p (a ++ c :: b) = split_by p a ++ split_by p b.
Proof.
  intros Hc. induction a as [|x a IH]; simpl; [by rewrite Hc|].
  rewrite IH. destruct (p x); [done|]. pose proof (split_by_not_nil p a) as Ha.
  unfold cons_head. by destruct (split_by p a).
Qed.

Lemma components_app_sep a b : components (a ++ slash :: b) = components a ++ components b.
Proof.
  unfold components. rewrite split_by_app_sep by (by apply bool_decide_eq_true).
  apply List.filter_app.
Qed.

Lemma components_plain f : plain_name f -> components f = [f].
Proof.
  intros [Hs Hne]. unfold components.
  assert (split_by (fun c => bool_decide (c = slash)) f = [f]) as ->; [|by destruct f].
  clear Hne. induction f as [|c f IH]; [done|]. simpl.
  rewrite bool_decide_eq_false_2 by set_solver. rewrite IH by set_solver. done.
Qed.

Lemma components_snoc_sep a : components (a ++ [slash]) = components a.
Proof. rewrite components_app_sep. simpl. by rewrite app_nil_r. Qed.

Lemma is_absolute_slash p : is_absolute p = true <-> exists q, p = slash :: q.
Proof.
  destruct p as [|c p]; simpl; [naive_solver|]. rewrite bool_decide_eq_true. naive_solver.
Qed.

(** Joining a relative path appends its components. *)
Lemma components_join dir f :
  is_absolute f = false -> components (path_join dir f) = components dir ++ components f.
Proof.
  intros Hf. unfold path_join, path_push. rewrite Hf. unfold need_sep.
  destruct dir as [|c dir _] using rev_ind; [done|]. rewrite last_snoc.
  case_bool_decide as Hc; simpl.
  - subst c. rewrite components_snoc_sep, <-(assoc_L (++)). simpl. apply components_app_sep.
  - apply components_app_sep.
Qed.

Lemma Permutation_filter {A} (f : A -> bool) (l1 l2 : list A) :
  l1 ≡ₚ l2 -> List.filter f l1 ≡ₚ List.filter f l2.
Proof.
  induction 1 as [|x l1 l2 _ IH|x y l|l1 l2 l3 _ IH1 _ IH2]; simpl; [done| | |by etrans].
  - destruct (f x); by rewrite IH.
  - destruct (f x), (f y); try done. apply perm_swap.
Qed.

Section EventLoopProps.
Context `{Libp2p, Platform, HashOrder, !FileSystem}.
Context `{!FuturesUnordered InboundFut InboundOut ChanEnv}.

(** ** Serving files *)
Lemma on_file_request_unfold m tx w :
  on_file_request m tx w =
    match fs_open (path_join (sharing_dir (loop w)) (file_name m)) (fs w) with
    | Ok rd => Return (Ok tt, mkWorld (loop w) (fs w) (log w ++ [SendReader tx rd]))
    | Err e => Return (Err (FileSharingError.Io e), w)
    end.
Proof.
  unfold on_file_request. run_m. by destruct w as [e f l], (fs_open _ _).
Qed.

(** C18: What a peer that asks for a file is given: the file whose path is the
    name when the name is absolute, whatever directory is shared, so that any
    file the process can read is served; and otherwise the path made of the
    components of the shared directory and those of the name, which is a file
    directly in the shared directory when the name has one component other
    than [..], while [..] components are passed on as they are. *)
Theorem file_request_path m tx w :
  (forall e, is_absolute (file_name m) = true ->
     on_file_request m tx (set_loop e w) =
       match fs_open (file_name m) (fs w) with
       | Ok rd => Return (Ok tt, mkWorld e (fs w) (log w ++ [SendReader tx rd]))
       | Err err => Return (Err (FileSharingError.Io err), set_loop e w)
       end) /\
  (is_absolute (file_name m) = false ->
     exists path,
       components path = components (sharing_dir (loop w)) ++ components (file_name m) /\
       on_file_request m tx w =
         match fs_open path (fs w) with
         | Ok rd => Return (Ok tt, mkWorld (loop w) (fs w) (log w ++ [SendReader tx rd]))
         | Err err => Return (Err (FileSharingError.Io err), w)
         end) /\
  (plain_name (file_name m) ->
     components (path_join (sharing_dir (loop w)) (file_name m)) =
       components (sharing_dir (loop w)) ++ [file_name m]).
Proof.
  split_and!.
  - intros e Ha. rewrite on_file_request_unfold. simpl. unfold path_join, path_push. by rewrite Ha.
  - intros Ha. eexists. split; [by apply components_join|]. by rewrite on_file_request_unfold.
  - intros Hp. rewrite components_join; [by rewrite (components_plain (file_name m))|].
    destruct (is_absolute _) eqn:E; [|done]. apply is_absolute_slash in E as [q Hq].
    destruct Hp as [Hp _]. rewrite Hq in Hp. set_solver.
Qed.

(** ** Listing files *)
Lemma try_collect_oks {A E} (l : list A) : try_collect (E:=E) (Ok <$> l) = Ok l.
Proof. induction l as [|a l IH]; csimpl; [done|]. by rewrite IH. Qed.

Lemma try_filter_oks {A E} (p : A -> bool) (l : list A) :
  try_filter (E:=E) p (Ok <$> l) = Ok <$> List.filter p l.
Proof. induction l as [|a l IH]; csimpl; [done|]. rewrite IH. by destruct (p a). Qed.

Lemma try_collect_err {A E} (l : list A) (e : E) l' :
  try_collect ((Ok <$> l) ++ Err e :: l') = Err e.
Proof. induction l as [|a l IH]; csimpl; [done|]. by rewrite IH. Qed.

Lemma map_ok_oks {A B E} (f : A -> B) (l : list A) :
  map_ok (E:=E) f (Ok <$> l) = Ok <$> (f <$> l).
Proof. unfold map_ok. rewrite <-!list_fmap_compose. by apply list_fmap_ext. Qed.

Lemma on_list_files_request_unfold ch w :
  on_list_files_request ch w =
    match fs_read_dir (sharing_dir (loop w)) (fs w) with
    | Err e => Return (Err (FileSharingError.Io e), w)
    | Ok dir =>
        match try_collect (map_ok entry_file_name
                (try_filter (fun entry => negb (entry_is_dir entry (fs w))) dir)) with
        | Err e => Return (Err (FileSharingError.Io e), w)
        | Ok names =>
            Return (Ok tt, set_loop (set_list_files
              (rr_send_response ch (mkListFilesResponse names)
                 (ComposedBehaviour.list_files (behaviour (loop w)))).2 (loop w)) w)
        end
    end.
Proof.
  unfold on_list_files_request. run_m. destruct w as [e f l]. cbn.
  destruct (fs_read_dir _ _); [|done]. cbn. by destruct (try_collect _).
Qed.

(** C32: A peer that asks for the shared files is sent the names of the entries
    of the shared directory that are not directories, in the order they are
    read; when the directory or one of its entries cannot be read, nothing is
    sent and the event loop ends with that error. *)
Theorem list_files_reply ch w :
  (forall entries, fs_read_dir (sharing_dir (loop w)) (fs w) = Ok (Ok <$> entries) ->
     on_list_files_request ch w = Return (Ok tt, set_loop (set_list_files
       (rr_send_response ch (mkListFilesResponse (entry_file_name <$>
            List.filter (fun entry => negb (entry_is_dir entry (fs w))) entries))
          (ComposedBehaviour.list_files (behaviour (loop w)))).2 (loop w)) w)) /\
  (forall e, fs_read_dir (sharing_dir (loop w)) (fs w) = Err e ->
     on_list_files_request ch w = Return (Err (FileSharingError.Io e), w)) /\
  (forall entries e rest,
     fs_read_dir (sharing_dir (loop w)) (fs w) = Ok ((Ok <$> entries) ++ Err e :: rest) ->
     on_list_files_request ch w = Return (Err (FileSharingError.Io e), w)).
Proof.
  rewrite on_list_files_request_unfold. split_and!.
  - intros entries ->. by rewrite try_filter_oks, map_ok_oks, try_collect_oks.
  - by intros e ->.
  - intros entries e rest ->. unfold try_filter. rewrite List.filter_app. cbn [List.filter].
    fold (try_filter (E:=IoError) (fun entry => negb (entry_is_dir entry (fs w))) (Ok <$> entries)).
    rewrite try_filter_oks. unfold map_ok. rewrite fmap_app. csimpl.
    fold (map_ok (E:=IoError) entry_file_name
      (Ok <$> List.filter (fun entry => negb (entry_is_dir entry (fs w))) entries)).
    by rewrite map_ok_oks, try_collect_err.
Qed.

(** ** Discovered peers *)

(** The peer the last registration with an address gives for a name. *)
Lemma insert_registrations_lookup rs m n :
  insert_registrations rs m !! n =
    match find_first (fun r => bool_decide (Registration.namespace r = n) &&
                               negb (bool_decide (Registration.addresses r = []))) (reverse rs) with
    | Some r => Some (Registration.peer_id r)
    | None => m !! n
    end.
Proof.
  unfold insert_registrations. induction rs as [|r rs IH] using rev_ind; [done|].
  rewrite foldl_app, reverse_app. cbn [foldl]. cbn [reverse]. unfold reverse at 1. cbn [rev_append app find_first].
  assert (forall (l : list Multiaddr) (m : gmap Namespace PeerId),
    foldl (fun m _ => <[Registration.namespace r := Registration.peer_id r]> m) m l =
    match l with [] => m | _ => <[Registration.namespace r := Registration.peer_id r]> m end) as Hin.
  { intros l. induction l as [|a l IHl]; intros m'; [done|]. cbn [foldl]. rewrite IHl.
    destruct l; [done|]. apply insert_insert_eq. }
  rewrite Hin. destruct (Registration.addresses r) as [|a l].
  - rewrite andb_false_r. exact IH.
  - rewrite andb_true_r. case_bool_decide as Hn.
    + rewrite Hn. apply lookup_insert_eq.
    + rewrite lookup_insert_ne by done. exact IH.
Qed.

(** The answer to a [ls_peers] command. *)
Definition peers_response (names : list Str) (c : CommandRequest.t) : Effect :=
  Respond (CommandRequest.response_sender c)
    (Ok (CommandResponse.mk (CommandRequest.command_request_id c) (CommandResult.ListPeers names))).

Definition peer_names (e : t) : list Str :=
  Namespace_to_string <$> (map_iter (namespace_peers e)).*1.

Lemma answer_list_peers_unfold key w :
  answer_list_peers key w =
    Return (Ok tt,
      match pending_command_requests (loop w) !! key with
      | Some c => mkWorld (set_pending_command_requests
                             (delete key (pending_command_requests (loop w))) (loop w))
                    (fs w) (log w ++ [peers_response (peer_names (loop w)) c])
      | None => w
      end).
Proof.
  unfold answer_list_peers. run_m. by destruct (pending_command_requests (loop w) !! key).
Qed.

(** Answering a batch of commands. *)
Lemma answer_all (keys : list Z) w :
  NoDup keys -> (forall key, key ∈ keys -> is_Some (pending_command_requests (loop w) !! key)) ->
  for_each keys answer_list_peers w =
    Return (Ok tt, mkWorld
      (set_pending_command_requests
         (filter (fun kv => kv.1 ∉ keys) (pending_command_requests (loop w))) (loop w))
      (fs w)
      (log w ++ (peers_response (peer_names (loop w)) <$>
         omap (fun key => pending_command_requests (loop w) !! key) keys))).
Proof.
  intros Hnd. revert w. induction Hnd as [|key keys Hkey Hnd IH]; intros w Hall.
  - cbn. rewrite app_nil_r. destruct w as [e f l]. cbn. do 3 f_equal.
    rewrite map_filter_id by (intros; set_solver). by destruct e.
  - destruct (Hall key) as [c Hc]; [set_solver|]. cbn [for_each]. unfold mbind, M_bind.
    set (m := pending_command_requests (loop w)) in *.
    assert (filter (fun kv => kv.1 ∉ keys) (delete key m) = filter (fun kv => kv.1 ∉ key :: keys) m) as Hm.
    { apply map_eq. intros k. apply option_eq. intros c'.
      rewrite !map_lookup_filter_Some, lookup_delete_Some. set_solver. }
    assert (omap (fun k => delete key m !! k) keys = omap (fun k => m !! k) keys) as Ho.
    { clear Hm. revert Hkey. clear -key. induction keys as [|k keys IH]; [done|]. intros Hkey.
      csimpl. rewrite lookup_delete_ne, IH by set_solver. done. }
    rewrite answer_list_peers_unfold. fold m. rewrite Hc, IH.
    + cbn. fold m. rewrite Hc. cbn. by rewrite Hm, Ho, <-(assoc_L (++)).
    + intros k Hk. cbn. fold m. rewrite lookup_delete_ne by set_solver. apply Hall. set_solver.
Qed.

Lemma omap_entries (m : gmap Z CommandRequest.t) (l : list (Z * CommandRequest.t)) :
  (forall kv, kv ∈ l -> m !! kv.1 = Some kv.2) -> omap (fun k => m !! k) l.*1 = l.*2.
Proof.
  induction l as [|[k c] l IH]; intros Hl; [done|]. csimpl.
  assert (m !! k = Some c) as -> by (apply (Hl (k, c)); set_solver).
  rewrite IH by set_solver. done.
Qed.

Lemma filter_snd (l : list (Z * CommandRequest.t)) :
  (List.filter (fun kv => is_list_peers kv.2) l).*2 = List.filter is_list_peers l.*2.
Proof. induction l as [|[k c] l IH]; csimpl; [done|]. destruct (is_list_peers c); csimpl; by rewrite IH. Qed.

(** C21: What a discovery does: the last registration of a namespace with an
    address decides its peer and the other namespaces keep theirs; then
    exactly the waiting [ls_peers] commands are answered, each once and with
    all the names known now, and every other command stays. *)
Theorem discovered_answers_list_peers rs w :
  let pend := pending_command_requests (loop w) in
  let peers := insert_registrations rs (namespace_peers (loop w)) in
  (exists names answered,
     on_discovered rs w = Return (Ok tt, mkWorld
       (set_pending_command_requests (filter (fun kv => is_list_peers kv.2 = false) pend)
          (set_namespace_peers peers (loop w)))
       (fs w) (log w ++ (peers_response names <$> answered))) /\
     answered ≡ₚ List.filter is_list_peers (map_to_list pend).*2 /\
     names ≡ₚ Namespace_to_string <$> (map_to_list peers).*1) /\
  forall n, peers !! n =
    match find_first (fun r => bool_decide (Registration.namespace r = n) &&
                               negb (bool_decide (Registration.addresses r = []))) (reverse rs) with
    | Some r => Some (Registration.peer_id r)
    | None => namespace_peers (loop w) !! n
    end.
Proof.
  intros pend peers. split; [|apply insert_registrations_lookup].
  destruct (to_remove_spec pend) as [Hnd Hkeys].
  set (w1 := set_loop (set_namespace_peers peers (loop w)) w).
  exists (peer_names (loop w1)), (List.filter is_list_peers (map_iter pend).*2). split_and!.
  - unfold on_discovered. unfold mbind, M_bind, modify, get. cbn [loop]. fold peers w1.
    change (pending_command_requests (loop w1)) with pend.
    rewrite answer_all; [|done|].
    + do 2 f_equal. change (pending_command_requests (loop w1)) with pend. f_equal; simpl.
      * f_equal. apply map_eq. intros k. apply option_eq. intros c.
        rewrite !map_lookup_filter_Some. split; intros [Hk Hc]; (split; [done|]); simpl in *.
        -- destruct (is_list_peers c) eqn:E; [|done]. destruct Hc. apply Hkeys. by exists c.
        -- rewrite Hkeys. intros (c' & ? & ?). congruence.
      * do 2 f_equal. rewrite <-filter_snd. apply omap_entries. intros [k c] Hin.
        apply list_elem_of_In, filter_In in Hin as [Hin _].
        by apply elem_of_map_iter, list_elem_of_In.
    + intros k Hk. apply Hkeys in Hk as (c & Hc & _). by exists c.
  - apply Permutation_filter. by rewrite map_iter_perm.
  - unfold peer_names. simpl. by rewrite map_iter_perm.
Qed.

(** ** Getting a file *)

(** C26: [get@] opens the file it will write to before anything else: whatever
    comes of the command, the file system is the one in which the file was
    created.  If that fails the event loop ends with the error; if the user is
    not known the command is answered with [UserNotRegistered] and the created
    file stays; otherwise the request is sent with that file as its writer and
    the command is put aside under its identifier. *)
Theorem get_file_opens_first c g w (Hc : CommandRequest.command c = Command.GetFile g) :
  let id := CommandRequest.command_request_id c in
  let opened := fs_open_create (path_push (sharing_dir (loop w)) (GetFile.file_name g)) (fs w) in
  let peer := get_peer_id (GetFile.user_name g) (loop w) in
  (forall r w', handle_command c w = Return (r, w') -> fs w' = opened.2) /\
  (forall e, opened.1 = Err e ->
     handle_command c w = Return (Err (FileSharingError.Io e), mkWorld (loop w) opened.2 (log w))) /\
  (forall wr, opened.1 = Ok wr -> peer = None ->
     handle_command c w = Return (Ok tt, mkWorld (loop w) opened.2
       (log w ++ [Respond (CommandRequest.response_sender c)
                    (Err (FileSharingError.UserNotRegistered (GetFile.user_name g)))]))) /\
  (forall wr p r s, opened.1 = Ok wr -> peer = Some p ->
     FileGet.send_request p (mkFileGetMessage (GetFile.file_name g)) wr (file_get (loop w)) =
       Return (r, s) ->
     handle_command c w = Return (Ok tt, mkWorld
       (set_pending_file_gets (<[r := id]> (pending_file_gets (loop w)))
          (set_pending_command_requests (<[id := c]> (pending_command_requests (loop w)))
             (set_file_get s (loop w))))
       opened.2 (log w))).
Proof.
  intros id opened peer. unfold handle_command. rewrite Hc. destruct g as [u f]. unfold opened, peer.
  cbn [GetFile.user_name GetFile.file_name]. run_m.
  destruct (fs_open_create _ (fs w)) as [[wr|e] fs']; cbn.
  - destruct (get_peer_id u (loop w)) as [p|]; cbn; (split_and!; try done).
    + intros r w'. destruct (FileGet.send_request _ _ _ _) as [[r' s]|]; cbn; [|done].
      by intros [= <- <-].
    + intros wr' p' r s [= <-] [= <-] Hs. unfold FileGetMessage_new. rewrite Hs. cbn.
      do 4 f_equal. unfold id. rewrite <-Hc. by destruct c.
    + by intros r w' [= <- <-].
  - split_and!; try done; [by intros r w' [= <- <-]|by intros e' [= <-]].
Qed.

(** ** Errors end the loop *)
Lemma for_each_app {A} (l1 l2 : list A) f w :
  for_each (l1 ++ l2) f w =
    match for_each l1 f w with
    | Return (Ok _, w1) => for_each l2 f w1
    | Return (Err e, w1) => Return (Err e, w1)
    | Panic msg => Panic msg
    end.
Proof.
  revert w; induction l1 as [|x l1 IH]; intros w; [done|]. cbn [for_each app]. unfold mbind, M_bind.
  destruct (f x w) as [[[[]|e] w1]|msg]; [apply IH|done..].
Qed.

Lemma run_error xs x rest w w1 e w2 :
  run xs w = Return (Ok tt, w1) -> handle_input x w1 = Return (Err e, w2) ->
  run (xs ++ x :: rest) w = Return (Err e, w2).
Proof.
  intros Hxs Hx. unfold run in *. rewrite for_each_app, Hxs. cbn [for_each].
  unfold mbind, M_bind. by rewrite Hx.
Qed.

(** One bad request ends the node: when, at any point of a run, a peer asks
    for a file that cannot be opened, or the user registers a name that is too
    long, the run returns that error, nothing is answered, and nothing that
    happens afterwards is handled. *)
Theorem bad_request_ends_run xs rest w w1
    (Hrun : run xs w = Return (Ok tt, w1)) :
  (forall s p r m tx e,
     fs_open (path_join (sharing_dir (loop w1)) (file_name m)) (fs w1) = Err e ->
     run (xs ++ SwarmYields (s, SwarmEvent.Behaviour (ComposedEvent.FileGet
            (FileGetEvent.RequestReceived p r m tx))) :: rest) w =
       Return (Err (FileSharingError.Io e), set_loop (set_swarm s (loop w1)) w1)) /\
  (forall c r, CommandRequest.command c = Command.Register r ->
     Namespace_new (Register.user_name r) = None ->
     run (xs ++ CommandRequested c :: rest) w =
       Return (Err FileSharingError.NamespaceTooLong, w1)).
Proof.
  split.
  - intros s p r m tx e He. apply (run_error _ _ _ _ w1); [done|]. unfold handle_input.
    unfold mbind, M_bind, modify. unfold handle_event. rewrite on_file_request_unfold. simpl.
    by rewrite He.
  - intros c r Hc Hn. apply (run_error _ _ _ _ w1); [done|]. simpl. unfold handle_command.
    rewrite Hc. run_m. by rewrite Hn.
Qed.

(** ** Starting up *)
Definition is_listen_event (ev : SwarmEvent.t) : bool :=
  match ev with SwarmEvent.NewListenAddr _ | SwarmEvent.ListenerError => true | _ => false end.

Definition identified_peer (ev : SwarmEvent.t) : option PeerId :=
  match ev with
  | SwarmEvent.Behaviour (ComposedEvent.Identify (IdentifyEvent.Received p)) => Some p
  | _ => None
  end.

Definition is_identified (ev : SwarmEvent.t) : bool := bool_decide (is_Some (identified_peer ev)).

(** The swarm after the events up to the one a loop stops at. *)
Fixpoint swarm_after (stop : SwarmEvent.t -> bool) (events : list Yield) (s : Swarm.t) : Swarm.t :=
  match events with
  | [] => s
  | (s', ev) :: events => if stop ev then s' else swarm_after stop events s'
  end.

(** What the two loops wait for. *)
Definition listened (events : list Yield) : bool :=
  match find_first is_listen_event events.*2 with
  | Some (SwarmEvent.NewListenAddr _) => true
  | _ => false
  end.

Definition identified (events : list Yield) : option PeerId :=
  ev ← find_first is_identified events.*2; identified_peer ev.

Lemma listen_loop_unfold events w :
  listen_loop events w =
    Return (Ok (listened events),
      set_loop (set_swarm (swarm_after is_listen_event events (swarm (loop w))) (loop w)) w).
Proof.
  revert w; induction events as [|[s ev] events IH]; intros w.
  - destruct w as [e f l]. cbn. by destruct e.
  - unfold listened. cbn [listen_loop]. unfold mbind, M_bind, modify.
    destruct ev; cbn; try (rewrite IH; done); done.
Qed.

Lemma connect_loop_unfold events w :
  connect_loop events w =
    Return (Ok tt, set_loop
      (set_rendezvous_point_peer_id
         (match identified events with
          | Some p => Some p
          | None => rendezvous_point_peer_id (loop w)
          end)
         (set_swarm (swarm_after is_identified events (swarm (loop w))) (loop w))) w).
Proof.
  revert w; induction events as [|[s ev] events IH]; intros w.
  - destruct w as [e f l]. cbn. by destruct e.
  - unfold identified. cbn [connect_loop]. unfold mbind, M_bind, modify.
    destruct ev as [[| [p|] | | |]| | |]; cbn; try (rewrite IH; done); done.
Qed.

(** The state of the event loop after [start_listen] succeeded, and what the
    dialling of the rendezvous point comes to there. *)
Definition after_listen (local : Multiaddr) (events : list Yield) (e : t) : t :=
  set_swarm (swarm_after is_listen_event events
    (Swarm.mk (swarm_listen_on local (Swarm.core (swarm e))).2 (behaviour e))) e.

Definition dialled (e : t) : result unit Externals.DialError * SwarmCore :=
  swarm_dial (rendezvous_point_address e) (Swarm.core (swarm e)).

Lemma init_unfold le ce w local :
  multiaddr_parse (str "/ip4/0.0.0.0/tcp/0") = Some local ->
  init le ce w =
    let e1 := after_listen local le (loop w) in
    if listened le then
      let e2 := set_core (dialled e1).2 e1 in
      match (dialled e1).1 with
      | Err err => Return (Err (FileSharingError.DialError err), set_loop e2 w)
      | Ok _ =>
          let e3 := set_rendezvous_point_peer_id
            (match identified ce with Some p => Some p | None => rendezvous_point_peer_id (loop w) end)
            (set_swarm (swarm_after is_identified ce (swarm e2)) e2) in
          Return (match rendezvous_point_peer_id e3 with
                  | Some _ => Ok tt
                  | None => Err FileSharingError.RendezvousPointNotConnected
                  end, set_loop e3 w)
      end
    else Return (Err (FileSharingError.ListenError local), set_loop e1 w).
Proof.
  intros Hl. cbv zeta. unfold init, start_listen. unfold mbind, M_bind. unfold expect_, modify at 1. rewrite Hl.
  rewrite listen_loop_unfold. destruct (listened le); [|done].
  unfold conntect_rendezvous, mbind, M_bind, get, try_, mret, M_ret. fold (dialled (after_listen local le (loop w))).
  cbn -[swarm_after connect_loop]. unfold dialled.
  destruct (swarm_dial _ _) as [[[]|err] core]; cbn -[swarm_after connect_loop]; [|done].
  rewrite connect_loop_unfold. cbn -[swarm_after]. destruct (identified ce); [done|].
  by destruct (rendezvous_point_peer_id (loop w)).
Qed.

(** C24: The outcome of [init] for every sequence of events: it succeeds only
    after the swarm listens, the dial is accepted and some peer has identified
    itself, and then the rendezvous point is the first peer that did, wherever
    it was reached; otherwise the error tells which of the three failed. *)
Theorem init_outcome `{!Libp2pLaws} le ce w (Hnone : rendezvous_point_peer_id (loop w) = None) :
  exists local r w', multiaddr_parse (str "/ip4/0.0.0.0/tcp/0") = Some local /\
    init le ce w = Return (r, w') /\
    (listened le = false -> r = Err (FileSharingError.ListenError local)) /\
    (listened le = true ->
      (forall err, (dialled (after_listen local le (loop w))).1 = Err err ->
         r = Err (FileSharingError.DialError err)) /\
      ((dialled (after_listen local le (loop w))).1 = Ok tt ->
         match identified ce with
         | None => r = Err FileSharingError.RendezvousPointNotConnected
         | Some p => r = Ok tt /\ rendezvous_point_peer_id (loop w') = Some p
         end)).
Proof.
  destruct multiaddr_parse_local as [local Hl]. exists local.
  pose proof (init_unfold le ce w local Hl) as Hi. cbv zeta in Hi. rewrite Hnone in Hi.
  destruct (listened le).
  - destruct (dialled (after_listen local le (loop w))) as [[[]|err] core]; simpl in Hi.
    + eexists _, _. split_and!; [done..|]. intros _. split; [done|]. intros _.
      by destruct (identified ce).
    + eexists _, _. split_and!; [done..|]. intros _. split; [by intros err' [= <-]|done].
  - eexists _, _. split_and!; done.
Qed.
End EventLoopProps.

(** ** Commands of the client *)
Section ClientProps.
Context `{Libp2p}.

(** The requests sent for a sequence of commands. *)
Fixpoint send_all (commands : list (Command.t * CommandSender)) (c : Client.t) :
    list CommandRequest.t :=
  match commands with
  | [] => []
  | (command, tx) :: commands =>
      let '(request, _, c) := Client.send_command command tx Waits c in
      request :: send_all commands c
  end.

Lemma send_all_lookup commands (c : Client.t) n i command tx :
  CommandRequestIdGenerator.counter (Client.command_request_id_generator c) = wrap64 n ->
  commands !! i = Some (command, tx) ->
  send_all commands c !! i = Some (CommandRequest.mk (wrap64 (n + Z.of_nat i)) command tx).
Proof.
  revert c n i; induction commands as [|[command' tx'] commands IH]; intros c n i Hc; [done|].
  destruct i as [|i]; cbn.
  - intros [= -> ->]. rewrite Hc, Z.add_0_r. done.
  - intros Hi. rewrite (IH _ (n + 1)); [|cbn; rewrite Hc, wrap64_add_l; done|done].
    do 3 f_equal. lia.
Qed.

Lemma length_send_all commands (c : Client.t) : length (send_all commands c) = length commands.
Proof. revert c; induction commands as [|[cmd tx] commands IH]; intros c; cbn; auto. Qed.

(** The client numbers the commands of a session from 0 on, so that the
    identifiers of up to 2^64 commands are pairwise distinct; and a client
    whose response channel is dropped, which happens when the event loop ends,
    panics. *)
Theorem command_ids_distinct commands (Hn : Z.of_nat (length commands) <= two64) :
  NoDup (CommandRequest.command_request_id <$> send_all commands Client.new) /\
  (forall i command tx, commands !! i = Some (command, tx) ->
     send_all commands Client.new !! i = Some (CommandRequest.mk (Z.of_nat i) command tx)) /\
  (forall command tx c, exists msg,
     (Client.send_command command tx (Done (Err mkCanceled)) c).1.2 = Panicked msg).
Proof.
  assert (forall i command tx, commands !! i = Some (command, tx) ->
     send_all commands Client.new !! i = Some (CommandRequest.mk (Z.of_nat i) command tx)) as Hi.
  { intros i command tx Hi. rewrite (send_all_lookup _ _ 0 i command tx); [|done..].
    rewrite Z.add_0_l, wrap64_small; [done|]. apply lookup_lt_Some in Hi. lia. }
  split_and!; [|done|by intros; eexists].
  apply NoDup_alt. intros i j id. rewrite !list_lookup_fmap, !fmap_Some.
  intros (c1 & Hc1 & ->) (c2 & Hc2 & Heq).
  assert (forall k ck, send_all commands Client.new !! k = Some ck ->
    CommandRequest.command_request_id ck = Z.of_nat k) as Hid.
  { intros k ck Hk. pose proof (lookup_lt_Some _ _ _ Hk) as Hlt. rewrite length_send_all in Hlt.
    destruct (lookup_lt_is_Some_2 commands k Hlt) as [[command tx] Hcom].
    rewrite (Hi _ _ _ Hcom) in Hk. by injection Hk as <-. }
  rewrite (Hid _ _ Hc1), (Hid _ _ Hc2) in Heq. lia.
Qed.
End ClientProps.

(** * Witnesses *)
Section EventLoopWitnesses.
#[local] Existing Instances numExt numLibp2p release64 canonicalOrder numFileSystem.
#[local] Existing Instance numLibp2p_laws.
#[local] Instance loop_fu : FuturesUnordered InboundFut InboundOut ChanEnv :=
  list_fu Handler.map_ok_inbound.

Definition fresh_swarm : Swarm.t :=
  Swarm.mk (tt : SwarmCore) (ComposedBehaviour.mk (tt : OtherBehaviours) (tt : RendezvousClient)
    (0 : RequestResponse)
    (FileGet.from_config (FileGetConfig_new 5) (mkArc 1) (fun _ => RequestIdGenerator.new)).1).

(** A world before [init], sharing one file. *)
Definition fresh_world : World :=
  mkWorld (EventLoop.new fresh_swarm (0 : Multiaddr) (str "/share"))
    ({[ str "/share/a" := 3 ]} : FS) [].

Definition set_sharing (dir : PathBuf) (e : t) : t :=
  EventLoop.mk (swarm e) (rendezvous_point_address e) (rendezvous_point_peer_id e)
    (namespace_peers e) (pending_command_requests e) (pending_list_files e)
    (pending_file_gets e) dir.

Definition unknown_get : CommandRequest.t :=
  CommandRequest.mk 0 (Command.new_get_file (str "bob") (str "b")) (100 : CommandSender).

(** The file of an unknown user is created all the same. *)
Lemma get_file_opens_first_witness : exists w',
  handle_command unknown_get fresh_world = Return (Ok tt, w') /\
  fs w' = (<[str "/share/b" := 1]> {[ str "/share/a" := 3 ]} : FS).
Proof.
  eexists. split.
  - refine (proj1 (proj2 (proj2 (get_file_opens_first unknown_get
      (GetFile.mk (str "bob") (str "b")) fresh_world eq_refl))) (1 : AsyncWrite) _ _);
      vm_compute; reflexivity.
  - vm_compute. reflexivity.
Defined.

Definition missing_request : Yield :=
  (fresh_swarm, SwarmEvent.Behaviour (ComposedEvent.FileGet (FileGetEvent.RequestReceived
    (7 : PeerId) (mkRequestId 1) (mkFileGetMessage (str "missing")) (0 : ResSender)))).

Lemma bad_request_ends_run_witness :
  run ([] ++ SwarmYields missing_request :: [CommandRequested unknown_get]) fresh_world =
    Return (Err (FileSharingError.Io (-4 : IoError)),
      set_loop (set_swarm fresh_swarm (loop fresh_world)) fresh_world).
Proof.
  refine (proj1 (bad_request_ends_run [] [CommandRequested unknown_get] fresh_world fresh_world
    eq_refl) fresh_swarm (7 : PeerId) (mkRequestId 1) (mkFileGetMessage (str "missing"))
    (0 : ResSender) (-4 : IoError) _).
  vm_compute. reflexivity.
Defined.

Lemma init_outcome_witness : exists local r w',
  multiaddr_parse (str "/ip4/0.0.0.0/tcp/0") = Some local /\
  init [] [] fresh_world = Return (r, w') /\ r = Err (FileSharingError.ListenError local).
Proof.
  destruct (init_outcome [] [] fresh_world eq_refl) as (local & r & w' & Hl & Hi & Hf & _).
  exists local, r, w'. exact (conj Hl (conj Hi (Hf eq_refl))).
Defined.

Definition two_commands : list (Command.t * CommandSender) :=
  [(Command.ListPeers, (100 : CommandSender)); (Command.ListPeers, (101 : CommandSender))].

Lemma command_ids_distinct_witness :
  NoDup (CommandRequest.command_request_id <$> send_all two_commands Client.new).
Proof. refine (proj1 (command_ids_distinct two_commands _)). vm_compute. discriminate. Defined.

(** A peer reads a file outside the shared directory. *)
Lemma file_request_path_witness :
  on_file_request (mkFileGetMessage (str "/share/a")) (0 : ResSender)
    (set_loop (set_sharing (str "/elsewhere") (loop fresh_world)) fresh_world) =
  Return (Ok tt, mkWorld (set_sharing (str "/elsewhere") (loop fresh_world)) (fs fresh_world)
    [SendReader (0 : ResSender) (3 : AsyncRead)]).
Proof.
  exact (proj1 (file_request_path (mkFileGetMessage (str "/share/a")) (0 : ResSender) fresh_world)
    (set_sharing (str "/elsewhere") (loop fresh_world)) eq_refl).
Defined.

Lemma list_files_reply_witness :
  on_list_files_request (0 : ResponseChannel) fresh_world = Return (Ok tt, fresh_world).
Proof.
  exact (proj1 (list_files_reply (0 : ResponseChannel) fresh_world) [str "/share/a"] eq_refl).
Defined.
End EventLoopWitnesses.
