(* ===== verification/System.v ===== *)
(** * A running node

    The user's prompt, the event loop and the [FileGet] behaviour inside its
    swarm, as one executable reaction to what happens next ([react]), the
    conditions under which it happens ([allowed]), and the states a node can
    reach. *)
From S2P Require Import Prelude Externals FileGetTypes Streams Protocol Handler Behaviour Ledger BehaviourLemmas BehaviourTracking BehaviourRefinement Error Command NetworkTypes EventLoop Network.
Import EventLoop.

Section System.
Context `{Libp2p, Platform, HashOrder, !FileSystem}.
Context `{!FuturesUnordered InboundFut InboundOut ChanEnv}.

(** The node, with the commands the user has given so far. *)
Record Sys : Type := mkSys {
  world : World;
  client : Client.t;
  issued : list CommandRequest.t;
}.

Definition senders (l : list CommandRequest.t) : list CommandSender :=
  CommandRequest.response_sender <$> l.

#[export] Instance senders_Permutation : Proper ((≡ₚ) ==> (≡ₚ)) senders.
Proof. intros l1 l2 Hl. unfold senders. by rewrite Hl. Qed.

(** The state of [FileGet] inside a world. *)
Definition world_file_get (w : World) : FileGet.t := file_get (loop w).
Definition set_world_file_get (s : FileGet.t) (w : World) : World :=
  set_loop (set_file_get s (loop w)) w.

(** What can happen next. *)
Inductive Stimulus : Type :=
| UserCommand (command : Command.t) (tx : CommandSender)
| FileGetCall (op : Op)
| FileGetPoll
| SwarmEvented (s : Swarm.t) (event : SwarmEvent.t)
| FilesChange (fs' : FS).

Definition is_file_get_event (event : SwarmEvent.t) : bool :=
  match event with
  | SwarmEvent.Behaviour (ComposedEvent.FileGet _) => true
  | _ => false
  end.

(** The conditions: every command has a channel of its own, and there are
    fewer than 2^64 - 1 commands; the swarm and the handlers keep to the
    contract of [FileGet]; and an event of another behaviour leaves the state
    of [FileGet] alone. *)
Definition allowed (x : Stimulus) (sys : Sys) : Prop :=
  match x with
  | UserCommand _ tx =>
      (tx ∉ senders (issued sys)) /\ Z.of_nat (length (issued sys)) + 1 < two64
  | FileGetCall op =>
      match op with
      | OnSwarmEvent _ | OnHandlerEvent _ _ _ => contract op (world_file_get (world sys))
      | _ => False
      end
  | FileGetPoll => True
  | SwarmEvented s event =>
      is_file_get_event event = false /\
      ComposedBehaviour.file_get (Swarm.behaviour s) = world_file_get (world sys)
  | FilesChange _ => True
  end.

Abbreviation Outcome := (exec (result unit FileSharingError.t * Sys)).

(** Running a handler of the event loop. *)
Definition run_handler (m : M unit) (w : World) (c : Client.t) (l : list CommandRequest.t) : Outcome :=
  '(r, w) ← m w; Return (r, mkSys w c l).

(** The reaction of the node. *)
Definition react (x : Stimulus) (sys : Sys) : Outcome :=
  let w := world sys in
  match x with
  | UserCommand command tx =>
      let '(command_request, _, c) := Client.send_command command tx Waits (client sys) in
      run_handler (handle_input (CommandRequested command_request)) w c
        (issued sys ++ [command_request])
  | FileGetCall op =>
      '(_, s) ← apply_op op (world_file_get w);
      Return (Ok tt, mkSys (set_world_file_get s w) (client sys) (issued sys))
  | FileGetPoll =>
      match FileGet.poll (world_file_get w) with
      | (Ready (FileGet.GenerateEvent event), s) =>
          run_handler (handle_input (SwarmYields
              (swarm (loop (set_world_file_get s w)),
               SwarmEvent.Behaviour (ComposedEvent.from event)))) w (client sys) (issued sys)
      | (_, s) => Return (Ok tt, mkSys (set_world_file_get s w) (client sys) (issued sys))
      end
  | SwarmEvented s event =>
      run_handler (handle_input (SwarmYields (s, event))) w (client sys) (issued sys)
  | FilesChange fs' =>
      Return (Ok tt, mkSys (mkWorld (loop w) fs' (log w)) (client sys) (issued sys))
  end.

(** A node that has just been set up. *)
Record initial (sys : Sys) : Prop := {
  initial_client : client sys = Client.new;
  initial_issued : issued sys = [];
  initial_log : log (world sys) = [];
  initial_peer : is_Some (rendezvous_point_peer_id (loop (world sys)));
  initial_pending : pending_command_requests (loop (world sys)) = ∅;
  initial_lists : pending_list_files (loop (world sys)) = ∅;
  initial_gets : pending_file_gets (loop (world sys)) = ∅;
  initial_file_get : exists cfg a σ ops out,
    BehaviourRefinement.run (FileGet.from_config cfg a σ).1 ops out (world_file_get (world sys)) /\ sends ops = 0;
}.

(** The states the event loop gets to while it runs without an error. *)
Inductive steps : Sys -> Sys -> Prop :=
| steps_refl sys : steps sys sys
| steps_next sys1 sys2 sys3 x :
    steps sys1 sys2 -> allowed x sys2 -> react x sys2 = Return (Ok tt, sys3) ->
    steps sys1 sys3.

Definition reachable (sys : Sys) : Prop := exists sys0, initial sys0 /\ steps sys0 sys.

(** ** Accounts of commands *)

(** The channels that were answered, in order. *)
Definition responded (l : list Effect) : list CommandSender :=
  omap (fun x => match x with Respond tx _ => Some tx | SendReader _ _ => None end) l.

(** The commands waiting for an answer. *)
Definition waiting (w : World) : list CommandRequest.t :=
  (map_to_list (pending_command_requests (loop w))).*2.

(** [r] is an answer to [c]: it carries its identifier and is of its kind, or
    it is the failure to find the user [c] names. *)
Definition answers (c : CommandRequest.t) (r : result CommandResponse.t FileSharingError.t) : Prop :=
  match r with
  | Ok response =>
      CommandResponse.command_request_id response = CommandRequest.command_request_id c /\
      match CommandRequest.command c, CommandResponse.result response with
      | Command.Register _, CommandResult.Register => True
      | Command.ListPeers, CommandResult.ListPeers _ => True
      | Command.ListFiles _, CommandResult.ListFiles _ => True
      | Command.GetFile g, CommandResult.GetFile u f =>
          u = GetFile.user_name g /\ f = GetFile.file_name g
      | _, _ => False
      end
  | Err e =>
      match CommandRequest.command c with
      | Command.ListFiles l => e = FileSharingError.UserNotRegistered (ListFiles.user_name l)
      | Command.GetFile g => e = FileSharingError.UserNotRegistered (GetFile.user_name g)
      | _ => False
      end
  end.
End System.
