(* ===== verification/SystemInvariant.v ===== *)
(** * The invariant of a running node

    How the commands waiting for an answer, the requests of [FileGet] and the
    answers given so far hang together, and that every change the event loop
    makes keeps it.  The changes are stated on the parts of the state they
    touch, so that every handler is a composition of a few of them. *)
From S2P Require Import Prelude Externals FileGetTypes Streams Protocol Handler Behaviour Ledger BehaviourLemmas BehaviourTracking BehaviourRefinement Error Command NetworkTypes EventLoop Network System.
Import EventLoop.

Section Invariant.
Context `{Libp2p, Platform, HashOrder, !FileSystem}.
Context `{!FuturesUnordered InboundFut InboundOut ChanEnv}.

(** File requests that will never be answered, with their commands. *)
Context (stuck : list (RequestId * Z * CommandRequest.t)).

(** [issued]: the commands given; [L]: the ledger of [FileGet]; [D]: the
    responses of [FileGet] handled so far; then the state of [FileGet], the
    three pending maps and the log. *)
Record inv (issued : list CommandRequest.t) (L : Ledger.t) (D : list RequestId)
    (fg : FileGet.t) (pend : gmap Z CommandRequest.t) (lists : gmap ReqResRequestId Z)
    (gets : gmap RequestId Z) (log : list Effect) : Prop := {
  inv_sim : sim fg L;
  inv_responses : D ++ responses (FileGet.pending_events fg).(vd_items) =
    omap response_of (Ledger.finished L).*2;
  inv_next : Ledger.next L <= 1 + Z.of_nat (length issued);
  inv_issued i c : issued !! i = Some c -> CommandRequest.command_request_id c = Z.of_nat i;
  inv_senders : NoDup (senders issued);
  inv_pending k c : pend !! k = Some c -> c ∈ issued /\ CommandRequest.command_request_id c = k;
  inv_gets r k : gets !! r = Some k ->
    (1 <= request_id_0 r < Ledger.next L) /\ (r ∉ D) /\
    exists c g, pend !! k = Some c /\ CommandRequest.command c = Command.GetFile g;
  inv_gets_all r : 1 <= request_id_0 r < Ledger.next L -> r ∉ D -> is_Some (gets !! r);
  inv_gets_inj r1 r2 k : gets !! r1 = Some k -> gets !! r2 = Some k -> r1 = r2;
  inv_lists q k : lists !! q = Some k -> k < Z.of_nat (length issued) /\
    forall c, pend !! k = Some c -> exists l, CommandRequest.command c = Command.ListFiles l;
  inv_log : responded log ++ senders (map_to_list pend).*2 ≡ₚ senders issued;
  inv_answers tx r : Respond tx r ∈ log ->
    exists c, c ∈ issued /\ CommandRequest.response_sender c = tx /\ answers c r;
  inv_stuck r k c : (r, k, c) ∈ stuck ->
    gets !! r = Some k /\ pend !! k = Some c /\ r ∈ (Ledger.finished L).*1 /\
    (r ∉ responses (queued fg));
}.

Implicit Types (issued : list CommandRequest.t) (fg : FileGet.t).

(** The next command. *)
Definition fresh issued (c : CommandRequest.t) : Prop :=
  CommandRequest.command_request_id c = Z.of_nat (length issued) /\
  CommandRequest.response_sender c ∉ senders issued.

Lemma responded_app l1 l2 : responded (l1 ++ l2) = responded l1 ++ responded l2.
Proof. apply omap_app. Qed.

Lemma senders_app l1 l2 : senders (l1 ++ l2) = senders l1 ++ senders l2.
Proof. apply fmap_app. Qed.

Lemma issued_id issued L D fg pend lists gets log c :
  inv issued L D fg pend lists gets log -> c ∈ issued ->
  CommandRequest.command_request_id c < Z.of_nat (length issued).
Proof.
  intros Hi [i Hc]%list_elem_of_lookup. rewrite (inv_issued _ _ _ _ _ _ _ _ Hi i c Hc).
  apply lookup_lt_Some in Hc. lia.
Qed.

Lemma pending_fresh issued L D fg pend lists gets log c :
  inv issued L D fg pend lists gets log -> fresh issued c ->
  pend !! CommandRequest.command_request_id c = None.
Proof.
  intros Hi [Hid _]. destruct (pend !! _) as [c'|] eqn:E; [|done].
  apply (inv_pending _ _ _ _ _ _ _ _ Hi) in E as [Hin Hk].
  pose proof (issued_id _ _ _ _ _ _ _ _ _ Hi Hin). lia.
Qed.

(** Facts about [issued] after a fresh command. *)
Lemma issued_snoc issued c i c' :
  (forall i c, issued !! i = Some c -> CommandRequest.command_request_id c = Z.of_nat i) ->
  fresh issued c -> (issued ++ [c]) !! i = Some c' ->
  CommandRequest.command_request_id c' = Z.of_nat i.
Proof.
  intros Hi [Hid _] Hc'. apply lookup_app_Some in Hc' as [Hc'|[Hlen Hc']]; [by apply Hi|].
  apply list_lookup_singleton_Some in Hc' as [Hlen' <-]. rewrite Hid. f_equal. lia.
Qed.

Lemma senders_snoc issued c :
  NoDup (senders issued) -> fresh issued c -> NoDup (senders (issued ++ [c])).
Proof.
  intros Hnd [_ Htx]. rewrite senders_app. apply NoDup_app. split_and!; [done| |apply NoDup_singleton].
  intros tx Hin ->%list_elem_of_singleton. done.
Qed.

(** ** Moves *)

(** A new command is answered at once. *)
Lemma inv_respond issued L D fg pend lists gets log c r :
  inv issued L D fg pend lists gets log -> fresh issued c -> answers c r ->
  inv (issued ++ [c]) L D fg pend lists gets
    (log ++ [Respond (CommandRequest.response_sender c) r]).
Proof.
  intros Hi Hc Hr. pose proof Hi as [Hsim Hres Hn Hiss Hs Hp Hg Hga Hgi Hl Hlog Ha Hst].
  split; try done.
  - rewrite length_app. simpl. lia.
  - intros i c'. by apply issued_snoc.
  - by apply senders_snoc.
  - intros k c' Hk. destruct (Hp k c' Hk). split; [set_solver|done].
  - intros q k Hk. destruct (Hl q k Hk). split; [rewrite length_app; simpl; lia|done].
  - rewrite responded_app, senders_app. simpl. rewrite <-Hlog. solve_Permutation.
  - intros tx r'. rewrite elem_of_app, list_elem_of_singleton.
    intros [Hin|[= -> ->]].
    + destruct (Ha tx r' Hin) as (c' & Hc' & ? & ?). exists c'. set_solver.
    + exists c. set_solver.
Qed.

(** A new command is put aside. *)
Lemma inv_park issued L D fg pend lists gets log c :
  inv issued L D fg pend lists gets log -> fresh issued c ->
  inv (issued ++ [c]) L D fg (<[CommandRequest.command_request_id c := c]> pend) lists gets log.
Proof.
  intros Hi Hc. pose proof (pending_fresh _ _ _ _ _ _ _ _ _ Hi Hc) as Hnone.
  pose proof Hi as [Hsim Hres Hn Hiss Hs Hp Hg Hga Hgi Hl Hlog Ha Hst].
  split; try done.
  - rewrite length_app. simpl. lia.
  - intros i c'. by apply issued_snoc.
  - by apply senders_snoc.
  - intros k c'. rewrite lookup_insert_Some. intros [[<- <-]|[_ Hk]]; [set_solver|].
    destruct (Hp k c' Hk). set_solver.
  - intros r k Hk. destruct (Hg r k Hk) as (? & ? & c' & g & Hc' & Hg').
    refine (conj _ (conj _ _)); [done..|]. exists c', g. rewrite lookup_insert_ne by congruence. done.
  - intros q k Hk. destruct (Hl q k Hk) as [Hlt Hk']. split; [rewrite length_app; simpl; lia|].
    destruct Hc as [Hid _]. rewrite lookup_insert_ne by lia. done.
  - rewrite map_to_list_insert by done. rewrite senders_app. simpl. rewrite <-Hlog.
    solve_Permutation.
  - intros tx r Hin. destruct (Ha tx r Hin) as (c' & ? & ? & ?). exists c'. set_solver.
  - intros r k c' Hin. destruct (Hst r k c' Hin) as (? & Hk & ? & ?).
    split_and!; [done| |done..]. rewrite lookup_insert_ne; [done|]. congruence.
Qed.

(** A list-files request is noted for a pending command. *)
Lemma inv_note_list issued L D fg pend lists gets log c q l :
  inv issued L D fg pend lists gets log ->
  pend !! CommandRequest.command_request_id c = Some c ->
  CommandRequest.command c = Command.ListFiles l ->
  inv issued L D fg pend (<[q := CommandRequest.command_request_id c]> lists) gets log.
Proof.
  intros Hi Hc Hl'. pose proof Hi as [Hsim Hres Hn Hiss Hs Hp Hg Hga Hgi Hl Hlog Ha Hst].
  split; try done. intros q' k. rewrite lookup_insert_Some. intros [[<- <-]|[_ Hk]]; [|by apply (Hl q')].
  split; [|naive_solver]. eapply issued_id; [done|]. by destruct (Hp _ c Hc).
Qed.

Lemma inv_forget_list issued L D fg pend lists gets log q :
  inv issued L D fg pend lists gets log ->
  inv issued L D fg pend (delete q lists) gets log.
Proof.
  intros [Hsim Hres Hn Hiss Hs Hp Hg Hga Hgi Hl Hlog Ha Hst]. split; try done.
  intros q' k. rewrite lookup_delete_Some. intros [_ Hk]. by apply (Hl q').
Qed.

(** A pending command is answered. *)
Lemma inv_finish issued L D fg pend lists gets log k c r :
  inv issued L D fg pend lists gets log -> pend !! k = Some c -> answers c r ->
  (forall r, gets !! r <> Some k) ->
  inv issued L D fg (delete k pend) lists gets
    (log ++ [Respond (CommandRequest.response_sender c) r]).
Proof.
  intros [Hsim Hres Hn Hiss Hs Hp Hg Hga Hgi Hl Hlog Ha Hst] Hk Hr Hnk. split; try done.
  - intros k' c'. rewrite lookup_delete_Some. intros [_ ?]. by apply Hp.
  - intros r' k' Hr'. destruct (Hg r' k' Hr') as (? & ? & c' & g & ? & ?).
    refine (conj _ (conj _ _)); [done..|]. exists c', g. rewrite lookup_delete_ne; [done|].
    intros ->. by destruct (Hnk r').
  - intros q k' Hq. destruct (Hl q k' Hq) as [? Hl']. split; [done|].
    intros c'. rewrite lookup_delete_Some. naive_solver.
  - rewrite <-Hlog, <-(map_to_list_delete pend k c), responded_app by done. simpl.
    solve_Permutation.
  - intros tx r'. rewrite elem_of_app, list_elem_of_singleton. intros [?|[= -> ->]]; [by apply Ha|].
    exists c. split_and!; [by destruct (Hp k c Hk)|done..].
  - intros r' k' c' Hin. destruct (Hst r' k' c' Hin) as (Hr' & ? & ? & ?).
    split_and!; [done| |done..]. rewrite lookup_delete_ne; [done|]. intros ->. by destruct (Hnk r').
Qed.

(** Anything but an answer goes to the log. *)
Lemma inv_log_reader issued L D fg pend lists gets log tx rd :
  inv issued L D fg pend lists gets log ->
  inv issued L D fg pend lists gets (log ++ [SendReader tx rd]).
Proof.
  intros [Hsim Hres Hn Hiss Hs Hp Hg Hga Hgi Hl Hlog Ha Hst]. split; try done.
  - rewrite responded_app. simpl. by rewrite app_nil_r.
  - intros tx' r. rewrite elem_of_app, list_elem_of_singleton. intros [?|?]; [by apply Ha|done].
Qed.

(** ** Moves of [FileGet] *)

(** A stuck request is not answered by what a call reports. *)
Lemma stuck_simulated op fg L out fg' L' acts fin r :
  sim fg L -> simulated op fg L out fg' L' acts fin ->
  r ∈ (Ledger.finished L).*1 -> r ∉ responses (queued fg) ->
  r ∈ (Ledger.finished L').*1 /\ (r ∉ responses out) /\ (r ∉ responses (queued fg')).
Proof.
  intros Hsim (_ & Hq & _ & Hsim' & _ & Hf & _ & Hr) Hin Hnq.
  assert (r ∉ responses acts) as Hacts.
  { rewrite Hr. intros Hev. pose proof (sim_ledger _ _ Hsim') as HL.
    apply Ledger.omap_about_elem in Hev; [| |by intros [] ? [= ->]].
    - pose proof (Ledger.wf_once _ HL) as Hnd. rewrite Hf, fmap_app in Hnd.
      apply NoDup_app in Hnd as (_ & Hnd & _). by apply (Hnd r).
    - intros r' ev Hin'. apply (Ledger.wf_about _ HL). rewrite Hf. apply elem_of_app. by right. }
  apply (f_equal responses) in Hq. rewrite !responses_app in Hq.
  assert (r ∉ responses out ++ responses (queued fg')) as Hno by (rewrite Hq; set_solver).
  rewrite Hf, fmap_app. set_solver.
Qed.

(** A call of the swarm: the responses it returns are handled, which takes
    their entries away. *)
Lemma inv_file_get issued L D fg pend lists gets gets' log op out fg' L' acts fin :
  inv issued L D fg pend lists gets log ->
  match op with SendRequest _ _ _ => False | _ => True end ->
  simulated op fg L out fg' L' acts fin ->
  (forall r, gets' !! r = if decide (r ∈ responses out) then None else gets !! r) ->
  inv issued L' (D ++ responses out) fg' pend lists gets' log.
Proof.
  intros [Hsim Hres Hn Hiss Hs Hp Hg Hga Hgi Hl Hlog Ha Hst] Hop
    (Happ & Hq & Hstep & Hsim' & Hn' & Hf & Hin & Hr) Hgets.
  assert (Ledger.next L' = Ledger.next L) as HnL by (destruct op; [done|lia..]).
  split; try done.
  - rewrite Hf, fmap_app, omap_app, <-Hr, <-Hres, <-!(assoc_L (++)). f_equal.
    rewrite <-!responses_app. f_equal. exact Hq.
  - lia.
  - intros r k. rewrite Hgets. case_decide; [done|]. intros Hk.
    destruct (Hg r k Hk) as (? & ? & ?). split_and!; [lia|lia| |done]. rewrite elem_of_app. tauto.
  - intros r Hr1. rewrite elem_of_app, Hgets. intros Hr2. rewrite decide_False by tauto.
    apply Hga; [lia|tauto].
  - intros r1 r2 k. rewrite !Hgets. repeat case_decide; try done. apply Hgi.
  - intros r k c Hin'. destruct (Hst r k c Hin') as (? & ? & Hfin & Hnq).
    destruct (stuck_simulated op fg L out fg' L' acts fin r) as (? & ? & ?); [done..|].
    split_and!; [|done..]. rewrite Hgets. by rewrite decide_False.
Qed.

(** Sending a request for a new command. *)
Lemma inv_send issued L D fg pend lists gets log p rq wr fg' L' acts fin c g :
  inv issued L D fg pend lists gets log -> fresh issued c ->
  CommandRequest.command c = Command.GetFile g ->
  simulated (SendRequest p rq wr) fg L [] fg' L' acts fin ->
  inv (issued ++ [c]) L' D fg' (<[CommandRequest.command_request_id c := c]> pend) lists
    (<[mkRequestId (Ledger.next L) := CommandRequest.command_request_id c]> gets) log.
Proof.
  intros Hi Hc Hcg (Happ & Hq & Hstep & Hsim' & Hn' & Hf & Hin & Hr).
  pose proof (inv_park _ _ _ _ _ _ _ _ _ Hi Hc) as Hi'.
  pose proof (Ledger.wf_next _ (sim_ledger _ _ (inv_sim _ _ _ _ _ _ _ _ Hi))) as Hnx.
  pose proof (pending_fresh _ _ _ _ _ _ _ _ _ Hi Hc) as Hnone.
  pose proof (inv_next _ _ _ _ _ _ _ _ Hi) as Hnext.
  pose proof (inv_responses _ _ _ _ _ _ _ _ Hi) as Hres0.
  pose proof (inv_gets _ _ _ _ _ _ _ _ Hi) as Hg0.
  assert (simulated (SendRequest p rq wr) fg L [] fg' L' acts fin) as Hsimu by done.
  destruct Hi' as [Hsim Hres Hn Hiss Hs Hp Hg Hga Hgi Hl Hlog Ha Hst].
  assert (mkRequestId (Ledger.next L) ∉ D) as HD.
  { intros HinD. assert (mkRequestId (Ledger.next L) ∈ omap response_of (Ledger.finished L).*2) as Ho.
    { rewrite <-Hres0. set_solver. }
    apply Ledger.omap_about_elem in Ho; [|apply Hsim|by intros [] ? [= ->]].
    pose proof (proj2 (Ledger.wf_issued _ (sim_ledger _ _ Hsim) _) (or_intror Ho)). simpl in *. lia. }
  split; try done.
  - rewrite Hf, fmap_app, omap_app, <-Hr, <-Hres, <-!(assoc_L (++)). f_equal.
    rewrite <-responses_app. f_equal. exact Hq.
  - rewrite length_app. simpl. lia.
  - intros r k. rewrite lookup_insert_Some. intros [[<- <-]|[Hne Hk]].
    + simpl. split_and!; [lia|lia|done|]. exists c, g. by rewrite lookup_insert_eq.
    + destruct (Hg r k Hk) as (? & ? & ?). split_and!; [lia|lia|done|done].
  - intros [n] Hn1 Hn2. simpl in Hn1. destruct (decide (n = Ledger.next L)) as [->|].
    + rewrite lookup_insert_eq. by eexists.
    + rewrite lookup_insert_ne by congruence. apply Hga; [simpl; lia|done].
  - intros r1 r2 k. rewrite !lookup_insert_Some.
    assert (forall r, gets !! r <> Some (CommandRequest.command_request_id c)) as Hno.
    { intros r Hr'. destruct (Hg0 _ _ Hr') as (_ & _ & c' & g' & Hc' & _). congruence. }
    naive_solver.
  - intros r k c' Hin'. destruct (Hst r k c' Hin') as (Hr' & ? & Hfin & Hnq).
    destruct (stuck_simulated (SendRequest p rq wr) fg L [] fg' L' acts fin r) as (? & _ & ?);
      [done..|]. split_and!; [|done..]. rewrite lookup_insert_ne; [done|]. intros <-.
    pose proof (proj2 (Ledger.wf_issued _ (sim_ledger _ _ Hsim) _) (or_intror Hfin)). simpl in *. lia.
Qed.
End Invariant.
