(* ===== verification/SystemSteps.v ===== *)
(** * Every reaction of a node keeps the invariant

    The handlers of the event loop as compositions of the moves of
    [SystemInvariant.v], and from there the invariant of every reachable
    state. *)
From S2P Require Import Prelude Externals FileGetTypes Streams Protocol Handler Behaviour Ledger BehaviourLemmas BehaviourTracking BehaviourRefinement Error Command NetworkTypes EventLoop Network System SystemInvariant.
Import EventLoop.

Section Steps.
Context `{Libp2p, Platform, HashOrder, !FileSystem}.
Context `{!FuturesUnordered InboundFut InboundOut ChanEnv}.
Context (stuck : list (RequestId * Z * CommandRequest.t)).

Definition inv_world (issued : list CommandRequest.t) (L : Ledger.t) (D : list RequestId)
    (w : World) : Prop :=
  is_Some (rendezvous_point_peer_id (loop w)) /\
  inv stuck issued L D (world_file_get w) (pending_command_requests (loop w))
    (pending_list_files (loop w)) (pending_file_gets (loop w)) (log w).

(** A handler does not panic and, unless it fails, keeps the invariant. *)
Definition keeps (issued : list CommandRequest.t) (D : list RequestId)
    (res : exec (result unit FileSharingError.t * World)) : Prop :=
  match res with
  | Return (Ok _, w') => exists L, inv_world issued L D w'
  | Return (Err _, _) => True
  | Panic _ => False
  end.

Lemma command_eta (c : CommandRequest.t) :
  CommandRequest.mk (CommandRequest.command_request_id c) (CommandRequest.command c)
    (CommandRequest.response_sender c) = c.
Proof. by destruct c. Qed.

(** ** Commands *)
Lemma register_keeps issued L D w c r :
  inv_world issued L D w -> fresh issued c -> CommandRequest.command c = Command.Register r ->
  keeps (issued ++ [c]) D (handle_command c w).
Proof.
  intros [[p Hp] Hi] Hc Hr. unfold handle_command. rewrite Hr. run_m.
  destruct (Namespace_new (Register.user_name r)); run_m; [|done].
  rewrite Hp. run_m. exists L. split; cbn; [by eexists|].
  apply (inv_respond _ _ _ _ _ _ _ _ _ c); [done..|]. split; [done|]. by rewrite Hr.
Qed.

Lemma list_peers_keeps issued L D w c :
  inv_world issued L D w -> fresh issued c -> CommandRequest.command c = Command.ListPeers ->
  keeps (issued ++ [c]) D (handle_command c w).
Proof.
  intros [[p Hp] Hi] Hc Hr. unfold handle_command. rewrite Hr. run_m. rewrite Hp. run_m.
  exists L. split; cbn; [by eexists|]. rewrite <-Hr, command_eta. by apply inv_park.
Qed.

Lemma list_files_keeps issued L D w c l :
  inv_world issued L D w -> fresh issued c -> CommandRequest.command c = Command.ListFiles l ->
  keeps (issued ++ [c]) D (handle_command c w).
Proof.
  intros [[p Hp] Hi] Hc Hr. unfold handle_command. rewrite Hr. destruct l as [u]. run_m.
  destruct (get_peer_id u (loop w)) as [peer|].
  - destruct (rr_send_request _ _ _) as [q rr]. run_m. exists L. split; cbn; [by eexists|].
    rewrite <-Hr, command_eta. eapply inv_note_list; [by apply inv_park|by rewrite lookup_insert_eq|done].
  - run_m. exists L. split; cbn; [by eexists|].
    apply (inv_respond _ _ _ _ _ _ _ _ _ c); [done..|]. unfold answers. by rewrite Hr.
Qed.

Lemma send_request_id p rq wr (s : FileGet.t) :
  match FileGet.send_request p rq wr s with
  | Return (r, _) => r = (RequestIdGenerator.next_id (FileGet.requset_id_generator s)).1
  | Panic _ => True
  end.
Proof.
  unfold FileGet.send_request. cbv zeta. destruct (RequestIdGenerator.next_id _) as [r g].
  destruct (FileGet.try_send_request _ _ _) as [[back s']|]; done.
Qed.

Lemma get_file_keeps issued L D w c g :
  inv_world issued L D w -> fresh issued c -> Z.of_nat (length issued) + 1 < two64 ->
  CommandRequest.command c = Command.GetFile g ->
  keeps (issued ++ [c]) D (handle_command c w).
Proof.
  intros [[p Hp] Hi] Hc Hlt Hr. unfold handle_command. rewrite Hr. destruct g as [u f]. run_m.
  destruct (fs_open_create _ (fs w)) as [[wr|e] fs']; run_m; [|done].
  destruct (get_peer_id u (loop w)) as [peer|].
  - pose proof (inv_sim _ _ _ _ _ _ _ _ _ Hi) as Hsim.
    pose proof (inv_next _ _ _ _ _ _ _ _ _ Hi) as Hnx.
    pose proof (Ledger.wf_next _ (sim_ledger _ _ Hsim)) as Hwf.
    assert (RequestIdGenerator.counter (FileGet.requset_id_generator (world_file_get w)) <> 0) as Hcon.
    { rewrite (sim_counter _ _ Hsim), wrap64_small by lia. lia. }
    destruct (sim_next_id _ _ Hsim Hcon) as [_ Hid].
    destruct (simulate_op (SendRequest peer (FileGetMessage_new f) wr) _ _ Hsim Hcon)
      as (out & fg' & L' & acts & fin & Hs).
    pose proof Hs as (Happ & _). unfold apply_op in Happ.
    assert (exists r, FileGet.send_request peer (FileGetMessage_new f) wr (world_file_get w) =
              Return (r, fg') /\ out = [] /\ r = mkRequestId (Ledger.next L)) as (r & Hsend & -> & ->).
    { pose proof (send_request_id peer (FileGetMessage_new f) wr (world_file_get w)) as Hsid.
      destruct (FileGet.send_request _ _ _ _) as [[r s]|]; [|done].
      cbn in Happ. injection Happ as <- <-. exists r. rewrite Hid in Hsid. done. }
    cbn. unfold world_file_get in Hsend. rewrite Hsend. cbn. exists L'.
    split; cbn; [by eexists|]. rewrite <-Hr, command_eta. by eapply inv_send.
  - run_m. exists L. split; cbn; [by eexists|].
    apply (inv_respond _ _ _ _ _ _ _ _ _ c); [done..|]. unfold answers. by rewrite Hr.
Qed.

Lemma handle_command_keeps issued L D w c :
  inv_world issued L D w -> fresh issued c -> Z.of_nat (length issued) + 1 < two64 ->
  keeps (issued ++ [c]) D (handle_command c w).
Proof.
  intros. destruct (CommandRequest.command c) eqn:E;
    eauto using register_keeps, list_peers_keeps, list_files_keeps, get_file_keeps.
Qed.

(** ** Events of the other behaviours *)
Lemma answer_list_peers_keeps issued L D w key c :
  inv_world issued L D w -> pending_command_requests (loop w) !! key = Some c ->
  is_list_peers c = true ->
  exists w', answer_list_peers key w = Return (Ok tt, w') /\ inv_world issued L D w' /\
    pending_command_requests (loop w') = delete key (pending_command_requests (loop w)).
Proof.
  intros [Hp Hi] Hk Hl. unfold answer_list_peers. run_m. rewrite Hk. run_m.
  eexists. split; [done|]. split; [|done]. split; [done|]. run_m.
  unfold is_list_peers in Hl. destruct (CommandRequest.command c) eqn:Hc; try done.
  apply inv_finish; [done..| |].
  - split; [done|]. by rewrite Hc.
  - intros r Hr. destruct (inv_gets _ _ _ _ _ _ _ _ _ Hi r key Hr) as (_ & _ & c' & g & Hc' & Hg).
    congruence.
Qed.

Lemma answer_all_keeps issued L D keys w :
  inv_world issued L D w -> NoDup keys ->
  (forall key, key ∈ keys -> exists c,
     pending_command_requests (loop w) !! key = Some c /\ is_list_peers c = true) ->
  keeps issued D (for_each keys answer_list_peers w).
Proof.
  intros Hi Hnd. revert w Hi. induction Hnd as [|key keys Hkey Hnd IH]; intros w Hi Hall.
  - by exists L.
  - destruct (Hall key) as (c & Hc & Hl); [set_solver|].
    destruct (answer_list_peers_keeps _ _ _ _ _ _ Hi Hc Hl) as (w' & Hw & Hi' & Hpend).
    simpl. run_m. rewrite Hw. apply IH; [done|].
    intros k Hk. rewrite Hpend, lookup_delete_ne by set_solver. set_solver.
Qed.

Lemma on_discovered_keeps issued L D w rs :
  inv_world issued L D w -> keeps issued D (on_discovered rs w).
Proof.
  intros Hi. unfold on_discovered. run_m.
  destruct (to_remove_spec (pending_command_requests (loop w))) as [Hnd Hkeys].
  apply (answer_all_keeps _ L); [by destruct Hi|done|]. intros key. by rewrite Hkeys.
Qed.

Lemma on_list_files_request_keeps issued L D w ch :
  inv_world issued L D w -> keeps issued D (on_list_files_request ch w).
Proof.
  intros Hi. unfold on_list_files_request. run_m.
  destruct (fs_read_dir _ _) as [dir|e]; run_m; [|done].
  destruct (try_collect _) as [names|e]; run_m; [|done]. exists L. by destruct Hi.
Qed.

Lemma on_list_files_response_keeps issued L D w q response :
  inv_world issued L D w -> keeps issued D (on_list_files_response q response w).
Proof.
  intros [Hp Hi]. unfold on_list_files_response. run_m.
  destruct (pending_list_files (loop w) !! q) as [k|] eqn:Hq; [|by exists L].
  pose proof (inv_forget_list _ _ _ _ _ _ _ _ _ q Hi) as Hi'. run_m.
  destruct (inv_lists _ _ _ _ _ _ _ _ _ Hi q k Hq) as [_ Hl].
  destruct (pending_command_requests (loop w) !! k) as [c|] eqn:Hk; [|by exists L].
  destruct (Hl c eq_refl) as [l Hc]. run_m. exists L. split; [done|]. run_m.
  apply inv_finish; [done..| |].
  - split; [by destruct (inv_pending _ _ _ _ _ _ _ _ _ Hi k c Hk)|]. by rewrite Hc.
  - intros r Hr. destruct (inv_gets _ _ _ _ _ _ _ _ _ Hi r k Hr) as (_ & _ & c' & g & Hc' & Hg).
    congruence.
Qed.

Lemma on_file_request_keeps issued L D w m tx :
  inv_world issued L D w -> keeps issued D (on_file_request m tx w).
Proof.
  intros [Hp Hi]. unfold on_file_request. run_m.
  destruct (fs_open _ _) as [rd|e]; run_m; [|done]. exists L. split; [done|]. by apply inv_log_reader.
Qed.

Lemma handle_other_event_keeps issued L D w ev :
  inv_world issued L D w -> is_file_get_event ev = false ->
  keeps issued D (handle_event ev w).
Proof.
  intros Hi Hev. assert (keeps issued D (Return (Ok tt, w))) as Hid by (by exists L).
  destruct ev as [[[]| | |[? []| | |]|]| | |]; try done;
    eauto using on_discovered_keeps, on_list_files_request_keeps, on_list_files_response_keeps.
Qed.

(** ** Events of [FileGet] *)

(** A response in the queue of [FileGet] belongs to a waiting command. *)
Lemma response_pending issued L D w r :
  inv_world issued L D w -> r ∈ responses (queued (world_file_get w)) ->
  exists k c g, pending_file_gets (loop w) !! r = Some k /\
    pending_command_requests (loop w) !! k = Some c /\
    CommandRequest.command c = Command.GetFile g.
Proof.
  intros [_ Hi] Hr. pose proof (inv_responses _ _ _ _ _ _ _ _ _ Hi) as Hres.
  pose proof (sim_ledger _ _ (inv_sim _ _ _ _ _ _ _ _ _ Hi)) as HL.
  assert (NoDup (D ++ responses (queued (world_file_get w)))) as Hnd.
  { unfold queued. rewrite Hres. apply Ledger.omap_about_NoDup; [apply HL..|].
    by intros [] ? [= ->]. }
  apply NoDup_app in Hnd as (_ & Hnd & _).
  assert (r ∈ omap response_of (Ledger.finished L).*2) as Ho.
  { rewrite <-Hres. apply elem_of_app. by right. }
  apply Ledger.omap_about_elem in Ho; [|apply HL|by intros [] ? [= ->]].
  pose proof (proj2 (Ledger.wf_issued _ HL r) (or_intror Ho)) as Hrange.
  assert (r ∉ D) as HD by (intros HD; by apply (Hnd r)).
  destruct (inv_gets_all _ _ _ _ _ _ _ _ _ Hi r Hrange HD) as [k Hk].
  destruct (inv_gets _ _ _ _ _ _ _ _ _ Hi r k Hk) as (_ & _ & c & g & Hc & Hg).
  by exists k, c, g.
Qed.

(** A call of [FileGet] that returns no response. *)
Lemma file_get_keeps issued L D w op out s :
  inv_world issued L D w -> contract op (world_file_get w) ->
  match op with SendRequest _ _ _ => False | _ => True end ->
  apply_op op (world_file_get w) = Return (out, s) -> responses out = [] ->
  exists L', inv_world issued L' D (set_world_file_get s w).
Proof.
  intros [Hp Hi] Hcon Hop Happ Hout.
  destruct (simulate_op op _ _ (inv_sim _ _ _ _ _ _ _ _ _ Hi) Hcon) as (o & s' & L' & acts & fin & Hs).
  pose proof Hs as (Happ' & _). rewrite Happ in Happ'. injection Happ' as <- <-.
  exists L'. split; [done|]. rewrite <-(app_nil_r D), <-Hout.
  eapply inv_file_get; [done..|]. intros r. rewrite Hout. by rewrite decide_False by set_solver.
Qed.

(** A poll that yields a response, and its handler. *)
Lemma file_response_keeps issued L D w p r s :
  inv_world issued L D w ->
  FileGet.poll (world_file_get w) =
    (Ready (FileGet.GenerateEvent (FileGetEvent.ResponseReceived p r)), s) ->
  keeps issued (D ++ [r]) (on_file_response r (set_world_file_get s w)).
Proof.
  intros Hiw Hpoll. pose proof Hiw as [Hp Hi].
  destruct (simulate_op PollOp _ _ (inv_sim _ _ _ _ _ _ _ _ _ Hi) I) as (o & s' & L' & acts & fin & Hs).
  pose proof Hs as (Happ & Hq & _). unfold apply_op in Happ. rewrite Hpoll in Happ.
  injection Happ as <- <-.
  destruct (poll_queue (world_file_get w)) as [_ Hpq]. rewrite Hpoll in Hpq. simpl in Hpq.
  destruct (response_pending issued L D w r Hiw) as (k & c & g & Hk & Hc & Hg).
  { rewrite Hpq. unfold responses. csimpl. set_solver. }
  unfold on_file_response. run_m. rewrite Hk. run_m. rewrite Hc. run_m. rewrite Hg. run_m.
  exists L'. split; [done|]. cbn.
  apply inv_finish; [|done| |].
  - apply (inv_file_get _ _ _ _ _ _ _ (pending_file_gets (loop w)) _ _ PollOp
      [FileGet.GenerateEvent (FileGetEvent.ResponseReceived p r)] _ _ acts fin Hi I Hs).
    intros r'. unfold responses. csimpl. destruct (decide (r' ∈ [r])) as [->%list_elem_of_singleton|Hne].
    + apply lookup_delete_eq.
    + rewrite lookup_delete_ne; [done|]. set_solver.
  - unfold answers. rewrite Hg. cbn. split; [|done].
    symmetry. by destruct (inv_pending _ _ _ _ _ _ _ _ _ Hi k c Hc).
  - intros r'. rewrite lookup_delete_Some. intros [Hne Hr'].
    apply Hne. by eapply (inv_gets_inj _ _ _ _ _ _ _ _ _ Hi).
Qed.

(** ** The node *)

(** The invariant of a node. *)
Definition sys_inv (sys : Sys) : Prop :=
  CommandRequestIdGenerator.counter (Client.command_request_id_generator (client sys)) =
    wrap64 (Z.of_nat (length (issued sys))) /\
  exists L D, inv_world (issued sys) L D (world sys).

(** No panic, and the invariant after a reaction without an error. *)
Definition safe (o : exec (result unit FileSharingError.t * Sys)) : Prop :=
  match o with
  | Return (Ok _, sys') => sys_inv sys'
  | Return (Err _, _) => True
  | Panic _ => False
  end.

Lemma run_handler_safe (m : M unit) w (c : Client.t) (l : list CommandRequest.t) D :
  CommandRequestIdGenerator.counter (Client.command_request_id_generator c) =
    wrap64 (Z.of_nat (length l)) ->
  keeps l D (m w) -> safe (run_handler m w c l).
Proof.
  intros Hc Hk. unfold run_handler. destruct (m w) as [[[u|e] w']|msg]; [|done..].
  destruct Hk as [L Hk]. split; [done|]. by exists L, D.
Qed.

Lemma user_command_safe sys command tx :
  sys_inv sys -> allowed (UserCommand command tx) sys -> safe (react (UserCommand command tx) sys).
Proof.
  intros [Hc (L & D & Hi)] [Htx Hlt]. unfold react, Client.send_command, CommandRequestIdGenerator.next_id.
  cbv beta iota zeta. apply (run_handler_safe _ _ _ _ D).
  - cbn. rewrite Hc, wrap64_add_l, length_app. do 2 f_equal. simpl. lia.
  - eapply handle_command_keeps; [done| |done]. split; [|done]. cbn. rewrite Hc.
    apply wrap64_small. lia.
Qed.

Lemma file_get_poll_safe sys : sys_inv sys -> safe (react FileGetPoll sys).
Proof.
  intros [Hc (L & D & Hi)]. unfold react.
  destruct (FileGet.poll (world_file_get (world sys))) as [a s] eqn:Hpoll.
  assert (forall out, (out = match a with Ready a => [a] | Pending => [] end) ->
    apply_op PollOp (world_file_get (world sys)) = Return (out, s)) as Happ.
  { intros out Hout. unfold apply_op. rewrite Hpoll. by destruct a; subst. }
  destruct a as [[ev|p h|p c rq]|].
  - apply (run_handler_safe _ _ _ _ (D ++ responses [FileGet.GenerateEvent ev])); [done|].
    destruct (decide (responses [FileGet.GenerateEvent ev] = [])) as [Hr|Hr].
    + rewrite Hr, app_nil_r.
      destruct (file_get_keeps _ _ _ _ PollOp _ s Hi I I (Happ _ eq_refl) Hr) as [L' Hi'].
      destruct ev as [p r m tx|p r|p r|p r e|p r e]; [|done|by exists L'..].
      by apply (on_file_request_keeps _ L').
    + destruct ev as [p r m tx|p r|p r|p r e|p r e]; [done| |done..].
      by eapply file_response_keeps.
  - destruct (file_get_keeps _ _ _ _ PollOp _ s Hi I I (Happ _ eq_refl) eq_refl) as [L' Hi'].
    split; [done|]. by exists L', D.
  - destruct (file_get_keeps _ _ _ _ PollOp _ s Hi I I (Happ _ eq_refl) eq_refl) as [L' Hi'].
    split; [done|]. by exists L', D.
  - destruct (file_get_keeps _ _ _ _ PollOp _ s Hi I I (Happ _ eq_refl) eq_refl) as [L' Hi'].
    split; [done|]. by exists L', D.
Qed.

Lemma file_get_call_safe sys op :
  sys_inv sys -> allowed (FileGetCall op) sys -> safe (react (FileGetCall op) sys).
Proof.
  intros [Hc (L & D & Hi)] Hal. unfold react. pose proof Hi as [_ Hi'].
  assert (contract op (world_file_get (world sys)) /\
          match op with OnSwarmEvent _ | OnHandlerEvent _ _ _ => True | _ => False end) as [Hcon Hop]
    by (by destruct op).
  destruct (simulate_op op _ _ (inv_sim _ _ _ _ _ _ _ _ _ Hi') Hcon) as (o & s & L' & acts & fin & Happ & _).
  assert (o = []) as ->.
  { unfold apply_op in Happ. destruct op; try done; destruct (mbind _ _) as [[??]|] eqn:E in Happ; try done;
      injection Happ as <- <-; apply exec_bind_Return in E as (? & _ & [= <- <-]); done. }
  rewrite Happ. destruct (file_get_keeps _ _ _ _ op [] s Hi Hcon) as [L2 Hi2]; [by destruct op|done..|].
  split; [done|]. by exists L2, D.
Qed.

Lemma react_safe sys x : sys_inv sys -> allowed x sys -> safe (react x sys).
Proof.
  intros Hi Hal. destruct x as [command tx|op| |s event|fs'].
  - by apply user_command_safe.
  - by apply file_get_call_safe.
  - by apply file_get_poll_safe.
  - destruct Hi as [Hc (L & D & Hi)], Hal as [Hev Hfg].
    apply (run_handler_safe _ _ _ _ D); [done|].
    apply (handle_other_event_keeps _ L _ (set_loop (set_swarm s (loop (world sys))) (world sys))); [|done].
    destruct Hi as [Hp Hi]. split; [done|]. unfold world_file_get at 1. cbn. unfold file_get, behaviour.
    cbn. by rewrite Hfg.
  - destruct Hi as [Hc (L & D & Hi)]. split; [done|]. by exists L, D.
Qed.

Lemma steps_inv sys sys' : steps sys sys' -> sys_inv sys -> sys_inv sys'.
Proof.
  induction 1 as [|sys1 sys2 sys3 x _ IH Hal Hr]; [done|]. intros Hi.
  pose proof (react_safe sys2 x (IH Hi) Hal) as Hs. by rewrite Hr in Hs.
Qed.
End Steps.

Section Reachable.
Context `{Libp2p, Platform, HashOrder, !FileSystem}.
Context `{!FuturesUnordered InboundFut InboundOut ChanEnv}.

Lemma initial_inv sys : initial sys -> sys_inv [] sys.
Proof.
  intros [Hc Hiss Hlog Hp Hpend Hl Hg (cfg & a & σ & ops & out & Hrun & Hs)].
  split; [by rewrite Hc, Hiss|].
  destruct (run_simulated _ _ _ _ _ Hrun (sim_init cfg a σ))
    as (L & acts & fin & _ & Hsim & Hq & Hn & Hf & _ & Hr).
  simpl in Hn, Hf, Hq. pose proof (sim_ledger _ _ Hsim) as HL.
  assert (forall r, ~ 1 <= request_id_0 r < Ledger.next L) as Hnone by (intros r; lia).
  assert (fin = []) as ->.
  { destruct fin as [|[r ev] fin]; [done|]. destruct (Hnone r).
    apply (Ledger.wf_issued _ HL). right. rewrite Hf. set_solver. }
  exists L, []. split; [done|]. rewrite Hiss, Hpend, Hl, Hg, Hlog.
  split; try done; try (intros *; rewrite lookup_empty; done).
  - apply (f_equal responses) in Hq. rewrite responses_app, Hr in Hq. simpl in Hq.
    rewrite Hf. simpl. by apply app_eq_nil in Hq as [_ ?].
  - simpl. lia.
  - constructor.
  - intros r Hr'. by destruct (Hnone r).
  - set_solver.
  - set_solver.
Qed.

Lemma reachable_inv sys : reachable sys -> sys_inv [] sys.
Proof. intros (sys0 & Hi & Hs). eapply steps_inv; [done|]. by apply initial_inv. Qed.

(** A request that ended without a response stays with its command. *)
Lemma stuck_inv sys r k c :
  sys_inv [] sys ->
  pending_file_gets (loop (world sys)) !! r = Some k ->
  pending_command_requests (loop (world sys)) !! k = Some c ->
  (forall st, ~ tracked (world_file_get (world sys)) r st) ->
  r ∉ responses (queued (world_file_get (world sys))) ->
  sys_inv [(r, k, c)] sys.
Proof.
  intros [Hcl (L & D & Hp & Hi)] Hr Hk Ht Hq. split; [done|]. exists L, D. split; [done|].
  destruct (inv_gets _ _ _ _ _ _ _ _ _ Hi r k Hr) as (Hrange & _ & _).
  pose proof (inv_sim _ _ _ _ _ _ _ _ _ Hi) as Hsim.
  destruct Hi. split; try done. intros r' k' c' [= -> -> ->]%list_elem_of_singleton.
  split_and!; [done..| |done].
  apply (Ledger.wf_issued _ (sim_ledger _ _ Hsim)) in Hrange as [[st Hst]%elem_of_dom|]; [|done].
  apply (sim_live _ _ Hsim) in Hst. by destruct (Ht st).
Qed.

Lemma accounted sys : sys_inv [] sys ->
  responded (log (world sys)) ++ senders (waiting (world sys)) ≡ₚ senders (issued sys) /\
  NoDup (senders (issued sys)).
Proof. intros [_ (L & D & _ & Hi)]. split; apply Hi. Qed.

Lemma steps_trans sys1 sys2 sys3 : steps sys1 sys2 -> steps sys2 sys3 -> steps sys1 sys3.
Proof.
  intros H12 H23. revert H12. induction H23 as [sys|s1 s2 s3 x _ IH Hal Hr]; [done|].
  intros H12. exact (steps_next _ _ _ x (IH H12) Hal Hr).
Qed.

(** A request that ended without a response: its command waits, unanswered. *)
Lemma stuck_unanswered sys sys' r k c :
  reachable sys ->
  pending_file_gets (loop (world sys)) !! r = Some k ->
  pending_command_requests (loop (world sys)) !! k = Some c ->
  (forall st, ~ tracked (world_file_get (world sys)) r st) ->
  r ∉ responses (queued (world_file_get (world sys))) ->
  steps sys sys' ->
  pending_command_requests (loop (world sys')) !! k = Some c /\
  (CommandRequest.response_sender c ∉ responded (log (world sys'))).
Proof.
  intros Hreach Hget Hcommand Hends Hqueue Hlater. pose proof (reachable_inv sys Hreach) as Hi.
  destruct (accounted sys' (steps_inv [] _ _ Hlater Hi)) as [Hperm Hnd].
  destruct (steps_inv _ _ _ Hlater (stuck_inv _ _ _ _ Hi Hget Hcommand Hends Hqueue))
    as [_ (L & D & _ & Hi')].
  destruct (inv_stuck _ _ _ _ _ _ _ _ _ Hi' r k c) as (_ & Hk & _); [set_solver|].
  split; [done|]. intros Hr. rewrite <-Hperm in Hnd. apply NoDup_app in Hnd as (_ & Hnd & _).
  apply (Hnd _ Hr). apply list_elem_of_fmap. exists c. split; [done|].
  apply list_elem_of_fmap. exists (k, c). split; [done|]. by apply elem_of_map_to_list.
Qed.

Lemma stuck_unanswered_log sys sys' r k c :
  reachable sys ->
  pending_file_gets (loop (world sys)) !! r = Some k ->
  pending_command_requests (loop (world sys)) !! k = Some c ->
  (forall st, ~ tracked (world_file_get (world sys)) r st) ->
  r ∉ responses (queued (world_file_get (world sys))) ->
  steps sys sys' -> CommandRequest.response_sender c ∉ responded (log (world sys')).
Proof. intros. by eapply (stuck_unanswered sys sys'). Qed.
End Reachable.
