(* ===== verification/SystemProps.v ===== *)
(** * Properties of a running node

    Every command is accounted for, answers fit their commands, a request for a
    file that failed is never answered, and a node that was set up is one these
    theorems apply to. *)
From S2P Require Import Prelude Externals Instances FileGetTypes Streams Protocol Handler Behaviour Ledger BehaviourLemmas BehaviourTracking BehaviourRefinement Error Command NetworkTypes EventLoop Network EventLoopProps System SystemInvariant SystemSteps NetworkInstances.
Import EventLoop.

Section SystemProps.
Context `{Libp2p, Platform, HashOrder, !FileSystem}.
Context `{!FuturesUnordered InboundFut InboundOut ChanEnv}.

(** C10: Commands are conserved: at every reachable state of a node the
    channels answered so far together with those of the commands still waiting
    are exactly the channels of the commands the user gave, each once; so no
    command is lost or answered twice. *)
Theorem commands_accounted sys (Hreach : reachable sys) :
  responded (log (world sys)) ++ senders (waiting (world sys)) ≡ₚ senders (issued sys) /\
  NoDup (responded (log (world sys)) ++ senders (waiting (world sys))).
Proof.
  destruct (accounted sys (reachable_inv sys Hreach)) as [Hp Hnd]. by rewrite Hp.
Qed.

(** Answers fit: every answer given at a reachable state was given to the
    channel of a command of the user, and it is a response with the identifier
    of that command and of its kind, for [get@] naming its user and file, or
    the error that the user it names is not known. *)
Theorem answers_match_commands sys tx r (Hreach : reachable sys)
    (Hans : Respond tx r ∈ log (world sys)) :
  exists c, c ∈ issued sys /\ CommandRequest.response_sender c = tx /\ answers c r.
Proof. destruct (reachable_inv sys Hreach) as [_ (L & D & _ & Hi)]. by apply Hi. Qed.

(** A [get@] whose request failed is never answered: once [FileGet] no
    longer tracks the request and has no response for it in its queue, as after
    every failure it reports, the command waits in all later states and its
    channel is never answered; the user's prompt waits for ever. *)
Theorem failed_get_never_answered sys sys' r k c (Hreach : reachable sys)
    (Hget : pending_file_gets (loop (world sys)) !! r = Some k)
    (Hcommand : pending_command_requests (loop (world sys)) !! k = Some c)
    (Hends : forall st, ~ tracked (world_file_get (world sys)) r st)
    (Hqueue : r ∉ responses (queued (world_file_get (world sys))))
    (Hlater : steps sys sys') :
  pending_command_requests (loop (world sys')) !! k = Some c /\
  (CommandRequest.response_sender c ∉ responded (log (world sys'))).
Proof. exact (stuck_unanswered sys sys' r k c Hreach Hget Hcommand Hends Hqueue Hlater). Qed.

(** ** Setting up *)

(** The state of [FileGet] in a swarm that has not been asked for a file. *)
Definition unused (cfg : FileGetConfig) (a : Arc) (σ : Store) (s : FileGet.t) : Prop :=
  exists ops out, BehaviourRefinement.run (FileGet.from_config cfg a σ).1 ops out s /\ sends ops = 0.

Definition yields_unused cfg a σ (events : list Yield) : Prop :=
  Forall (fun y => unused cfg a σ (ComposedBehaviour.file_get (Swarm.behaviour y.1))) events.

Lemma swarm_after_unused cfg a σ stop events s :
  yields_unused cfg a σ events ->
  unused cfg a σ (ComposedBehaviour.file_get (Swarm.behaviour s)) ->
  unused cfg a σ (ComposedBehaviour.file_get (Swarm.behaviour (swarm_after stop events s))).
Proof.
  intros He. revert s. induction He as [|[s' ev] events Hy He IH]; intros s Hs; [done|].
  simpl. by destruct (stop ev); [|apply IH].
Qed.

Context `{!Setup, !Libp2pLaws}.

(** C27: Setting up gives a node to run: when [new_network] succeeds, no matter
    what the swarm yielded meanwhile, the node is an initial one: no command is
    pending, and the peer id of the rendezvous point, which registering and
    discovering rely on, is set. *)
Theorem new_network_starts address seed dir entropy arc σ fs le ce c w σ'
    (Hle : yields_unused (FileGetConfig_new (from_secs (60 * 30))) arc σ le)
    (Hce : yields_unused (FileGetConfig_new (from_secs (60 * 30))) arc σ ce)
    (Hnew : new_network address seed dir entropy arc σ fs le ce = Return (Ok c, w, σ')) :
  initial (mkSys w c []).
Proof.
  unfold new_network in Hnew. destruct (keypair_of_seed entropy seed) as [keypair|]; [|done].
  cbn [mbind exec_bind] in Hnew. destruct (tokio_development_transport keypair) as [transport|]; [|done].
  unfold mbind, exec_bind, new_swarm, FileGet.from_config in Hnew. cbv beta iota zeta in Hnew.
  destruct multiaddr_parse_local as [local Hlocal]. rewrite (init_unfold _ _ _ local Hlocal) in Hnew.
  cbv zeta beta iota in Hnew. set (w0 := mkWorld _ fs []) in Hnew.
  destruct (listened le); [|done].
  destruct ((dialled (after_listen local le (loop w0))).1) as [[]|]; [|done].
  destruct (identified ce) as [p|]; [|done].
  injection Hnew as <- <- <-. split; try done.
  exists (FileGetConfig_new (from_secs (60 * 30))), arc, σ.
  apply (swarm_after_unused _ _ _ is_identified ce); [done|].
  apply (swarm_after_unused _ _ _ is_listen_event le); [done|].
  exists [], []. split; [constructor|done].
Qed.
End SystemProps.

(** * Witnesses

    A concrete session of a node with a peer 7 named bob at the rendezvous
    point 9. *)
Section SystemWitnesses.
#[local] Existing Instances numExt numLibp2p debug64 canonicalOrder numFileSystem numSetup.
#[local] Existing Instance numLibp2p_laws.
#[local] Instance session_fu : FuturesUnordered InboundFut InboundOut ChanEnv :=
  list_fu Handler.map_ok_inbound.

Definition me_config : FileGetConfig := FileGetConfig_new (from_secs (60 * 30)).
Definition no_store : Store := fun _ => RequestIdGenerator.new.
Definition empty_file_get : FileGet.t := (FileGet.from_config me_config (mkArc 1) no_store).1.

Definition first_swarm : Swarm.t :=
  Swarm.mk (tt : SwarmCore) (ComposedBehaviour.mk (tt : OtherBehaviours) (tt : RendezvousClient)
    (0 : RequestResponse) empty_file_get).

Definition session_start : Sys :=
  mkSys (mkWorld (EventLoop.mk first_swarm (0 : Multiaddr) (Some (9 : PeerId)) ∅ ∅ ∅ ∅ (str "/share"))
    (∅ : FS) []) Client.new [].

(** A script: stimuli, and events of the other behaviours. *)
Inductive Line : Type :=
| Do (x : Stimulus)
| Event (event : SwarmEvent.t).

Definition line_stimulus (l : Line) (sys : Sys) : Stimulus :=
  match l with
  | Do x => x
  | Event event => SwarmEvented (swarm (loop (world sys))) event
  end.

Definition line_allowed (l : Line) (sys : Sys) : bool :=
  match l with
  | Do (UserCommand _ tx) =>
      bool_decide (tx ∉ senders (issued sys)) &&
      (Z.of_nat (length (issued sys)) + 1 <? two64)
  | Do (FileGetCall ((OnSwarmEvent _ | OnHandlerEvent _ _ _) as op)) =>
      contract_b op (world_file_get (world sys))
  | Do FileGetPoll => true
  | Do _ => false
  | Event event => negb (is_file_get_event event)
  end.

Lemma line_allowed_sound l sys : line_allowed l sys = true -> allowed (line_stimulus l sys) sys.
Proof.
  destruct l as [[command tx|op| |s event|fs']|event]; try done.
  - cbn [line_allowed]. rewrite andb_true_iff, bool_decide_eq_true, Z.ltb_lt. done.
  - destruct op; try done; apply contract_b_sound.
  - cbn [line_allowed]. rewrite negb_true_iff. done.
Qed.

Fixpoint play (script : list Line) (sys : Sys) : option Sys :=
  match script with
  | [] => Some sys
  | l :: script =>
      if line_allowed l sys then
        match react (line_stimulus l sys) sys with
        | Return (Ok _, sys') => play script sys'
        | _ => None
        end
      else None
  end.

Lemma play_sound script sys sys' : play script sys = Some sys' -> steps sys sys'.
Proof.
  revert sys. induction script as [|l script IH]; intros sys; simpl; [intros [= ->]; constructor|].
  destruct (line_allowed l sys) eqn:Hl; [|done].
  destruct (react (line_stimulus l sys) sys) as [[[[]|] sys1]|] eqn:Hr; [|done..].
  intros Hp. eapply steps_trans; [|by apply IH].
  eapply steps_next; [constructor|by apply line_allowed_sound|done].
Qed.

Definition after (script : list Line) : Sys := default session_start (play script session_start).

Definition plays (script : list Line) : bool :=
  match play script session_start with Some _ => true | None => false end.

Lemma session_initial : initial session_start.
Proof.
  split; try done. exists me_config, (mkArc 1), no_store, [], []. split; [constructor|done].
Qed.

Lemma after_steps script : plays script = true -> steps session_start (after script).
Proof.
  unfold plays, after. destruct (play script session_start) as [sys|] eqn:E; [|done].
  intros _. by apply (play_sound script).
Qed.

Lemma after_reachable script : plays script = true -> reachable (after script).
Proof. intros Hp. exists session_start. split; [exact session_initial|by apply after_steps]. Qed.

Definition bob : Namespace := str "bob".
Definition discovery : SwarmEvent.t := SwarmEvent.Behaviour (ComposedEvent.Rendezvous
  (RendezvousEvent.Discovered [Registration.mk bob (7 : PeerId) [0 : Multiaddr]])).

(** Bob is discovered and a file of his asked for. *)
Definition asking : list Line :=
  [Do (UserCommand Command.ListPeers (100 : CommandSender)); Event discovery;
   Do (UserCommand (Command.new_get_file (str "bob") (str "a.txt")) (101 : CommandSender));
   Do FileGetPoll].

(** The file arrives. *)
Definition success : list Line := asking ++
  [Do (FileGetCall (OnSwarmEvent (FileGet.ConnectionEstablished (7 : PeerId) (1 : ConnectionId)
     (ConnectedPoint.Dialer (0 : Multiaddr)) 0))); Do FileGetPoll;
   Do (FileGetCall (OnHandlerEvent (7 : PeerId) (1 : ConnectionId)
     (FileGetHandlerEvent.Response (mkRequestId 1)))); Do FileGetPoll].

(** Bob cannot be reached. *)
Definition failure : list Line := asking ++
  [Do (FileGetCall (OnSwarmEvent (FileGet.DialFailure (Some (7 : PeerId))))); Do FileGetPoll].

Lemma plays_success : plays success = true.
Proof. vm_compute. reflexivity. Qed.

Lemma plays_failure : plays failure = true.
Proof. vm_compute. reflexivity. Qed.

Lemma commands_accounted_witness :
  NoDup (responded (log (world (after success))) ++ senders (waiting (world (after success)))).
Proof. exact (proj2 (commands_accounted (after success) (after_reachable success plays_success))). Defined.

Definition get_answer : result CommandResponse.t FileSharingError.t :=
  Ok (CommandResponse.mk 1 (CommandResult.GetFile (str "bob") (str "a.txt"))).

Lemma get_answered : Respond (101 : CommandSender) get_answer ∈ log (world (after success)).
Proof. apply (list_elem_of_lookup_2 _ 1). vm_compute. reflexivity. Qed.

Lemma answers_match_commands_witness : exists c,
  c ∈ issued (after success) /\ CommandRequest.response_sender c = (101 : CommandSender) /\
  answers c get_answer.
Proof.
  exact (answers_match_commands _ _ _ (after_reachable success plays_success) get_answered).
Defined.

Definition get_command : CommandRequest.t :=
  CommandRequest.mk 1 (Command.new_get_file (str "bob") (str "a.txt")) (101 : CommandSender).

Lemma failure_untracked st :
  ~ tracked (world_file_get (world (after failure))) (mkRequestId 1) st.
Proof.
  assert (FileGet.pending_outbound_requests (world_file_get (world (after failure))) = ∅) as Hp
    by (vm_compute; reflexivity).
  assert (FileGet.connected (world_file_get (world (after failure))) = ∅) as Hc
    by (vm_compute; reflexivity).
  destruct st as [p|p c]; simpl.
  - unfold waits. rewrite Hp, lookup_empty. naive_solver.
  - unfold inflight, FileGet.find_connection. rewrite Hc, lookup_empty. naive_solver.
Qed.

Lemma failed_get_never_answered_witness :
  pending_command_requests (loop (world (after failure))) !! 1 = Some get_command /\
  ((101 : CommandSender) ∉ responded (log (world (after failure)))).
Proof.
  refine (failed_get_never_answered (after failure) (after failure) (mkRequestId 1) 1 get_command
    (after_reachable failure plays_failure) _ _ failure_untracked _ (steps_refl _)).
  - vm_compute. reflexivity.
  - vm_compute. reflexivity.
  - assert (responses (queued (world_file_get (world (after failure)))) = []) as ->
      by (vm_compute; reflexivity). apply not_elem_of_nil.
Defined.

Definition listening : list Yield := [(first_swarm, SwarmEvent.NewListenAddr (0 : Multiaddr))].
Definition identifying : list Yield :=
  [(first_swarm, SwarmEvent.Behaviour (ComposedEvent.Identify
      (IdentifyEvent.Received (9 : PeerId))))].

Lemma first_swarm_unused :
  unused me_config (mkArc 1) no_store (ComposedBehaviour.file_get (Swarm.behaviour first_swarm)).
Proof. exists [], []. split; [constructor|done]. Qed.

Lemma new_network_starts_witness : initial session_start.
Proof.
  refine (new_network_starts (0 : Multiaddr) (Some 1) (str "/share") [] (mkArc 1) no_store (∅ : FS)
    listening identifying Client.new (world session_start)
    (FileGet.from_config me_config (mkArc 1) no_store).2 _ _ _).
  - constructor; [exact first_swarm_unused|constructor].
  - constructor; [exact first_swarm_unused|constructor].
  - vm_compute. reflexivity.
Defined.
End SystemWitnesses.
