(* ===== verification/Node.v ===== *)
(** * A node with its connections

    [System.v] runs the event loop against a [FileGet] whose callers keep its
    contract, [Links.v] runs [FileGet] against its connection handlers.  This
    file runs them together: the [FileGet] of the event loop's swarm is the one
    the handlers report to.  [enabled] names no state of [FileGet]: what is left
    to assume is the order of the swarm's own calls and that every command has
    a channel of its own. *)
From S2P Require Import Prelude Externals FileGetTypes Streams Protocol Handler HandlerProps Behaviour Ledger BehaviourLemmas BehaviourTracking BehaviourRefinement Links LinksViews LinksInvariant LinksSteps Error Command NetworkTypes EventLoop Network System SystemInvariant SystemSteps.

Module Node.
Section Node.
Context `{Libp2p, Platform, HashOrder, !FileSystem}.
Context `{!FuturesUnordered InboundFut InboundOut ChanEnv}.

Record t : Type := mk {
  sys : Sys;
  (** The swarm's side of [FileGet]: the connections and their handlers. *)
  net : Net.t;
}.

(** Both have the same [FileGet]. *)
Definition coupled (n : t) : Prop := Net.file_get (net n) = world_file_get (world (sys n)).

(** What happens next: a command, a turn of [FileGet], an event of the other
    behaviours, a change of the shared directory from outside, or something on
    the connections. *)
Inductive Label : Type :=
| UserCommand (command : Command.t) (tx : CommandSender)
| FileGetPoll
| SwarmEvented (s : Swarm.t) (event : SwarmEvent.t)
| FilesChange (fs' : FS)
| Connections (x : Net.Label).

Definition is_connection_label (x : Net.Label) : bool :=
  match x with Net.Send _ _ _ | Net.Poll => false | _ => true end.

Definition enabled (x : Label) (n : t) : Prop :=
  match x with
  | UserCommand command tx => allowed (System.UserCommand command tx) (sys n)
  | FileGetPoll | FilesChange _ => True
  | SwarmEvented s event => allowed (System.SwarmEvented s event) (sys n)
  | Connections x => is_connection_label x = true /\ Net.enabled x (net n)
  end.

(** The file request a command makes. *)
Definition request_of (command : Command.t) (w : EventLoop.World) :
    option (PeerId * FileGetMessage * AsyncWrite) :=
  match command with
  | Command.GetFile g =>
      peer_id ← EventLoop.get_peer_id (GetFile.user_name g) (EventLoop.loop w);
      match fs_open_create (path_push (EventLoop.sharing_dir (EventLoop.loop w))
              (GetFile.file_name g)) (EventLoop.fs w) with
      | (Ok writer, _) => Some (peer_id, FileGetMessage_new (GetFile.file_name g), writer)
      | (Err _, _) => None
      end
  | _ => None
  end.

Definition react (x : Label) (n : t) : exec (result unit FileSharingError.t * t) :=
  match x with
  | UserCommand command tx =>
      '(r, s) ← System.react (System.UserCommand command tx) (sys n);
      net' ← match request_of command (world (sys n)) with
             | Some (p, request, writer) => Net.react (Net.Send p request writer) (net n)
             | None => Return (net n)
             end;
      Return (r, mk s net')
  | FileGetPoll =>
      '(r, s) ← System.react System.FileGetPoll (sys n);
      net' ← Net.react Net.Poll (net n);
      Return (r, mk s net')
  | SwarmEvented s event =>
      '(r, s) ← System.react (System.SwarmEvented s event) (sys n);
      Return (r, mk s (net n))
  | FilesChange fs' =>
      '(r, s) ← System.react (System.FilesChange fs') (sys n);
      Return (r, mk s (net n))
  | Connections x =>
      net' ← Net.react x (net n);
      Return (Ok tt, mk (mkSys (set_world_file_get (Net.file_get net') (world (sys n)))
                           (client (sys n)) (issued (sys n))) net')
  end.

(** A node that has just been set up: connections may have come and gone, but
    no file was asked for. *)
Record initial (cfg : FileGetConfig) (arc : Arc) (σ : Store) (n : t) : Prop := {
  initial_client : client (sys n) = Client.new;
  initial_issued : issued (sys n) = [];
  initial_log : EventLoop.log (world (sys n)) = [];
  initial_peer : is_Some (EventLoop.rendezvous_point_peer_id (EventLoop.loop (world (sys n))));
  initial_pending : EventLoop.pending_command_requests (EventLoop.loop (world (sys n))) = ∅;
  initial_lists : EventLoop.pending_list_files (EventLoop.loop (world (sys n))) = ∅;
  initial_gets : EventLoop.pending_file_gets (EventLoop.loop (world (sys n))) = ∅;
  initial_net : Net.reachable cfg arc σ (net n);
  initial_sent : Net.sent (net n) = 0;
  initial_coupled : coupled n;
}.

Inductive reachable (cfg : FileGetConfig) (arc : Arc) (σ : Store) : t -> Prop :=
| reachable_initial n : initial cfg arc σ n -> reachable cfg arc σ n
| reachable_step n x n' :
    reachable cfg arc σ n -> enabled x n -> react x n = Return (Ok tt, n') ->
    reachable cfg arc σ n'.
End Node.
End Node.

Section NodeSteps.
Import EventLoop.
Context `{Libp2p, Platform, HashOrder, !FileSystem}.
Context `{!FuturesUnordered InboundFut InboundOut ChanEnv}.
Context `{!FuturesUnorderedLaws InboundFut InboundOut ChanEnv Handler.map_ok_inbound}.

(** ** What the event loop does to [FileGet] *)

(** The handlers of events leave it alone. *)
Definition leaves (m : M unit) : Prop := forall w r w',
  m w = Return (r, w') -> world_file_get w' = world_file_get w.

Lemma leaves_ret : leaves (mret tt).
Proof. by intros w r w' [= _ <-]. Qed.

Lemma leaves_answer_list_peers key : leaves (answer_list_peers key).
Proof.
  intros w r w'. unfold answer_list_peers. run_m.
  destruct (pending_command_requests (loop w) !! key); run_m; by intros [= _ <-].
Qed.

Lemma leaves_for_each {A} (l : list A) f : (forall x, leaves (f x)) -> leaves (for_each l f).
Proof.
  intros Hf. induction l as [|x l IH]; [apply leaves_ret|]. intros w r w'. simpl. run_m.
  destruct (f x w) as [[[u|e] w1]|msg] eqn:E; [| |done].
  - intros Hr. rewrite (IH _ _ _ Hr). by eapply Hf.
  - intros [= _ <-]. by eapply Hf.
Qed.

Lemma leaves_handle_event ev : leaves (handle_event ev).
Proof.
  destruct ev as [[[rs| | | |]| | |[p [q ch|q response]| | |]|[p r m tx|p r| | |]]| | |]; try apply leaves_ret.
  - intros w r w'. unfold handle_event, on_discovered. run_m. intros Hr.
    by rewrite (leaves_for_each _ _ leaves_answer_list_peers _ _ _ Hr).
  - intros w r w'. unfold handle_event, on_list_files_request. run_m.
    destruct (fs_read_dir _ _); run_m; [|by intros [= _ <-]].
    destruct (try_collect _); run_m; by intros [= _ <-].
  - intros w r w'. unfold handle_event, on_list_files_response. run_m.
    destruct (pending_list_files (loop w) !! q); run_m; [|by intros [= _ <-]].
    destruct (pending_command_requests (loop w) !! _); run_m; by intros [= _ <-].
  - intros w r' w'. unfold handle_event, on_file_request. run_m.
    destruct (fs_open _ _); run_m; by intros [= _ <-].
  - intros w r' w'. unfold handle_event, on_file_response. run_m.
    destruct (pending_file_gets (loop w) !! r); run_m; [|done].
    destruct (pending_command_requests (loop w) !! _) as [c|]; run_m; [|done].
    destruct (CommandRequest.command c); run_m; try (by intros [= _ <-]);
      destruct debug_assertions; run_m; done || by intros [= _ <-].
Qed.

Lemma handle_event_file_get s ev w r w' :
  handle_input (SwarmYields (s, ev)) w = Return (r, w') ->
  world_file_get w' = ComposedBehaviour.file_get (Swarm.behaviour s).
Proof. intros Hm. unfold handle_input in Hm. exact (leaves_handle_event ev _ _ _ Hm). Qed.

(** A command changes it by the request it makes, if any. *)
Lemma handle_command_requests c w w' :
  handle_command c w = Return (Ok tt, w') ->
  match Node.request_of (CommandRequest.command c) w with
  | Some (p, request, writer) => exists r,
      FileGet.send_request p request writer (world_file_get w) = Return (r, world_file_get w')
  | None => world_file_get w' = world_file_get w
  end.
Proof.
  unfold handle_command, Node.request_of.
  destruct (CommandRequest.command c) as [r| |l|g]; run_m.
  - destruct (Namespace_new _); run_m; [|done].
    destruct (rendezvous_point_peer_id (loop w)); run_m; [|done]. by intros [= <-].
  - destruct (rendezvous_point_peer_id (loop w)); run_m; [|done]. by intros [= <-].
  - destruct (get_peer_id _ _); run_m; [|by intros [= <-]].
    destruct (rr_send_request _ _ _). run_m. by intros [= <-].
  - destruct (fs_open_create _ _) as [[wr|e] fs']; run_m; [|done].
    destruct (get_peer_id _ _) as [peer|]; run_m; [|by intros [= <-]].
    destruct (FileGet.send_request _ _ _ _) as [[r s]|msg] eqn:Hs; run_m; [|done].
    intros [= <-]. by exists r.
Qed.

(** ** The two halves agree *)
Context (cfg : FileGetConfig) (arc : Arc) (σ : Store).

Record node_inv (n : Node.t) : Prop := {
  node_sys : System.reachable (Node.sys n);
  node_net : Net.reachable cfg arc σ (Node.net n);
  node_coupled : Node.coupled n;
  node_sent : Net.sent (Node.net n) <= Z.of_nat (length (issued (Node.sys n)));
}.

Lemma steps_reachable sys sys' : System.reachable sys -> steps sys sys' -> System.reachable sys'.
Proof.
  intros Hs H'. induction H' as [|s1 s2 s3 x _ IH Ha Hr]; [done|].
  destruct (IH Hs) as (s0 & Hi & Hs'). exists s0. split; [done|]. by eapply steps_next.
Qed.

Lemma system_step sys x sys' :
  allowed x sys -> System.react x sys = Return (Ok tt, sys') -> steps sys sys'.
Proof. intros Ha Hr. eapply steps_next; [constructor|done..]. Qed.

Lemma system_returns sys x :
  System.reachable sys -> allowed x sys -> exists r sys', System.react x sys = Return (r, sys').
Proof.
  intros Hs Ha. pose proof (react_safe [] sys x (reachable_inv sys Hs) Ha) as Hsafe.
  destruct (System.react x sys) as [[r s]|]; [by exists r, s|done].
Qed.

Lemma net_step n x :
  Net.reachable cfg arc σ n -> Net.enabled x n ->
  exists n', Net.react x n = Return n' /\ Net.reachable cfg arc σ n'.
Proof.
  intros Hr He. destruct (react_ok cfg arc σ n x (reachable_ok cfg arc σ n Hr) He) as (n' & Hn & _).
  exists n'. split; [done|]. by eapply Net.reachable_step.
Qed.

(** The number of requests sent. *)
Lemma react_sent n x n' : Net.react x n = Return n' ->
  Net.sent n' = Net.sent n + match x with Net.Send _ _ _ => 1 | _ => 0 end.
Proof.
  destruct x as [p rq w|p c ep|p c|p|p c ep| |p c|p c now env|p c rq rs|p c r out|p c r out|p c];
    unfold Net.react, Net.on_link;
    repeat match goal with
    | |- context [match Net.links ?n ?p ?c with _ => _ end] => destruct (Net.links n p c)
    | |- context [Link.open_inbound ?a ?b ?c ?d] => destruct (Link.open_inbound a b c d)
    | |- context [match Link.outbox ?l with _ => _ end] => destruct (Link.outbox l)
    end; rewrite ?exec_bind_Return;
    try (intros [= <-]; simpl; lia); try (intros (? & _ & [= <-]); simpl; lia).
  - intros ([r s] & _ & [= <-]). done.
  - destruct (FileGet.poll (Net.file_get n)) as [[[[]| |p c rq]|] s]; intros [= <-]; simpl; try lia.
    destruct (Net.links n p c); simpl; lia.
Qed.

(** ** The reactions *)

(** A reaction returns, and unless it failed it is a run of the event loop and
    keeps the invariant. *)
Definition fine (n : Node.t) (o : exec (result unit FileSharingError.t * Node.t)) : Prop :=
  exists r n', o = Return (r, n') /\
    (r = Ok tt -> steps (Node.sys n) (Node.sys n') /\ node_inv n').

Lemma node_inv_steps n n' :
  node_inv n -> steps (Node.sys n) (Node.sys n') -> Net.reachable cfg arc σ (Node.net n') ->
  Node.coupled n' -> Net.sent (Node.net n') <= Z.of_nat (length (issued (Node.sys n'))) ->
  steps (Node.sys n) (Node.sys n') /\ node_inv n'.
Proof. intros Hi Hs Hn Hc Hl. split; [done|]. split; try done. by eapply steps_reachable; [apply Hi|]. Qed.

Lemma run_handler_return m w c l r s :
  run_handler m w c l = Return (r, s) ->
  exists w', m w = Return (r, w') /\ s = mkSys w' c l.
Proof.
  unfold run_handler. rewrite exec_bind_Return. intros ([r' w'] & Hm & [= <- <-]). by exists w'.
Qed.

Lemma user_command_fine n command tx :
  node_inv n -> Node.enabled (Node.UserCommand command tx) n ->
  fine n (Node.react (Node.UserCommand command tx) n).
Proof.
  intros Hi Hen. pose proof Hi as [Hs Hn Hc Hsent]. pose proof Hen as [_ Hlt].
  destruct (system_returns _ _ Hs Hen) as (r & s & Hr). unfold Node.react. rewrite Hr. cbn [mbind exec_bind].
  pose proof Hr as Hr'. unfold System.react in Hr'.
  destruct (Client.send_command command tx Waits (client (Node.sys n))) as [[req a] c] eqn:Hreq.
  assert (CommandRequest.command req = command) as Hcommand by (by injection Hreq as <- _ _).
  apply run_handler_return in Hr' as (w' & Hm & ->). simpl in Hm.
  destruct (Node.request_of command (world (Node.sys n))) as [[[p rq] wr]|] eqn:Hrq.
  - destruct (net_step (Node.net n) (Net.Send p rq wr) Hn) as (net' & Hnet & Hnet'); [simpl; lia|].
    rewrite Hnet. cbn. eexists _, _. split; [reflexivity|]. intros ->. apply node_inv_steps; [done|..]; cbn.
    + exact (system_step _ _ _ Hen Hr).
    + done.
    + apply handle_command_requests in Hm. rewrite Hcommand, Hrq in Hm. destruct Hm as [r Hm].
      pose proof (react_call _ _ _ Hnet) as [o Ho]. simpl in Ho. unfold Node.coupled in *.
      rewrite Hc, Hm in Ho. by injection Ho as _ Ho.
    + rewrite (react_sent _ _ _ Hnet), length_app. simpl. lia.
  - cbn. eexists _, _. split; [reflexivity|]. intros ->.
    apply node_inv_steps; [done|exact (system_step _ _ _ Hen Hr)|done|..]; cbn.
    + apply handle_command_requests in Hm. rewrite Hcommand, Hrq in Hm.
      change (Net.file_get (Node.net n) = world_file_get w'). by rewrite Hc, Hm.
    + rewrite length_app. simpl. lia.
Qed.

(** Polling [FileGet] leaves it as both halves see it. *)
Lemma file_get_poll_state sys sys' :
  System.react FileGetPoll sys = Return (Ok tt, sys') ->
  world_file_get (world sys') = (FileGet.poll (world_file_get (world sys))).2 /\
  issued sys' = issued sys.
Proof.
  unfold System.react. destruct (FileGet.poll (world_file_get (world sys))) as [a s].
  destruct a as [[ev|p h|p c rq]|]; try (intros [= <-]; done).
  intros (w' & Hm & ->)%run_handler_return. split; [|done].
  exact (handle_event_file_get _ _ _ _ _ Hm).
Qed.

Lemma file_get_poll_fine n : node_inv n -> fine n (Node.react Node.FileGetPoll n).
Proof.
  intros Hi. pose proof Hi as [Hs Hn Hc Hsent]. destruct (system_returns _ FileGetPoll Hs I) as (r & s & Hr).
  destruct (net_step (Node.net n) Net.Poll Hn I) as (net' & Hnet & Hnet').
  unfold Node.react. rewrite Hr. cbn [mbind exec_bind]. rewrite Hnet. cbn [mbind exec_bind].
  eexists _, _. split; [reflexivity|]. intros ->. destruct (file_get_poll_state _ _ Hr) as [Hfg Hiss].
  apply node_inv_steps; [done|..]; cbn.
  - exact (system_step _ FileGetPoll _ I Hr).
  - done.
  - pose proof (react_call _ _ _ Hnet) as [o Ho]. simpl in Ho. unfold Node.coupled in *. cbn.
    rewrite Hc in Ho. rewrite Hfg. destruct (FileGet.poll _) as [[a|] s']; by injection Ho.
  - rewrite (react_sent _ _ _ Hnet), Hiss. lia.
Qed.

Lemma swarm_evented_fine n s ev :
  node_inv n -> Node.enabled (Node.SwarmEvented s ev) n -> fine n (Node.react (Node.SwarmEvented s ev) n).
Proof.
  intros Hi Hen. pose proof Hi as [Hs Hn Hc Hsent]. destruct (system_returns _ _ Hs Hen) as (r & s' & Hr).
  unfold Node.react. rewrite Hr. cbn. eexists _, _. split; [reflexivity|]. intros ->.
  pose proof Hr as (w' & Hm & ->)%run_handler_return. apply node_inv_steps; [done|exact (system_step _ _ _ Hen Hr)|done| |done].
  destruct Hen as [_ Hfg]. unfold Node.coupled in *. cbn [Node.net Node.sys world].
  by rewrite (handle_event_file_get _ _ _ _ _ Hm), Hc, Hfg.
Qed.

Lemma files_change_fine n fs' : node_inv n -> fine n (Node.react (Node.FilesChange fs') n).
Proof.
  intros Hi. eexists _, _. split; [reflexivity|]. intros _. apply node_inv_steps; [done| |apply Hi..].
  by apply (system_step _ (FilesChange fs') _ I).
Qed.

Lemma set_world_file_get_same w : set_world_file_get (world_file_get w) w = w.
Proof. by destruct w as [[[? []]] ? ?]. Qed.

(** Every call of a connection on [FileGet] is one [System.v] allows. *)
Lemma connection_call n x net' :
  node_inv n -> Node.enabled (Node.Connections x) n -> Net.react x (Node.net n) = Return net' ->
  steps (Node.sys n) (mkSys (set_world_file_get (Net.file_get net') (world (Node.sys n)))
    (client (Node.sys n)) (issued (Node.sys n))).
Proof.
  intros [Hs Hn Hc Hsent] [Hx Hen] Hr. pose proof (react_call _ _ _ Hr) as Hcall.
  pose proof (call_contract cfg arc σ (Node.net n) x) as Hcon.
  destruct (call_of x (Node.net n)) as [op|] eqn:Hop.
  - specialize (Hcon op (reachable_ok cfg arc σ _ Hn) Hen eq_refl). destruct Hcall as [o Ho].
    unfold Node.coupled in Hc. rewrite Hc in Hcon, Ho. apply (system_step _ (FileGetCall op)).
    + simpl. destruct x; try done; simpl in Hop; try (by injection Hop as <-).
      destruct (Net.links _ _ _) as [l|]; [simpl in Hop|done]. destruct (Link.outbox l); [done|].
      by injection Hop as <-.
    + unfold System.react. rewrite Ho. done.
  - rewrite Hcall. unfold Node.coupled in Hc. rewrite Hc, set_world_file_get_same.
    destruct (Node.sys n). constructor.
Qed.

Lemma connections_fine n x :
  node_inv n -> Node.enabled (Node.Connections x) n -> fine n (Node.react (Node.Connections x) n).
Proof.
  intros Hi Hen. pose proof Hi as [Hs Hn Hc Hsent]. destruct Hen as [Hx Hen].
  destruct (net_step _ x Hn Hen) as (net' & Hnet & Hnet'). unfold Node.react. rewrite Hnet. cbn.
  eexists _, _. split; [reflexivity|]. intros _. apply node_inv_steps; [done| |done|done|]; cbn.
  - by eapply connection_call.
  - rewrite (react_sent _ _ _ Hnet). destruct x; try done; lia.
Qed.

Lemma node_react_fine n x : node_inv n -> Node.enabled x n -> fine n (Node.react x n).
Proof.
  destruct x; eauto using user_command_fine, file_get_poll_fine, swarm_evented_fine,
    files_change_fine, connections_fine.
Qed.

Lemma node_step n x n' :
  node_inv n -> Node.enabled x n -> Node.react x n = Return (Ok tt, n') ->
  steps (Node.sys n) (Node.sys n') /\ node_inv n'.
Proof.
  intros Hi Hen Hr. destruct (node_react_fine n x Hi Hen) as (r & n1 & Hr' & Hok). rewrite Hr in Hr'.
  injection Hr' as <- <-. by apply Hok.
Qed.

Lemma node_initial_inv n : Node.initial cfg arc σ n -> node_inv n.
Proof.
  intros [Hcl Hiss Hlog Hp Hpe Hl Hg Hn Hs Hc]. split; try done.
  - exists (Node.sys n). split; [|constructor]. split; try done.
    destruct (reachable_ok cfg arc σ _ Hn) as [(ops & out & Hrun & Hsends) _ _ _ _ _ _ _ _ _].
    exists cfg, arc, σ, ops, out. by rewrite <-Hc, Hsends.
  - rewrite Hs, Hiss. done.
Qed.

Lemma node_reachable_inv n : Node.reachable cfg arc σ n -> node_inv n.
Proof.
  induction 1 as [n Hi|n x n' _ IH Hen Hr]; [by apply node_initial_inv|].
  by apply (node_step n x n').
Qed.
End NodeSteps.
