(* ===== verification/NodeProps.v ===== *)
(** * Properties of a node with its connections

    The halves of a node keep each other's contracts, and it does not panic. *)
From S2P Require Import Prelude Externals Instances FileGetTypes Streams Protocol Handler HandlerProps Behaviour Ledger BehaviourLemmas BehaviourTracking BehaviourRefinement Links LinksViews LinksInvariant LinksSteps LinksProps Error Command NetworkTypes EventLoop Network NetworkInstances System SystemInvariant SystemSteps SystemProps Node.

Section NodeProps.
Context `{Libp2p, Platform, HashOrder, !FileSystem}.
Context `{!FuturesUnordered InboundFut InboundOut ChanEnv}.
Context `{!FuturesUnorderedLaws InboundFut InboundOut ChanEnv Handler.map_ok_inbound}.

(** C5: The composition is sound: at every reachable state of a node whose
    event loop, [FileGet] and connection handlers run together, both halves have
    the same [FileGet]; the event loop with it is at a state that [System.v]
    reaches, every call made by the handlers having respected the contract of
    [FileGet]; and the connections are at a state that [Links.v] reaches, every
    request having been sent by a [get@].  So the theorems on the event loop and
    those on the connections hold of it, with nothing assumed about the state
    of [FileGet]. *)
Theorem node_composes cfg arc σ n (Hreach : Node.reachable cfg arc σ n) :
  System.reachable (Node.sys n) /\ Net.reachable cfg arc σ (Node.net n) /\
  Node.coupled n /\ Net.sent (Node.net n) <= Z.of_nat (length (issued (Node.sys n))).
Proof. by destruct (node_reachable_inv cfg arc σ n Hreach). Qed.

(** C8: The node never panics: at every reachable state, whatever happens next,
    its reaction returns, and unless it fails with an error the node goes on
    from a reachable state.  In particular every response of [FileGet] finds its
    request and its command, that command is a [get@], and the [expect]s and
    debug assertions of [FileGet] hold because of what the handlers do. *)
Theorem node_never_panics cfg arc σ n x
    (Hreach : Node.reachable cfg arc σ n) (Hen : Node.enabled x n) :
  exists r n', Node.react x n = Return (r, n') /\
    (r = Ok tt -> Node.reachable cfg arc σ n').
Proof.
  destruct (node_react_fine cfg arc σ n x (node_reachable_inv cfg arc σ n Hreach) Hen)
    as (r & n' & Hr & _).
  exists r, n'. split; [done|]. intros ->. by eapply Node.reachable_step.
Qed.
End NodeProps.

(** * Witnesses

    The session of [SystemProps.v] with the connection of [LinksProps.v]: bob is
    discovered, asked for a file, connected to, and his answer arrives. *)
Section NodeWitnesses.
#[local] Existing Instances numExt numLibp2p debug64 canonicalOrder numFileSystem numSetup.
#[local] Existing Instance numLibp2p_laws.
#[local] Existing Instances wire_fu wire_laws.

Definition node_store : Store := fun _ => RequestIdGenerator.new.
Abbreviation node_reachable := (Node.reachable me_config (mkArc 1) node_store).

Definition node_start : Node.t := Node.mk session_start (Net.init me_config (mkArc 1) node_store).

(** A script: commands, turns of [FileGet], events of the other behaviours, and
    lines of a script of the connections. *)
Inductive NodeLine : Type :=
| Ask (command : Command.t) (tx : CommandSender)
| Turn
| Hear (event : SwarmEvent.t)
| OnNet (l : LinksProps.Line).

Definition node_label (l : NodeLine) (n : Node.t) : Node.Label :=
  match l with
  | Ask command tx => Node.UserCommand command tx
  | Turn => Node.FileGetPoll
  | Hear event => Node.SwarmEvented (EventLoop.swarm (EventLoop.loop (world (Node.sys n)))) event
  | OnNet l => Node.Connections (label_of l)
  end.

Definition node_line_enabled (l : NodeLine) (n : Node.t) : bool :=
  match l with
  | Ask command tx => line_allowed (SystemProps.Do (UserCommand command tx)) (Node.sys n)
  | Turn => true
  | Hear event => line_allowed (Event event) (Node.sys n)
  | OnNet l => Node.is_connection_label (label_of l) && line_enabled l (Node.net n)
  end.

Lemma node_line_enabled_sound l n :
  node_line_enabled l n = true -> Node.enabled (node_label l n) n.
Proof.
  destruct l as [command tx| |event|l]; cbn [node_line_enabled node_label].
  - exact (line_allowed_sound (SystemProps.Do (UserCommand command tx)) (Node.sys n)).
  - done.
  - exact (line_allowed_sound (Event event) (Node.sys n)).
  - intros [? Hl]%andb_true_iff. split; [done|]. by apply line_enabled_sound.
Qed.

Fixpoint play_node (script : list NodeLine) (n : Node.t) : option Node.t :=
  match script with
  | [] => Some n
  | l :: script =>
      if node_line_enabled l n then
        match Node.react (node_label l n) n with
        | Return (Ok _, n') => play_node script n'
        | _ => None
        end
      else None
  end.

Lemma play_node_sound script n n' :
  node_reachable n -> play_node script n = Some n' -> node_reachable n'.
Proof.
  revert n. induction script as [|l script IH]; intros n Hn; simpl; [by intros [= <-]|].
  destruct (node_line_enabled l n) eqn:He; [|done].
  destruct (Node.react (node_label l n) n) as [[[[]|] n1]|] eqn:Hr; [|done..].
  apply IH. eapply Node.reachable_step; [done|by apply node_line_enabled_sound|done].
Qed.

Lemma node_start_reachable : node_reachable node_start.
Proof. apply Node.reachable_initial. split; try done. constructor. Qed.

Definition node_final (script : list NodeLine) : Node.t := default node_start (play_node script node_start).
Definition node_plays (script : list NodeLine) : bool :=
  match play_node script node_start with Some _ => true | None => false end.

Lemma node_final_reachable script : node_plays script = true -> node_reachable (node_final script).
Proof.
  unfold node_plays, node_final. destruct (play_node script node_start) as [n|] eqn:E; [|done].
  intros _. simpl. by apply (play_node_sound script node_start n node_start_reachable).
Qed.

Definition fetch : list NodeLine :=
  [Hear discovery; Ask (Command.new_get_file (str "bob") (str "a.txt")) (101 : CommandSender); Turn;
   OnNet (LinksProps.Do (Net.Connect seven one (ConnectedPoint.Dialer (0 : Multiaddr)))); Turn;
   OnNet (LinksProps.Do (Net.Deliver seven one)); OnNet (QuietPoll seven one);
   OnNet (LinksProps.Do (Net.OutboundDone seven one (mkRequestId 1) (Ok tt))); OnNet (QuietPoll seven one);
   OnNet (LinksProps.Do (Net.Report seven one))].

Lemma fetch_plays : node_plays fetch = true.
Proof. vm_compute. reflexivity. Qed.

Lemma node_composes_witness :
  System.reachable (Node.sys (node_final fetch)) /\ Node.coupled (node_final fetch).
Proof.
  destruct (node_composes me_config (mkArc 1) node_store (node_final fetch)
    (node_final_reachable fetch fetch_plays)) as (Hs & _ & Hc & _). split; [exact Hs|exact Hc].
Defined.

(** The turn that answers the [get@]. *)
Lemma node_never_panics_witness : exists r n',
  Node.react Node.FileGetPoll (node_final fetch) = Return (r, n') /\
  (r = Ok tt -> node_reachable n').
Proof.
  exact (node_never_panics me_config (mkArc 1) node_store (node_final fetch) Node.FileGetPoll
    (node_final_reachable fetch fetch_plays) I).
Defined.

(** The file is in: the user is answered. *)
Example fetch_answers :
  responded (EventLoop.log (world (Node.sys (node_final (fetch ++ [Turn]))))) = [101 : CommandSender].
Proof. vm_compute. reflexivity. Qed.
End NodeWitnesses.
