(* ===== verification/Transfer.v ===== *)
(** * A file from one node to another

    Two nodes of [Node.v] with a connection between them and the substream of
    [Protocol.v] on it.  The requester's side and the responder's side of one
    [get@], each from a state in which it has nothing to do with the other. *)
From S2P Require Import Prelude Externals FileGetTypes Streams Protocol Handler HandlerProps Behaviour Ledger BehaviourLemmas BehaviourTracking BehaviourRefinement Links LinksViews LinksInvariant LinksSteps Error Command NetworkTypes EventLoop Network System SystemInvariant SystemSteps Node.

Section Transfer.
Context `{Libp2p, Platform, HashOrder, !FileSystem}.
Context `{!FuturesUnordered InboundFut InboundOut ChanEnv}.
Context `{!FuturesUnorderedLaws InboundFut InboundOut ChanEnv Handler.map_ok_inbound}.
Context `{!FuturesUnorderedLive InboundFut InboundOut ChanEnv Handler.map_ok_inbound}.

(** ** Reactions the application does not hear of *)
Definition silent (x : Net.Label) (n : Net.t) : Prop :=
  match x with
  | Net.Send _ _ _ => False
  | Net.Poll => forall event s, FileGet.poll (Net.file_get n) <> (Ready (FileGet.GenerateEvent event), s)
  | _ => True
  end.

Inductive silently : Net.t -> list Net.Label -> Net.t -> Prop :=
| silently_nil n : silently n [] n
| silently_cons n x n1 xs n2 :
    silent x n -> Net.enabled x n -> Net.react x n = Return n1 -> silently n1 xs n2 ->
    silently n (x :: xs) n2.

Lemma silently_app n1 xs n2 ys n3 : silently n1 xs n2 -> silently n2 ys n3 -> silently n1 (xs ++ ys) n3.
Proof. induction 1; simpl; [done|]. intros Hy. econstructor; eauto. Qed.

(** The label of the node for it. *)
Definition lift (x : Net.Label) : Node.Label :=
  match x with Net.Poll => Node.FileGetPoll | x => Node.Connections x end.

(** A run of a node: what happens is enabled, and nothing fails. *)
Inductive node_runs : Node.t -> list Node.Label -> Node.t -> Prop :=
| node_runs_nil n : node_runs n [] n
| node_runs_cons n x n1 xs n2 :
    Node.enabled x n -> Node.react x n = Return (Ok tt, n1) -> node_runs n1 xs n2 ->
    node_runs n (x :: xs) n2.

Lemma node_runs_app n1 xs n2 ys n3 :
  node_runs n1 xs n2 -> node_runs n2 ys n3 -> node_runs n1 (xs ++ ys) n3.
Proof. induction 1; simpl; [done|]. intros Hy. econstructor; eauto. Qed.

Lemma node_runs_one n x n' :
  Node.enabled x n -> Node.react x n = Return (Ok tt, n') -> node_runs n [x] n'.
Proof. intros. econstructor; [done..|constructor]. Qed.

Lemma node_runs_reachable node_cfg arc σ n xs n' :
  Node.reachable node_cfg arc σ n -> node_runs n xs n' -> Node.reachable node_cfg arc σ n'.
Proof. intros Hn Hr. induction Hr; [done|]. eauto using Node.reachable_step. Qed.

(** The node with the state of its net. *)
Definition with_net (n : Node.t) (net' : Net.t) : Node.t :=
  Node.mk (mkSys (set_world_file_get (Net.file_get net') (world (Node.sys n)))
    (client (Node.sys n)) (issued (Node.sys n))) net'.

Lemma with_net_with_net n net1 net2 : with_net (with_net n net1) net2 = with_net n net2.
Proof. done. Qed.

Lemma with_net_same n : Node.coupled n -> with_net n (Node.net n) = n.
Proof.
  unfold Node.coupled, with_net. intros ->. rewrite set_world_file_get_same.
  destruct n as [[] ?]. done.
Qed.

Lemma node_silent_step n x net' :
  Node.coupled n -> silent x (Node.net n) -> Net.react x (Node.net n) = Return net' ->
  Node.react (lift x) n = Return (Ok tt, with_net n net').
Proof.
  intros Hc Hs Hr. destruct x; try done; unfold lift, Node.react; try (rewrite Hr; done).
  unfold System.react. rewrite <-Hc, Hr.
  pose proof (react_call _ _ _ Hr) as [o Ho]. simpl in Ho.
  destruct (FileGet.poll (Net.file_get (Node.net n))) as [[[ev|p h|p c rq]|] s] eqn:E;
    [by destruct (Hs ev s)|..]; injection Ho as _ Ho; unfold with_net; by rewrite <-Ho.
Qed.

Lemma lift_enabled x n : silent x (Node.net n) -> Net.enabled x (Node.net n) -> Node.enabled (lift x) n.
Proof. by destruct x. Qed.

Lemma node_silently n xs net' :
  Node.coupled n -> silently (Node.net n) xs net' -> node_runs n (lift <$> xs) (with_net n net').
Proof.
  intros Hc Hs. remember (Node.net n) as net eqn:E. revert n Hc E.
  induction Hs as [net|net x net1 xs net2 Hx He Hr Hs IH]; intros n Hc ->; csimpl.
  - rewrite with_net_same by done. constructor.
  - eapply node_runs_cons; [by apply lift_enabled|by apply (node_silent_step n x net1)|].
    exact (IH (with_net n net1) eq_refl eq_refl).
Qed.

(** The timeout of the handlers, and that no deadline lies beyond the clock. *)
Context (cfg : FileGetConfig) (now : Z).
Context (Hduration : timeout cfg * 2 <= DURATION_MAX) (Hclock : now + timeout cfg * 2 <= instant_max).

Definition in_time (l : Link.t) : Prop := Handler.timeout (Link.handler l) = timeout cfg.

(** ** A net that has nothing to do with a peer and nothing queued

    [c] is the connection to come. *)
Record quiet (p : PeerId) (c : ConnectionId) (n : Net.t) : Prop := {
  quiet_queue : queued (Net.file_get n) = [];
  quiet_connected : FileGet.connected (Net.file_get n) !! p = None;
  quiet_pending : FileGet.pending_outbound_requests (Net.file_get n) !! p = None;
  quiet_established : Net.established n p = [];
  quiet_unused : (p, c) ∉ Net.used n;
  quiet_config : FileGet.config (Net.file_get n) = cfg;
}.

(** No request has arrived anywhere. *)
Definition no_requests : ChanEnv := fun _ => None.

(** The link of a new connection. *)
Definition fresh_link (s : FileGet.t) : Link.t := Link.open (FileGet.new_handler s).

Lemma set_link_eq p c o n : Net.links (Net.set_link p c o n) p c = o.
Proof. simpl. by rewrite decide_True. Qed.

(** ** The requester *)

(** What the requester does up to opening a substream for its request. *)
Definition ask_script (p : PeerId) (c : ConnectionId) (a : Multiaddr) :
    list Net.Label :=
  [Net.Poll; Net.Connect p c (ConnectedPoint.Dialer a); Net.Poll; Net.Deliver p c;
   Net.PollHandler p c now no_requests].

(** What it does when the substream has been upgraded. *)
Definition hear_script (p : PeerId) (c : ConnectionId) (r : RequestId) : list Net.Label :=
  [Net.OutboundDone p c r (Ok tt); Net.PollHandler p c now no_requests; Net.Report p c].

(** The substream of [rq] is open, and nothing else is going on. *)
Record asking (p : PeerId) (c : ConnectionId) (rq : FileGetOutboundProtocol.t) (n : Net.t) : Prop := {
  asking_queue : queued (Net.file_get n) = [];
  asking_inflight : inflight (Net.file_get n) p c (FileGetOutboundProtocol.request_id rq);
  asking_link : exists l, Net.links n p c = Some l /\ Link.dialling l = [rq] /\
    Link.outbox l = [] /\ Handler.pending_error (Link.handler l) = None /\
    vd_items (Handler.pending_events (Link.handler l)) = [] /\ in_time l;
}.

(** The phases in between. *)
Record waiting_for (p : PeerId) (c : ConnectionId) (rq : FileGetOutboundProtocol.t) (q : list FileGet.Action) (n : Net.t) : Prop := {
  waiting_queue : queued (Net.file_get n) = q;
  waiting_connected : FileGet.connected (Net.file_get n) !! p = None;
  waiting_pending : FileGet.pending_outbound_requests (Net.file_get n) !! p = Some [rq];
  waiting_established : Net.established n p = [];
  waiting_unused : (p, c) ∉ Net.used n;
  waiting_config : FileGet.config (Net.file_get n) = cfg;
}.

Record sending (p : PeerId) (c : ConnectionId) (rq : FileGetOutboundProtocol.t)
    (q : list FileGet.Action) (l : Link.t) (n : Net.t) : Prop := {
  sending_queue : queued (Net.file_get n) = q;
  sending_inflight : inflight (Net.file_get n) p c (FileGetOutboundProtocol.request_id rq);
  sending_link : Net.links n p c = Some l;
  sending_in_time : in_time l;
}.

Lemma poll_ready s a q : queued s = a :: q -> exists s',
  FileGet.poll s = (Ready a, s') /\ queued s' = q /\ FileGet.connected s' = FileGet.connected s /\
  FileGet.pending_outbound_requests s' = FileGet.pending_outbound_requests s /\
  FileGet.config s' = FileGet.config s.
Proof.
  unfold queued, FileGet.poll, pop_front. intros ->. eexists. split; [reflexivity|]. done.
Qed.

Lemma inflight_same_connections s s' p c r :
  FileGet.connected s' = FileGet.connected s -> inflight s p c r -> inflight s' p c r.
Proof. unfold inflight, FileGet.find_connection. by intros ->. Qed.

Lemma enabled_poll p c l n :
  Net.links n p c = Some l -> in_time l -> Net.enabled (Net.PollHandler p c now no_requests) n.
Proof. intros Hl Ht l' Hl'. assert (l' = l) as -> by congruence. rewrite Ht. done. Qed.

Lemma send_phase p c f w n :
  quiet p c n ->
  let rq := FileGetOutboundProtocol.mk
    (RequestIdGenerator.next_id (FileGet.requset_id_generator (Net.file_get n))).1 f w in
  exists n1 h, Net.react (Net.Send p (FileGetMessage_new f) w) n = Return n1 /\
    waiting_for p c rq [FileGet.Dial p h] n1.
Proof.
  intros [Hq Hc Hp He Hu Hcf] rq. eexists _, (FileGet.new_handler (Net.file_get n)). split.
  - cbn. unfold FileGet.send_request, FileGet.try_send_request. cbn. rewrite Hc. cbn. reflexivity.
  - split; [|done| |done..].
    + change (queued (FileGet.push_action (FileGet.Dial p (FileGet.new_handler (Net.file_get n))) (Net.file_get n)) =
        [FileGet.Dial p (FileGet.new_handler (Net.file_get n))]).
      by rewrite queued_push_action, Hq.
    + cbn. by rewrite Hp, lookup_insert_eq.
Qed.

Lemma dial_phase p c rq h n :
  waiting_for p c rq [FileGet.Dial p h] n ->
  exists n1, silently n [Net.Poll] n1 /\ waiting_for p c rq [] n1.
Proof.
  intros [Hq Hc Hp He Hu Hcf]. destruct (poll_ready _ _ _ Hq) as (s' & Hs & Hq' & Hc' & Hp' & Hcf').
  exists (Net.set_file_get s' n). split.
  - eapply silently_cons; [|done|cbn; by rewrite Hs|constructor]. intros ev s. by rewrite Hs.
  - split; cbn; [done|by rewrite Hc'|by rewrite Hp'|done..|by rewrite Hcf'].
Qed.

Lemma connect_phase p c a rq n :
  waiting_for p c rq [] n ->
  exists n1, silently n [Net.Connect p c (ConnectedPoint.Dialer a)] n1 /\
    sending p c rq [FileGet.NotifyHandler p c rq] (fresh_link (Net.file_get n)) n1.
Proof.
  intros [Hq Hc Hp He Hu Hcf]. eexists. split.
  - eapply silently_cons; [done|done| |constructor].
    cbn. unfold FileGet.on_connection_established. rewrite He, Hc. cbn.
    rewrite Hp. cbn. unfold FileGet.try_send_request. cbn. rewrite lookup_insert_eq. cbn.
    rewrite Z.mod_1_r. cbn. reflexivity.
  - split.
    + cbn. change (queued (FileGet.push_action (FileGet.NotifyHandler p c rq) (Net.file_get n)) =
        [FileGet.NotifyHandler p c rq]). by rewrite queued_push_action, Hq.
    + unfold inflight, FileGet.find_connection. cbn. rewrite lookup_insert_eq. cbn.
      eexists. unfold Connection.has_id. change (Z.to_nat 0) with 0%nat. cbn.
      rewrite bool_decide_true by done.
      split; [reflexivity|]. set_solver.
    + cbn. by rewrite decide_True.
    + unfold in_time. cbn. by rewrite Hcf.
Qed.

Lemma notify_phase p c rq l n :
  sending p c rq [FileGet.NotifyHandler p c rq] l n ->
  exists n1, silently n [Net.Poll] n1 /\
    sending p c rq [] (Link.set_inbox (Link.inbox l ++ [rq]) l) n1.
Proof.
  intros [Hq Hi Hl Ht]. destruct (poll_ready _ _ _ Hq) as (s' & Hs & Hq' & Hc' & _).
  eexists. split.
  - eapply silently_cons; [|done|cbn; rewrite Hs; reflexivity|constructor]. intros ev s. by rewrite Hs.
  - unfold Net.on_link. cbn. rewrite Hl. split; cbn; [done| |by rewrite decide_True|done].
    by eapply inflight_same_connections.
Qed.

(** A change of the link alone. *)
Lemma link_phase p c rq l l' x n :
  sending p c rq [] l n -> silent x n -> Net.enabled x n -> in_time l' ->
  Net.react x n = Return (Net.set_link p c (Some l') n) ->
  exists n1, silently n [x] n1 /\ sending p c rq [] l' n1.
Proof.
  intros [Hq Hi Hl Ht] Hx He Ht' Hr. eexists. split; [by eapply silently_cons; [..|constructor]|].
  split; [done|done|apply set_link_eq|done].
Qed.

Lemma deliver_phase p c rq rqs l n :
  sending p c rq [] l n -> Link.inbox l = rq :: rqs ->
  exists n1, silently n [Net.Deliver p c] n1 /\
    sending p c rq [] (Link.set_inbox rqs (Link.set_handler (Handler.on_behaviour_event rq (Link.handler l)) l)) n1.
Proof.
  intros Hs Hi. apply (link_phase p c rq l); [done..|exact (sending_in_time _ _ _ _ _ _ Hs)|]. cbn. unfold Net.on_link.
  rewrite (sending_link _ _ _ _ _ _ Hs). unfold Link.deliver. by rewrite Hi.
Qed.

Lemma open_phase p c rq l n :
  sending p c rq [] l n -> Handler.pending_error (Link.handler l) = None ->
  vd_items (Handler.pending_events (Link.handler l)) = [] ->
  vd_items (Handler.outbound (Link.handler l)) = [rq] -> Link.dialling l = [] -> Link.outbox l = [] ->
  exists n1, silently n [Net.PollHandler p c now no_requests] n1 /\ asking p c rq n1.
Proof.
  intros Hs He Hev Ho Hd Hob.
  set (h := Handler.set_outbound (mkVecDeque [] (vd_capacity (Handler.outbound (Link.handler l))))
    (Link.handler l)).
  destruct (link_phase p c rq l (Link.set_dialling (Link.dialling l ++ [rq]) (Link.set_handler h l))
    (Net.PollHandler p c now no_requests) n Hs) as (n1 & Hn & [Hq Hi Hl Ht]).
  - done.
  - by destruct Hs; eapply enabled_poll.
  - exact (sending_in_time _ _ _ _ _ _ Hs).
  - cbn. rewrite (sending_link _ _ _ _ _ _ Hs). unfold Link.poll.
    rewrite poll_unfold, He, Hev, Ho. reflexivity.
  - exists n1. split; [done|]. split; [done|done|]. eexists. split; [exact Hl|]. cbn. by rewrite Hd.
Qed.

(** ** The requester, up to opening a substream *)
Lemma ask_phase p c a f w n :
  quiet p c n ->
  let rq := FileGetOutboundProtocol.mk
    (RequestIdGenerator.next_id (FileGet.requset_id_generator (Net.file_get n))).1 f w in
  exists n1 n2, Net.react (Net.Send p (FileGetMessage_new f) w) n = Return n1 /\
    silently n1 (ask_script p c a) n2 /\ asking p c rq n2.
Proof.
  intros Hq rq. destruct (send_phase p c f w n Hq) as (n1 & h & Hr & H1'). fold rq in H1'.
  destruct (dial_phase p c rq h n1 H1') as (n2 & Hs2 & H2').
  destruct (connect_phase p c a rq n2 H2') as (n3 & Hs3 & H3').
  destruct (notify_phase p c rq _ n3 H3') as (n4 & Hs4 & H4').
  destruct (deliver_phase p c rq [] _ n4 H4') as (n5 & Hs5 & H5'); [done|].
  destruct (open_phase p c rq _ n5 H5') as (n6 & Hs6 & H6'); [done..|].
  exists n1, n6. split_and!; [done| |done].
  change (ask_script p c a) with ([Net.Poll] ++ [Net.Connect p c (ConnectedPoint.Dialer a)] ++
    [Net.Poll] ++ [Net.Deliver p c] ++ [Net.PollHandler p c now no_requests]).
  eauto using silently_app.
Qed.

(** ** The requester, when the substream is done *)
Lemma debug_assert_true msg : debug_assert debug_assertions true msg = Return tt.
Proof. unfold debug_assert. by destruct debug_assertions. Qed.

Lemma hear_phase p c rq n :
  asking p c rq n ->
  exists n1, silently n (hear_script p c (FileGetOutboundProtocol.request_id rq)) n1 /\
    queued (Net.file_get n1) =
      [FileGet.GenerateEvent (FileGetEvent.ResponseReceived p (FileGetOutboundProtocol.request_id rq))].
Proof.
  intros [Hq (conn & Hfind & Hin) (l & Hl & Hd & Hob & He & Hev & Ht)].
  eexists. split.
  - unfold hear_script. eapply silently_cons; [done| |reflexivity|].
    { exists l. split; [done|]. unfold Link.dialling_ids. rewrite Hd. left. }
    eapply silently_cons; [done| | |].
    { eapply enabled_poll; [cbn; unfold Net.on_link; rewrite Hl; cbn; by rewrite decide_True|exact Ht]. }
    { cbn. unfold Net.on_link. rewrite Hl. cbn. rewrite decide_True by done.
      unfold Link.poll. cbn. rewrite poll_unfold. cbn. rewrite He, Hev. cbn. reflexivity. }
    eapply silently_cons; [done|done| |constructor].
    cbn. rewrite decide_True by done. cbn. rewrite Hob. cbn.
    unfold FileGet.remove_pending_inbound_response. rewrite Hfind.
    rewrite (bool_decide_eq_true_2 _ Hin), debug_assert_true. cbn. reflexivity.
  - match goal with |- queued (Net.file_get (Net.set_link _ _ _ (Net.set_file_get ?s _))) = _ =>
      change (queued s = [FileGet.GenerateEvent (FileGetEvent.ResponseReceived p (FileGetOutboundProtocol.request_id rq))]) end.
    unfold FileGet.push_event. rewrite queued_push_action.
    change (queued (Net.file_get n) ++ [FileGet.GenerateEvent (FileGetEvent.ResponseReceived p (FileGetOutboundProtocol.request_id rq))] =
      [FileGet.GenerateEvent (FileGetEvent.ResponseReceived p (FileGetOutboundProtocol.request_id rq))]).
    by rewrite Hq.
Qed.

(** ** The responder *)

(** Its side of the connection, and the substream the requester opens. *)
Definition accept_script (p : PeerId) (c : ConnectionId) (req_chan : ReqSender * ReqReceiver)
    (res_chan : ResSender * ResReceiver) : list Net.Label :=
  [Net.Connect p c ConnectedPoint.Listener; Net.OpenInbound p c req_chan res_chan].

(** The request that the upgrade sent into its channel, passed on. *)
Definition serve_script (p : PeerId) (c : ConnectionId) (env : ChanEnv) : list Net.Label :=
  [Net.PollHandler p c now env; Net.Report p c].

(** The channels of requests when [m] has been sent into one of them. *)
Definition sent_into (rx : ReqReceiver) (m : RequestId * FileGetMessage) : ChanEnv :=
  fun rx' => if decide (rx' = rx) then Some (Ok m) else None.

(** The substream of [q] is open, with its channels, and nothing else is going
    on. *)
Record accepting (p : PeerId) (c : ConnectionId) (rx : ReqReceiver) (tx : ResSender)
    (q : FileGetInboundProtocol.t) (n : Net.t) : Prop := {
  accepting_queue : queued (Net.file_get n) = [];
  accepting_connection : is_Some (FileGet.find_connection p c (Net.file_get n));
  accepting_link : exists l, Net.links n p c = Some l /\ Link.serving l = [q] /\
    Link.outbox l = [] /\ Handler.pending_error (Link.handler l) = None /\
    vd_items (Handler.pending_events (Link.handler l)) = [] /\
    vd_items (Handler.outbound (Link.handler l)) = [] /\
    Handler.inbound (Link.handler l) = fu_push (rx, tx) fu_new /\ in_time l /\
    Link.channels l = [(FileGetInboundProtocol.request_id q, rx)];
}.

Lemma accept_phase p c req_chan res_chan n :
  quiet p c n -> Net.opened n + 2 < two64 ->
  exists n1 r, silently n (accept_script p c req_chan res_chan) n1 /\
    accepting p c req_chan.2 res_chan.1
      (FileGetInboundProtocol.new req_chan.1 res_chan.2 r) n1.
Proof.
  intros [Hq Hc Hp He Hu Hcf] Hop. destruct req_chan as [rtx rrx], res_chan as [stx srx].
  eexists _, _. split.
  - unfold accept_script. eapply silently_cons; [done|done| |].
    { cbn. unfold FileGet.on_connection_established. rewrite He, Hc. cbn. rewrite Hp. cbn. reflexivity. }
    eapply silently_cons; [done|done| |constructor].
    cbn. rewrite decide_True by done. cbn. reflexivity.
  - split.
    + exact Hq.
    + unfold FileGet.find_connection. cbn. rewrite lookup_insert_eq. cbn.
      unfold Connection.has_id. cbn. rewrite bool_decide_true by done. by eexists.
    + eexists. cbn. rewrite decide_True by done. split; [reflexivity|]. cbn.
      unfold in_time. cbn. by rewrite Hcf.
Qed.

Lemma fu_poll_single env f o :
  Handler.map_ok_inbound env f = Some o ->
  exists q, fu_poll_next env (fu_push f fu_new : fu InboundFut InboundOut ChanEnv) = (Ready (Some o), q).
Proof.
  intros Ho. pose proof (fu_futures_push f (fu_new : fu InboundFut InboundOut ChanEnv)) as Hf.
  rewrite fu_futures_new in Hf.
  destruct (fu_poll_ready env f o (fu_push f fu_new) Ho) as (o' & q & Hq).
  { rewrite Hf. left. }
  exists q. destruct (fu_poll_some _ _ _ _ Hq) as (f' & Ho' & Hf').
  assert (f' = f) as ->; [|congruence].
  apply list_elem_of_singleton. rewrite <-Hf, Hf'. left.
Qed.

Lemma serve_phase p c rx tx q m n :
  accepting p c rx tx q n ->
  exists n1, silently n (serve_script p c (sent_into rx (FileGetInboundProtocol.request_id q, m))) n1 /\
    queued (Net.file_get n1) = [FileGet.GenerateEvent
      (FileGetEvent.RequestReceived p (FileGetInboundProtocol.request_id q) m tx)].
Proof.
  intros [Hq [conn Hconn] (l & Hl & Hd & Hob & He & Hev & Ho & Hin & Ht & Hch)].
  set (r := FileGetInboundProtocol.request_id q) in *.
  destruct (fu_poll_single (sent_into rx (r, m)) (rx, tx) (Ok ((r, m), tx))) as [fs Hfs].
  { unfold Handler.map_ok_inbound, sent_into. cbn. by rewrite decide_True. }
  eexists. split.
  - unfold serve_script. eapply silently_cons; [done| | |].
    { intros l' Hl'. assert (l' = l) as -> by congruence. rewrite Ht. split_and!; [done..|].
      intros rx' m'. unfold sent_into. case_decide; [|done]. intros [= <-]. subst rx'. rewrite Hch. left. }
    { cbn. rewrite Hl. unfold Link.poll. rewrite poll_unfold, He, Hev, Ho. unfold Handler.poll_inbound.
      rewrite Hin, Hfs. cbn. reflexivity. }
    eapply silently_cons; [done|done| |constructor].
    cbn. rewrite decide_True by done. cbn. rewrite Hob. cbn.
    change (FileGet.find_connection p c (FileGet.push_event ?ev (Net.file_get n)))
      with (FileGet.find_connection p c (Net.file_get n)).
    rewrite Hconn. cbn. reflexivity.
  - match goal with |- queued (Net.file_get (Net.set_link _ _ _ (Net.set_file_get ?s _))) = [?x] =>
      change (queued (FileGet.push_action x (Net.file_get n)) = [x]) end.
    by rewrite queued_push_action, Hq.
Qed.
End Transfer.
