(* ===== verification/TransferProps.v ===== *)
(** * The end-to-end theorem

    A [get@] between two nodes: the answer of the requester and the contents of
    its file. *)
From S2P Require Import Prelude Externals Instances FileGetTypes Streams StreamInstances Protocol ProtocolProps Handler HandlerProps Behaviour Ledger BehaviourLemmas BehaviourTracking BehaviourRefinement Links LinksViews LinksInvariant LinksSteps LinksProps Error Command NetworkTypes EventLoop Network NetworkInstances System SystemInvariant SystemSteps SystemProps Node NodeProps Transfer.
Import EventLoop.

Section TransferProps.
Context `{Libp2p, Platform, HashOrder, !FileSystem}.
Context `{!FuturesUnordered InboundFut InboundOut ChanEnv}.
Context `{!FuturesUnorderedLaws InboundFut InboundOut ChanEnv Handler.map_ok_inbound}.
Context `{!FuturesUnorderedLive InboundFut InboundOut ChanEnv Handler.map_ok_inbound}.

(** ** The requester *)

Definition loop_of (n : Node.t) : EventLoop.t := loop (world (Node.sys n)).
Definition node_log (n : Node.t) : list Effect := log (world (Node.sys n)).

(** The command of a [get@] and its file request are noted. *)
Record noted (r : RequestId) (c : CommandRequest.t) (n : Node.t) : Prop := {
  noted_coupled : Node.coupled n;
  noted_get : pending_file_gets (loop_of n) !! r = Some (CommandRequest.command_request_id c);
  noted_command : pending_command_requests (loop_of n) !! CommandRequest.command_request_id c = Some c;
}.

Lemma noted_with_net r c n net' : noted r c n -> noted r c (with_net n net').
Proof. intros [Hc Hg Hp]. by split. Qed.

Lemma get_request u f tx c :
  let request := (Client.send_command (Command.new_get_file u f) tx Waits c).1.1 in
  CommandRequest.command request = Command.GetFile (GetFile.new u f) /\
  CommandRequest.response_sender request = tx.
Proof. unfold Client.send_command. by destruct (CommandRequestIdGenerator.next_id _). Qed.

Lemma get_command_node a u f tx p w fs' n1 :
  Node.coupled a -> get_peer_id u (loop_of a) = Some p ->
  fs_open_create (path_push (sharing_dir (loop_of a)) f) (fs (world (Node.sys a))) = (Ok w, fs') ->
  Net.react (Net.Send p (FileGetMessage_new f) w) (Node.net a) = Return n1 ->
  let request := (Client.send_command (Command.new_get_file u f) tx Waits (client (Node.sys a))).1.1 in
  exists a1, Node.react (Node.UserCommand (Command.new_get_file u f) tx) a = Return (Ok tt, a1) /\
    Node.net a1 = n1 /\ node_log a1 = node_log a /\
    noted (RequestIdGenerator.next_id (FileGet.requset_id_generator (Net.file_get (Node.net a)))).1 request a1.
Proof.
  intros Hc Hpeer Hopen Hsend. pose proof (react_call _ _ _ Hsend) as [o Ho]. cbn in Ho.
  apply exec_bind_Return in Ho as ([r s] & Hs & Hk). injection Hk as _ Hfg.
  pose proof (send_request_id p (FileGetMessage_new f) w (Net.file_get (Node.net a))) as Hid.
  rewrite Hs in Hid. subst r. cbv zeta.
  unfold Node.react, System.react. destruct (Client.send_command _ _ _ _) as [[req b] c'] eqn:Ereq.
  assert (CommandRequest.command req = Command.new_get_file u f) as Hcmd
    by (unfold Client.send_command in Ereq; destruct (CommandRequestIdGenerator.next_id _); by injection Ereq as <- _ _).
  assert (Node.request_of (Command.new_get_file u f) (world (Node.sys a)) =
    Some (p, FileGetMessage_new f, w)) as Hrequest.
  { unfold Node.request_of, Command.new_get_file. cbn [GetFile.user_name GetFile.file_name GetFile.new].
    unfold loop_of in *. rewrite Hpeer. cbn [mbind option_bind]. by rewrite Hopen. }
  rewrite Hrequest, Hsend. unfold Node.coupled, world_file_get in Hc. rewrite Hc in Hs. unfold loop_of in *.
  unfold run_handler, handle_input, handle_command. rewrite Hcmd. run_m.
  rewrite Hopen. run_m. rewrite Hpeer. run_m. rewrite Hs. run_m.
  eexists. split; [reflexivity|]. split; [done|]. split; [done|]. split.
  - unfold Node.coupled. cbn. by rewrite <-Hfg.
  - cbn. by rewrite Hc, lookup_insert_eq.
  - cbn. rewrite lookup_insert_eq. f_equal. destruct req. cbn in Hcmd |- *. by subst.
Qed.

(** The poll that passes a response on, and its handler. *)
Lemma answer_node a p r c g :
  noted r c a -> CommandRequest.command c = Command.GetFile g ->
  queued (Net.file_get (Node.net a)) = [FileGet.GenerateEvent (FileGetEvent.ResponseReceived p r)] ->
  exists a1, Node.react Node.FileGetPoll a = Return (Ok tt, a1) /\
    node_log a1 = node_log a ++ [Respond (CommandRequest.response_sender c)
      (Ok (CommandResponse.mk (CommandRequest.command_request_id c)
        (CommandResult.GetFile (GetFile.user_name g) (GetFile.file_name g))))].
Proof.
  intros [Hc Hg Hp] Hcmd Hq. destruct (poll_ready _ _ _ Hq) as (s & Hs & _).
  unfold Node.react, System.react. unfold Node.coupled in Hc. rewrite <-Hc, Hs.
  unfold run_handler, handle_input, handle_event, ComposedEvent.from, ComposedEvent.from_file_get, on_file_response.
  unfold loop_of in *. run_m. rewrite Hg. run_m. rewrite Hp. run_m. rewrite Hcmd. run_m.
  rewrite Hs. by eexists.
Qed.

(** ** The responder *)

(** The poll that passes a request on, and its handler. *)
Lemma open_node b p r m tx rd :
  Node.coupled b ->
  queued (Net.file_get (Node.net b)) = [FileGet.GenerateEvent (FileGetEvent.RequestReceived p r m tx)] ->
  fs_open (path_join (sharing_dir (loop_of b)) (file_name m)) (fs (world (Node.sys b))) = Ok rd ->
  exists b1, Node.react Node.FileGetPoll b = Return (Ok tt, b1) /\
    node_log b1 = node_log b ++ [SendReader tx rd].
Proof.
  intros Hc Hq Hopen. destruct (poll_ready _ _ _ Hq) as (s & Hs & _).
  unfold Node.react, System.react. unfold Node.coupled in Hc. rewrite <-Hc, Hs.
  unfold run_handler, handle_input, handle_event, ComposedEvent.from, ComposedEvent.from_file_get, on_file_request.
  unfold loop_of in *. run_m. rewrite Hopen. run_m. rewrite Hs. by eexists.
Qed.

(** ** The whole of a [get@] *)
Context `{!IoErrors, !Tokio, !Framing, !Message FileGetMessage}.
Context `{!TokioLaws, !FramingLaws, !MessageLaws FileGetMessage}.
Context (cfg : FileGetConfig) (now : Z).
Context (Hduration : timeout cfg * 2 <= DURATION_MAX) (Hclock : now + timeout cfg * 2 <= instant_max).

(** The substream of [rq] is being upgraded on the requester's side, that of
    [q] on the responder's. *)
Definition dials (p : PeerId) (c : ConnectionId) (rq : FileGetOutboundProtocol.t) (n : Node.t) : Prop :=
  exists l, Net.links (Node.net n) p c = Some l /\ Link.dialling l = [rq].
Definition serves (p : PeerId) (c : ConnectionId) (q : FileGetInboundProtocol.t) (n : Node.t) : Prop :=
  exists l, Net.links (Node.net n) p c = Some l /\ Link.serving l = [q].

(** The runs of the two nodes between the steps of the exchange: the requester
    up to its upgrade, the responder up to its upgrade, the responder when the
    request has been read, the requester when the file has been read. *)
Definition ask (command : Command.t) (tx : CommandSender) (p : PeerId) (c : ConnectionId)
    (a : Multiaddr) : list Node.Label :=
  Node.UserCommand command tx :: (lift <$> ask_script now p c a).
Definition accept (p : PeerId) (c : ConnectionId) (req_chan : ReqSender * ReqReceiver)
    (res_chan : ResSender * ResReceiver) : list Node.Label :=
  lift <$> accept_script p c req_chan res_chan.
Definition serve (p : PeerId) (c : ConnectionId) (env : ChanEnv) : list Node.Label :=
  (lift <$> serve_script now p c env) ++ [Node.FileGetPoll].
Definition hear (p : PeerId) (c : ConnectionId) (r : RequestId) : list Node.Label :=
  (lift <$> hear_script now p c r) ++ [Node.FileGetPoll].

Lemma ask_node a u f tx p c addr w fs' :
  Node.coupled a -> quiet cfg p c (Node.net a) -> allowed (System.UserCommand (Command.new_get_file u f) tx) (Node.sys a) ->
  get_peer_id u (loop_of a) = Some p ->
  fs_open_create (path_push (sharing_dir (loop_of a)) f) (fs (world (Node.sys a))) = (Ok w, fs') ->
  let request := (Client.send_command (Command.new_get_file u f) tx Waits (client (Node.sys a))).1.1 in
  exists rq a1, FileGetOutboundProtocol.file_name rq = f /\ FileGetOutboundProtocol.file_writer rq = w /\
    node_runs a (ask (Command.new_get_file u f) tx p c addr) a1 /\
    asking cfg p c rq (Node.net a1) /\ node_log a1 = node_log a /\
    noted (FileGetOutboundProtocol.request_id rq) request a1.
Proof.
  intros Hc Hq Hen Hpeer Hopen request.
  destruct (ask_phase cfg now Hduration Hclock p c addr f w (Node.net a) Hq) as (n1 & n2 & Hsend & Hsil & Hask).
  destruct (get_command_node a u f tx p w fs' n1 Hc Hpeer Hopen Hsend) as (a1 & Hr & Hn & Hlog & Hnoted).
  eexists _, (with_net a1 n2). split; [|split; [|split]]; [| | |split; [exact Hask|split]]; [done..| |exact Hlog|].
  - eapply node_runs_cons; [exact Hen|exact Hr|]. apply node_silently; [apply Hnoted|]. by rewrite Hn.
  - by apply noted_with_net.
Qed.

Lemma hear_node a p c rq request g :
  asking cfg p c rq (Node.net a) -> noted (FileGetOutboundProtocol.request_id rq) request a ->
  CommandRequest.command request = Command.GetFile g ->
  exists a1, node_runs a (hear p c (FileGetOutboundProtocol.request_id rq)) a1 /\
    node_log a1 = node_log a ++ [Respond (CommandRequest.response_sender request)
      (Ok (CommandResponse.mk (CommandRequest.command_request_id request)
        (CommandResult.GetFile (GetFile.user_name g) (GetFile.file_name g))))].
Proof.
  intros Hask Hnoted Hcmd.
  destruct (hear_phase cfg now Hduration Hclock p c rq (Node.net a) Hask) as (n1 & Hsil & Hq).
  destruct (answer_node (with_net a n1) p _ request g (noted_with_net _ _ _ _ Hnoted) Hcmd Hq) as (a1 & Hr & Hlog).
  exists a1. split; [|exact Hlog]. eapply node_runs_app; [by apply node_silently; [apply Hnoted|]|].
  by apply node_runs_one.
Qed.

Lemma accept_node b p c req_chan res_chan :
  Node.coupled b -> quiet cfg p c (Node.net b) -> Net.opened (Node.net b) + 2 < two64 ->
  exists r n1, node_runs b (accept p c req_chan res_chan) (with_net b n1) /\
    accepting cfg p c req_chan.2 res_chan.1 (FileGetInboundProtocol.new req_chan.1 res_chan.2 r) n1.
Proof.
  intros Hc Hq Ho. destruct (accept_phase cfg p c req_chan res_chan (Node.net b) Hq Ho) as (n1 & r & Hs & Ha).
  exists r, n1. split; [by apply node_silently|done].
Qed.

Lemma serve_node b p c rx tx q m rd :
  Node.coupled b -> accepting cfg p c rx tx q (Node.net b) ->
  fs_open (path_join (sharing_dir (loop_of b)) (file_name m)) (fs (world (Node.sys b))) = Ok rd ->
  exists b1, node_runs b (serve p c (sent_into rx (FileGetInboundProtocol.request_id q, m))) b1 /\
    node_log b1 = node_log b ++ [SendReader tx rd].
Proof.
  intros Hc Ha Hopen.
  destruct (serve_phase cfg now Hduration Hclock p c rx tx q m (Node.net b) Ha) as (n1 & Hs & Hq).
  destruct (open_node (with_net b n1) p _ m tx rd eq_refl Hq Hopen) as (b1 & Hr & Hlog).
  exists b1. split; [|exact Hlog]. eapply node_runs_app; [by apply node_silently|]. by apply node_runs_one.
Qed.

(** C1: A [get@] between two nodes, end to end.  At any reachable states of a
    requester and a responder that have nothing to do with each other yet, when
    the requester knows the user and can create the file and the responder can
    open the one of that name in its directory: the requester dials and opens a
    substream and its upgrade writes the request and waits; the responder
    accepts, and its upgrade reads from those bytes the very name that was
    asked for and waits for the application, which opens the file and sends its
    reader; then both upgrades complete, the file created holds the contents
    read (and what reached beyond them before), and the requester's user is
    told, once, that the file of that user and that name is there.  Both nodes
    end in reachable states, so that nothing on the way panicked or failed. *)
Theorem get_file_end_to_end (writer_of : AsyncWrite -> Writer) (reader_of : AsyncRead -> Reader)
    (received : list Effect -> ResReceiver -> async (result AsyncRead Canceled))
    arc σ a arc' σ' b u f tx pa pb ca cb addr req_chan res_chan w fs' old rd content
    (Ha : Node.reachable cfg arc σ a) (Hb : Node.reachable cfg arc' σ' b)
    (Hqa : quiet cfg pb ca (Node.net a)) (Hqb : quiet cfg pa cb (Node.net b))
    (Hen : Node.enabled (Node.UserCommand (Command.new_get_file u f) tx) a)
    (Hopened : Net.opened (Node.net b) + 2 < two64)
    (Hpeer : get_peer_id u (loop_of a) = Some pb)
    (Hcreate : fs_open_create (path_push (sharing_dir (loop_of a)) f) (fs (world (Node.sys a))) = (Ok w, fs'))
    (Hopen : fs_open (path_join (sharing_dir (loop_of b)) f) (fs (world (Node.sys b))) = Ok rd)
    (Hwriter : writer_of w = open_file old) (Hreader : reader_of rd = mkReader content Eof)
    (Hfits : fits (mkFileGetMessage f))
    (Hchannel : received (node_log b ++ [SendReader res_chan.1 rd]) res_chan.2 = Done (Ok rd)) :
  exists rq a1 wire q b1 b2 out file a2 id,
    let m := (FileGetInboundProtocol.request_id q, mkFileGetMessage f) in
    let requester answer := upgrade_outbound writer_of rq (mkSocket answer open_pipe) in
    let responder response :=
      upgrade_inbound reader_of response q (mkSocket (mkReader (contents wire) ReadHangs) open_pipe) in
    (* the requester asks *)
    node_runs a (ask (Command.new_get_file u f) tx pb ca addr) a1 /\ dials pb ca rq a1 /\
    (requester (mkReader [] ReadHangs)).1 = (Waits, wire) /\
    (* the responder accepts and serves *)
    node_runs b (accept pa cb req_chan res_chan) b1 /\ serves pa cb q b1 /\
    responder (fun _ => Waits) = (Waits, [(req_chan.1, m)], open_pipe) /\
    node_runs b1 (serve pa cb (sent_into req_chan.2 m)) b2 /\
    node_log b2 = node_log b ++ [SendReader res_chan.1 rd] /\
    responder (received (node_log b2)) = (Done (Ok true), [(req_chan.1, m)], out) /\
    (* the requester hears *)
    requester (mkReader (contents out) Eof) = (Done (Ok tt), wire, file) /\
    contents file = content ++ drop (length content) old /\
    node_runs a1 (hear pb ca (FileGetOutboundProtocol.request_id rq)) a2 /\
    node_log a2 = node_log a ++ [Respond tx (Ok (CommandResponse.mk id (CommandResult.GetFile u f)))] /\
    Node.reachable cfg arc σ a2 /\ Node.reachable cfg arc' σ' b2.
Proof.
  destruct (ask_node a u f tx pb ca addr w fs' (node_coupled _ _ _ _ (node_reachable_inv _ _ _ _ Ha)) Hqa Hen Hpeer Hcreate)
    as (rq & a1 & Hf & Hw & Hrun1 & Hask & Hlog1 & Hnoted).
  set (request := (Client.send_command (Command.new_get_file u f) tx Waits (client (Node.sys a))).1.1) in *.
  destruct (get_request u f tx (client (Node.sys a))) as [Hcommand Htx]. fold request in Hcommand, Htx.
  destruct (hear_node a1 pb ca rq request (GetFile.new u f) Hask Hnoted Hcommand) as (a2 & Hrun2 & Hlog2).
  destruct (accept_node b pa cb req_chan res_chan (node_coupled _ _ _ _ (node_reachable_inv _ _ _ _ Hb)) Hqb Hopened)
    as (r & n1 & Hrun3 & Hacc).
  set (q := FileGetInboundProtocol.new req_chan.1 res_chan.2 r) in *.
  destruct (serve_node (with_net b n1) pa cb _ _ q (mkFileGetMessage f) rd eq_refl Hacc Hopen)
    as (b2 & Hrun4 & Hlog4).
  assert (request_of rq = mkFileGetMessage f) as Hrq by (unfold request_of; by rewrite Hf).
  destruct (encode_fits _ Hfits) as (bs & He & Hd & Hbs). rewrite <-Hrq in He.
  destruct (outbound_waits writer_of rq bs old He Hbs ltac:(by rewrite Hw)) as (file' & Hwait).
  eexists rq, a1, (write open_pipe (frame bs)), q, (with_net b n1), b2, (write open_pipe content),
    (write (open_file old) content), a2, (CommandRequest.command_request_id request). cbv zeta. rewrite !contents_pipe.
  split_and!; try done.
  - destruct Hask as [_ _ (l & Hl & Hdl & _)]. by exists l.
  - by rewrite Hwait.
  - destruct Hacc as [_ _ (l & Hl & Hsl & _)]. by exists l.
  - by apply (inbound_waits reader_of _ q (mkFileGetMessage f) bs).
  - rewrite Hlog4. by apply (inbound_answers reader_of _ q (mkFileGetMessage f) bs rd content).
  - by apply (outbound_receives writer_of rq bs content old); [..|rewrite Hw].
  - rewrite Hlog2, Hlog1. by rewrite Htx.
  - eapply node_runs_reachable; [|exact Hrun2]. by eapply node_runs_reachable.
  - eapply node_runs_reachable; [|exact Hrun4]. by eapply node_runs_reachable.
Qed.
End TransferProps.

(** * Witness

    The requester knows bob at peer 7; the responder's directory has the file,
    its reader yields three bytes, and the requester's file of that name was
    five bytes long. *)
Section TransferWitnesses.
#[local] Existing Instances numExt numLibp2p debug64 canonicalOrder numFileSystem.
#[local] Existing Instances wire_fu wire_laws numIoErrors numTokio numFraming RequestMessage.
#[local] Existing Instances tokio_laws framing_laws request_laws.
#[local] Instance wire_live :
  FuturesUnorderedLive InboundFut InboundOut ChanEnv Handler.map_ok_inbound :=
  list_fu_live Handler.map_ok_inbound.

Abbreviation reachable_node := (Node.reachable me_config (mkArc 1) node_store).

Definition requester : Node.t := node_final [Hear discovery].

Definition responder : Node.t :=
  Node.mk (mkSys (mkWorld (EventLoop.mk first_swarm (0 : Multiaddr) (Some (9 : PeerId)) ∅ ∅ ∅ ∅ (str "/share"))
    ({[str "/share/a.txt" := 5]} : FS) []) Client.new []) (Net.init me_config (mkArc 1) node_store).

Lemma requester_reachable : reachable_node requester.
Proof. apply node_final_reachable. vm_compute. reflexivity. Qed.

Lemma responder_reachable : reachable_node responder.
Proof. apply Node.reachable_initial. split; try done. constructor. Qed.

Ltac quiet_by_computing :=
  split; try (vm_compute; reflexivity); apply not_elem_of_nil.

Lemma requester_quiet : quiet me_config seven one (Node.net requester).
Proof. quiet_by_computing. Qed.
Lemma responder_quiet : quiet me_config (8 : PeerId) one (Node.net responder).
Proof. quiet_by_computing. Qed.

(** The receiver numbered like its sender gets what was sent. *)
Fixpoint channel_value (l : list Effect) (rx : @ResReceiver numExt) :
    async (result (@AsyncRead numExt) Canceled) :=
  match l with
  | [] => Waits
  | SendReader tx rd :: l => if Z.eqb tx rx then Done (Ok rd) else channel_value l rx
  | _ :: l => channel_value l rx
  end.

Lemma get_file_end_to_end_witness : exists a2 b2 file id,
  node_log a2 = [Respond (101 : CommandSender) (Ok (CommandResponse.mk id (CommandResult.GetFile (str "bob") (str "a.txt"))))] /\
  contents file = [x41; x42; x43; x61; x61] /\ reachable_node a2 /\ reachable_node b2.
Proof.
  destruct (get_file_end_to_end me_config 0 ltac:(vm_compute; discriminate) ltac:(vm_compute; discriminate)
    (fun _ => open_file sample_file) (fun _ => mkReader sample_content Eof)
    channel_value
    (mkArc 1) node_store requester (mkArc 1) node_store responder (str "bob") (str "a.txt")
    (101 : @CommandSender numExt numLibp2p) (8 : @PeerId numExt) seven one one (0 : @Multiaddr numExt)
    ((4 : @ReqSender numExt), (4 : @ReqReceiver numExt)) ((6 : @ResSender numExt), (6 : @ResReceiver numExt))
    (0 : @AsyncWrite numExt) {[str "/share/a.txt" := 0]} sample_file (5 : @AsyncRead numExt) sample_content
    requester_reachable responder_reachable requester_quiet responder_quiet)
    as (rq & a1 & wire & q & b1 & b2 & out & file & a2 & id & Hall).
  - split; [by apply not_elem_of_nil|vm_compute; reflexivity].
  - vm_compute; reflexivity.
  - vm_compute; reflexivity.
  - vm_compute; reflexivity.
  - vm_compute; reflexivity.
  - reflexivity.
  - reflexivity.
  - intros bs [= <-]. vm_compute. done.
  - vm_compute; reflexivity.
  - destruct Hall as (_ & _ & _ & _ & _ & _ & _ & _ & _ & _ & Hfile & _ & Hlog & Ha & Hb).
    exists a2, b2, file, id. split; [exact Hlog|]. split; [exact Hfile|]. split; [exact Ha|exact Hb].
Defined.
End TransferWitnesses.
