(* ===== verification/Prompt.v ===== *)
(** * The prompt ([main] of [src/bin/file-sharing.rs])

    [main] sets up the node, hands the event loop to a task of its own, and then
    reads lines: a line that is a command is sent to the event loop and its
    response awaited before the next line is read. *)
From S2P Require Import Prelude Externals FileGetTypes Streams Protocol Handler Error Command NetworkTypes Debug EventLoop Network.

(** The error of [tokio_util]'s [LinesCodec]. *)
Class Lines : Type := { LinesError : Type }.

Module Prompt.
Section Prompt.
Context `{Libp2p, !Lines}.

(** What [main] returns, through [anyhow::Result]. *)
Inductive MainError : Type :=
| SetUp (e : FileSharingError.t)
| Stdin (e : LinesError).

(** Where [main] is: in [stdin.try_next().await], in
    [response_receiver.await] of [send_command], or done. *)
Inductive State : Type :=
| Reading (client : Client.t)
| Awaiting (client : Client.t) (response_sender : CommandSender)
| Finished (r : result unit MainError)
| Crashed (msg : Str).

(** What is shown to the user: what [send_command] prints, and the
    [println!("{e}")] of [main]. *)
Inductive Shown : Type :=
| Printed (p : Client.Printed)
| Complaint (e : FileSharingError.t).

(** [new_network(..).await?] *)
Definition start (r : result Client.t FileSharingError.t) : State :=
  match r with
  | Ok client => Reading client
  | Err e => Finished (Err (SetUp e))
  end.

(** [while let Some(line) = stdin.try_next().await? { .. }]: the next item of
    [stdin], up to the command having been sent; [response_sender] is the
    channel [send_command] makes. *)
Definition on_stdin (item : option (result Str LinesError)) (response_sender : CommandSender)
    (s : State) : State * list Shown * option CommandRequest.t :=
  match s with
  | Reading client =>
      match item with
      | None => (Finished (Ok tt), [], None)
      | Some (Err e) => (Finished (Err (Stdin e)), [], None)
      | Some (Ok line) =>
          match Client.handle_input line response_sender Waits client with
          | Ok (command_request, _, client) =>
              (Awaiting client response_sender, [], Some command_request)
          | Err e => (Reading client, [Complaint e], None)
          end
      end
  | _ => (s, [], None)
  end.

(** The rest of [send_command], when awaiting the response comes to [response]. *)
Definition on_response
    (response : async (result (result CommandResponse.t FileSharingError.t) Canceled))
    (s : State) : State * list Shown :=
  match s with
  | Awaiting client _ =>
      match Client.await_response response with
      | Done p => (Reading client, [Printed p])
      | Panicked msg => (Crashed msg, [])
      | Waits => (s, [])
      end
  | _ => (s, [])
  end.

(** The text on the terminal: [println!("{response:?}")],
    [eprintln!("error: {e:?}")], [println!("{e}")]. *)
Definition text `{!DebugFormat} (x : Shown) : Str :=
  match x with
  | Printed (Client.Stdout response) => debug_command_response response
  | Printed (Client.Stderr e) => str "error: " ++ debug_error e
  | Complaint e => FileSharingError.display debug_io debug_dial e
  end.
End Prompt.
End Prompt.
