(* ===== verification/Process.v ===== *)
(** * The whole program

    The prompt of [Prompt.v] and a node of [Node.v] in one process, with the
    channel of commands between them: [main] runs in one task and the event loop
    in another.  The event loop ends with the first error one of its handlers
    returns; with it the channel and the senders of all waiting commands are
    dropped. *)
From S2P Require Import Prelude Externals FileGetTypes Streams Protocol Handler HandlerProps Behaviour Ledger BehaviourLemmas BehaviourTracking BehaviourRefinement Links LinksViews LinksInvariant LinksSteps Error Command NetworkTypes Debug EventLoop Network System SystemInvariant SystemSteps Node Prompt.

Module Process.
Section Process.
Context `{Libp2p, Platform, HashOrder, !FileSystem, !Lines}.
Context `{!FuturesUnordered InboundFut InboundOut ChanEnv}.

(** The task of the event loop: running, or ended with an error and the state
    it had. *)
Inductive LoopTask : Type :=
| Running (n : Node.t)
| Ended (e : FileSharingError.t) (n : Node.t).

Definition node_of (l : LoopTask) : Node.t :=
  match l with Running n | Ended _ n => n end.

Record t : Type := mk {
  prompt : Prompt.State;
  shown : list Prompt.Shown;
  (** The channel of commands: the prompt sends one at a time. *)
  channel : option CommandRequest.t;
  loop : LoopTask;
}.

Definition node (p : t) : Node.t := node_of (loop p).
Definition log_of (n : Node.t) : list EventLoop.Effect := EventLoop.log (world (Node.sys n)).
Definition issued_of (n : Node.t) : list CommandRequest.t := issued (Node.sys n).

(** The first response sent into a channel. *)
Fixpoint delivered (tx : CommandSender) (l : list EventLoop.Effect) :
    option (result CommandResponse.t FileSharingError.t) :=
  match l with
  | [] => None
  | EventLoop.Respond tx' r :: l =>
      if bool_decide (tx' = tx) then Some r else delivered tx l
  | EventLoop.SendReader _ _ :: l => delivered tx l
  end.

(** What awaiting the receiver of the channel comes to: the response when one
    was sent, [Canceled] once the sender is dropped with the event loop. *)
Definition response (tx : CommandSender) (l : LoopTask) :
    async (result (result CommandResponse.t FileSharingError.t) Canceled) :=
  match delivered tx (log_of (node_of l)) with
  | Some r => Done (Ok r)
  | None => match l with Running _ => Waits | Ended _ _ => Done (Err mkCanceled) end
  end.

(** What happens next: an item of the standard input, with the channel made
    for its response; the event loop takes the command from the channel; it does
    something else; the prompt wakes up. *)
Inductive Label : Type :=
| Stdin (item : option (result Str LinesError)) (response_sender : CommandSender)
| Take
| Loop (x : Node.Label)
| Resume.

(** [main] has not returned. *)
Definition alive (s : Prompt.State) : bool :=
  match s with Prompt.Reading _ | Prompt.Awaiting _ _ => true | _ => false end.

Definition is_command (x : Node.Label) : bool :=
  match x with Node.UserCommand _ _ => true | _ => false end.

(** A channel is new; there are fewer than 2^64 - 1 commands. *)
Definition fresh_channel (tx : CommandSender) (n : Node.t) : Prop :=
  (tx ∉ senders (issued_of n)) /\ Z.of_nat (length (issued_of n)) + 1 < two64.

Definition enabled (x : Label) (p : t) : Prop :=
  alive (prompt p) = true /\
  match x with
  | Stdin _ tx => fresh_channel tx (node p)
  | Take => is_Some (channel p) /\ exists n, loop p = Running n
  | Loop x => exists n, loop p = Running n /\ is_command x = false /\ Node.enabled x n
  | Resume => True
  end.

(** The event loop after a reaction of the node. *)
Definition settle (r : result unit FileSharingError.t) (n : Node.t) : LoopTask :=
  match r with Ok _ => Running n | Err e => Ended e n end.

(** The channel after it: its receiver may be gone. *)
Definition keep_channel (l : LoopTask) (c : option CommandRequest.t) : option CommandRequest.t :=
  match l with Running _ => c | Ended _ _ => None end.

Definition react (x : Label) (p : t) : exec t :=
  match x with
  | Stdin item tx =>
      let '(s, out, request) := Prompt.on_stdin item tx (prompt p) in
      Return (mk s (shown p ++ out)
        (match request with Some _ => keep_channel (loop p) request | None => channel p end) (loop p))
  | Take =>
      match channel p, loop p with
      | Some request, Running n =>
          '(r, n) ← Node.react (Node.UserCommand (CommandRequest.command request)
                                  (CommandRequest.response_sender request)) n;
          Return (mk (prompt p) (shown p) None (settle r n))
      | _, _ => Return p
      end
  | Loop x =>
      match loop p with
      | Running n =>
          '(r, n) ← Node.react x n;
          Return (mk (prompt p) (shown p) (keep_channel (settle r n) (channel p)) (settle r n))
      | Ended _ _ => Return p
      end
  | Resume =>
      match prompt p with
      | Prompt.Awaiting _ tx =>
          let '(s, out) := Prompt.on_response (response tx (loop p)) (prompt p) in
          Return (mk s (shown p ++ out) (channel p) (loop p))
      | _ => Return p
      end
  end.

(** A program that has been set up. *)
Definition initial (cfg : FileGetConfig) (arc : Arc) (σ : Store) (p : t) : Prop :=
  prompt p = Prompt.start (Ok Client.new) /\ shown p = [] /\ channel p = None /\
  exists n, loop p = Running n /\ Node.initial cfg arc σ n.

Inductive steps : t -> t -> Prop :=
| steps_refl p : steps p p
| steps_next p1 p2 p3 x :
    steps p1 p2 -> enabled x p2 -> react x p2 = Return p3 -> steps p1 p3.

Definition reachable (cfg : FileGetConfig) (arc : Arc) (σ : Store) (p : t) : Prop :=
  exists p0, initial cfg arc σ p0 /\ steps p0 p.
End Process.
End Process.

(** ** What the event loop adds to its log *)
Section Extends.
Import EventLoop.
Context `{Libp2p, Platform, HashOrder, !FileSystem}.
Context `{!FuturesUnordered InboundFut InboundOut ChanEnv}.

(** Responses are only added, and none by a handler that fails. *)
Definition extends (m : M unit) : Prop := forall w r w',
  m w = Return (r, w') -> exists extra, log w' = log w ++ extra /\
    match r with Ok _ => True | Err _ => extra = [] end.

(** Finding what was added. *)
Ltac extra :=
  run_m; try done;
  try (intros [= <- <-]; cbn; eexists; split; [first [symmetry; apply app_nil_r | reflexivity] | done]).

Lemma extends_ret : extends (mret tt).
Proof. intros w r w'. extra. Qed.

Lemma answer_adds key w r w' :
  answer_list_peers key w = Return (r, w') -> r = Ok tt /\ exists extra, log w' = log w ++ extra.
Proof.
  unfold answer_list_peers. run_m.
  destruct (pending_command_requests (loop w) !! key); run_m; intros [= <- <-]; (split; [done|]); cbn.
  - by eexists.
  - exists []. by rewrite app_nil_r.
Qed.

Lemma answer_all_adds keys w r w' :
  for_each keys answer_list_peers w = Return (r, w') ->
  r = Ok tt /\ exists extra, log w' = log w ++ extra.
Proof.
  revert w. induction keys as [|key keys IH]; intros w; simpl.
  - intros [= <- <-]. split; [done|]. exists []. by rewrite app_nil_r.
  - unfold mbind, M_bind. destruct (answer_list_peers key w) as [[r1 w1]|] eqn:E; [|done].
    destruct (answer_adds _ _ _ _ E) as [-> [x1 Hx1]]. intros Hr.
    destruct (IH _ Hr) as [-> [x2 Hx2]]. split; [done|]. exists (x1 ++ x2).
    by rewrite Hx2, Hx1, (assoc_L (++)).
Qed.

Lemma extends_handle_event ev : extends (handle_event ev).
Proof.
  destruct ev as [[[rs| | | |]| | |[p [q ch|q response]| | |]|[p r m tx|p r| | |]]| | |];
    try apply extends_ret; intros w r' w'; unfold handle_event.
  - unfold on_discovered. run_m. intros (-> & x & Hx)%answer_all_adds. by exists x.
  - unfold on_list_files_request. run_m. destruct (fs_read_dir _ _); extra.
    destruct (try_collect _); extra.
  - unfold on_list_files_response. run_m. destruct (pending_list_files (loop w) !! q); extra.
    destruct (pending_command_requests (loop w) !! _); extra.
  - unfold on_file_request. run_m. destruct (fs_open _ _); extra.
  - unfold on_file_response. run_m. destruct (pending_file_gets (loop w) !! r); extra.
    destruct (pending_command_requests (loop w) !! _) as [c|]; extra.
    destruct (CommandRequest.command c); extra; destruct debug_assertions; extra.
Qed.

Lemma extends_handle_command c : extends (handle_command c).
Proof.
  intros w r w'. unfold handle_command. destruct (CommandRequest.command c) as [n| |l|g]; run_m.
  - destruct (Namespace_new _); extra. destruct (rendezvous_point_peer_id (loop w)); extra.
  - destruct (rendezvous_point_peer_id (loop w)); extra.
  - destruct (get_peer_id _ _); extra. destruct (rr_send_request _ _ _). extra.
  - destruct (fs_open_create _ _) as [[wr|e] fs']; extra.
    destruct (get_peer_id _ _); extra. destruct (FileGet.send_request _ _ _ _) as [[]|]; extra.
Qed.

Lemma extends_handle_input i : extends (handle_input i).
Proof.
  destruct i as [c|[s ev]]; [apply extends_handle_command|].
  intros w r w' Hm. by apply (extends_handle_event ev) in Hm.
Qed.

(** A reaction of a node. *)
Lemma node_react_log x n r n' : Node.react x n = Return (r, n') ->
  exists extra, Process.log_of n' = Process.log_of n ++ extra /\
    match r with Ok _ => True | Err _ => extra = [] end.
Proof.
  assert (forall i w c l r s, run_handler (handle_input i) w c l = Return (r, s) ->
    exists extra, log (world s) = log w ++ extra /\ match r with Ok _ => True | Err _ => extra = [] end)
    as Hrun.
  { intros i w c l r0 s (w' & Hm & ->)%run_handler_return. by apply extends_handle_input in Hm. }
  assert (forall (o : exec (result unit FileSharingError.t * Sys)), (exists s, o = Return (Ok tt, s) /\ log (world s) = log (world (Node.sys n))) ->
    forall r s, o = Return (r, s) ->
    exists extra, log (world s) = log (world (Node.sys n)) ++ extra /\
      match r with Ok _ => True | Err _ => extra = [] end) as Hsame.
  { intros o (s & -> & Hl) r0 s0 [= <- <-]. exists []. by rewrite Hl, app_nil_r. }
  unfold Process.log_of. destruct x as [command tx| |s ev|fs'|x]; unfold Node.react; rewrite exec_bind_Return.
  - intros ([r0 s0] & Hs & Hk). apply exec_bind_Return in Hk as (net' & _ & [= <- <-]).
    unfold System.react in Hs. destruct (Network.Client.send_command _ _ _ _) as [[req a] c].
    by apply Hrun in Hs.
  - intros ([r0 s0] & Hs & Hk). apply exec_bind_Return in Hk as (net' & _ & [= <- <-]). simpl.
    unfold System.react in Hs. destruct (FileGet.poll _) as [[[ev|p h|p c rq]|] s1];
      [by apply Hrun in Hs|eapply Hsame; [|done]; by eexists..].
  - intros ([r0 s0] & Hs & [= <- <-]). by apply Hrun in Hs.
  - intros ([r0 s0] & Hs & [= <- <-]). eapply Hsame; [|done]. by eexists.
  - intros (net' & _ & [= <- <-]). exists []. by rewrite app_nil_r.
Qed.
End Extends.
