(* ===== verification/ProcessInvariant.v ===== *)
(** * The invariant of the whole program

    One command at a time is on its way: it is in the channel, or the event loop
    holds it, or it was answered and the prompt is about to wake up. *)
From S2P Require Import Prelude Externals FileGetTypes Streams Protocol Handler HandlerProps Behaviour Ledger BehaviourLemmas BehaviourTracking BehaviourRefinement Links LinksViews LinksInvariant LinksSteps Error Command NetworkTypes Debug EventLoop Network System SystemInvariant SystemSteps Node Prompt Process.
Import Process.

Section ProcessInvariant.
Context `{Libp2p, Platform, HashOrder, !FileSystem, !Lines}.
Context `{!FuturesUnordered InboundFut InboundOut ChanEnv}.
Context `{!FuturesUnorderedLaws InboundFut InboundOut ChanEnv Handler.map_ok_inbound}.
Context (cfg : FileGetConfig) (arc : Arc) (σ : Store).

(** The channels of the commands the event loop holds. *)
Definition held (n : Node.t) : list CommandSender := senders (waiting (world (Node.sys n))).

Lemma held_nil n : held n = [] -> EventLoop.pending_command_requests (EventLoop.loop (world (Node.sys n))) = ∅.
Proof.
  unfold held, senders, waiting. intros Hh%fmap_nil_inv%fmap_nil_inv.
  by apply map_to_list_empty_iff.
Qed.

Lemma node_accounts n : node_inv cfg arc σ n ->
  responded (log_of n) ++ held n ≡ₚ senders (issued_of n) /\ NoDup (senders (issued_of n)).
Proof.
  intros Hn. destruct (reachable_inv _ (node_sys _ _ _ _ Hn)) as [_ (L & D & _ & Hi)].
  split; apply Hi.
Qed.

(** ** What a reaction of the node does to the accounts *)
Lemma node_react_issued x n r n' : Node.react x n = Return (r, n') ->
  match x with
  | Node.UserCommand command tx =>
      let '(request, _, c) := Client.send_command command tx Waits (client (Node.sys n)) in
      issued_of n' = issued_of n ++ [request] /\ client (Node.sys n') = c
  | _ => issued_of n' = issued_of n /\ client (Node.sys n') = client (Node.sys n)
  end.
Proof.
  unfold issued_of. destruct x as [command tx| |s ev|fs'|x]; unfold Node.react; rewrite exec_bind_Return.
  - intros ([r0 s0] & Hs & Hk). apply exec_bind_Return in Hk as (net' & _ & [= <- <-]).
    unfold System.react in Hs. destruct (Client.send_command _ _ _ _) as [[req a] c].
    by apply run_handler_return in Hs as (w' & _ & ->).
  - intros ([r0 s0] & Hs & Hk). apply exec_bind_Return in Hk as (net' & _ & [= <- <-]). simpl.
    unfold System.react in Hs. destruct (FileGet.poll _) as [[[ev|p h|p c rq]|] s1];
      [by apply run_handler_return in Hs as (w' & _ & ->)|by injection Hs as <- <-..].
  - intros ([r0 s0] & Hs & [= <- <-]). by apply run_handler_return in Hs as (w' & _ & ->).
  - intros ([r0 s0] & Hs & [= <- <-]). by injection Hs as <- <-.
  - by intros (net' & _ & [= <- <-]).
Qed.

(** Without a command, the event loop holds fewer of them. *)
Lemma other_held x n n' :
  node_inv cfg arc σ n -> node_inv cfg arc σ n' -> is_command x = false ->
  Node.react x n = Return (Ok tt, n') -> exists l, l ++ held n' ≡ₚ held n.
Proof.
  intros Hn Hn' Hx Hr. destruct (node_accounts n Hn) as [Ha _], (node_accounts n' Hn') as [Ha' _].
  pose proof (node_react_issued x n _ n' Hr) as Hiss.
  assert (issued_of n' = issued_of n) as Hi by (destruct x; [done|apply Hiss..]).
  destruct (node_react_log x n _ n' Hr) as (extra & Hl & _).
  rewrite Hi, <-Ha, Hl in Ha'. unfold responded in Ha'. rewrite omap_app, <-(assoc_L (++)) in Ha'.
  eexists. by apply Permutation_app_inv_l in Ha'.
Qed.

(** A command taken when none is held. *)
Lemma command_held command tx n n' :
  node_inv cfg arc σ n -> node_inv cfg arc σ n' -> held n = [] ->
  Node.react (Node.UserCommand command tx) n = Return (Ok tt, n') ->
  exists l, l ++ held n' ≡ₚ [tx].
Proof.
  intros Hn Hn' Hh Hr. destruct (node_accounts n Hn) as [Ha _], (node_accounts n' Hn') as [Ha' _].
  pose proof (node_react_issued _ n _ n' Hr) as Hiss. simpl in Hiss. destruct Hiss as [Hi _].
  destruct (node_react_log _ n _ n' Hr) as (extra & Hl & _).
  rewrite Hh, app_nil_r in Ha. unfold senders in Ha' at 1. rewrite Hi in Ha'. unfold senders in Ha'.
  rewrite fmap_app, Hl in Ha'. fold (senders (issued_of n)) in Ha'. rewrite <-Ha in Ha'.
  unfold responded in Ha'. rewrite omap_app, <-(assoc_L (++)) in Ha'.
  eexists. by apply Permutation_app_inv_l in Ha'.
Qed.

(** ** Channels *)
Lemma delivered_responded tx l r : delivered tx l = Some r -> tx ∈ responded l.
Proof.
  induction l as [|[tx' r'|tx' rd] l IH]; simpl; [done| |exact IH].
  case_bool_decide; [subst; left|]. intros Hd. right. by apply IH.
Qed.

Lemma responded_delivered tx l : tx ∈ responded l -> is_Some (delivered tx l).
Proof.
  induction l as [|[tx' r'|tx' rd] l IH]; simpl; [by intros ?%not_elem_of_nil| |exact IH].
  case_bool_decide; [by eexists|]. intros [?|Hin]%elem_of_cons; [congruence|]. by apply IH.
Qed.

(** ** The invariant *)
Definition unwrap_err : Str := str "called `Result::unwrap()` on an `Err` value".

Definition prompt_ok (p : t) : Prop :=
  match prompt p with
  | Prompt.Reading c =>
      channel p = None /\ forall n, loop p = Running n -> client (Node.sys n) = c /\ held n = []
  | Prompt.Awaiting c tx => forall n, loop p = Running n ->
      match channel p with
      | Some request =>
          CommandRequest.response_sender request = tx /\ fresh_channel tx n /\ held n = [] /\
          Client.send_command (CommandRequest.command request) tx Waits (client (Node.sys n)) =
            (request, Waits, c)
      | None => client (Node.sys n) = c /\ forall tx', tx' ∈ held n -> tx' = tx
      end
  | Prompt.Finished _ => forall n, loop p = Running n -> held n = []
  | Prompt.Crashed msg => msg = unwrap_err /\ exists e n, loop p = Ended e n
  end.

Record proc_inv (p : t) : Prop := {
  proc_node n : loop p = Running n -> node_inv cfg arc σ n;
  proc_log tx : tx ∈ responded (log_of (node p)) -> tx ∈ senders (issued_of (node p));
  proc_ended e n : loop p = Ended e n -> channel p = None;
  proc_prompt : prompt_ok p;
}.

Lemma initial_proc_inv p : initial cfg arc σ p -> proc_inv p.
Proof.
  intros (Hp & Hs & Hc & n & Hl & Hn). pose proof (node_initial_inv cfg arc σ n Hn) as Hi. split.
  - rewrite Hl. by intros n' [= <-].
  - unfold node, log_of. rewrite Hl. simpl. rewrite (Node.initial_log _ _ _ _ Hn). set_solver.
  - rewrite Hl. done.
  - unfold prompt_ok. rewrite Hp. split; [done|]. rewrite Hl. intros n' [= <-].
    split; [apply Hn|]. unfold held, waiting. by rewrite (Node.initial_pending _ _ _ _ Hn).
Qed.

Lemma stdin_ok p item tx :
  proc_inv p -> enabled (Stdin item tx) p ->
  exists p', react (Stdin item tx) p = Return p' /\ proc_inv p'.
Proof.
  intros [Hn Hl He Hp] [Hal Hf]. unfold react, prompt_ok in *.
  destruct (prompt p) as [c|c tx'| |] eqn:Epr; try done; simpl.
  - destruct Hp as [Hch Hp]. destruct item as [[line|e]|]; simpl.
    + unfold Client.handle_input. destruct (from_str line) as [command|e].
      * unfold Client.send_command. destruct (CommandRequestIdGenerator.next_id _) as [i g] eqn:Eg.
        eexists. split; [reflexivity|]. split; simpl; try done.
        -- intros e n Hlp. simpl in Hlp. by rewrite Hlp.
        -- intros n Hlp. simpl in Hlp. rewrite Hlp. simpl. destruct (Hp n Hlp) as [-> Hh].
           unfold node in Hf. rewrite Hlp in Hf. split_and!; [done..|].
           unfold Client.send_command. by rewrite Eg.
      * eexists. split; [reflexivity|]. split; simpl; done.
    + eexists. split; [reflexivity|]. split; simpl; try done. intros n Hlp. by apply Hp.
    + eexists. split; [reflexivity|]. split; simpl; try done. intros n Hlp. by apply Hp.
  - eexists. split; [reflexivity|]. split; simpl; done.
Qed.

(** The state of the program after a reaction of its node. *)
Definition after_node (p : t) (r : result unit FileSharingError.t) (n' : Node.t)
    (c : option CommandRequest.t) : t :=
  mk (prompt p) (shown p) (keep_channel (settle r n') c) (settle r n').

Lemma node_of_settle r n' : node_of (settle r n') = n'.
Proof. by destruct r. Qed.

(** The parts of the invariant that do not depend on the prompt. *)
Lemma after_node_ok p x n r n' c :
  node_inv cfg arc σ n -> Node.enabled x n -> Node.react x n = Return (r, n') ->
  prompt_ok (after_node p r n' c) -> proc_inv (after_node p r n' c).
Proof.
  intros Hn Hen Hr Hp. destruct (node_accounts n Hn) as [Ha _].
  destruct (node_react_log x n r n' Hr) as (extra & Hlog & Herr).
  pose proof (node_react_issued x n r n' Hr) as Hiss. split; [| | |done].
  - intros n1 Hl. destruct r as [[]|e]; simpl in Hl; [|done]. injection Hl as <-.
    by apply (node_step cfg arc σ n x n').
  - intros tx. unfold node. simpl. rewrite node_of_settle. destruct r as [[]|e].
    + destruct (node_step cfg arc σ n x n' Hn Hen Hr) as [_ Hn'].
      destruct (node_accounts n' Hn') as [Ha' _]. intros Htx. rewrite <-Ha'. by apply elem_of_app; left.
    + rewrite Hlog, Herr, app_nil_r. intros Htx.
      assert (tx ∈ senders (issued_of n)) as Hin by (rewrite <-Ha; by apply elem_of_app; left).
      destruct x; try (destruct Hiss as [-> _]; done).
      destruct (Client.send_command _ _ _ _) as [[req a] c']. destruct Hiss as [-> _].
      unfold senders. rewrite fmap_app. by apply elem_of_app; left.
  - intros e n1 Hl. destruct r; simpl in Hl; [done|]. done.
Qed.

(** An ended event loop: nothing is asked of a prompt that waits. *)
Lemma prompt_ok_ended p e n' c :
  alive (prompt p) = true -> prompt_ok (after_node p (Err e) n' c).
Proof. unfold prompt_ok. simpl. by destruct (prompt p). Qed.

Lemma take_ok p :
  proc_inv p -> enabled Take p -> exists p', react Take p = Return p' /\ proc_inv p'.
Proof.
  intros [Hn Hl He Hp] (Hal & [req Hch] & n & Hlp). unfold react. rewrite Hch, Hlp.
  specialize (Hn n Hlp). unfold prompt_ok in Hp.
  destruct (prompt p) as [c|c tx| |] eqn:Epr; try done; [by destruct Hp as [? _]; congruence|].
  specialize (Hp n Hlp). rewrite Hch in Hp. destruct Hp as (Htx & Hfresh & Hh & Hsend).
  assert (Node.enabled (Node.UserCommand (CommandRequest.command req) (CommandRequest.response_sender req)) n)
    as Hen by (rewrite Htx; exact Hfresh).
  destruct (node_react_fine cfg arc σ n _ Hn Hen) as (r & n' & Hr & Hok). rewrite Hr.
  eexists. split; [reflexivity|].
  rewrite <-Epr. change (proc_inv (mk (prompt p) (shown p) None (settle r n'))).
  assert (None = keep_channel (settle r n') None) as -> by (by destruct r).
  apply (after_node_ok p _ n r n' None Hn Hen Hr).
  destruct r as [[]|e]; [|by apply prompt_ok_ended; rewrite Epr].
  destruct (Hok eq_refl) as [_ Hn']. unfold prompt_ok. simpl. rewrite Epr. intros n1 [= <-].
  pose proof (node_react_issued _ n _ n' Hr) as Hiss. simpl in Hiss. rewrite Htx in Hiss.
  unfold Client.send_command in Hsend. rewrite Htx in Hr. destruct Hiss as [_ ->]. split.
  - by injection Hsend as _ <-.
  - destruct (command_held _ _ n n' Hn Hn' Hh Hr) as [l Hperm]. intros tx' Hin.
    apply list_elem_of_singleton. rewrite <-Hperm. by apply elem_of_app; right.
Qed.

Lemma loop_ok p x :
  proc_inv p -> enabled (Loop x) p -> exists p', react (Loop x) p = Return p' /\ proc_inv p'.
Proof.
  intros [Hn Hl He Hp] (Hal & n & Hlp & Hx & Hen). unfold react. rewrite Hlp. specialize (Hn n Hlp).
  destruct (node_react_fine cfg arc σ n _ Hn Hen) as (r & n' & Hr & Hok). rewrite Hr.
  eexists. split; [reflexivity|]. apply (after_node_ok p x n r n' (channel p) Hn Hen Hr).
  destruct r as [[]|e]; [|by apply prompt_ok_ended].
  destruct (Hok eq_refl) as [_ Hn']. destruct (other_held x n n' Hn Hn' Hx Hr) as [l Hheld].
  pose proof (node_react_issued x n _ n' Hr) as Hiss.
  assert (issued_of n' = issued_of n /\ client (Node.sys n') = client (Node.sys n)) as [Hi Hc]
    by (destruct x; [done|exact Hiss..]).
  unfold prompt_ok in *. simpl. destruct (prompt p) as [c|c tx| |] eqn:Epr; try done.
  - destruct Hp as [Hch Hp]. split; [done|]. intros n1 [= <-]. destruct (Hp n Hlp) as [<- Hh].
    split; [done|]. rewrite Hh in Hheld. by apply Permutation_nil_r, app_eq_nil in Hheld as [_ ?].
  - intros n1 [= <-]. specialize (Hp n Hlp). destruct (channel p) as [req|].
    + destruct Hp as (Htx & Hfresh & Hh & Hsend). split_and!; [done| | |by rewrite Hc].
      * unfold fresh_channel. by rewrite Hi.
      * rewrite Hh in Hheld. by apply Permutation_nil_r, app_eq_nil in Hheld as [_ ?].
    + destruct Hp as [<- Hp]. split; [done|]. intros tx' Hin. apply Hp. rewrite <-Hheld.
      by apply elem_of_app; right.
Qed.

Lemma resume_ok p :
  proc_inv p -> enabled Resume p -> exists p', react Resume p = Return p' /\ proc_inv p'.
Proof.
  intros Hi [Hal _]. pose proof Hi as [Hn Hl He Hp]. unfold react, prompt_ok in *.
  destruct (prompt p) as [c|c tx| |] eqn:Epr; try done; [by exists p|]. unfold response.
  destruct (delivered tx (log_of (node_of (loop p)))) as [r|] eqn:Hd.
  - apply delivered_responded in Hd as Hin.
    assert (forall r', let '(s, out) := Prompt.on_response (Done (Ok r')) (Prompt.Awaiting c tx) in
      s = Prompt.Reading c) as Hs by (by intros []).
    specialize (Hs r). destruct (Prompt.on_response _ _) as [s out] eqn:Eo. subst s.
    eexists. split; [reflexivity|]. split; try done. unfold prompt_ok. simpl. split.
    + destruct (loop p) as [n|e n] eqn:Hlp; [|by eapply He].
      specialize (Hp n eq_refl). destruct (channel p) as [req|]; [|done].
      destruct Hp as (_ & [Hfresh _] & _). destruct Hfresh. unfold node in Hl. rewrite Hlp in Hl. by apply Hl.
    + intros n Hlp. specialize (Hp n Hlp). destruct (node_accounts n (Hn n Hlp)) as [Ha Hnd].
      rewrite Hlp in Hin. simpl in Hin. rewrite <-Ha in Hnd.
      destruct (channel p) as [req|].
      { destruct Hp as (_ & [Hfresh _] & _). destruct Hfresh. rewrite <-Ha. by apply elem_of_app; left. }
      destruct Hp as [Hc Hh]. split; [done|]. destruct (held n) as [|tx' l] eqn:Eh; [done|].
      assert (tx' = tx) as -> by (apply Hh; left).
      apply NoDup_app in Hnd as (_ & Hnd & _). destruct (Hnd tx Hin). left.
  - destruct (loop p) as [n|e n] eqn:Hlp; eexists; (split; [reflexivity|]); simpl.
    + destruct p as [pr sh ch lp]. simpl in *. subst. rewrite app_nil_r. done.
    + unfold node in Hl. rewrite Hlp in Hl. split; simpl; try done.
      unfold prompt_ok. simpl. split; [done|]. by eexists _, _.
Qed.

Lemma react_proc_ok p x :
  proc_inv p -> enabled x p -> exists p', react x p = Return p' /\ proc_inv p'.
Proof. destruct x; [apply stdin_ok|apply take_ok|apply loop_ok|apply resume_ok]. Qed.

Lemma proc_steps_inv p p' : steps p p' -> proc_inv p -> proc_inv p'.
Proof.
  induction 1 as [|p1 p2 p3 x _ IH Hen Hr]; [done|]. intros Hi.
  destruct (react_proc_ok p2 x (IH Hi) Hen) as (p' & Hr' & Hi'). congruence.
Qed.

Lemma proc_reachable_inv p : reachable cfg arc σ p -> proc_inv p.
Proof. intros (p0 & Hi & Hs). eapply proc_steps_inv; [done|]. by apply initial_proc_inv. Qed.

(** ** One command *)
Lemma waiting_one p n :
  node_inv cfg arc σ n -> prompt_ok p -> loop p = Running n ->
  (length (waiting (world (Node.sys n))) <= 1)%nat.
Proof.
  intros Hn Hp Hl. rewrite <-(length_fmap CommandRequest.response_sender).
  change (length (held n) <= 1)%nat. destruct (node_accounts n Hn) as [Ha Hnd]. rewrite <-Ha in Hnd.
  apply NoDup_app in Hnd as (_ & _ & Hnd). unfold prompt_ok in Hp.
  destruct (prompt p) as [c|c tx|r|msg].
  - destruct (proj2 Hp n Hl) as [_ ->]. simpl. lia.
  - specialize (Hp n Hl). destruct (channel p); [destruct Hp as (_ & _ & -> & _); simpl; lia|].
    destruct Hp as [_ Hall]. destruct (held n) as [|a [|b l]]; simpl; [lia..|].
    apply NoDup_cons in Hnd as [Hne _]. destruct Hne.
    rewrite (Hall a), (Hall b) by set_solver. left.
  - rewrite (Hp n Hl). simpl. lia.
  - destruct Hp as (_ & e & n' & He). congruence.
Qed.

(** ** How the event loop ends, and what follows *)

(** A reaction that fails ends it. *)
Lemma loop_fails p n x c e :
  proc_inv p -> loop p = Running n -> prompt p = Prompt.Reading c ->
  is_command x = false /\ Node.enabled x n /\ (exists n', Node.react x n = Return (Err e, n')) ->
  exists p1 n', react (Loop x) p = Return p1 /\ proc_inv p1 /\ prompt p1 = Prompt.Reading c /\
    loop p1 = Ended e n' /\ issued_of n' = issued_of n.
Proof.
  intros Hi Hl Hp (Hx & Hen & n' & Hr).
  destruct (loop_ok p x Hi) as (p1 & Hr1 & Hi1).
  { split; [by rewrite Hp|]. by exists n. }
  exists p1, n'. unfold react in Hr1. rewrite Hl, Hr in Hr1. injection Hr1 as <-.
  split_and!; [|done..|].
  - unfold react. by rewrite Hl, Hr.
  - pose proof (node_react_issued x n _ n' Hr) as Hiss. destruct x; [done|apply Hiss..].
Qed.

(** Awaiting a response that was not sent before. *)
Lemma undelivered p tx : proc_inv p -> tx ∉ senders (issued_of (node p)) ->
  delivered tx (log_of (node p)) = None.
Proof.
  intros Hi Htx. destruct (delivered _ _) as [r|] eqn:E; [|done].
  by apply delivered_responded, (proc_log _ Hi) in E.
Qed.

Lemma resume_crashes p c tx e n :
  loop p = Ended e n -> prompt p = Prompt.Awaiting c tx -> delivered tx (log_of n) = None ->
  exists p', react Resume p = Return p' /\ prompt p' = Prompt.Crashed unwrap_err.
Proof.
  intros Hl Hp Hd. unfold react. rewrite Hp. unfold response. rewrite Hl. simpl. rewrite Hd.
  by eexists.
Qed.

Lemma ended_crashes p e n c line command tx :
  proc_inv p -> loop p = Ended e n -> prompt p = Prompt.Reading c ->
  from_str line = Ok command -> fresh_channel tx n ->
  exists p1 p2, react (Stdin (Some (Ok line)) tx) p = Return p1 /\ react Resume p1 = Return p2 /\
    prompt p2 = Prompt.Crashed unwrap_err.
Proof.
  intros Hi Hl Hp Hline [Htx _]. unfold react at 1. rewrite Hp. simpl.
  unfold Client.handle_input. rewrite Hline. unfold Client.send_command.
  destruct (CommandRequestIdGenerator.next_id _) as [i g].
  eexists. destruct (resume_crashes (mk (Prompt.Awaiting (Client.mk g) tx) (shown p ++ [])
    (keep_channel (loop p) (Some (CommandRequest.mk i command tx))) (loop p)) (Client.mk g) tx e n)
    as (p2 & Hr & Hc); [done..| |by exists p2].
  pose proof (undelivered p tx Hi) as Hd. unfold node in Hd. rewrite Hl in Hd. by apply Hd.
Qed.

Lemma missing_file_ends_loop n s peer r m tx e :
  FileGet.poll (world_file_get (world (Node.sys n))) =
    (Ready (FileGet.GenerateEvent (FileGetEvent.RequestReceived peer r m tx)), s) ->
  fs_open (path_join (EventLoop.sharing_dir (EventLoop.loop (world (Node.sys n)))) (file_name m))
    (EventLoop.fs (world (Node.sys n))) = Err e ->
  node_inv cfg arc σ n -> exists n', Node.react Node.FileGetPoll n = Return (Err (FileSharingError.Io e), n').
Proof.
  intros Hpoll Hopen Hn.
  destruct (node_react_fine cfg arc σ n Node.FileGetPoll Hn I) as (r0 & n' & Hr & _).
  rewrite Hr. exists n'. unfold Node.react, System.react in Hr. rewrite Hpoll in Hr. revert Hr.
  unfold run_handler, EventLoop.handle_input, EventLoop.handle_event, EventLoop.on_file_request.
  cbv [ComposedEvent.from ComposedEvent.from_file_get]. run_m. rewrite Hopen. run_m.
  destruct (FileGet.poll (Net.file_get (Node.net n))) as [[[]|] ?]; by intros [= <- _].
Qed.

(** A command the event loop cannot carry out. *)
Lemma command_ends_loop n command tx request c' e w' :
  Client.send_command command tx Waits (client (Node.sys n)) = (request, Waits, c') ->
  EventLoop.handle_command request (world (Node.sys n)) = Return (Err e, w') ->
  node_inv cfg arc σ n -> fresh_channel tx n ->
  exists n', Node.react (Node.UserCommand command tx) n = Return (Err e, n').
Proof.
  intros Hsend Hfails Hn Hfresh.
  destruct (node_react_fine cfg arc σ n (Node.UserCommand command tx) Hn Hfresh) as (r0 & n' & Hr & _).
  rewrite Hr. exists n'. unfold Node.react, System.react in Hr. rewrite Hsend in Hr.
  unfold run_handler, EventLoop.handle_input in Hr. rewrite Hfails in Hr. cbn [mbind exec_bind] in Hr.
  apply exec_bind_Return in Hr as (net' & _ & [= <- _]). done.
Qed.

Lemma command_fails p n c line command tx request c' e w' :
  proc_inv p -> loop p = Running n -> prompt p = Prompt.Reading c ->
  from_str line = Ok command -> fresh_channel tx n ->
  Client.send_command command tx Waits c = (request, Waits, c') ->
  EventLoop.handle_command request (world (Node.sys n)) = Return (Err e, w') ->
  exists p1 p2 p3, react (Stdin (Some (Ok line)) tx) p = Return p1 /\ react Take p1 = Return p2 /\
    react Resume p2 = Return p3 /\ (exists n', loop p2 = Ended e n') /\
    prompt p3 = Prompt.Crashed unwrap_err.
Proof.
  intros Hi Hl Hp Hline Hfresh Hsend Hfails. pose proof Hi as [Hn _ _ Hpr]. specialize (Hn n Hl).
  unfold prompt_ok in Hpr. rewrite Hp in Hpr. destruct Hpr as [Hch Hpr].
  destruct (Hpr n Hl) as [Hc _]. rewrite <-Hc in Hsend.
  destruct (command_ends_loop n command tx request c' e w' Hsend Hfails Hn Hfresh) as [n' Hr].
  assert (CommandRequest.command request = command /\ CommandRequest.response_sender request = tx)
    as [Hrc Hrt].
  { unfold Client.send_command in Hsend. destruct (CommandRequestIdGenerator.next_id _).
    by injection Hsend as <- _. }
  pose proof (undelivered p tx Hi) as Hd. unfold node in Hd. rewrite Hl in Hd. simpl in Hd.
  specialize (Hd (proj1 Hfresh)).
  destruct (node_react_log _ n _ n' Hr) as (extra & Hlog & ->). rewrite app_nil_r in Hlog.
  exists (mk (Prompt.Awaiting c' tx) (shown p ++ []) (Some request) (Running n)).
  exists (mk (Prompt.Awaiting c' tx) (shown p ++ []) None (Ended e n')).
  destruct (resume_crashes (mk (Prompt.Awaiting c' tx) (shown p ++ []) None (Ended e n')) c' tx e n')
    as (p3 & Hr3 & Hc3); [done..|by rewrite Hlog|]. exists p3.
  split_and!; [| |done|by exists n'|done].
  - unfold react. rewrite Hp. simpl. unfold Client.handle_input. by rewrite Hline, <-Hc, Hsend, Hl.
  - unfold react. cbn [channel loop]. by rewrite Hrc, Hrt, Hr.
Qed.

(** ** A command that is never answered *)
Lemma stuck_prompt p p' n c tx r k command :
  proc_inv p -> loop p = Running n -> prompt p = Prompt.Awaiting c tx ->
  EventLoop.pending_file_gets (EventLoop.loop (world (Node.sys n))) !! r = Some k ->
  EventLoop.pending_command_requests (EventLoop.loop (world (Node.sys n))) !! k = Some command ->
  (forall st, ~ tracked (world_file_get (world (Node.sys n))) r st) ->
  r ∉ responses (queued (world_file_get (world (Node.sys n)))) ->
  steps p p' ->
  (exists e n', loop p' = Ended e n') \/
  (prompt p' = Prompt.Awaiting c tx /\ shown p' = shown p /\ channel p' = None /\
   exists n', loop p' = Running n' /\ System.steps (Node.sys n) (Node.sys n')).
Proof.
  intros Hi Hl Hp Hget Hcommand Hends Hqueue Hsteps.
  pose proof (node_sys _ _ _ _ (proc_node _ Hi n Hl)) as Hsys.
  assert (CommandRequest.response_sender command ∈ held n) as Hheld.
  { unfold held, senders, waiting. apply list_elem_of_fmap_2.
    apply list_elem_of_fmap. exists (k, command). split; [done|]. by apply elem_of_map_to_list. }
  pose proof (proc_prompt _ Hi) as Hpr. unfold prompt_ok in Hpr. rewrite Hp in Hpr. specialize (Hpr n Hl).
  destruct (channel p) as [req|] eqn:Hch.
  { destruct Hpr as (_ & _ & Hh & _). rewrite Hh in Hheld. by apply not_elem_of_nil in Hheld. }
  destruct Hpr as [_ Htx]. specialize (Htx _ Hheld).
  induction Hsteps as [p|p p2 p3 x Hsteps IH Hen Hr]; [right; split_and!; try done; exists n; split; [done|constructor]|].
  destruct (IH Hi Hl Hp Hch) as [(e & n' & He)|(Hp2 & Hs2 & Hch2 & n2 & Hl2 & Hst)].
  { left. exists e, n'. revert Hr. unfold react. destruct x; rewrite ?He; simpl.
    - destruct (Prompt.on_stdin _ _ _) as [[st out] rq]. by intros [= <-].
    - destruct (channel p2); by intros [= <-].
    - by intros [= <-].
    - destruct (prompt p2) as [c0|c0 tx0|r0|m0]; try (by intros [= <-]).
      destruct (Prompt.on_response _ _) as [st out]. by intros [= <-]. }
  pose proof (stuck_unanswered_log (Node.sys n) (Node.sys n2) r k command Hsys Hget Hcommand Hends Hqueue Hst) as Hno.
  rewrite Htx in Hno. revert Hr. unfold react. destruct x as [item tx'| |x|].
  - rewrite Hp2. simpl. intros [= <-]. right. simpl. rewrite app_nil_r. split_and!; try done. by exists n2.
  - rewrite Hch2. intros [= <-]. right. split_and!; try done. by exists n2.
  - destruct Hen as (_ & n0 & Hl0 & Hx & Hen). rewrite Hl2 in Hl0. injection Hl0 as <-. rewrite Hl2.
    pose proof (proc_node _ (proc_steps_inv _ _ Hsteps Hi) n2 Hl2) as Hn2.
    destruct (node_react_fine cfg arc σ n2 x Hn2 Hen) as (r2 & n3 & Hr3 & Hok). rewrite Hr3.
    intros [= <-]. destruct r2 as [[]|e]; [|left; by eexists _, _].
    right. simpl. split_and!; try done. exists n3. split; [done|].
    destruct (Hok eq_refl) as [Hst' _]. by eapply steps_trans.
  - rewrite Hp2. unfold response. rewrite Hl2. simpl.
    destruct (delivered tx (log_of n2)) as [rr|] eqn:Hd; [by apply delivered_responded in Hd|].
    simpl. intros [= <-]. right. simpl. rewrite app_nil_r. split_and!; try done. by exists n2.
Qed.
End ProcessInvariant.
