(* ===== verification/ProcessProps.v ===== *)
(** * Properties of the whole program

    One command is on its way at a time; the program panics in one way only, and
    a peer or a command can bring it there; a file request that fails leaves the
    prompt waiting for ever. *)
From S2P Require Import Prelude Externals Instances FileGetTypes Streams Protocol Handler HandlerProps Behaviour Ledger BehaviourLemmas BehaviourTracking BehaviourRefinement Links LinksViews LinksInvariant LinksSteps LinksProps Error Command NetworkTypes Debug EventLoop Network NetworkInstances System SystemInvariant SystemSteps SystemProps Node NodeProps Prompt Process ProcessInvariant.
Import Process.

Section ProcessProps.
Context `{Libp2p, Platform, HashOrder, !FileSystem, !Lines}.
Context `{!FuturesUnordered InboundFut InboundOut ChanEnv}.
Context `{!FuturesUnorderedLaws InboundFut InboundOut ChanEnv Handler.map_ok_inbound}.
Context (cfg : FileGetConfig) (arc : Arc) (σ : Store).

(** C7: One command at a time: at every reachable state with the event loop
    running, at most one command is pending.  While the prompt reads, none is,
    the channel is empty, and every command of the past has had its answer;
    while it waits for a response, only the command it waits for can be
    pending. *)
Theorem one_command_at_a_time p n (Hreach : reachable cfg arc σ p) (Hrun : loop p = Running n) :
  (length (waiting (world (Node.sys n))) <= 1)%nat /\
  (forall c, prompt p = Prompt.Reading c ->
     channel p = None /\ waiting (world (Node.sys n)) = [] /\
     responded (log_of n) ≡ₚ senders (issued_of n)) /\
  (forall c tx request, prompt p = Prompt.Awaiting c tx ->
     request ∈ waiting (world (Node.sys n)) -> CommandRequest.response_sender request = tx).
Proof.
  pose proof (proc_reachable_inv cfg arc σ p Hreach) as [Hn _ _ Hp]. specialize (Hn n Hrun).
  split_and!; [exact (waiting_one cfg arc σ p n Hn Hp Hrun)| |].
  - intros c Hc. unfold prompt_ok in Hp. rewrite Hc in Hp. destruct Hp as [Hch Hp].
    destruct (Hp n Hrun) as [_ Hh]. destruct (node_accounts cfg arc σ n Hn) as [Ha _].
    rewrite Hh, app_nil_r in Ha. split_and!; [done| |done]. by apply fmap_nil_inv in Hh.
  - intros c tx request Hc Hin. unfold prompt_ok in Hp. rewrite Hc in Hp. specialize (Hp n Hrun).
    assert (CommandRequest.response_sender request ∈ held n) as Hheld by by apply list_elem_of_fmap_2.
    destruct (channel p) as [req|]; [|by apply Hp].
    destruct Hp as (_ & _ & Hh & _). rewrite Hh in Hheld. by apply not_elem_of_nil in Hheld.
Qed.

(** C11: The program panics in one way only: whatever happens next is carried
    out; should the prompt have panicked, then on the response of a command whose
    sender was dropped, after the event loop had ended with an error. *)
Theorem program_panics_only_without_loop p (Hreach : reachable cfg arc σ p) :
  (forall x, enabled x p -> exists p', react x p = Return p' /\ reachable cfg arc σ p') /\
  (forall msg, prompt p = Prompt.Crashed msg ->
     msg = str "called `Result::unwrap()` on an `Err` value" /\ exists e n, loop p = Ended e n).
Proof.
  pose proof (proc_reachable_inv cfg arc σ p Hreach) as Hi. split.
  - intros x Hen. destruct (react_proc_ok cfg arc σ p x Hi Hen) as (p' & Hr & _).
    exists p'. split; [done|]. destruct Hreach as (p0 & Hp0 & Hs). exists p0.
    split; [done|]. by eapply steps_next.
  - intros msg Hmsg. destruct Hi as [_ _ _ Hp]. unfold prompt_ok in Hp. by rewrite Hmsg in Hp.
Qed.

(** C9: A peer can end the program: when it asks for a file that cannot be
    opened, the event loop ends as it handles the request, and the next command
    of the user, whatever it is, makes the prompt panic. *)
Theorem missing_file_ends_program p n c s peer r m tx' e line command tx
    (Hreach : reachable cfg arc σ p) (Hrun : loop p = Running n)
    (Hreading : prompt p = Prompt.Reading c)
    (Hasked : FileGet.poll (world_file_get (world (Node.sys n))) =
      (Ready (FileGet.GenerateEvent (FileGetEvent.RequestReceived peer r m tx')), s))
    (Hmissing : fs_open (path_join (EventLoop.sharing_dir (EventLoop.loop (world (Node.sys n))))
      (file_name m)) (EventLoop.fs (world (Node.sys n))) = Err e)
    (Hline : from_str line = Ok command) (Hfresh : fresh_channel tx n) :
  exists p1 p2 p3,
    react (Loop Node.FileGetPoll) p = Return p1 /\
    react (Stdin (Some (Ok line)) tx) p1 = Return p2 /\ react Resume p2 = Return p3 /\
    (exists n', loop p1 = Ended (FileSharingError.Io e) n') /\
    prompt p3 = Prompt.Crashed (str "called `Result::unwrap()` on an `Err` value").
Proof.
  pose proof (proc_reachable_inv cfg arc σ p Hreach) as Hi.
  destruct (missing_file_ends_loop cfg arc σ n s peer r m tx' e Hasked Hmissing (proc_node _ _ _ _ Hi n Hrun))
    as [n1 Hend].
  destruct (loop_fails cfg arc σ p n Node.FileGetPoll c (FileSharingError.Io e) Hi Hrun Hreading)
    as (p1 & n' & Hr & Hi1 & Hp1 & Hl1 & Hiss); [split_and!; [done..|by exists n1]|].
  destruct (ended_crashes cfg arc σ p1 (FileSharingError.Io e) n' c line command tx Hi1 Hl1 Hp1 Hline)
    as (p2 & p3 & Hr2 & Hr3 & Hc3); [unfold fresh_channel; by rewrite Hiss|].
  exists p1, p2, p3. split_and!; [done..|by exists n'|done].
Qed.

(** C15: A command can end the program: when the event loop fails to carry it out
    with an error, as it does when a user name is too long to register or when
    the file for a [get@] cannot be created, the error is not reported to the
    prompt: the prompt panics. *)
Theorem failed_command_ends_program p n c line command tx request c' e w'
    (Hreach : reachable cfg arc σ p) (Hrun : loop p = Running n)
    (Hreading : prompt p = Prompt.Reading c) (Hline : from_str line = Ok command)
    (Hfresh : fresh_channel tx n)
    (Hsend : Client.send_command command tx Waits c = (request, Waits, c'))
    (Hfails : EventLoop.handle_command request (world (Node.sys n)) = Return (Err e, w')) :
  exists p1 p2 p3,
    react (Stdin (Some (Ok line)) tx) p = Return p1 /\ react Take p1 = Return p2 /\
    react Resume p2 = Return p3 /\ (exists n', loop p2 = Ended e n') /\
    prompt p3 = Prompt.Crashed (str "called `Result::unwrap()` on an `Err` value").
Proof.
  exact (command_fails cfg arc σ p n c line command tx request c' e w'
    (proc_reachable_inv cfg arc σ p Hreach) Hrun Hreading Hline Hfresh Hsend Hfails).
Qed.

(** C14: A failed [get@] hangs the prompt: once the file request of the command
    the prompt waits for has ended without a response, then as long as the event
    loop runs the prompt waits, prints nothing and reads no further line. *)
Theorem failed_get_hangs_prompt p p' n n' c tx r k command
    (Hreach : reachable cfg arc σ p) (Hrun : loop p = Running n)
    (Hwait : prompt p = Prompt.Awaiting c tx)
    (Hget : EventLoop.pending_file_gets (EventLoop.loop (world (Node.sys n))) !! r = Some k)
    (Hcommand : EventLoop.pending_command_requests (EventLoop.loop (world (Node.sys n))) !! k = Some command)
    (Hends : forall st, ~ tracked (world_file_get (world (Node.sys n))) r st)
    (Hqueue : r ∉ responses (queued (world_file_get (world (Node.sys n)))))
    (Hlater : steps p p') (Hrun' : loop p' = Running n') :
  prompt p' = Prompt.Awaiting c tx /\ shown p' = shown p.
Proof.
  destruct (stuck_prompt cfg arc σ p p' n c tx r k command
    (proc_reachable_inv cfg arc σ p Hreach) Hrun Hwait Hget Hcommand Hends Hqueue Hlater)
    as [(e & n1 & He)|(Hp & Hs & _)]; [congruence|done].
Qed.
End ProcessProps.

(** * Witnesses *)
Section ProcessWitnesses.
#[local] Existing Instances numExt numLibp2p debug64 canonicalOrder numFileSystem numSetup.
#[local] Existing Instance numLibp2p_laws.
#[local] Existing Instances wire_fu wire_laws.
#[local] Instance num_lines : Lines := {| LinesError := Z |}.

Definition first_channel : CommandSender := (101 : @CommandSender numExt numLibp2p).

Abbreviation proc_reachable := (reachable me_config (mkArc 1) node_store).

Definition proc_start : t :=
  mk (Prompt.start (Ok Client.new)) [] None (Running node_start).

(** A script: a typed line, the event loop taking the command, lines of a script
    of the node, and the prompt waking up. *)
Inductive Move : Type :=
| Type_line (line : Str) (tx : CommandSender)
| TakeIt
| OnNode (l : NodeLine)
| Wake.

Definition move_label (m : Move) (p : t) : Label :=
  match m with
  | Type_line line tx => Stdin (Some (Ok line)) tx
  | TakeIt => Take
  | OnNode l => Loop (node_label l (node p))
  | Wake => Resume
  end.

Definition fresh_channel_b (tx : CommandSender) (n : Node.t) : bool :=
  bool_decide (tx ∉ senders (issued_of n)) && (Z.of_nat (length (issued_of n)) + 1 <? two64).

Lemma fresh_channel_b_sound tx n : fresh_channel_b tx n = true -> fresh_channel tx n.
Proof. unfold fresh_channel_b. by rewrite andb_true_iff, bool_decide_eq_true, Z.ltb_lt. Qed.

Definition move_enabled (m : Move) (p : t) : bool :=
  alive (prompt p) &&
  match m with
  | Type_line _ tx => fresh_channel_b tx (node p)
  | TakeIt => match channel p, loop p with Some _, Running _ => true | _, _ => false end
  | OnNode l =>
      match loop p with
      | Running n => negb (is_command (node_label l n)) && node_line_enabled l n
      | _ => false
      end
  | Wake => true
  end.

Lemma move_enabled_sound m p : move_enabled m p = true -> enabled (move_label m p) p.
Proof.
  unfold move_enabled. intros [Hal Hm]%andb_true_iff. split; [done|].
  destruct m as [line tx| |l|]; simpl.
  - by apply fresh_channel_b_sound.
  - destruct (channel p) as [r|], (loop p) as [n|e n]; try done. split; [by eexists|by exists n].
  - destruct (loop p) as [n|e n] eqn:E; [|done]. apply andb_true_iff in Hm as [Hc%negb_true_iff Hl].
    unfold node. rewrite E. exists n. split_and!; [done..|]. by apply node_line_enabled_sound.
  - done.
Qed.

Fixpoint play_moves (script : list Move) (p : t) : option t :=
  match script with
  | [] => Some p
  | m :: script =>
      if move_enabled m p then
        match react (move_label m p) p with Return p' => play_moves script p' | Panic _ => None end
      else None
  end.

Lemma proc_steps_trans p1 p2 p3 : steps p1 p2 -> steps p2 p3 -> steps p1 p3.
Proof.
  intros H12 H23. revert H12. induction H23 as [p|q1 q2 q3 x _ IH Hen Hr]; [done|].
  intros H12. exact (steps_next _ _ _ x (IH H12) Hen Hr).
Qed.

Lemma play_moves_sound script p p' : play_moves script p = Some p' -> steps p p'.
Proof.
  revert p. induction script as [|m script IH]; intros p; simpl; [intros [= ->]; constructor|].
  destruct (move_enabled m p) eqn:He; [|done].
  destruct (react (move_label m p) p) as [p1|] eqn:Hr; [|done]. intros Hp.
  eapply proc_steps_trans; [|by apply IH].
  eapply steps_next; [constructor|by apply move_enabled_sound|done].
Qed.

Lemma proc_start_initial : initial me_config (mkArc 1) node_store proc_start.
Proof.
  split_and!; try done. exists node_start. split; [done|]. split; try done. constructor.
Qed.

Definition ends (script : list Move) : t := default proc_start (play_moves script proc_start).
Definition runs (script : list Move) : bool :=
  match play_moves script proc_start with Some _ => true | None => false end.

Lemma ends_reachable script : runs script = true -> proc_reachable (ends script).
Proof.
  unfold runs, ends. destruct (play_moves script proc_start) as [p|] eqn:E; [|done]. intros _.
  exists proc_start. split; [exact proc_start_initial|]. by apply (play_moves_sound script).
Qed.

(** The node of a state whose event loop is running. *)
Lemma loop_node p : match loop p with Running _ => true | _ => false end = true ->
  loop p = Running (node p).
Proof. unfold node. by destruct (loop p). Qed.

(** A [get@] of the prompt, on its way to a peer that cannot be reached. *)
Definition asked : list Move :=
  [OnNode (Hear discovery); Type_line (str "get@bob->a.txt") first_channel; TakeIt;
   OnNode Turn].
Definition hopeless : list Move :=
  asked ++ [OnNode (OnNet (LinksProps.Do (Net.DialFailure (Some seven)))); OnNode Turn].

(** A peer asks for a file that is not there. *)
Definition intruder : list Move :=
  [OnNode (OnNet (LinksProps.Do (Net.Connect seven one (ConnectedPoint.Dialer (0 : Multiaddr)))));
   OnNode (OnNet (LinksProps.Do (Net.OpenInbound seven one
     ((20 : ReqSender), (21 : ReqReceiver)) ((30 : ResSender), (31 : ResReceiver)))));
   OnNode (OnNet (AskedPoll seven one (21 : ReqReceiver) (mkRequestId 1, mkFileGetMessage (str "no"))));
   OnNode (OnNet (LinksProps.Do (Net.Report seven one)))].

Lemma runs_asked : runs asked = true.
Proof. vm_compute. reflexivity. Qed.
Lemma runs_hopeless : runs hopeless = true.
Proof. vm_compute. reflexivity. Qed.
Lemma runs_intruder : runs intruder = true.
Proof. vm_compute. reflexivity. Qed.

Lemma one_command_at_a_time_witness :
  (length (waiting (world (Node.sys (node (ends asked))))) <= 1)%nat.
Proof.
  refine (proj1 (one_command_at_a_time me_config (mkArc 1) node_store (ends asked) (node (ends asked))
    (ends_reachable asked runs_asked) _)).
  apply loop_node. vm_compute. reflexivity.
Defined.

Lemma program_panics_only_without_loop_witness : exists p', react Resume (ends asked) = Return p'.
Proof.
  destruct (proj1 (program_panics_only_without_loop me_config (mkArc 1) node_store (ends asked)
    (ends_reachable asked runs_asked)) Resume) as (p' & Hr & _).
  - split; [vm_compute; reflexivity|exact I].
  - exists p'. exact Hr.
Defined.

Lemma missing_file_ends_program_witness : exists p1 p2 p3,
  react (Loop Node.FileGetPoll) (ends intruder) = Return p1 /\
  react (Stdin (Some (Ok (str "ls_peers"))) first_channel) p1 = Return p2 /\
  react Resume p2 = Return p3 /\
  prompt p3 = Prompt.Crashed (str "called `Result::unwrap()` on an `Err` value").
Proof.
  destruct (missing_file_ends_program me_config (mkArc 1) node_store (ends intruder)
    (node (ends intruder)) Client.new
    (FileGet.poll (world_file_get (world (Node.sys (node (ends intruder)))))).2 seven (mkRequestId 1) (mkFileGetMessage (str "no"))
    (30 : @ResSender numExt) (-4 : @IoError numExt) (str "ls_peers") Command.ListPeers first_channel
    (ends_reachable intruder runs_intruder)) as (p1 & p2 & p3 & Hr1 & Hr2 & Hr3 & _ & Hc).
  - apply loop_node. vm_compute. reflexivity.
  - vm_compute. reflexivity.
  - vm_compute. reflexivity.
  - vm_compute. reflexivity.
  - vm_compute. reflexivity.
  - apply fresh_channel_b_sound. vm_compute. reflexivity.
  - exists p1, p2, p3. split_and!; assumption.
Defined.

(** A user name that is longer than a namespace. *)
Definition long_name : Str := replicate 300 97%N.
Definition long_line : Str := str "register " ++ long_name.

Lemma failed_command_ends_program_witness : exists p1 p2 p3,
  react (Stdin (Some (Ok long_line)) first_channel) proc_start = Return p1 /\
  react Take p1 = Return p2 /\ react Resume p2 = Return p3 /\
  prompt p3 = Prompt.Crashed (str "called `Result::unwrap()` on an `Err` value").
Proof.
  destruct (failed_command_ends_program me_config (mkArc 1) node_store proc_start node_start Client.new
    long_line (Command.new_register long_name) first_channel
    (CommandRequest.mk 0 (Command.new_register long_name) first_channel)
    (Client.mk (CommandRequestIdGenerator.mk 1)) FileSharingError.NamespaceTooLong
    (world (Node.sys node_start)) (ends_reachable [] eq_refl))
    as (p1 & p2 & p3 & Hr1 & Hr2 & Hr3 & _ & Hc); [reflexivity|reflexivity| | | | |].
  - vm_compute. reflexivity.
  - apply fresh_channel_b_sound. vm_compute. reflexivity.
  - reflexivity.
  - vm_compute. reflexivity.
  - exists p1, p2, p3. split_and!; assumption.
Defined.

Lemma hopeless_untracked st :
  ~ tracked (world_file_get (world (Node.sys (node (ends hopeless))))) (mkRequestId 1) st.
Proof.
  assert (FileGet.pending_outbound_requests (world_file_get (world (Node.sys (node (ends hopeless))))) = ∅)
    as Hp by (vm_compute; reflexivity).
  assert (FileGet.connected (world_file_get (world (Node.sys (node (ends hopeless))))) = ∅) as Hc
    by (vm_compute; reflexivity).
  destruct st as [q|q c]; simpl.
  - unfold waits. rewrite Hp, lookup_empty. naive_solver.
  - unfold inflight, FileGet.find_connection. rewrite Hc, lookup_empty. naive_solver.
Qed.

Lemma failed_get_hangs_prompt_witness :
  prompt (ends hopeless) = Prompt.Awaiting (Client.mk (CommandRequestIdGenerator.mk 1)) first_channel.
Proof.
  refine (proj1 (failed_get_hangs_prompt me_config (mkArc 1) node_store (ends hopeless) (ends hopeless)
    (node (ends hopeless)) (node (ends hopeless)) _ _ (mkRequestId 1) 0
    (CommandRequest.mk 0 (Command.new_get_file (str "bob") (str "a.txt")) first_channel)
    (ends_reachable hopeless runs_hopeless) _ _ _ _ hopeless_untracked _ (steps_refl _) _)).
  - apply loop_node. vm_compute. reflexivity.
  - vm_compute. reflexivity.
  - vm_compute. reflexivity.
  - vm_compute. reflexivity.
  - assert (responses (queued (world_file_get (world (Node.sys (node (ends hopeless)))))) = []) as ->
      by (vm_compute; reflexivity). apply not_elem_of_nil.
  - apply loop_node. vm_compute. reflexivity.
Defined.
End ProcessWitnesses.
