(* ===== verification/Session.v ===== *)
(** * What a user sees

    The abstract specification of the program as a dialogue: every line typed is
    followed by one reply that fits it.  A session is a run of the program of
    [Process.v] with the lines the prompt has read; its invariant says how far
    the dialogue has come. *)
From S2P Require Import Prelude Externals FileGetTypes Streams Protocol Handler HandlerProps Behaviour Ledger BehaviourLemmas BehaviourTracking BehaviourRefinement Links LinksViews LinksInvariant LinksSteps Error Command NetworkTypes Debug EventLoop Network System SystemInvariant SystemSteps Node Prompt Process ProcessInvariant.
Import Process.

(** ** The specification *)
Module Dialogue.
Section Dialogue.
Context `{Libp2p, !Lines}.

(** How many of the lines are commands. *)
Definition is_command_line (line : Str) : bool :=
  match from_str line with Ok _ => true | Err _ => false end.
Definition commands_in (lines : list Str) : nat := length (filter (fun l => is_command_line l = true) lines).

(** What is printed for a response. *)
Definition printed (r : result CommandResponse.t FileSharingError.t) : Prompt.Shown :=
  Prompt.Printed (match r with Ok response => Client.Stdout response | Err e => Client.Stderr e end).

(** The reply to a line after [k] commands: the parser's complaint, or an answer
    to the command, which has the identifier [k]. *)
Definition replies (k : nat) (line : Str) (x : Prompt.Shown) : Prop :=
  match from_str line with
  | Err e => x = Prompt.Complaint e
  | Ok command => exists request r,
      CommandRequest.command request = command /\
      CommandRequest.command_request_id request = Z.of_nat k /\
      answers request r /\ x = printed r
  end.

(** The lines typed and the replies shown. *)
Inductive dialogue : list Str -> list Prompt.Shown -> Prop :=
| dialogue_nil : dialogue [] []
| dialogue_snoc lines shown line x :
    dialogue lines shown -> replies (commands_in lines) line x ->
    dialogue (lines ++ [line]) (shown ++ [x]).

Lemma commands_in_snoc lines line :
  commands_in (lines ++ [line]) = (commands_in lines + if is_command_line line then 1 else 0)%nat.
Proof.
  unfold commands_in. rewrite filter_app, length_app. f_equal. rewrite filter_cons.
  destruct (is_command_line line); by case_decide.
Qed.

Lemma commands_in_command lines line command :
  from_str line = Ok command -> commands_in (lines ++ [line]) = S (commands_in lines).
Proof. intros Hl. rewrite commands_in_snoc. unfold is_command_line. rewrite Hl. lia. Qed.

Lemma commands_in_other lines line e :
  from_str line = Err e -> commands_in (lines ++ [line]) = commands_in lines.
Proof. intros Hl. rewrite commands_in_snoc. unfold is_command_line. rewrite Hl. lia. Qed.
End Dialogue.
End Dialogue.
Import Dialogue.

Section Session.
Context `{Libp2p, Platform, HashOrder, !FileSystem, !Lines}.
Context `{!FuturesUnordered InboundFut InboundOut ChanEnv}.
Context `{!FuturesUnorderedLaws InboundFut InboundOut ChanEnv Handler.map_ok_inbound}.
Context (cfg : FileGetConfig) (arc : Arc) (σ : Store).

(** ** Sessions *)

(** The line the prompt reads. *)
Definition line_read (x : Label) (p : t) : list Str :=
  match x, prompt p with
  | Stdin (Some (Ok line)) _, Prompt.Reading _ => [line]
  | _, _ => []
  end.

(** A run from a start, with the lines read. *)
Inductive session : list Str -> t -> Prop :=
| session_initial p : initial cfg arc σ p -> session [] p
| session_next lines p x p' :
    session lines p -> enabled x p -> react x p = Return p' -> session (lines ++ line_read x p) p'.

Lemma session_reachable lines p : session lines p -> reachable cfg arc σ p.
Proof.
  induction 1 as [p Hi|lines p x p' _ (p0 & Hi & Hs) He Hr].
  - exists p. split; [done|constructor].
  - exists p0. split; [done|]. by eapply steps_next.
Qed.

Lemma reachable_session p : reachable cfg arc σ p -> exists lines, session lines p.
Proof.
  intros (p0 & Hi & Hs). revert Hi. induction Hs as [p|p1 p2 p3 x _ IH He Hr]; intros Hi.
  - exists []. by constructor.
  - destruct (IH Hi) as [lines Hl]. eexists. by eapply session_next.
Qed.

(** ** The commands a node was given and its answers *)
Record issue_ok (n : Node.t) : Prop := {
  issue_senders : NoDup (senders (issued_of n));
  issue_ids i c : issued_of n !! i = Some c -> CommandRequest.command_request_id c = Z.of_nat i;
  issue_answers tx r : EventLoop.Respond tx r ∈ log_of n ->
    exists c, c ∈ issued_of n /\ CommandRequest.response_sender c = tx /\ answers c r;
}.

Lemma node_issue_ok n : node_inv cfg arc σ n -> issue_ok n.
Proof.
  intros Hn. destruct (reachable_inv _ (node_sys _ _ _ _ Hn)) as [_ (L & D & _ & Hi)]. split; apply Hi.
Qed.

(** The request the client makes. *)
Lemma node_request n command tx :
  node_inv cfg arc σ n -> fresh_channel tx n ->
  let request := (Client.send_command command tx Waits (client (Node.sys n))).1.1 in
  CommandRequest.command request = command /\ CommandRequest.response_sender request = tx /\
  CommandRequest.command_request_id request = Z.of_nat (length (issued_of n)).
Proof.
  intros Hn [_ Hlt]. destruct (reachable_inv _ (node_sys _ _ _ _ Hn)) as [Hc _].
  unfold Client.send_command, CommandRequestIdGenerator.next_id. cbn. split_and!; [done..|].
  rewrite Hc. apply wrap64_small. unfold issued_of in *. lia.
Qed.

(** A reaction that fails gives no answers. *)
Lemma failed_issue_ok x n e n' :
  node_inv cfg arc σ n -> Node.enabled x n -> Node.react x n = Return (Err e, n') -> issue_ok n'.
Proof.
  intros Hn Hen Hr. pose proof (node_issue_ok n Hn) as [Hs Hi Ha].
  destruct (node_react_log x n _ n' Hr) as (extra & Hlog & ->). rewrite app_nil_r in Hlog.
  pose proof (node_react_issued x n _ n' Hr) as Hiss.
  destruct x as [command tx| | | |]; try (destruct Hiss as [Hiss _]; split; rewrite ?Hiss, ?Hlog; done).
  destruct (node_request n command tx Hn Hen) as (_ & Htx & Hid).
  destruct (Client.send_command _ _ _ _) as [[request a] c']. destruct Hiss as [Hiss _]. simpl in Htx, Hid.
  split; rewrite ?Hiss, ?Hlog.
  - apply senders_snoc; [done|]. split; [done|]. rewrite Htx. by destruct Hen.
  - intros i c. apply issued_snoc; [done|]. split; [done|]. rewrite Htx. by destruct Hen.
  - intros tx' r Hin. destruct (Ha tx' r Hin) as (c & Hc & ?). exists c. split; [|done].
    by apply elem_of_app; left.
Qed.

Lemma react_issue_ok x n r n' :
  node_inv cfg arc σ n -> Node.enabled x n -> Node.react x n = Return (r, n') -> issue_ok n'.
Proof.
  intros Hn Hen Hr. destruct r as [[]|e]; [|by eapply failed_issue_ok].
  apply node_issue_ok. by apply (node_step cfg arc σ n x n').
Qed.

(** ** How far the dialogue has come *)

(** The command the prompt awaits, the [k]-th: in the channel, or given to the
    node last, or lost with the event loop. *)
Definition awaited (k : nat) (command : Command.t) (tx : CommandSender) (p : t) : Prop :=
  match channel p with
  | Some request =>
      CommandRequest.command request = command /\ length (issued_of (node p)) = k
  | None =>
      (exists l request, issued_of (node p) = l ++ [request] /\ length l = k /\
         CommandRequest.command request = command /\ CommandRequest.response_sender request = tx) \/
      ((tx ∉ senders (issued_of (node p))) /\ exists e n, loop p = Ended e n)
  end.

Definition dialogue_ok (lines : list Str) (p : t) : Prop :=
  match prompt p with
  | Prompt.Reading _ => dialogue lines (shown p) /\
      forall n, loop p = Running n -> length (issued_of n) = commands_in lines
  | Prompt.Finished _ => dialogue lines (shown p)
  | Prompt.Awaiting _ tx => exists earlier line command,
      lines = earlier ++ [line] /\ from_str line = Ok command /\ dialogue earlier (shown p) /\
      awaited (commands_in earlier) command tx p
  | Prompt.Crashed _ => exists earlier line command,
      lines = earlier ++ [line] /\ from_str line = Ok command /\ dialogue earlier (shown p)
  end.

Record told (lines : list Str) (p : t) : Prop := {
  told_proc : proc_inv cfg arc σ p;
  told_issue : issue_ok (node p);
  told_dialogue : dialogue_ok lines p;
}.

Lemma initial_told p : initial cfg arc σ p -> told [] p.
Proof.
  intros Hi. pose proof (initial_proc_inv cfg arc σ p Hi) as Hp. destruct Hi as (Hpr & Hs & Hc & n & Hl & Hn).
  split; [done| |].
  - unfold node. rewrite Hl. apply node_issue_ok. by apply (proc_node _ _ _ _ Hp).
  - unfold dialogue_ok. rewrite Hpr, Hs. simpl. split; [constructor|]. rewrite Hl. intros n' [= <-].
    unfold issued_of. by rewrite (Node.initial_issued _ _ _ _ Hn).
Qed.

(** A line. *)
Lemma told_stdin lines p item tx p' :
  told lines p -> enabled (Stdin item tx) p -> react (Stdin item tx) p = Return p' ->
  issue_ok (node p') /\ dialogue_ok (lines ++ line_read (Stdin item tx) p) p'.
Proof.
  intros [Hp Hi Hd] [Hal [Hf Hlt]]. unfold react, dialogue_ok, line_read in *.
  destruct (prompt p) as [c|c tx'| |] eqn:Epr; try done; simpl.
  - destruct Hd as [Hd Hn]. destruct item as [[line|e]|]; simpl.
    + unfold Client.handle_input. destruct (from_str line) as [command|e] eqn:El.
      * destruct (Client.send_command _ _ _ _) as [[request a] c'] eqn:Es. intros [= <-].
        split; [done|]. simpl. exists lines, line, command. rewrite app_nil_r. split_and!; [done..|].
        assert (CommandRequest.command request = command) as Hcommand.
        { unfold Client.send_command in Es. destruct (CommandRequestIdGenerator.next_id _). by injection Es as <- _ _. }
        unfold awaited, node in *. simpl. destruct (loop p) as [n|e n] eqn:El'; simpl; [by split; [|apply Hn]|].
        right. split; [done|]. by eexists _, _.
      * intros [= <-]. split; [done|]. simpl. split.
        -- apply dialogue_snoc; [done|]. unfold replies. by rewrite El.
        -- intros n Hl. by rewrite (commands_in_other _ _ e), Hn.
    + intros [= <-]. split; [done|]. simpl. by rewrite !app_nil_r.
    + intros [= <-]. split; [done|]. simpl. by rewrite !app_nil_r.
  - assert (line_read (Stdin item tx) p = []) as Hread by (unfold line_read; rewrite Epr; by destruct item as [[|]|]).
    unfold line_read in Hread. rewrite Epr in Hread. rewrite Hread. intros [= <-]. split; [done|]. simpl. by rewrite !app_nil_r.
Qed.

(** The event loop takes the command. *)
Lemma told_take lines p p' :
  told lines p -> enabled Take p -> react Take p = Return p' ->
  issue_ok (node p') /\ dialogue_ok lines p'.
Proof.
  intros [Hp Hi Hd] (Hal & [request Hch] & n & Hl). unfold react. rewrite Hch, Hl.
  pose proof Hp as [Hn _ _ Hpr]. specialize (Hn n Hl). unfold prompt_ok in Hpr. unfold dialogue_ok in *.
  destruct (prompt p) as [c|c tx| |] eqn:Epr; try done; [destruct Hpr; congruence|].
  specialize (Hpr n Hl). rewrite Hch in Hpr. destruct Hpr as (Htx & Hfresh & _ & Hsend).
  assert (Node.enabled (Node.UserCommand (CommandRequest.command request) (CommandRequest.response_sender request)) n)
    as Hen by (rewrite Htx; exact Hfresh).
  destruct (Node.react _ n) as [[r n']|] eqn:Hr; [|done]. intros [= <-]. unfold node. simpl. rewrite node_of_settle.
  split; [by eapply react_issue_ok|].
  destruct Hd as (earlier & line & command & -> & Hline & Hd & Haw). exists earlier, line, command.
  split_and!; [done..|]. unfold awaited in *. rewrite Hch in Haw. destruct Haw as [Hcommand Hlen].
  unfold node in *. rewrite Hl in Hlen. simpl. rewrite node_of_settle. left.
  pose proof (node_react_issued _ n r n' Hr) as Hiss. rewrite Htx, Hsend in Hiss.
  exists (issued_of n), request. by destruct Hiss.
Qed.

(** Something else happens in the event loop. *)
Lemma told_loop lines p x p' :
  told lines p -> enabled (Loop x) p -> react (Loop x) p = Return p' ->
  issue_ok (node p') /\ dialogue_ok lines p'.
Proof.
  intros [Hp Hi Hd] (Hal & n & Hl & Hx & Hen). unfold react. rewrite Hl.
  pose proof Hp as [Hn _ _ Hpr]. specialize (Hn n Hl). unfold prompt_ok in Hpr.
  destruct (Node.react x n) as [[r n']|] eqn:Hr; [|done]. intros [= <-]. unfold node. simpl. rewrite node_of_settle.
  split; [by eapply react_issue_ok|].
  assert (issued_of n' = issued_of n) as Hiss
    by (pose proof (node_react_issued x n r n' Hr) as Hiss; destruct x; [done|apply Hiss..]).
  unfold dialogue_ok in *. simpl. destruct (prompt p) as [c|c tx| |] eqn:Epr; try done.
  - destruct Hd as [Hd Hlen]. split; [done|]. specialize (Hlen n Hl). intros n1 Hn1.
    destruct r; [|done]. injection Hn1 as <-. by rewrite Hiss.
  - destruct Hd as (earlier & line & command & -> & Hline & Hd & Haw). exists earlier, line, command.
    split_and!; [done..|]. unfold awaited, node in *. simpl. rewrite node_of_settle, Hiss. rewrite Hl in Haw.
    specialize (Hpr n Hl). destruct r as [u|e]; simpl.
    + destruct (channel p); [done|]. destruct Haw as [?|(_ & e & n1 & ?)]; [by left|done].
    + destruct (channel p) as [request|].
      * right. destruct Hpr as (_ & [Hf _] & _). split; [done|]. by eexists _, _.
      * destruct Haw as [?|(_ & e' & n1 & ?)]; [by left|done].
Qed.

(** The prompt wakes up. *)
Lemma delivered_respond tx l r : delivered tx l = Some r -> EventLoop.Respond tx r ∈ l.
Proof.
  induction l as [|[tx' r'|tx' rd] l IH]; simpl; [done| |by right; apply IH].
  case_bool_decide; [intros [= ->]; subst; left|]. intros Hd. right. by apply IH.
Qed.

(** The response that reaches it is an answer to the command it awaits. *)
Lemma awaited_answer k command tx p r :
  proc_inv cfg arc σ p -> issue_ok (node p) -> (exists c, prompt p = Prompt.Awaiting c tx) ->
  awaited k command tx p -> delivered tx (log_of (node p)) = Some r ->
  channel p = None /\ length (issued_of (node p)) = S k /\
  exists request, CommandRequest.command request = command /\
    CommandRequest.command_request_id request = Z.of_nat k /\ answers request r.
Proof.
  intros Hp [Hnd Hids Hans] [c Hpr] Haw Hd%delivered_respond.
  destruct (Hans tx r Hd) as (request & Hin & Htx & Hr). unfold awaited in Haw.
  assert (tx ∈ senders (issued_of (node p))) as Hissued by (rewrite <-Htx; by apply list_elem_of_fmap_2).
  destruct (channel p) as [request'|] eqn:Hch.
  - pose proof Hp as [_ _ He Hok]. unfold prompt_ok in Hok. rewrite Hpr, Hch in Hok.
    unfold node in *. destruct (loop p) as [n|e n] eqn:El; [|specialize (He e n eq_refl); congruence].
    destruct (Hok n eq_refl) as (_ & [Hf _] & _). done.
  - destruct Haw as [(l & request' & Hl & Hlen & Hcommand & Htx')|[Hf _]]; [|done].
    split; [done|]. rewrite Hl in *. rewrite length_app. split; [simpl; lia|].
    assert (request = request') as ->.
    { apply elem_of_app in Hin as [Hin|Hin]; [|by apply list_elem_of_singleton in Hin].
      rewrite senders_app in Hnd. apply NoDup_app in Hnd as (_ & Hnd & _).
      destruct (Hnd tx); [rewrite <-Htx; by apply list_elem_of_fmap_2|]. rewrite <-Htx'. left. }
    exists request'. split_and!; [done| |done]. apply Hids.
    rewrite lookup_app_r by lia. by rewrite Hlen, Nat.sub_diag.
Qed.

Lemma told_resume lines p p' :
  told lines p -> enabled Resume p -> react Resume p = Return p' ->
  issue_ok (node p') /\ dialogue_ok lines p'.
Proof.
  intros [Hp Hi Hd] [Hal _]. unfold react, dialogue_ok in *.
  destruct (prompt p) as [c|c tx| |] eqn:Epr; try done; [intros [= <-]; by rewrite Epr|].
  destruct Hd as (earlier & line & command & -> & Hline & Hd & Haw). unfold response.
  destruct (delivered tx (log_of (node_of (loop p)))) as [r|] eqn:Er.
  - destruct (awaited_answer _ command tx p r Hp Hi (ex_intro _ c Epr) Haw Er)
      as (Hch & Hlen & request & Hcommand & Hid & Hans).
    assert (Prompt.on_response (Done (Ok r)) (Prompt.Awaiting c tx) = (Prompt.Reading c, [printed r]))
      as -> by (by destruct r).
    intros [= <-]. split; [done|]. simpl. split.
    + apply dialogue_snoc; [done|]. unfold replies. rewrite Hline. by exists request, r.
    + intros n Hl. rewrite (commands_in_command _ _ _ Hline), <-Hlen. unfold node. by rewrite Hl.
  - unfold awaited, node in *. destruct (loop p) as [n|e n] eqn:El; intros [= <-]; (split; [done|]);
      simpl; exists earlier, line, command; rewrite app_nil_r; by split_and!.
Qed.

Lemma react_told lines p x p' :
  told lines p -> enabled x p -> react x p = Return p' -> told (lines ++ line_read x p) p'.
Proof.
  intros Ht Hen Hr. assert (proc_inv cfg arc σ p') as Hp'.
  { destruct (react_proc_ok cfg arc σ p x (told_proc _ _ Ht) Hen) as (p1 & Hr1 & Hp1). congruence. }
  assert (issue_ok (node p') /\ dialogue_ok (lines ++ line_read x p) p') as [Hi Hd]; [|by split].
  destruct x as [item tx| |x|]; [by apply told_stdin| | |]; simpl; rewrite app_nil_r;
    eauto using told_take, told_loop, told_resume.
Qed.

Lemma session_told lines p : session lines p -> told lines p.
Proof. induction 1; [by apply initial_told|by eapply react_told]. Qed.
End Session.
