(* ===== verification/SessionProps.v ===== *)
(** * Properties of a session

    The program refines the dialogue of [Session.v]. *)
From S2P Require Import Prelude Externals Instances FileGetTypes Streams Protocol Handler HandlerProps Behaviour Ledger BehaviourLemmas BehaviourTracking BehaviourRefinement Links LinksViews LinksInvariant LinksSteps LinksProps Error Command NetworkTypes Debug EventLoop Network NetworkInstances System SystemInvariant SystemSteps SystemProps Node NodeProps Prompt Process ProcessInvariant ProcessProps Session.
Import Process Dialogue.

Section SessionProps.
Context `{Libp2p, Platform, HashOrder, !FileSystem, !Lines}.
Context `{!FuturesUnordered InboundFut InboundOut ChanEnv}.
Context `{!FuturesUnorderedLaws InboundFut InboundOut ChanEnv Handler.map_ok_inbound}.
Context (cfg : FileGetConfig) (arc : Arc) (σ : Store).

(** C2: The program is a dialogue: at every state of a session, the replies
    shown are those the specification gives to the lines read, in their order:
    a complaint for a line that is no command, and otherwise one answer that
    fits the command and carries its number.  While the prompt reads and when it
    is finished no line is without its reply; while it waits, and if it
    panicked, the last line alone is, and that line is a command.  The reachable
    states of the program are those of its sessions. *)
Theorem program_is_a_dialogue lines p (Hsession : session cfg arc σ lines p) :
  reachable cfg arc σ p /\
  match prompt p with
  | Prompt.Reading _ | Prompt.Finished _ => dialogue lines (shown p)
  | Prompt.Awaiting _ _ | Prompt.Crashed _ => exists earlier line,
      lines = earlier ++ [line] /\ is_command_line line = true /\ dialogue earlier (shown p)
  end.
Proof.
  split; [by eapply session_reachable|].
  destruct (session_told cfg arc σ lines p Hsession) as [_ _ Hd]. unfold dialogue_ok in Hd.
  destruct (prompt p) as [c|c tx|r|msg]; [apply Hd| |done|].
  - destruct Hd as (earlier & line & command & -> & Hl & Hd & _). exists earlier, line.
    unfold is_command_line. by rewrite Hl.
  - destruct Hd as (earlier & line & command & -> & Hl & Hd). exists earlier, line.
    unfold is_command_line. by rewrite Hl.
Qed.
End SessionProps.

(** * Witness

    A word that is no command, then a file is asked for and arrives. *)
Section SessionWitnesses.
#[local] Existing Instances numExt numLibp2p debug64 canonicalOrder numFileSystem.
#[local] Existing Instances wire_fu wire_laws num_lines.

Abbreviation numSession := (session me_config (mkArc 1) node_store).

(** Playing a script, with the lines the prompt reads. *)
Fixpoint play_lines (script : list Move) (lines : list Str) (p : t) : option (list Str * t) :=
  match script with
  | [] => Some (lines, p)
  | m :: script =>
      if move_enabled m p then
        match react (move_label m p) p with
        | Return p' => play_lines script (lines ++ line_read (move_label m p) p) p'
        | Panic _ => None
        end
      else None
  end.

Lemma play_lines_sound script lines p lines' p' :
  numSession lines p -> play_lines script lines p = Some (lines', p') -> numSession lines' p'.
Proof.
  revert lines p. induction script as [|m script IH]; intros lines p Hs; simpl; [by intros [= <- <-]|].
  destruct (move_enabled m p) eqn:He; [|done].
  destruct (react (move_label m p) p) as [p1|] eqn:Hr; [|done].
  apply IH. eapply session_next; [done|by apply move_enabled_sound|done].
Qed.

Definition visit : list Move :=
  [OnNode (Hear discovery); Type_line (str "help") first_channel;
   Type_line (str "get@bob->a.txt") first_channel; TakeIt; OnNode Turn;
   OnNode (OnNet (LinksProps.Do (Net.Connect seven one (ConnectedPoint.Dialer (0 : Multiaddr)))));
   OnNode Turn; OnNode (OnNet (LinksProps.Do (Net.Deliver seven one)));
   OnNode (OnNet (QuietPoll seven one));
   OnNode (OnNet (LinksProps.Do (Net.OutboundDone seven one (mkRequestId 1) (Ok tt))));
   OnNode (OnNet (QuietPoll seven one)); OnNode (OnNet (LinksProps.Do (Net.Report seven one)));
   OnNode Turn; Wake].

Definition visited : list Str * t := default ([], proc_start) (play_lines visit [] proc_start).

Lemma visit_plays : match play_lines visit [] proc_start with Some _ => true | None => false end = true.
Proof. vm_compute. reflexivity. Qed.

Lemma visit_session : numSession visited.1 visited.2.
Proof.
  unfold visited. pose proof visit_plays as Hp.
  destruct (play_lines visit [] proc_start) as [[lines p]|] eqn:E; [|done].
  apply (play_lines_sound visit [] proc_start); [apply session_initial, proc_start_initial|done].
Qed.

Lemma program_is_a_dialogue_witness :
  dialogue [str "help"; str "get@bob->a.txt"] (shown visited.2) /\ length (shown visited.2) = 2%nat.
Proof.
  split; [|vm_compute; reflexivity].
  assert (visited.1 = [str "help"; str "get@bob->a.txt"]) as Hl by (vm_compute; reflexivity).
  assert (match prompt visited.2 with Prompt.Reading _ => true | _ => false end = true) as Hc
    by (vm_compute; reflexivity).
  rewrite <-Hl. destruct (program_is_a_dialogue me_config (mkArc 1) node_store visited.1 visited.2
    visit_session) as [_ Hd]. destruct (prompt visited.2); [exact Hd|discriminate Hc..].
Defined.
End SessionWitnesses.
